(* ===== verification/_CoqProject ===== *)
-Q . S2P
Prelude.v
Kernel.v
Buffer.v
Timestamp.v
TimerQueue.v
Channel.v
Poller.v
EventLoop.v
LoopChannels.v
TcpConnection.v
LoopReactor.v
LoopThreads.v
Thread.v
EventLoopThread.v
Text.v
InetAddress.v
Acceptor.v
EventLoopThreadPool.v
TcpServer.v
ConnLoops.v
ServerRun.v
ServerSteps.v
ServerLoops.v
ServerSafety.v
ServerStart.v
ServerStreams.v
Logger.v
