(* ===== verification/Prelude.v ===== *)
(** * Verification of mylib-muduo

    The repository is a TCP network library in the style of muduo: one event
    loop per thread over epoll, timers, buffered non-blocking connections, and a
    server that spreads its connections over a pool of loops.  This development
    models the library (src/include and src/src; file names below are relative to
    them) and proves what makes its parts correct, alone and together.

    ** How the code is read

    A member function becomes a function in the monad [M S A] of this file:
    state [S], result [A], or a [fault] (a failed assert, [exit(-1)] of
    [LOG_FATAL], [std::terminate], or one of the undefined behaviours).  Objects
    that are pointed to live in a heap, a [gmap] from addresses; [unique_ptr] and
    [shared_ptr] are addresses.  A component is a record of its members; a [Lens]
    embeds the state of a part in that of a whole, and [zoom] runs code of the
    part there, so that the theorems on the part hold in the whole.  Machine
    integers are [Z] with their wrap-around or overflow written out; [double] is
    the binary64 of the Standard Library.  Callbacks are names; the function that
    runs them is a variable of the section, over the whole program's state.

    ** The files and the code they model

    - Prelude.v: outcomes, the monad, lenses, integers, automation.
    - Kernel.v: the system calls, as a class with the documented behaviour of
      each as a law, and a kernel that answers from scripts and satisfies them.
    - Buffer.v: Buffer.h/.cc.  The vector and its two indexes, [readv] and
      [write] included.
    - Timestamp.v: Timestamp, MonotonicTimestamp.
    - TimerQueue.v: Timer, TimerId, TimerQueue.  The heap of timers, the map and
      the two sets, the timerfd.
    - Channel.v: Channel.h/.cc.  Event masks and the dispatch of what epoll reports.
    - Poller.v: Poller, EPollPoller, DefaultPoller.  The interface [Poller] with
      its laws [PollerLaws], which the epoll implementation discharges.
    - EventLoop.v: EventLoop.h/.cc.  Construction, the rounds of [loop()], the
      queue of functors and the wake-up; proved against [PollerLaws].
    - LoopChannels.v: the channels of a loop over their lifetime, and loops that
      share a kernel, by the interface [PollerRegistry] of Poller.v.
    - TcpConnection.v: TcpConnection.h/.cc, against the interface [Reactor].
    - LoopReactor.v: the event loop implements [Reactor]; a connection over epoll.
    - LoopThreads.v: [queueInLoop], [quit], [loop] and [doingPendingFunctors] of
      EventLoop.cc as interleaved steps of several threads, and the proof that the
      operations of EventLoop.v are these steps.
    - Thread.v: Thread, CurrentThread.
    - EventLoopThread.v: EventLoopThread, the owner and the new thread as a
      transition system over that of LoopThreads.v.
    - Text.v: the [printf] formats and [snprintf] the library uses.
    - InetAddress.v: InetAddress, Socket.
    - Acceptor.v: Acceptor, on the state of the base loop.
    - EventLoopThreadPool.v: EventLoopThreadPool.
    - TcpServer.v: TcpServer, against the interface [Loops] of its loops.
    - ConnLoops.v: the interface [ConnLoops], what the connections of a server use
      of its loops.
    - ServerRun.v: the server with its connections and their loops as one system,
      its steps, and its invariant; the loops with everything around them are the
      [Reactor] of each connection, so that the theorems of TcpConnection.v hold.
    - ServerSteps.v: every step keeps the invariant.
    - ServerLoops.v: the event loops implement [Loops] and [ConnLoops]; from
      [accept] to the loop of the connection.
    - ServerSafety.v: what holds in every run of the system, and where it ends.
    - ServerStart.v: from the constructor and [start()] to the state in which the
      runs begin.
    - ServerStreams.v: each connection in a run as a stream of bytes and a queue of
      sends, the specification [SendQueue].
    - Logger.v: Logger and its macros.

    Each definition carries the name of the function or member it models; a
    constructor is [make_X], a destructor [destroy_X].

    ** What is shown

    - The whole server.  Constructed and started over its loops ([started_is_idle],
      [start_once]), in every run of accepted connections, functors and events of
      the loops, calls of the application from any thread and destroyed objects:
      nothing faults ([run_never_faults]); each connection is told up once, then its
      messages, then down once ([told_up_messages_down]); each is a stream that
      takes the sends of its loop's thread at once and those of other threads in
      order, none lost or twice, whatever happens to the other connections
      ([server_streams], [sends_in_order]); pointers lead to live
      objects, whose channels are polled only while they are held
      ([pointers_are_live]); closed connections come to their end
      ([closed_is_destroyed], [closing_moves_on]).  All of this ends with the
      server: [destructor_leaves_raw_this].
    - A connection's bytes: what is sent and what still waits is what was accepted,
      in order ([stream_refines]), and it drains ([drain_finishes]); when callbacks
      run ([sendInLoop_posts], [handleRead_spec], [lifecycle_callbacks],
      [sendFileInLoop_step]); the buffer is a queue of bytes
      ([buffer_refines_queue], [append_space]).
    - Timers: the two indexes agree, due timers run once and in order
      ([handleRead_correct], [addTimer_files], [cancelTimer_exact],
      [resetTimerFd_setting]).
    - The loop: what is asked of the poller is what the kernel watches
      ([epoll_refines_registry], [events_reach_kernel], [poll_correct],
      [make_EventLoop_ok]); channels dispatch ([handleEvent_dispatches]); rounds
      and functors ([doingPendingFunctors_fifo], [loop_stops]).
    - Threads: no wake-up is lost, functors run in order and once, quitting stops
      the loop ([no_lost_wakeup], [functors_run_in_order], [posted_then_run],
      [quit_stops_loop], [operations_are_events]); a thread hands its loop over
      ([startLoop_hands_over], [thread_life]).
    - The server: names, map, objects and functors stay consistent in every run
      ([server_invariant], [newConnection_adds], [removeConnection_removes],
      [destroy_TcpServer_tells]); loops are handed out in turn
      ([getNextLoop_in_turn]); an accepted connection reaches its loop and wakes
      it ([acceptor_listens], [accept_reaches_loop]); addresses and their text
      ([address_roundtrip]).
    - Behaviours that are not meant: [shutdown_overtakes_send], [reset_told_twice],
      [quit_lost], [destructor_can_hang], [destructor_use_after_free], and
      [sendFile_past_end_spins], [sendFile_strands_output],
      [early_quit_breaks_startLoop], [thread_restart], [prefix_of_another].

    ** Bounds and fuel

    Only [loop()] needs fuel, a bound on its rounds: it runs for as long as
    nobody calls [quit()], and [loop_stops] speaks of the fuel that is enough.
    All other recursion is on lists.  [printf] of a number gets 20 digits, enough
    for 64 bits; the buffers of [snprintf] have the sizes of the code, and
    [toIpPort] and the names of connections are shown to fit.

    ** Assumptions

    The laws of [KernelLaws] (each with an instance, the scripted kernel); the
    machine is little-endian with 64-bit [size_t]; asserts are compiled in;
    logging leaves [errno] and the state alone; atomic variables and the code
    under a mutex interleave as whole steps.  The order of an [unordered_map] is
    that of the model's map, and no theorem depends on it.

    ** Not modelled

    Memory exhaustion; the order of destruction of the members of a class after
    its destructor's body (the sockets of connections are closed when the last
    [shared_ptr] goes); the destructors of EPollPoller and TimerQueue; data races
    on the connection's plain members; EventLoop construction in several threads at
    once.  Callbacks.h and noncopyable.h have no behaviour, and test/ only calls
    the library.  The runs of ServerSafety.v leave out [sendFile] (which can strand
    the output buffer: [sendFile_strands_output]) and reports of an error together
    with data or a hang-up (which close a connection twice: [reset_told_twice]); an
    object goes at any time after the server's last pointer to it went, which
    covers every number of [shared_ptr]s the application may hold. *)

From Stdlib Require Export ZArith Lia.
From Stdlib Require Import Init.Byte.
From stdpp Require Export base tactics option list gmap strings.
From stdpp Require Export relations.

#[export] Set Default Goal Selector "!".
#[global] Open Scope Z_scope.

(** ** Record update

    [r <| f := v |>] is the record [r] with field [f] set to [v]; each record
    of the development declares one [Setter] instance per field it changes. *)

Class Setter {R T : Type} (proj : R → T) : Type := set_field : (T → T) → R → R.
Arguments set_field {R T} proj {_} _ _ / : assert.

Declare Scope muduo_scope.
Delimit Scope muduo_scope with muduo.
#[global] Open Scope muduo_scope.

Notation "r <| p := v |>" := (set_field p (λ _, v) r)
  (at level 1, left associativity, p at level 8, v at level 200,
   format "r  <| p  :=  v |>") : muduo_scope.
Notation "r <| p ::= f |>" := (set_field p f r)
  (at level 1, left associativity, p at level 8, f at level 200,
   format "r  <| p  ::=  f |>") : muduo_scope.

(** ** Outcomes

    The way a C++ call can fail to return: an [assert] that does not hold, the
    [exit(-1)] of [LOG_FATAL], [std::terminate], a thrown exception, or one of
    the undefined behaviours the development keeps apart. *)

Inductive fault : Type :=
| AssertFailed          (* assert(...) *)
| FatalExit             (* LOG_FATAL: exit(-1) *)
| Terminated            (* std::terminate *)
| LengthError           (* std::length_error out of std::vector *)
| OutOfBounds           (* access outside an object *)
| OverlappingCopy       (* std::copy into its own source range *)
| DanglingPointer       (* access to an object that does not exist (any more) *)
| NullPointer           (* access through nullptr *)
| BadConversion         (* double out of the range of int64_t *)
| SignedOverflow        (* int or int64_t arithmetic out of range *)
| DivisionByZero.       (* the remainder by 0 *)

#[export] Instance fault_eq_dec : EqDecision fault.
Proof. solve_decision. Defined.

Inductive outcome (A : Type) : Type :=
| Ok (a : A)
| Fault (f : fault).
Arguments Ok {A} a.
Arguments Fault {A} f.

#[export] Instance outcome_ret : MRet outcome := λ A a, Ok a.
#[export] Instance outcome_bind : MBind outcome := λ A B k m,
  match m with Ok a => k a | Fault f => Fault f end.
#[export] Instance outcome_fmap : FMap outcome := λ A B g m,
  match m with Ok a => Ok (g a) | Fault f => Fault f end.

(** [assert_ b] is the C assertion [assert(b)] (the tests build without
    [NDEBUG]); [check b f] is a guard whose failure is the fault [f]. *)
Definition check (b : bool) (f : fault) : outcome unit := if b then Ok tt else Fault f.

(** ** State and failure

    [M S A]: a piece of code that reads and writes an [S] and returns an [A],
    unless it faults. *)

Definition M (S A : Type) : Type := S → outcome (A * S).

#[export] Instance M_ret {S} : MRet (M S) := λ A a s, Ok (a, s).
#[export] Instance M_bind {S} : MBind (M S) := λ A B k m s,
  match m s with Ok (a, s') => k a s' | Fault f => Fault f end.

Definition get {S} : M S S := λ s, Ok (s, s).
Definition put {S} (s : S) : M S unit := λ _, Ok (tt, s).
Definition modify {S} (f : S → S) : M S unit := λ s, Ok (tt, f s).
Definition gets {S A} (f : S → A) : M S A := λ s, Ok (f s, s).
Definition throw {S A} (f : fault) : M S A := λ _, Fault f.
Definition lift {S A} (o : outcome A) : M S A := λ s, a ← o; Ok (a, s).
Definition assert_ {S} (b : bool) : M S unit := lift (check b AssertFailed).
Definition when {S} (b : bool) (m : M S unit) : M S unit := if b then m else mret tt.
Definition from_option_or {S A} (f : fault) (o : option A) : M S A :=
  match o with Some a => mret a | None => throw f end.

(** Run [m] for each element of a list, in order. *)
Fixpoint for_each {S A} (m : A → M S unit) (l : list A) : M S unit :=
  match l with
  | [] => mret tt
  | x :: l => m x ;; for_each m l
  end.

(** ** Components of a state

    [Lens W X]: a state of type [W] holds a component of type [X]; [zoom] runs
    code of the component in the whole state.  A component's theorems are
    proved on [X] alone and used wherever it is embedded. *)

Class Lens (W X : Type) : Type := {
  view : W → X;
  replace_view : X → W → W
}.
Class LensLaws (W X : Type) `{!Lens W X} : Prop := {
  view_replace (x : X) (w : W) : view (replace_view x w) = x;
  replace_replace (x y : X) (w : W) : replace_view x (replace_view y w) = replace_view x w;
  replace_same (w : W) : replace_view (view w) w = w
}.

Definition zoom {W X A} `{!Lens W X} (m : M X A) : M W A := λ w,
  match m (view w) with
  | Ok (a, x) => Ok (a, replace_view x w)
  | Fault f => Fault f
  end.

(** ** Machine integers *)

Definition size_max : Z := 2 ^ 64.
(** [size_t] arithmetic: the result modulo 2^64. *)
Definition wrap_size (z : Z) : Z := z mod size_max.
(** The largest size a [std::vector<char>] can have. *)
Definition vector_max_size : Z := 2 ^ 63 - 1.

Definition int64_min : Z := - 2 ^ 63.
Definition int64_max : Z := 2 ^ 63 - 1.
Definition in_int64 (z : Z) : bool := (int64_min <=? z) && (z <=? int64_max).
(** [std::atomic_int64_t] arithmetic: two's complement, no overflow. *)
Definition wrap_int64 (z : Z) : Z := (z + 2 ^ 63) mod 2 ^ 64 - 2 ^ 63.
Definition int32_max : Z := 2 ^ 31 - 1.
Definition int32_min : Z := - 2 ^ 31.
Definition in_int32 (z : Z) : bool := (int32_min <=? z) && (z <=? int32_max).

(** The size of a container, as a [size_t]. *)
Definition zlen {A} (l : list A) : Z := Z.of_nat (length l).

(** ** Lemmas on the monads *)

Lemma M_bind_ok {S A B} (m : M S A) (k : A → M S B) s a s' :
  m s = Ok (a, s') → (m ≫= k) s = k a s'.
Proof. unfold mbind, M_bind. by intros ->. Qed.

Lemma M_bind_fault {S A B} (m : M S A) (k : A → M S B) s f :
  m s = Fault f → (m ≫= k) s = Fault f.
Proof. unfold mbind, M_bind. by intros ->. Qed.

Lemma M_bind_inv {S A B} (m : M S A) (k : A → M S B) s b s'' :
  (m ≫= k) s = Ok (b, s'') → ∃ a s', m s = Ok (a, s') ∧ k a s' = Ok (b, s'').
Proof. unfold mbind, M_bind. destruct (m s) as [[a s']|]; naive_solver. Qed.

Lemma M_bind_assoc {S A B C} (m : M S A) (k : A → M S B) (h : B → M S C) s :
  ((m ≫= k) ≫= h) s = (m ≫= (λ a, k a ≫= h)) s.
Proof. unfold mbind, M_bind. by destruct (m s) as [[a s']|]. Qed.

Lemma for_each_app {S A} (m : A → M S unit) l1 l2 s :
  for_each m (l1 ++ l2) s = (for_each m l1 ;; for_each m l2) s.
Proof.
  revert s. induction l1 as [|x l1 IH]; intros s; [done|]. simpl.
  unfold mbind, M_bind in *. destruct (m x s) as [[[] s']|]; [apply IH|done].
Qed.

(** An invariant that every iteration keeps is kept by the loop, and the loop
    returns when every iteration does. *)
Lemma for_each_total {S A} (m : A → M S unit) (P : S → Prop) l :
  (∀ x s, x ∈ l → P s → ∃ s', m x s = Ok (tt, s') ∧ P s') →
  ∀ s, P s → ∃ s', for_each m l s = Ok (tt, s') ∧ P s'.
Proof.
  induction l as [|x l IH]; intros Hm s Hs; [by exists s|].
  destruct (Hm x s) as (s1 & E & H1); [set_solver|done|].
  simpl. rewrite (M_bind_ok _ _ _ _ _ E). apply IH; [|done].
  intros y s2 Hy. apply Hm. set_solver.
Qed.

Lemma assert_true {S} (s : S) : assert_ true s = Ok (tt, s).
Proof. done. Qed.
Lemma assert_holds {S} (b : bool) (s : S) : b = true → assert_ b s = Ok (tt, s).
Proof. by intros ->. Qed.

Lemma zoom_ok {W X A} `{!Lens W X} (m : M X A) w a x :
  m (view w) = Ok (a, x) → zoom m w = Ok (a, replace_view x w).
Proof. unfold zoom. by intros ->. Qed.

Lemma zoom_get {W X} `{!Lens W X, !LensLaws W X} w : zoom (X := X) get w = Ok (view w, w).
Proof. unfold zoom, get. by rewrite replace_same. Qed.
Lemma zoom_modify {W X} `{!Lens W X} (f : X → X) w :
  zoom (modify f) w = Ok (tt, replace_view (f (view w)) w).
Proof. done. Qed.

(** ** Lemmas on lists *)

Lemma zlen_nonneg {A} (l : list A) : 0 ≤ zlen l.
Proof. unfold zlen. lia. Qed.
Lemma zlen_app {A} (l k : list A) : zlen (l ++ k) = zlen l + zlen k.
Proof. unfold zlen. rewrite length_app. lia. Qed.
Lemma zlen_nil {A} : zlen (@nil A) = 0.
Proof. done. Qed.
Lemma zlen_take {A} (l : list A) (n : Z) :
  zlen (take (Z.to_nat n) l) = Z.max 0 (Z.min n (zlen l)).
Proof. unfold zlen. rewrite length_take. lia. Qed.
Lemma zlen_drop {A} (l : list A) (n : Z) :
  zlen (drop (Z.to_nat n) l) = Z.max 0 (zlen l - Z.max 0 n).
Proof. unfold zlen. rewrite length_drop. lia. Qed.
Lemma zlen_replicate {A} (n : Z) (x : A) : zlen (replicate (Z.to_nat n) x) = Z.max 0 n.
Proof. unfold zlen. rewrite length_replicate. lia. Qed.
Lemma zlen_zero_inv {A} (l : list A) : zlen l = 0 → l = [].
Proof. unfold zlen. destruct l; simpl; [done|lia]. Qed.

Lemma wrap_size_small z : 0 ≤ z < size_max → wrap_size z = z.
Proof. apply Z.mod_small. Qed.

Create HintDb muduo.
Create Rewrite HintDb zlen.
#[export] Hint Rewrite @zlen_app @zlen_nil @zlen_take @zlen_drop @zlen_replicate : zlen.
#[export] Hint Resolve zlen_nonneg : muduo.

(** Solve goals on sizes of lists. *)
Ltac zlen_lia :=
  autorewrite with zlen in *; try done;
  repeat match goal with
         | l : list _ |- _ => let H := fresh in pose proof (zlen_nonneg l) as H;
                              revert H; revert l
         end; intros; lia.

(** Run the binds of known outcomes, and nothing else. *)
Ltac mcbn :=
  cbv beta iota delta [mbind mret outcome_bind outcome_ret M_bind M_ret];
  cbn [fst snd].

(** Take the step of a run whose outcome is the equation [E]. *)
Ltac mstep E := mcbn; rewrite E; mcbn.

(** Split a run of a bind that returned. *)
Ltac minv H :=
  let a := fresh "a" in let s := fresh "s" in let E := fresh "E" in
  apply M_bind_inv in H as (a & s & E & H).

(** Invariants of transition systems, by induction on the run. *)
Lemma rtc_invariant {St : Type} (step : relation St) (P : St → Prop) s s' :
  (∀ s s', P s → step s s' → P s') → P s → rtc step s s' → P s'.
Proof. intros Hstep HP. induction 1; eauto. Qed.
