(* ===== verification/Kernel.v ===== *)
(** * The operating system the library runs on

    The system calls are not code of the repository: they are the operations
    of the class [Kernel], over an abstract kernel state [K], and what the
    library relies on is the class [KernelLaws], one law per call, each the
    documented behaviour of the call.  The laws speak of [kview], the part of
    the kernel state the library can observe: the bytes accepted for each
    socket, the half-closed sockets, the interest list of each epoll instance,
    the counter of each eventfd and the setting of each timerfd.

    [Scripted] is a concrete kernel that answers from scripts; it satisfies
    the laws and makes every definition of the development executable. *)

From Stdlib Require Import Init.Byte.
From S2P Require Import Prelude.

(** ** Constants of <sys/epoll.h> and <errno.h> *)

Definition EPOLLIN : Z := 1.
Definition EPOLLPRI : Z := 2.
Definition EPOLLOUT : Z := 4.
Definition EPOLLERR : Z := 8.
Definition EPOLLHUP : Z := 16.

Definition EINTR : Z := 4.
Definition EBADF : Z := 9.
Definition EAGAIN : Z := 11.
Definition EWOULDBLOCK : Z := EAGAIN.
Definition EMFILE : Z := 24.
Definition EPIPE : Z := 32.
Definition ECONNRESET : Z := 104.

(** ** Data exchanged with the kernel *)

(** What [readv] gives: the bytes it stored, or -1 and [errno]. *)
Inductive read_answer : Type := RdOk (bs : list byte) | RdErr (errno : Z).
(** What [write] and [sendfile] give: the number of bytes taken, or -1 and [errno]. *)
Inductive write_answer : Type := WrOk (n : Z) | WrErr (errno : Z).

(** [struct epoll_event]: the event mask, and the [Channel*] in [data.ptr]. *)
Record epoll_event : Type := EpollEvent { ev_events : Z; ev_ptr : positive }.
Inductive ctl_op : Type := EPOLL_CTL_ADD | EPOLL_CTL_DEL | EPOLL_CTL_MOD.
Inductive wait_answer : Type := WaitOk (evs : list epoll_event) | WaitErr (errno : Z).

#[export] Instance ctl_op_eq_dec : EqDecision ctl_op.
Proof. solve_decision. Defined.
#[export] Instance write_answer_eq_dec : EqDecision write_answer.
Proof. solve_decision. Defined.
#[export] Instance epoll_event_eq_dec : EqDecision epoll_event.
Proof. solve_decision. Defined.

(** [struct sockaddr_in]; the port and the address are in network byte order. *)
Record sockaddr_in : Type := SockaddrIn { sin_family : Z; sin_port : Z; s_addr : Z }.

(** ** The observable part of the kernel state *)

Record kview : Type := Kview {
  kv_sent : gmap Z (list byte);               (* bytes accepted, per socket *)
  kv_shut : gset Z;                           (* sockets shut down for writing *)
  kv_interest : gmap Z (gmap Z epoll_event);  (* per epoll fd: fd -> registration *)
  kv_eventfd : gmap Z Z;                      (* eventfd counters *)
  kv_timerfd : gmap Z (Z * Z)                 (* timerfd settings: seconds, nanoseconds *)
}.

#[export] Instance set_kv_sent : Setter kv_sent := λ f v,
  Kview (f (kv_sent v)) (kv_shut v) (kv_interest v) (kv_eventfd v) (kv_timerfd v).
#[global] Arguments set_kv_sent _ !_ /.
#[export] Instance set_kv_shut : Setter kv_shut := λ f v,
  Kview (kv_sent v) (f (kv_shut v)) (kv_interest v) (kv_eventfd v) (kv_timerfd v).
#[global] Arguments set_kv_shut _ !_ /.
#[export] Instance set_kv_interest : Setter kv_interest := λ f v,
  Kview (kv_sent v) (kv_shut v) (f (kv_interest v)) (kv_eventfd v) (kv_timerfd v).
#[global] Arguments set_kv_interest _ !_ /.
#[export] Instance set_kv_eventfd : Setter kv_eventfd := λ f v,
  Kview (kv_sent v) (kv_shut v) (kv_interest v) (f (kv_eventfd v)) (kv_timerfd v).
#[global] Arguments set_kv_eventfd _ !_ /.
#[export] Instance set_kv_timerfd : Setter kv_timerfd := λ f v,
  Kview (kv_sent v) (kv_shut v) (kv_interest v) (kv_eventfd v) (f (kv_timerfd v)).
#[global] Arguments set_kv_timerfd _ !_ /.

Definition sent_on (v : kview) (fd : Z) : list byte := default [] (kv_sent v !! fd).
Definition interest_of (v : kview) (epfd : Z) : gmap Z epoll_event :=
  default ∅ (kv_interest v !! epfd).
Definition counter_of (v : kview) (fd : Z) : Z := default 0 (kv_eventfd v !! fd).

Definition kv_send (fd : Z) (bs : list byte) (v : kview) : kview :=
  v <| kv_sent := <[fd := sent_on v fd ++ bs]> (kv_sent v) |>.
Definition kv_shutdown (fd : Z) (v : kview) : kview := v <| kv_shut ::= union {[fd]} |>.
Definition kv_watch (epfd fd : Z) (e : epoll_event) (v : kview) : kview :=
  v <| kv_interest := <[epfd := <[fd := e]> (interest_of v epfd)]> (kv_interest v) |>.
Definition kv_unwatch (epfd fd : Z) (v : kview) : kview :=
  v <| kv_interest := <[epfd := delete fd (interest_of v epfd)]> (kv_interest v) |>.
(** A closed descriptor is taken out of every epoll instance. *)
Definition kv_close (fd : Z) (v : kview) : kview := v <| kv_interest ::= fmap (delete fd) |>.
Definition kv_set_counter (fd n : Z) (v : kview) : kview :=
  v <| kv_eventfd := <[fd := n]> (kv_eventfd v) |>.
Definition kv_set_timer (fd sec nsec : Z) (v : kview) : kview :=
  v <| kv_timerfd := <[fd := (sec, nsec)]> (kv_timerfd v) |>.

(** ** The system calls *)

Class Kernel (K : Type) : Type := {
  kview_of : K → kview;
  sys_readv : Z → list Z → K → read_answer * K;            (* fd, iov_len's *)
  sys_write : Z → list byte → K → write_answer * K;        (* fd, data *)
  sys_sendfile : Z → Z → Z → Z → K → write_answer * Z * K; (* out, in, offset, count; new offset *)
  sys_shutdown : Z → K → Z * K;                            (* fd, SHUT_WR *)
  sys_getsockopt_error : Z → K → (Z * Z) * K;              (* result, optval or errno *)
  sys_epoll_ctl : Z → ctl_op → Z → epoll_event → K → Z * K;
  sys_epoll_wait : Z → Z → Z → K → wait_answer * K;        (* epfd, maxevents, timeout *)
  sys_eventfd_write : Z → Z → K → Z * K;                   (* bytes written *)
  sys_eventfd_read : Z → K → Z * K;                        (* bytes read *)
  sys_timerfd_settime : Z → Z → Z → K → Z * K;             (* fd, tv_sec, tv_nsec *)
  sys_timerfd_read : Z → K → Z * K;                        (* bytes read *)
  sys_steady_now : K → Z * K;                              (* steady_clock, microseconds *)
  sys_system_now : K → Z * K;                              (* system_clock, microseconds *)
  sys_accept4 : Z → K → (Z * Z * sockaddr_in) * K;         (* fd; connfd, errno, peer *)
  sys_getsockname : Z → K → (Z * sockaddr_in) * K;
  sys_listen : Z → Z → K → Z * K;                          (* fd, backlog *)
  sys_bind : Z → sockaddr_in → K → Z * K;
  sys_setsockopt : Z → Z → Z → K → K;                      (* fd, option, value *)
  sys_close : Z → K → K
}.

(** Option names of [setsockopt] the library uses. *)
Definition TCP_NODELAY : Z := 1.
Definition SO_REUSEADDR : Z := 2.
Definition SO_KEEPALIVE : Z := 9.
Definition SO_REUSEPORT : Z := 15.

(** ** Documented behaviour

    [epoll_ctl] is documented to fail with EEXIST for an ADD of a registered
    descriptor and with ENOENT for a MOD or DEL of an unregistered one;
    exhaustion of kernel memory (ENOMEM, ENOSPC) is left out. *)

(** The largest value of the counter of an eventfd: a [write] that would pass it
    fails with EAGAIN; a [read] fails with EAGAIN when the counter is zero. *)
Definition eventfd_max : Z := 2 ^ 64 - 2.

Definition sum_list_Z (l : list Z) : Z := foldr Z.add 0 l.

Class KernelLaws (K : Type) `{!Kernel K} : Prop := {
  readv_law fd lens k a k' : 0 ≤ sum_list_Z lens → sys_readv fd lens k = (a, k') →
    kview_of k' = kview_of k ∧
    match a with RdOk bs => zlen bs ≤ sum_list_Z lens | RdErr e => 0 < e end;
  write_law fd data k a k' : sys_write fd data k = (a, k') →
    match a with
    | WrOk n => 0 ≤ n ≤ zlen data ∧
        kview_of k' = kv_send fd (take (Z.to_nat n) data) (kview_of k)
    | WrErr e => 0 < e ∧ kview_of k' = kview_of k
    end;
  sendfile_law out src off count k a off' k' : 0 ≤ count →
    sys_sendfile out src off count k = (a, off', k') →
    match a with
    | WrOk n => 0 ≤ n ≤ count ∧ off' = off + n ∧
        ∃ bs, zlen bs = n ∧ kview_of k' = kv_send out bs (kview_of k)
    | WrErr e => 0 < e ∧ off' = off ∧ kview_of k' = kview_of k
    end;
  shutdown_law fd k r k' : sys_shutdown fd k = (r, k') →
    kview_of k' = if r =? 0 then kv_shutdown fd (kview_of k) else kview_of k;
  getsockopt_law fd k r k' : sys_getsockopt_error fd k = (r, k') →
    kview_of k' = kview_of k;
  epoll_ctl_law epfd op fd e k r k' : sys_epoll_ctl epfd op fd e k = (r, k') →
    match op, interest_of (kview_of k) epfd !! fd with
    | EPOLL_CTL_ADD, None | EPOLL_CTL_MOD, Some _ =>
        r = 0 ∧ kview_of k' = kv_watch epfd fd e (kview_of k)
    | EPOLL_CTL_DEL, Some _ => r = 0 ∧ kview_of k' = kv_unwatch epfd fd (kview_of k)
    | EPOLL_CTL_ADD, Some _ | EPOLL_CTL_MOD, None | EPOLL_CTL_DEL, None =>
        r < 0 ∧ kview_of k' = kview_of k
    end;
  epoll_wait_law epfd maxev timeout k a k' :
    sys_epoll_wait epfd maxev timeout k = (a, k') →
    kview_of k' = kview_of k ∧
    match a with
    | WaitOk evs => zlen evs ≤ Z.max 0 maxev ∧
        ∀ e, e ∈ evs → ∃ fd reg, interest_of (kview_of k) epfd !! fd = Some reg ∧
                                 ev_ptr reg = ev_ptr e
    | WaitErr _ => True
    end;
  eventfd_write_law fd v k r k' : sys_eventfd_write fd v k = (r, k') →
    if r =? 8 then kview_of k' = kv_set_counter fd (counter_of (kview_of k) fd + v) (kview_of k)
    else kview_of k' = kview_of k ∧ eventfd_max < counter_of (kview_of k) fd + v;
  eventfd_read_law fd k r k' : sys_eventfd_read fd k = (r, k') →
    if r =? 8 then kview_of k' = kv_set_counter fd 0 (kview_of k)
    else kview_of k' = kview_of k ∧ counter_of (kview_of k) fd = 0;
  timerfd_settime_law fd sec nsec k r k' : sys_timerfd_settime fd sec nsec k = (r, k') →
    kview_of k' = if r =? 0 then kv_set_timer fd sec nsec (kview_of k) else kview_of k;
  timerfd_read_law fd k r k' : sys_timerfd_read fd k = (r, k') → kview_of k' = kview_of k;
  steady_now_law k t k' : sys_steady_now k = (t, k') →
    kview_of k' = kview_of k ∧ 0 ≤ t ≤ int64_max;
  system_now_law k t k' : sys_system_now k = (t, k') → kview_of k' = kview_of k;
  accept4_law fd k r k' : sys_accept4 fd k = (r, k') → kview_of k' = kview_of k;
  getsockname_law fd k r k' : sys_getsockname fd k = (r, k') → kview_of k' = kview_of k;
  listen_law fd n k r k' : sys_listen fd n k = (r, k') → kview_of k' = kview_of k;
  bind_law fd a k r k' : sys_bind fd a k = (r, k') → kview_of k' = kview_of k;
  setsockopt_law fd o v k : kview_of (sys_setsockopt fd o v k) = kview_of k;
  close_law fd k : kview_of (sys_close fd k) = kv_close fd (kview_of k)
}.

(** ** A kernel that answers from scripts

    Each kind of call has a script of answers, brought into the documented
    range where needed; when a script is used up, reads would block, writes
    and [sendfile] take everything, waits return nothing. *)

Record scripted : Type := Scripted {
  sk_view : kview;
  sk_reads : list read_answer;
  sk_writes : list write_answer;
  sk_sendfiles : list write_answer;
  sk_waits : list wait_answer;
  sk_accepts : list (Z * Z * sockaddr_in);
  sk_clock : Z
}.

#[export] Instance set_sk_view : Setter sk_view := λ f k,
  Scripted (f (sk_view k)) (sk_reads k) (sk_writes k) (sk_sendfiles k) (sk_waits k)
    (sk_accepts k) (sk_clock k).
#[global] Arguments set_sk_view _ !_ /.
#[export] Instance set_sk_reads : Setter sk_reads := λ f k,
  Scripted (sk_view k) (f (sk_reads k)) (sk_writes k) (sk_sendfiles k) (sk_waits k)
    (sk_accepts k) (sk_clock k).
#[global] Arguments set_sk_reads _ !_ /.
#[export] Instance set_sk_writes : Setter sk_writes := λ f k,
  Scripted (sk_view k) (sk_reads k) (f (sk_writes k)) (sk_sendfiles k) (sk_waits k)
    (sk_accepts k) (sk_clock k).
#[global] Arguments set_sk_writes _ !_ /.
#[export] Instance set_sk_sendfiles : Setter sk_sendfiles := λ f k,
  Scripted (sk_view k) (sk_reads k) (sk_writes k) (f (sk_sendfiles k)) (sk_waits k)
    (sk_accepts k) (sk_clock k).
#[global] Arguments set_sk_sendfiles _ !_ /.
#[export] Instance set_sk_waits : Setter sk_waits := λ f k,
  Scripted (sk_view k) (sk_reads k) (sk_writes k) (sk_sendfiles k) (f (sk_waits k))
    (sk_accepts k) (sk_clock k).
#[global] Arguments set_sk_waits _ !_ /.
#[export] Instance set_sk_accepts : Setter sk_accepts := λ f k,
  Scripted (sk_view k) (sk_reads k) (sk_writes k) (sk_sendfiles k) (sk_waits k)
    (f (sk_accepts k)) (sk_clock k).
#[global] Arguments set_sk_accepts _ !_ /.
#[export] Instance set_sk_clock : Setter sk_clock := λ f k,
  Scripted (sk_view k) (sk_reads k) (sk_writes k) (sk_sendfiles k) (sk_waits k)
    (sk_accepts k) (f (sk_clock k)).
#[global] Arguments set_sk_clock _ !_ /.

Definition empty_view : kview := Kview ∅ ∅ ∅ ∅ ∅.
Definition idle_kernel : scripted := Scripted empty_view [] [] [] [] [] 1000000.

Definition positive_errno (e : Z) : Z := Z.max 1 e.
Definition clamp (n m : Z) : Z := Z.max 0 (Z.min n m).
Definition file_byte : byte := x46.

Definition scripted_readv (fd : Z) (lens : list Z) (k : scripted) : read_answer * scripted :=
  match sk_reads k with
  | [] => (RdErr EAGAIN, k)
  | RdOk bs :: rest => (RdOk (take (Z.to_nat (sum_list_Z lens)) bs), k <| sk_reads := rest |>)
  | RdErr e :: rest => (RdErr (positive_errno e), k <| sk_reads := rest |>)
  end.

Definition scripted_write (fd : Z) (data : list byte) (k : scripted) : write_answer * scripted :=
  match sk_writes k with
  | [] => (WrOk (zlen data), k <| sk_view ::= kv_send fd data |>)
  | WrOk n :: rest =>
      let n := clamp n (zlen data) in
      (WrOk n, k <| sk_writes := rest |> <| sk_view ::= kv_send fd (take (Z.to_nat n) data) |>)
  | WrErr e :: rest => (WrErr (positive_errno e), k <| sk_writes := rest |>)
  end.

Definition scripted_sendfile (out src off count : Z) (k : scripted)
    : write_answer * Z * scripted :=
  let count := Z.max 0 count in
  let send n k := (WrOk n, off + n,
    k <| sk_view ::= kv_send out (replicate (Z.to_nat n) file_byte) |>) in
  match sk_sendfiles k with
  | [] => send count k
  | WrOk n :: rest => send (clamp n count) (k <| sk_sendfiles := rest |>)
  | WrErr e :: rest => (WrErr (positive_errno e), off, k <| sk_sendfiles := rest |>)
  end.

Definition scripted_epoll_ctl (epfd : Z) (op : ctl_op) (fd : Z) (e : epoll_event)
    (k : scripted) : Z * scripted :=
  match op, interest_of (sk_view k) epfd !! fd with
  | EPOLL_CTL_ADD, None | EPOLL_CTL_MOD, Some _ => (0, k <| sk_view ::= kv_watch epfd fd e |>)
  | EPOLL_CTL_DEL, Some _ => (0, k <| sk_view ::= kv_unwatch epfd fd |>)
  | _, _ => (-1, k)
  end.

Definition registered_ptr (v : kview) (epfd : Z) (p : positive) : bool :=
  existsb (λ r, bool_decide (ev_ptr r.2 = p)) (map_to_list (interest_of v epfd)).

Definition scripted_epoll_wait (epfd maxev timeout : Z) (k : scripted)
    : wait_answer * scripted :=
  match sk_waits k with
  | [] => (WaitOk [], k)
  | WaitOk evs :: rest =>
      (WaitOk (take (Z.to_nat maxev)
        (List.filter (λ e, registered_ptr (sk_view k) epfd (ev_ptr e)) evs)),
       k <| sk_waits := rest |>)
  | WaitErr e :: rest => (WaitErr (positive_errno e), k <| sk_waits := rest |>)
  end.

Definition scripted_accept4 (fd : Z) (k : scripted) : (Z * Z * sockaddr_in) * scripted :=
  match sk_accepts k with
  | [] => ((-1, EAGAIN, SockaddrIn 0 0 0), k)
  | a :: rest => (a, k <| sk_accepts := rest |>)
  end.

#[export] Instance scripted_kernel : Kernel scripted := {|
  kview_of := sk_view;
  sys_readv := scripted_readv;
  sys_write := scripted_write;
  sys_sendfile := scripted_sendfile;
  sys_shutdown fd k := (0, k <| sk_view ::= kv_shutdown fd |>);
  sys_getsockopt_error fd k := ((0, 0), k);
  sys_epoll_ctl := scripted_epoll_ctl;
  sys_epoll_wait := scripted_epoll_wait;
  sys_eventfd_write fd v k :=
    (8, k <| sk_view ::= λ w, kv_set_counter fd (counter_of w fd + v) w |>);
  sys_eventfd_read fd k := (8, k <| sk_view ::= kv_set_counter fd 0 |>);
  sys_timerfd_settime fd s ns k := (0, k <| sk_view ::= kv_set_timer fd s ns |>);
  sys_timerfd_read fd k := (8, k);
  sys_steady_now k := (clamp (sk_clock k) int64_max, k);
  sys_system_now k := (sk_clock k, k);
  sys_accept4 := scripted_accept4;
  sys_getsockname fd k := ((0, SockaddrIn 2 0 0), k);
  sys_listen fd n k := (0, k);
  sys_bind fd a k := (0, k);
  sys_setsockopt fd o v k := k;
  sys_close fd k := k <| sk_view ::= kv_close fd |>
|}.

Lemma registered_ptr_spec v epfd p :
  registered_ptr v epfd p = true →
  ∃ fd reg, interest_of v epfd !! fd = Some reg ∧ ev_ptr reg = p.
Proof.
  unfold registered_ptr. rewrite existsb_exists.
  intros ([fd reg] & Hin & Hp%bool_decide_eq_true). exists fd, reg. split; [|done].
  by apply elem_of_map_to_list, list_elem_of_In.
Qed.

#[export] Instance scripted_laws : KernelLaws scripted.
Proof.
  split; simpl.
  - unfold scripted_readv. intros fd lens k a k' Hs.
    destruct (sk_reads k) as [|[bs|e] rest]; intros [= <- <-]; simpl; (split; [done|]).
    + done.
    + unfold zlen. rewrite length_take. lia.
    + unfold positive_errno; lia.
  - unfold scripted_write. intros fd data k a k'.
    destruct (sk_writes k) as [|[n|e] rest]; intros [= <- <-]; simpl.
    + split; [unfold zlen; lia|]. f_equal. unfold zlen. rewrite Nat2Z.id. by rewrite firstn_all.
    + split; [unfold clamp, zlen; lia|done].
    + unfold positive_errno; split; [lia|done].
  - unfold scripted_sendfile. intros out src off count k a off' k' Hc.
    destruct (sk_sendfiles k) as [|[n|e] rest]; intros [= <- <- <-]; simpl.
    + split; [lia|]. split; [lia|]. eexists; split; [|done]. rewrite zlen_replicate. lia.
    + unfold clamp. split; [lia|]. split; [lia|]. eexists; split; [|done].
      rewrite zlen_replicate. lia.
    + unfold positive_errno; split; [lia|done].
  - intros fd k r k' [= <- <-]. done.
  - intros fd k r k' [= <- <-]. done.
  - unfold scripted_epoll_ctl. intros epfd op fd e k r k'.
    destruct op, (interest_of (sk_view k) epfd !! fd); intros [= <- <-]; simpl; done || lia.
  - unfold scripted_epoll_wait. intros epfd maxev timeout k a k'.
    destruct (sk_waits k) as [|[evs|e] rest]; intros [= <- <-]; simpl; (split; [done|]).
    + split; [unfold zlen; simpl; lia|]. set_solver.
    + split; [unfold zlen; rewrite length_take; lia|]. intros ev Hev.
      apply registered_ptr_spec. apply elem_of_take in Hev as (i & Hev & _). apply list_elem_of_lookup_2, list_elem_of_In in Hev.
      apply filter_In in Hev. tauto.
    + done.
  - intros fd v k r k' [= <- <-]. done.
  - intros fd k r k' [= <- <-]. done.
  - intros fd s n k r k' [= <- <-]. done.
  - intros fd k r k' [= <- <-]. done.
  - intros k t k' [= <- <-]. split; [done|unfold clamp, int64_max; lia].
  - intros k t k' [= <- <-]. done.
  - unfold scripted_accept4. intros fd k r k'. destruct (sk_accepts k); intros [= <- <-]; done.
  - intros fd k r k' [= <- <-]. done.
  - intros fd n k r k' [= <- <-]. done.
  - intros fd a k r k' [= <- <-]. done.
  - done.
  - done.
Qed.
