(* ===== verification/Buffer.v ===== *)
(** * Buffer (include/Buffer.h, src/Buffer.cc)

    The byte buffer between a connection and its socket: a vector of bytes and
    two indices into it.  The bytes of the vector are kept as they are in
    memory, stale ones included, so that an access outside the readable part
    is visible; [size_t] arithmetic wraps modulo 2^64.

    [ByteQueue] is the abstract specification, a queue of bytes; the theorems
    show that every operation of [Buffer] implements it. *)

From Stdlib Require Import Init.Byte.
From S2P Require Import Prelude Kernel.

(** ** The bytes of a vector *)

(** [std::copy(src, src + len, mem + off)]: write [src] at offset [off]. *)
Definition splice (off : Z) (src mem : list byte) : outcome (list byte) :=
  if (0 <=? off) && (off + zlen src <=? zlen mem) then
    Ok (take (Z.to_nat off) mem ++ src ++ drop (Z.to_nat (off + zlen src)) mem)
  else Fault OutOfBounds.

(** The bytes of [mem] from [first] up to [last]. *)
Definition slice (first last : Z) (mem : list byte) : outcome (list byte) :=
  if (0 <=? first) && (first <=? last) && (last <=? zlen mem) then
    Ok (take (Z.to_nat (last - first)) (drop (Z.to_nat first) mem))
  else Fault OutOfBounds.

(** [std::copy(mem + first, mem + last, mem + dest)] inside one vector: the
    destination must not lie in the source range. *)
Definition copy_within (first last dest : Z) (mem : list byte) : outcome (list byte) :=
  if (first <=? dest) && (dest <? last) then Fault OverlappingCopy
  else src ← slice first last mem; splice dest src mem.

(** [std::vector<char>::resize(n)]: new bytes are zero. *)
Definition resize (n : Z) (mem : list byte) : outcome (list byte) :=
  if vector_max_size <? n then Fault LengthError
  else Ok (take (Z.to_nat n) mem ++ replicate (Z.to_nat (n - zlen mem)) x00).

(** ** The class *)

Record Buffer : Type := mkBuffer {
  buffer_ : list byte;
  read_index_ : Z;
  write_index_ : Z
}.
#[export] Instance set_buffer_ : Setter buffer_ := λ f b,
  mkBuffer (f (buffer_ b)) (read_index_ b) (write_index_ b).
#[global] Arguments set_buffer_ _ !_ /.
#[export] Instance set_read_index_ : Setter read_index_ := λ f b,
  mkBuffer (buffer_ b) (f (read_index_ b)) (write_index_ b).
#[global] Arguments set_read_index_ _ !_ /.
#[export] Instance set_write_index_ : Setter write_index_ := λ f b,
  mkBuffer (buffer_ b) (read_index_ b) (f (write_index_ b)).
#[global] Arguments set_write_index_ _ !_ /.

Definition kCheapPrepend : Z := 8.
Definition kInitialSize : Z := 1024.

(** [Buffer(size_t initial_size)] *)
Definition make_Buffer (initial_size : Z) : outcome Buffer :=
  mem ← resize (wrap_size (kCheapPrepend + initial_size)) [];
  Ok (mkBuffer mem kCheapPrepend kCheapPrepend).

Definition readableBytes (b : Buffer) : Z := wrap_size (write_index_ b - read_index_ b).
Definition writeableBytes (b : Buffer) : Z := wrap_size (zlen (buffer_ b) - write_index_ b).
Definition prependableBytes (b : Buffer) : Z := read_index_ b.

(** Offsets of [peek()] and [beginWrite()] from [begin()]. *)
Definition peek (b : Buffer) : Z := read_index_ b.
Definition beginWrite (b : Buffer) : Z := write_index_ b.

Definition retrieveAll (b : Buffer) : Buffer :=
  b <| read_index_ := kCheapPrepend |> <| write_index_ := kCheapPrepend |>.

Definition retrieve (b : Buffer) (len : Z) : Buffer :=
  if len <? readableBytes b then b <| read_index_ := wrap_size (read_index_ b + len) |>
  else retrieveAll b.

(** [std::string data(peek(), len)] reads [len] bytes, readable or not. *)
Definition retrieveAsString (b : Buffer) (len : Z) : outcome (list byte * Buffer) :=
  data ← slice (peek b) (peek b + len) (buffer_ b);
  Ok (data, retrieve b len).

Definition retrieveAllAsString (b : Buffer) : outcome (list byte * Buffer) :=
  retrieveAsString b (readableBytes b).

Definition makeSpace (b : Buffer) (len : Z) : outcome Buffer :=
  if wrap_size (prependableBytes b + writeableBytes b) <? wrap_size (len + kCheapPrepend) then
    mem ← resize (wrap_size (write_index_ b + len)) (buffer_ b);
    Ok (b <| buffer_ := mem |>)
  else
    let read_data_size := readableBytes b in
    mem ← copy_within (read_index_ b) (write_index_ b) kCheapPrepend (buffer_ b);
    let b := b <| buffer_ := mem |> <| read_index_ := kCheapPrepend |> in
    Ok (b <| write_index_ := wrap_size (read_index_ b + read_data_size) |>).

Definition ensureWriteableBytes (b : Buffer) (len : Z) : outcome Buffer :=
  if writeableBytes b <? len then makeSpace b len else Ok b.

(** [append(str, len)]; [str] is the object the pointer points into. *)
Definition append (b : Buffer) (str : list byte) (len : Z) : outcome Buffer :=
  b ← ensureWriteableBytes b len;
  src ← slice 0 len str;
  mem ← splice (beginWrite b) src (buffer_ b);
  Ok (b <| buffer_ := mem |> <| write_index_ := wrap_size (write_index_ b + len) |>).

Definition extra_buffer_size : Z := 65536.

Section with_kernel.
Context {K : Type} `{!Kernel K}.

(** [readFd(fd, error)]: [readv] into the writable part and, unless that part
    alone is larger than 64 KiB, into [extra_buffer] after it.  The result is
    the return value and the value of [error] afterwards. *)
Definition readFd (fd error : Z) : M (K * Buffer) (Z * Z) := λ '(k, b),
  let writeable := writeableBytes b in
  let vec := if extra_buffer_size <? writeable then [writeable]
             else [writeable; extra_buffer_size] in
  match sys_readv fd vec k with
  | (RdErr e, k) => Ok ((-1, e), (k, b))
  | (RdOk bs, k) =>
      let n := zlen bs in
      mem ← splice (beginWrite b) (take (Z.to_nat writeable) bs) (buffer_ b);
      extra ← splice 0 (drop (Z.to_nat writeable) bs)
                       (replicate (Z.to_nat extra_buffer_size) x00);
      let b := b <| buffer_ := mem |> in
      if n <=? writeable then
        Ok ((n, error), (k, b <| write_index_ := wrap_size (write_index_ b + n) |>))
      else
        b ← append (b <| write_index_ := zlen (buffer_ b) |>) extra (wrap_size (n - writeable));
        Ok ((n, error), (k, b))
  end.

#[global] Arguments readFd : simpl never.

(** [writeFd(fd, error)] leaves the buffer alone. *)
Definition writeFd (fd error : Z) : M (K * Buffer) (Z * Z) := λ '(k, b),
  data ← slice (read_index_ b) (wrap_size (read_index_ b + readableBytes b)) (buffer_ b);
  match sys_write fd data k with
  | (WrOk n, k) => Ok ((n, error), (k, b))
  | (WrErr e, k) => Ok ((-1, e), (k, b))
  end.
#[global] Arguments writeFd : simpl never.
End with_kernel.

(** ** Well-formed buffers and what they hold

    The layout drawn in Buffer.h: 8 <= read_index_ <= write_index_ <= size(). *)

Record buffer_wf (b : Buffer) : Prop := BufferWf {
  wf_prepend : kCheapPrepend ≤ read_index_ b;
  wf_order : read_index_ b ≤ write_index_ b;
  wf_bound : write_index_ b ≤ zlen (buffer_ b);
  wf_size : zlen (buffer_ b) ≤ vector_max_size
}.

(** The readable bytes. *)
Definition content (b : Buffer) : list byte :=
  take (Z.to_nat (write_index_ b - read_index_ b)) (drop (Z.to_nat (read_index_ b)) (buffer_ b)).

(** The vector may grow by [len] bytes. *)
Definition room_for (b : Buffer) (len : Z) : Prop :=
  0 ≤ len ∧ zlen (buffer_ b) + len ≤ vector_max_size.

#[export] Hint Resolve wf_prepend wf_order wf_bound wf_size : muduo.

(** ** Lemmas on slices *)

Lemma splice_ok off src mem :
  0 ≤ off → off + zlen src ≤ zlen mem →
  splice off src mem =
    Ok (take (Z.to_nat off) mem ++ src ++ drop (Z.to_nat (off + zlen src)) mem).
Proof.
  intros H1 H2. unfold splice.
  by rewrite (proj2 (Z.leb_le _ _) H1), (proj2 (Z.leb_le _ _) H2).
Qed.

Lemma slice_ok first last mem :
  0 ≤ first → first ≤ last → last ≤ zlen mem →
  slice first last mem = Ok (take (Z.to_nat (last - first)) (drop (Z.to_nat first) mem)).
Proof.
  intros H1 H2 H3. unfold slice.
  by rewrite (proj2 (Z.leb_le _ _) H1), (proj2 (Z.leb_le _ _) H2), (proj2 (Z.leb_le _ _) H3).
Qed.

Lemma splice_zlen off src mem mem' : splice off src mem = Ok mem' → zlen mem' = zlen mem.
Proof.
  unfold splice. destruct (_ && _) eqn:E; [|done]. intros [= <-].
  apply andb_true_iff in E as [?%Z.leb_le ?%Z.leb_le].
  autorewrite with zlen. pose proof (zlen_nonneg src). lia.
Qed.

(** What a splice leaves in front of it, and what it writes. *)
Lemma splice_front off src mem r w mem' :
  splice off src mem = Ok mem' → 0 ≤ r → r ≤ w → w ≤ off →
  take (Z.to_nat (w - r)) (drop (Z.to_nat r) mem') =
  take (Z.to_nat (w - r)) (drop (Z.to_nat r) mem).
Proof.
  unfold splice. destruct (_ && _) eqn:E; [|done]. intros [= <-] H1 H2 H3.
  apply andb_true_iff in E as [?%Z.leb_le ?%Z.leb_le].
  pose proof (zlen_nonneg src). unfold zlen in *.
  rewrite drop_app_le by (rewrite length_take; lia).
  rewrite take_app_le by (rewrite length_drop, length_take; lia).
  rewrite skipn_firstn_comm, take_take. f_equal. lia.
Qed.

Lemma splice_written off src mem r mem' :
  splice off src mem = Ok mem' → 0 ≤ r → r ≤ off →
  take (Z.to_nat (off + zlen src - r)) (drop (Z.to_nat r) mem') =
  take (Z.to_nat (off - r)) (drop (Z.to_nat r) mem) ++ src.
Proof.
  unfold splice. destruct (_ && _) eqn:E; [|done]. intros [= <-] H1 H2.
  apply andb_true_iff in E as [?%Z.leb_le ?%Z.leb_le].
  pose proof (zlen_nonneg src). unfold zlen in *.
  rewrite drop_app_le by (rewrite length_take; lia).
  rewrite (app_assoc _ src), take_app_le
    by (rewrite length_app, length_drop, length_take; lia).
  rewrite take_ge by (rewrite length_app, length_drop, length_take; lia).
  by rewrite skipn_firstn_comm, Z2Nat.inj_sub by lia.
Qed.

(** ** Sizes of well-formed buffers *)

Lemma vector_max_lt : vector_max_size < size_max.
Proof. unfold vector_max_size, size_max. lia. Qed.

Ltac buffer_facts Hwf :=
  pose proof (wf_prepend _ Hwf); pose proof (wf_order _ Hwf);
  pose proof (wf_bound _ Hwf); pose proof (wf_size _ Hwf);
  pose proof vector_max_lt; unfold kCheapPrepend in *.

Lemma readableBytes_wf b : buffer_wf b → readableBytes b = write_index_ b - read_index_ b.
Proof. intros Hwf. buffer_facts Hwf. apply wrap_size_small. lia. Qed.

Lemma writeableBytes_wf b : buffer_wf b → writeableBytes b = zlen (buffer_ b) - write_index_ b.
Proof. intros Hwf. buffer_facts Hwf. apply wrap_size_small. lia. Qed.

Lemma content_zlen b : buffer_wf b → zlen (content b) = readableBytes b.
Proof.
  intros Hwf. rewrite readableBytes_wf by done. buffer_facts Hwf.
  unfold content. rewrite zlen_take, zlen_drop. lia.
Qed.

Lemma content_nil b : buffer_wf b → content b = [] ↔ readableBytes b = 0.
Proof.
  intros Hwf. rewrite <- content_zlen by done.
  split; [intros H; by rewrite H|apply zlen_zero_inv].
Qed.

Lemma slice_content b :
  buffer_wf b → slice (read_index_ b) (write_index_ b) (buffer_ b) = Ok (content b).
Proof. intros Hwf. buffer_facts Hwf. apply slice_ok; lia. Qed.

Lemma make_Buffer_wf n :
  0 ≤ n → kCheapPrepend + n ≤ vector_max_size →
  ∃ b, make_Buffer n = Ok b ∧ buffer_wf b ∧ content b = [] ∧ writeableBytes b = n.
Proof.
  intros H1 H2. unfold make_Buffer, resize. pose proof vector_max_lt.
  unfold kCheapPrepend in *. rewrite wrap_size_small by lia.
  rewrite (proj2 (Z.ltb_ge _ _)) by lia. eexists; split; [done|].
  rewrite take_nil. simpl app. set (mem := replicate _ _).
  assert (zlen mem = 8 + n) as Hmem.
  { unfold mem. rewrite zlen_replicate. change (zlen (@nil byte)) with 0. lia. }
  split; [split; simpl; unfold kCheapPrepend; lia|].
  split; [done|]. unfold writeableBytes. simpl. rewrite Hmem.
  unfold kCheapPrepend. rewrite wrap_size_small; lia.
Qed.

(** ** Making room *)

(** Does [append] of [len] bytes move the data down, or grow the vector? *)
Definition needs_space (b : Buffer) (len : Z) : bool := writeableBytes b <? len.
Definition needs_growth (b : Buffer) (len : Z) : bool :=
  needs_space b len && (prependableBytes b + writeableBytes b <? len + kCheapPrepend).

Lemma resize_grow n mem :
  zlen mem ≤ n → n ≤ vector_max_size →
  resize n mem = Ok (mem ++ replicate (Z.to_nat (n - zlen mem)) x00).
Proof.
  intros H1 H2. unfold resize. rewrite (proj2 (Z.ltb_ge _ _)) by lia.
  rewrite take_ge; [done|]. unfold zlen in *. lia.
Qed.

Lemma makeSpace_grow b len :
  buffer_wf b → room_for b len → needs_growth b len = true →
  ∃ b', makeSpace b len = Ok b' ∧ buffer_wf b' ∧ content b' = content b ∧
        write_index_ b' = write_index_ b ∧
        zlen (buffer_ b') = write_index_ b + len.
Proof.
  intros Hwf [H1 H2] Hg. buffer_facts Hwf.
  unfold needs_growth, needs_space, prependableBytes in Hg.
  rewrite writeableBytes_wf in Hg by done. unfold kCheapPrepend in Hg.
  apply andb_true_iff in Hg as [Hg1%Z.ltb_lt Hg2%Z.ltb_lt].
  unfold makeSpace, prependableBytes. rewrite writeableBytes_wf by done.
  unfold kCheapPrepend. rewrite !wrap_size_small by (unfold vector_max_size, size_max in *; lia).
  rewrite (proj2 (Z.ltb_lt _ _)) by lia. rewrite resize_grow by lia.
  eexists; split; [done|]. simpl.
  set (mem' := _ ++ _). assert (zlen mem' = write_index_ b + len) as Hmem.
  { unfold mem'. autorewrite with zlen. lia. }
  split; [split; simpl; unfold kCheapPrepend; lia|].
  split; [|done]. unfold content, mem'. simpl. unfold zlen in *.
  rewrite drop_app_le by lia. rewrite take_app_le; [done|]. rewrite length_drop. lia.
Qed.

Lemma makeSpace_move b len :
  buffer_wf b → room_for b len →
  needs_space b len = true → needs_growth b len = false →
  ∃ b', makeSpace b len = Ok b' ∧ buffer_wf b' ∧ content b' = content b ∧
        zlen (buffer_ b') = zlen (buffer_ b) ∧ len ≤ writeableBytes b'.
Proof.
  intros Hwf [H1 H2] Hs Hg. buffer_facts Hwf.
  unfold needs_growth in Hg. rewrite Hs in Hg.
  unfold needs_space, prependableBytes in *. rewrite writeableBytes_wf in * by done.
  unfold kCheapPrepend in *. apply Z.ltb_lt in Hs. simpl in Hg. apply Z.ltb_ge in Hg.
  unfold makeSpace, prependableBytes, kCheapPrepend. rewrite writeableBytes_wf by done.
  rewrite readableBytes_wf by done.
  rewrite !wrap_size_small by (unfold vector_max_size, size_max in *; lia).
  rewrite (proj2 (Z.ltb_ge _ _)) by lia.
  unfold copy_within. rewrite (proj2 (Z.leb_gt _ _)) by lia. simpl andb.
  rewrite slice_content by done. simpl.
  assert (zlen (content b) = write_index_ b - read_index_ b) as Hlen.
  { by rewrite content_zlen, readableBytes_wf by done. }
  destruct (splice 8 (content b) (buffer_ b)) as [mem|] eqn:E.
  2: { rewrite splice_ok in E by lia. done. }
  simpl. pose proof (splice_zlen _ _ _ _ E) as Hmem.
  eexists; split; [done|]. simpl.
  rewrite wrap_size_small by (unfold vector_max_size, size_max in *; lia).
  assert (buffer_wf (mkBuffer mem 8 (8 + (write_index_ b - read_index_ b)))) as Hwf'.
  { split; simpl; unfold kCheapPrepend; lia. }
  split; [done|]. split; [|split; [done|]].
  - unfold content at 1. simpl.
    replace (8 + _ - 8) with (8 + zlen (content b) - 8) by lia.
    rewrite (splice_written _ _ _ _ _ E) by lia. by rewrite Z.sub_diag.
  - rewrite writeableBytes_wf by done. simpl. lia.
Qed.

Lemma ensureWriteableBytes_spec b len :
  buffer_wf b → room_for b len →
  ∃ b', ensureWriteableBytes b len = Ok b' ∧ buffer_wf b' ∧ content b' = content b ∧
        len ≤ writeableBytes b' ∧
        zlen (buffer_ b') = if needs_growth b len then write_index_ b + len
                            else zlen (buffer_ b).
Proof.
  intros Hwf Hroom. unfold ensureWriteableBytes. fold (needs_space b len).
  destruct (needs_space b len) eqn:Es.
  - destruct (needs_growth b len) eqn:Eg.
    + destruct (makeSpace_grow b len) as (b' & E & Hwf' & Hc & Hi & Hz); try done.
      exists b'. split; [done|]. split; [done|]. split; [done|]. split; [|done].
      rewrite writeableBytes_wf by done. lia.
    + destruct (makeSpace_move b len) as (b' & E & Hwf' & Hc & Hz & Hl); try done.
      by exists b'.
  - assert (needs_growth b len = false) as -> by (unfold needs_growth; by rewrite Es).
    exists b. unfold needs_space in Es. apply Z.ltb_ge in Es. done.
Qed.

(** ** The operations *)

Lemma append_ok b str len :
  buffer_wf b → room_for b len → len ≤ zlen str →
  ∃ b', append b str len = Ok b' ∧ buffer_wf b' ∧
        content b' = content b ++ take (Z.to_nat len) str ∧
        zlen (buffer_ b') = if needs_growth b len then write_index_ b + len
                            else zlen (buffer_ b).
Proof.
  intros Hwf Hroom Hstr. assert (Hroom' := Hroom). destruct Hroom' as [Hlen _].
  destruct (ensureWriteableBytes_spec b len) as (b1 & E1 & Hwf1 & Hc1 & Hl1 & Hz1); [done..|].
  unfold append. rewrite E1. simpl.
  rewrite slice_ok by lia. simpl. rewrite Z.sub_0_r, drop_0.
  rewrite writeableBytes_wf in Hl1 by done. buffer_facts Hwf1. unfold beginWrite.
  assert (zlen (take (Z.to_nat len) str) = len) as Hsrc by (rewrite zlen_take; lia).
  destruct (splice (write_index_ b1) (take (Z.to_nat len) str) (buffer_ b1))
    as [mem|] eqn:E; [|rewrite splice_ok in E by lia; done].
  simpl. eexists; split; [done|]. simpl. pose proof (splice_zlen _ _ _ _ E) as Hmem.
  rewrite wrap_size_small by lia.
  split; [split; simpl; unfold kCheapPrepend; lia|].
  split; [|by rewrite Hmem]. unfold content at 1. simpl. rewrite <- Hc1.
  rewrite <- Hsrc at 1. by rewrite (splice_written _ _ _ _ _ E) by lia.
Qed.

Lemma retrieve_ok b len :
  buffer_wf b → 0 ≤ len →
  buffer_wf (retrieve b len) ∧ content (retrieve b len) = drop (Z.to_nat len) (content b).
Proof.
  intros Hwf Hlen. unfold retrieve. rewrite readableBytes_wf by done. buffer_facts Hwf.
  destruct (Z.ltb_spec len (write_index_ b - read_index_ b)).
  - rewrite wrap_size_small by (unfold size_max, vector_max_size in *; lia).
    split; [split; simpl; unfold kCheapPrepend; lia|].
    unfold content. simpl. rewrite skipn_firstn_comm, drop_drop. f_equal; [lia|f_equal; lia].
  - split; [split; simpl; unfold kCheapPrepend; lia|].
    rewrite drop_ge; [by unfold content|].
    unfold content. rewrite length_take. lia.
Qed.

Lemma retrieveAsString_ok b len :
  buffer_wf b → 0 ≤ len ≤ readableBytes b →
  retrieveAsString b len = Ok (take (Z.to_nat len) (content b), retrieve b len).
Proof.
  intros Hwf Hlen. rewrite readableBytes_wf in Hlen by done. buffer_facts Hwf.
  unfold retrieveAsString, peek. rewrite slice_ok by lia. simpl.
  unfold content. rewrite take_take. do 4 f_equal. lia.
Qed.

Section io.
Context {K : Type} `{!Kernel K} `{!KernelLaws K}.

(** The [iovec] lengths [readFd] offers. *)
Definition read_vec (b : Buffer) : list Z :=
  if extra_buffer_size <? writeableBytes b then [writeableBytes b]
  else [writeableBytes b; extra_buffer_size].

Lemma read_vec_sum b :
  buffer_wf b → 0 ≤ sum_list_Z (read_vec b) ≤ writeableBytes b + extra_buffer_size.
Proof.
  intros Hwf. rewrite <- (Z.add_0_r (writeableBytes b)) at 1.
  pose proof (writeableBytes_wf b Hwf) as E. buffer_facts Hwf.
  unfold read_vec, extra_buffer_size. destruct (_ <? _); unfold sum_list_Z; simpl; lia.
Qed.

Lemma readFd_ok fd error k b :
  buffer_wf b → room_for b extra_buffer_size →
  match sys_readv fd (read_vec b) k with
  | (RdErr e, k') => readFd fd error (k, b) = Ok ((-1, e), (k', b))
  | (RdOk bs, k') => ∃ b',
      readFd fd error (k, b) = Ok ((zlen bs, error), (k', b')) ∧ buffer_wf b' ∧
      content b' = content b ++ bs ∧
      zlen (buffer_ b') ≤ zlen (buffer_ b) + extra_buffer_size
  end.
Proof.
  intros Hwf Hroom. unfold readFd. fold (read_vec b).
  destruct (sys_readv fd (read_vec b) k) as [[bs|e] k'] eqn:E; [|done].
  pose proof (readv_law _ _ _ _ _ (proj1 (read_vec_sum b Hwf)) E) as [_ Hlen].
  pose proof (read_vec_sum b Hwf) as [_ Hsum].
  pose proof (writeableBytes_wf b Hwf) as Hw. destruct Hroom as [_ Hroom].
  pose proof (zlen_nonneg bs) as Hbs. buffer_facts Hwf. unfold beginWrite.
  set (w := writeableBytes b) in *.
  assert (zlen (take (Z.to_nat w) bs) ≤ w) as Hin by (rewrite zlen_take; lia).
  destruct (splice (write_index_ b) (take (Z.to_nat w) bs) (buffer_ b)) as [mem|] eqn:Em.
  2: { rewrite splice_ok in Em by lia. done. }
  pose proof (splice_zlen _ _ _ _ Em) as Hmem. mcbn.
  rewrite splice_ok; [|lia|rewrite zlen_replicate, zlen_drop; lia]. mcbn.
  change (Z.to_nat 0) with 0%nat. rewrite take_0, app_nil_l.
  destruct (Z.leb_spec (zlen bs) w) as [Hle|Hgt].
  - eexists; split; [done|]. simpl. rewrite wrap_size_small by lia.
    split; [split; simpl; unfold kCheapPrepend; lia|]. split; [|unfold extra_buffer_size; lia].
    assert (take (Z.to_nat w) bs = bs) as Ht by (apply take_ge; unfold zlen in *; lia).
    rewrite Ht in Em. unfold content at 1. simpl.
    by rewrite (splice_written _ _ _ _ _ Em) by lia.
  - set (b1 := mkBuffer mem (read_index_ b) (zlen mem)).
    assert (buffer_wf b1) as Hwf1 by (split; simpl; unfold kCheapPrepend; lia).
    set (ext := drop (Z.to_nat w) bs ++ _).
    assert (zlen (drop (Z.to_nat w) bs) = zlen bs - w) as Hdrop by (rewrite zlen_drop; lia).
    rewrite (wrap_size_small (zlen bs - w)) by (unfold extra_buffer_size in *; lia).
    destruct (append_ok b1 ext (zlen bs - w)) as (b' & E' & Hwf' & Hc & Hz); [done| | |].
    { split; [lia|]. simpl. lia. }
    { unfold ext. autorewrite with zlen. lia. }
    exists b'. match goal with |- context [append ?x _ _] => change x with b1 end.
    rewrite E'. mcbn.
    split; [done|]. split; [done|]. split.
    + rewrite Hc. unfold ext. rewrite take_app_le by (unfold zlen in *; lia).
      rewrite take_ge by (unfold zlen in *; lia). unfold b1, content at 1. simpl.
      replace (zlen mem - read_index_ b) with
        (write_index_ b + zlen (take (Z.to_nat w) bs) - read_index_ b)
        by (rewrite zlen_take; lia).
      rewrite (splice_written _ _ _ _ _ Em) by lia. fold (content b).
      by rewrite <- app_assoc, take_drop.
    + rewrite Hz. unfold b1. simpl. destruct (needs_growth _ _); lia.
Qed.

Lemma writeFd_ok fd error k b :
  buffer_wf b →
  writeFd fd error (k, b) =
    match sys_write fd (content b) k with
    | (WrOk n, k') => Ok ((n, error), (k', b))
    | (WrErr e, k') => Ok ((-1, e), (k', b))
    end.
Proof.
  intros Hwf. unfold writeFd. rewrite readableBytes_wf by done. buffer_facts Hwf.
  replace (read_index_ b + _) with (write_index_ b) by lia.
  rewrite wrap_size_small by lia. rewrite slice_content by done. simpl.
  by destruct (sys_write fd (content b) k) as [[]].
Qed.
End io.

#[export] Hint Resolve slice_content : muduo.

(** ** The specification: a queue of bytes *)

Module ByteQueue.
Inductive op : Type :=
| Append (str : list byte)
| Retrieve (len : Z)
| RetrieveAll
| RetrieveAsString (len : Z)
| RetrieveAllAsString
| ReadFd (fd : Z)
| WriteFd (fd : Z).

Inductive reply : Type :=
| RUnit
| RString (s : list byte)
| RIo (n error : Z).

Section spec.
Context {K : Type} `{!Kernel K}.

(** What each operation does to the queue [q], whatever the kernel answers. *)
Inductive step : K * list byte → op → reply → K * list byte → Prop :=
| step_append k q str : step (k, q) (Append str) RUnit (k, q ++ str)
| step_retrieve k q n : 0 ≤ n → step (k, q) (Retrieve n) RUnit (k, drop (Z.to_nat n) q)
| step_retrieve_all k q : step (k, q) RetrieveAll RUnit (k, [])
| step_as_string k q n : 0 ≤ n ≤ zlen q →
    step (k, q) (RetrieveAsString n) (RString (take (Z.to_nat n) q)) (k, drop (Z.to_nat n) q)
| step_all_as_string k q : step (k, q) RetrieveAllAsString (RString q) (k, [])
| step_read k q fd lens bs k' : sys_readv fd lens k = (RdOk bs, k') →
    step (k, q) (ReadFd fd) (RIo (zlen bs) 0) (k', q ++ bs)
| step_read_err k q fd lens e k' : sys_readv fd lens k = (RdErr e, k') →
    step (k, q) (ReadFd fd) (RIo (-1) e) (k', q)
| step_write k q fd n k' : sys_write fd q k = (WrOk n, k') →
    step (k, q) (WriteFd fd) (RIo n 0) (k', q)
| step_write_err k q fd e k' : sys_write fd q k = (WrErr e, k') →
    step (k, q) (WriteFd fd) (RIo (-1) e) (k', q).

Inductive steps : K * list byte → list op → list reply → K * list byte → Prop :=
| steps_nil s : steps s [] [] s
| steps_cons s o r s' os rs s'' :
    step s o r s' → steps s' os rs s'' → steps s (o :: os) (r :: rs) s''.
End spec.
End ByteQueue.

Section refinement.
Context {K : Type} `{!Kernel K} `{!KernelLaws K}.
Import ByteQueue.

Definition pure_op (o : outcome (reply * Buffer)) (k : K) : outcome (reply * (K * Buffer)) :=
  '(r, b) ← o; Ok (r, (k, b)).

(** The operation of the class for each operation of the specification; the
    callers of [readFd] and [writeFd] start with an error code of 0. *)
Definition run_op (o : op) : M (K * Buffer) reply := λ '(k, b),
  match o with
  | Append str => pure_op (b ← append b str (zlen str); Ok (RUnit, b)) k
  | Retrieve n => Ok (RUnit, (k, retrieve b n))
  | RetrieveAll => Ok (RUnit, (k, retrieveAll b))
  | RetrieveAsString n => pure_op ('(s, b) ← retrieveAsString b n; Ok (RString s, b)) k
  | RetrieveAllAsString => pure_op ('(s, b) ← retrieveAllAsString b; Ok (RString s, b)) k
  | ReadFd fd => '((n, e), s) ← readFd fd 0 (k, b); Ok (RIo n e, s)
  | WriteFd fd => '((n, e), s) ← writeFd fd 0 (k, b); Ok (RIo n e, s)
  end.

Fixpoint run_ops (os : list op) : M (K * Buffer) (list reply) :=
  match os with
  | [] => mret []
  | o :: os => r ← run_op o; rs ← run_ops os; mret (r :: rs)
  end.

(** How much an operation may grow the vector. *)
Definition op_cost (o : op) : Z :=
  match o with Append str => zlen str | ReadFd _ => extra_buffer_size | _ => 0 end.

(** A caller must not ask for a string longer than what is readable. *)
Definition op_allowed (o : op) (b : Buffer) : Prop :=
  match o with
  | RetrieveAsString n => 0 ≤ n ≤ readableBytes b
  | Retrieve n => 0 ≤ n
  | _ => True
  end.

Lemma op_cost_nonneg o : 0 ≤ op_cost o.
Proof. destruct o; simpl; try apply zlen_nonneg; unfold extra_buffer_size; lia. Qed.

Lemma retrieve_zlen b n : zlen (buffer_ (retrieve b n)) = zlen (buffer_ b).
Proof. unfold retrieve. by destruct (_ <? _). Qed.

Lemma retrieveAll_ok b : buffer_wf b → buffer_wf (retrieveAll b) ∧ content (retrieveAll b) = [].
Proof.
  intros Hwf. buffer_facts Hwf. split; [|by unfold content].
  split; simpl; unfold kCheapPrepend; lia.
Qed.

Lemma retrieveAllAsString_ok b :
  buffer_wf b → retrieveAllAsString b = Ok (content b, retrieveAll b).
Proof.
  intros Hwf. unfold retrieveAllAsString.
  assert (0 ≤ readableBytes b) by (rewrite <- content_zlen by done; apply zlen_nonneg).
  rewrite retrieveAsString_ok by (done || lia). rewrite take_ge.
  - unfold retrieve. by rewrite Z.ltb_irrefl.
  - rewrite <- content_zlen by done. unfold zlen. lia.
Qed.

Lemma run_op_simulates o k b :
  buffer_wf b → room_for b (op_cost o) → op_allowed o b →
  ∃ r k' b', run_op o (k, b) = Ok (r, (k', b')) ∧ buffer_wf b' ∧
    step (k, content b) o r (k', content b') ∧
    zlen (buffer_ b') ≤ zlen (buffer_ b) + op_cost o.
Proof.
  intros Hwf Hroom Hal. destruct o as [str|n| |n| |fd|fd]; simpl in *.
  - destruct (append_ok b str (zlen str)) as (b' & E & Hwf' & Hc & Hz); [done|done|lia|].
    exists RUnit, k, b'. unfold pure_op. rewrite E. split; [done|]. split; [done|].
    split; [rewrite Hc, take_ge by (unfold zlen; lia); constructor|].
    buffer_facts Hwf. destruct Hroom. rewrite Hz. destruct (needs_growth _ _); lia.
  - destruct (retrieve_ok b n) as [Hwf' Hc]; [done..|].
    exists RUnit, k, (retrieve b n). split; [done|]. split; [done|].
    rewrite Hc, retrieve_zlen. split; [by constructor|lia].
  - destruct (retrieveAll_ok b Hwf) as [Hwf' Hc].
    exists RUnit, k, (retrieveAll b). rewrite Hc. simpl.
    split; [done|]. split; [done|]. split; [constructor|lia].
  - rewrite retrieveAsString_ok by done. destruct (retrieve_ok b n) as [Hwf' Hc]; [done|lia|].
    exists (RString (take (Z.to_nat n) (content b))), k, (retrieve b n).
    split; [done|]. split; [done|]. rewrite Hc, retrieve_zlen.
    split; [constructor; by rewrite content_zlen|lia].
  - rewrite retrieveAllAsString_ok by done. destruct (retrieveAll_ok b Hwf) as [Hwf' Hc].
    exists (RString (content b)), k, (retrieveAll b).
    rewrite Hc. split; [done|]. split; [done|]. split; [constructor|simpl; lia].
  - pose proof (readFd_ok fd 0 k b Hwf Hroom) as H.
    destruct (sys_readv fd (read_vec b) k) as [[bs|e] k'] eqn:E.
    + destruct H as (b' & E' & Hwf' & Hc & Hz). exists (RIo (zlen bs) 0), k', b'.
      unfold mbind, outcome_bind. rewrite E', Hc.
      split; [done|]. split; [done|]. split; [by econstructor|done].
    + exists (RIo (-1) e), k', b. unfold mbind, outcome_bind. rewrite H.
      split; [done|]. split; [done|]. split; [by econstructor|unfold extra_buffer_size; lia].
  - rewrite writeFd_ok by done. destruct (sys_write fd (content b) k) as [[n|e] k'] eqn:E.
    + exists (RIo n 0), k', b. split; [done|]. split; [done|]. split; [by constructor|lia].
    + exists (RIo (-1) e), k', b. split; [done|]. split; [done|]. split; [by constructor|lia].
Qed.
End refinement.

Section properties.
Context {K : Type} `{!Kernel K} `{!KernelLaws K}.
Import ByteQueue.

Definition total_cost (os : list op) : Z := foldr (λ o c, op_cost o + c) 0 os.

(** The operations whose argument cannot ask for unreadable bytes. *)
Definition never_overreads (o : op) : Prop :=
  match o with RetrieveAsString _ => False | Retrieve n => 0 ≤ n | _ => True end.

Lemma total_cost_nonneg os : 0 ≤ total_cost os.
Proof. induction os as [|o os IH]; simpl; [lia|]. pose proof (op_cost_nonneg o). lia. Qed.


(** One operation, the string-returning ones with an explicit length
    included: if the caller does not ask for more than [readableBytes()], the
    operation returns, keeps the layout, and does what the byte queue does. *)
Theorem buffer_op_refines (o : op) (k : K) (b : Buffer) :
  buffer_wf b → room_for b (op_cost o) → op_allowed o b →
  ∃ r k' b', run_op o (k, b) = Ok (r, (k', b')) ∧ buffer_wf b' ∧
             step (k, content b) o r (k', content b').
Proof.
  intros Hwf Hroom Hal.
  destruct (run_op_simulates o k b) as (r & k' & b' & ? & ? & ? & _); [done..|].
  by exists r, k', b'.
Qed.

(** [append] grows the vector exactly when the free bytes behind the data
    together with the dead bytes in front of it (beyond the 8 reserved) are too
    few; then the new size is [write_index_ + len], and otherwise the vector
    keeps its size.  Either way the readable bytes are the old ones followed by
    the first [len] bytes of [str]. *)
Theorem append_space (b : Buffer) (str : list byte) (len : Z) :
  buffer_wf b → room_for b len → len ≤ zlen str →
  ∃ b', append b str len = Ok b' ∧
    content b' = content b ++ take (Z.to_nat len) str ∧
    zlen (buffer_ b') =
      if (zlen (buffer_ b) - write_index_ b <? len) &&
         (read_index_ b - kCheapPrepend + (zlen (buffer_ b) - write_index_ b) <? len)
      then write_index_ b + len else zlen (buffer_ b).
Proof.
  intros Hwf Hroom Hlen. destruct (append_ok b str len) as (b' & E & _ & Hc & Hz); [done..|].
  exists b'. split; [done|]. split; [done|]. rewrite Hz.
  unfold needs_growth, needs_space, prependableBytes. rewrite !writeableBytes_wf by done.
  set (free := zlen (buffer_ b) - write_index_ b).
  assert ((read_index_ b + free <? len + kCheapPrepend) =
          (read_index_ b - kCheapPrepend + free <? len)) as ->; [|done].
  destruct (Z.ltb_spec (read_index_ b + free) (len + kCheapPrepend)),
    (Z.ltb_spec (read_index_ b - kCheapPrepend + free) len); lia || done.
Qed.

(** [retrieveAsString] checks nothing: asked for more than
    [readableBytes()], it either reads outside the vector, or returns a string
    of the asked length that continues behind the readable bytes with stale
    ones, and empties the buffer. *)
Theorem retrieveAsString_overread (b : Buffer) (len : Z) :
  buffer_wf b → readableBytes b < len →
  if read_index_ b + len <=? zlen (buffer_ b) then
    ∃ stale, retrieveAsString b len = Ok (content b ++ stale, retrieveAll b) ∧
             zlen stale = len - readableBytes b
  else retrieveAsString b len = Fault OutOfBounds.
Proof.
  intros Hwf Hlen. pose proof (content_zlen b Hwf) as Hc.
  rewrite readableBytes_wf in * by done. buffer_facts Hwf.
  unfold retrieveAsString, peek, retrieve. rewrite readableBytes_wf by done.
  rewrite (proj2 (Z.ltb_ge _ _)) by lia.
  destruct (Z.leb_spec (read_index_ b + len) (zlen (buffer_ b))) as [Hin|Hout].
  - rewrite slice_ok by lia. mcbn. replace (read_index_ b + len - read_index_ b) with len by lia.
    set (tail := drop (Z.to_nat (read_index_ b)) (buffer_ b)).
    exists (drop (length (content b)) (take (Z.to_nat len) tail)). split.
    + do 2 f_equal. rewrite <- (take_drop (length (content b)) (take (Z.to_nat len) tail)) at 1.
      f_equal. f_equal. rewrite take_take.
      unfold content. fold tail. rewrite length_take. f_equal.
      unfold tail. rewrite length_drop. unfold zlen in *. lia.
    + unfold zlen in *. rewrite length_drop, length_take. unfold tail. rewrite length_drop. lia.
  - unfold slice. rewrite (proj2 (Z.leb_gt _ _) Hout). by rewrite andb_false_r.
Qed.
End properties.

(** ** Witnesses *)

Definition bytes_of (s : list Z) : list byte :=
  omap (λ z, Byte.of_N (Z.to_N z)) s.

(** "hello world" in a buffer of 8 writeable bytes, as in test_Buffer.h. *)
Definition hello_world : list byte :=
  bytes_of [104; 101; 108; 108; 111; 32; 119; 111; 114; 108; 100].
Definition test_buffer : Buffer := mkBuffer (replicate 16 x00) 8 8.
Definition read_kernel : scripted := idle_kernel <| sk_reads := [RdOk hello_world; RdErr EAGAIN] |>.

Example test_buffer_made : make_Buffer 8 = Ok test_buffer.
Proof. reflexivity. Qed.

Lemma test_buffer_wf : buffer_wf test_buffer.
Proof. by split; vm_compute. Qed.


Lemma buffer_op_refines_witness :
  ∃ r k' b', run_op (ByteQueue.ReadFd 3) (read_kernel, test_buffer) = Ok (r, (k', b')) ∧
    buffer_wf b' ∧
    ByteQueue.step (read_kernel, content test_buffer) (ByteQueue.ReadFd 3) r (k', content b').
Proof.
  apply (buffer_op_refines (ByteQueue.ReadFd 3)).
  - exact test_buffer_wf.
  - by vm_compute.
  - exact I.
Defined.

Lemma append_space_witness :
  ∃ b', append test_buffer hello_world 11 = Ok b' ∧
    content b' = content test_buffer ++ take (Z.to_nat 11) hello_world ∧
    zlen (buffer_ b') = 19.
Proof.
  apply (append_space test_buffer hello_world 11).
  - exact test_buffer_wf.
  - by vm_compute.
  - by vm_compute.
Defined.

Lemma retrieveAsString_overread_witness :
  ∃ stale, retrieveAsString test_buffer 3 = Ok (content test_buffer ++ stale, retrieveAll test_buffer)
           ∧ zlen stale = 3.
Proof.
  apply (retrieveAsString_overread test_buffer 3).
  - exact test_buffer_wf.
  - by vm_compute.
Defined.
