(* ===== verification/Timestamp.v ===== *)
(** * Points in time (Timestamp.h/.cc, MonotonicTimestamp.h/.cc)

    Both classes wrap an [int64_t] of microseconds; they differ in the clock
    [now()] reads.  [addTime] takes a number of seconds as a [double]: doubles
    are IEEE binary64 values, the [spec_float] of the Standard Library, and
    the conversion is the one [std::chrono::duration_cast] performs: a double
    multiplication by 1e6 and a truncating conversion to [int64_t], which is
    undefined out of range. *)

From Stdlib Require Import Floats.SpecFloat Ascii.
From stdpp Require Import pretty.
From S2P Require Import Prelude Kernel.

(** ** Doubles *)

Definition prec : Z := 53.
Definition emax : Z := 1024.
Abbreviation double := spec_float.
Definition dmul : double → double → double := SFmul prec emax.
Definition double_of_Z (z : Z) : double := binary_normalize prec emax z 0 false.
(** [x > 0.0] *)
Definition positive_double (x : double) : bool := SFltb (S754_zero false) x.

(** [static_cast<int64_t>(x)]: towards zero, undefined out of range. *)
Definition int64_of_double (x : double) : outcome Z :=
  match x with
  | S754_zero _ => Ok 0
  | S754_finite s m e =>
      let a := if 0 <=? e then Zpos m * 2 ^ e else Zpos m / 2 ^ (- e) in
      let z := if s then - a else a in
      if in_int64 z then Ok z else Fault BadConversion
  | S754_infinity _ | S754_nan => Fault BadConversion
  end.

(** [duration_cast<microseconds>(duration<double>(seconds)).count()] *)
Definition microseconds_of_seconds (seconds : double) : outcome Z :=
  int64_of_double (dmul seconds (double_of_Z 1000000)).

(** ** The two classes *)

Module Timestamp.
Definition t : Type := Z.   (* microSecondsSinceEpoch_ *)
Definition invaild : t := 0.
Definition lt (a b : t) : bool := a <? b.
Definition eq (a b : t) : bool := a =? b.
Definition neq (a b : t) : bool := negb (a =? b).
Definition gt (a b : t) : bool := b <? a.
Definition vaild (a : t) : bool := 0 <? a.

Definition now {K} `{!Kernel K} : M K t := λ k, Ok (sys_system_now k).

Definition addTime (timestamp : t) (seconds : double) : outcome t :=
  us ← microseconds_of_seconds seconds;
  if in_int64 (timestamp + us) then Ok (timestamp + us) else Fault SignedOverflow.

(** [struct tm], as far as [to_string] reads it. *)
Record tm : Type := Tm {
  tm_year : Z; tm_mon : Z; tm_mday : Z; tm_hour : Z; tm_min : Z; tm_sec : Z
}.

(** printf's [%0wd] and [%wd]. *)
Fixpoint repeat_char (c : ascii) (n : nat) : string :=
  match n with O => String.EmptyString | S n => String.String c (repeat_char c n) end.
Definition missing (w : Z) (s : string) : nat := Z.to_nat (w - Z.of_nat (String.length s)).
Definition zero_padded (w z : Z) : string :=
  if z <? 0 then
    let digits := pretty (- z) in
    ("-" +:+ repeat_char "0"%char (missing (w - 1) digits) +:+ digits)%string
  else (repeat_char "0"%char (missing w (pretty z)) +:+ pretty z)%string.
Definition space_padded (w z : Z) : string :=
  (repeat_char " "%char (missing w (pretty z)) +:+ pretty z)%string.

(** [to_string()], with the C library's [localtime] as a parameter; the 128
    bytes of [buf] keep at most 127 characters. *)
Definition to_string (localtime : Z → tm) (ts : t) : string :=
  let t := localtime (Z.quot ts 1000000) in
  String.substring 0 127
    (space_padded 4 (tm_year t + 1900) +:+ "/" +:+ zero_padded 2 (tm_mon t + 1) +:+ "/" +:+
     zero_padded 2 (tm_mday t) +:+ " " +:+ zero_padded 2 (tm_hour t) +:+ "/" +:+
     zero_padded 2 (tm_min t) +:+ "/" +:+ zero_padded 2 (tm_sec t))%string.
End Timestamp.

Module MonotonicTimestamp.
Definition t : Type := Z.   (* microSecondsSinceEpoch_ *)
Definition invaild : t := 0.
Definition lt (a b : t) : bool := a <? b.
Definition eq (a b : t) : bool := a =? b.
Definition neq (a b : t) : bool := negb (a =? b).
Definition gt (a b : t) : bool := b <? a.
Definition vaild (a : t) : bool := 0 <? a.

Definition now {K} `{!Kernel K} : M K t := λ k, Ok (sys_steady_now k).

Definition addTime (m_timestamp : t) (seconds : double) : outcome t :=
  us ← microseconds_of_seconds seconds;
  if in_int64 (m_timestamp + us) then Ok (m_timestamp + us) else Fault SignedOverflow.
End MonotonicTimestamp.

(** The values of test_Timestamp.h: 1 s + 2.5 s = 3.5 s. *)
Definition two_and_a_half : double := SFdiv prec emax (double_of_Z 5) (double_of_Z 2).
Example addTime_test : Timestamp.addTime 1000000 two_and_a_half = Ok 3500000.
Proof. reflexivity. Qed.
Example to_string_test :
  Timestamp.to_string (λ _, Timestamp.Tm 124 0 2 3 4 5) 0 = "2024/01/02 03/04/05"%string.
Proof. reflexivity. Qed.

(** ** Signs are kept by the conversion *)

(** A double that is not negative. *)
Definition nonneg_double (x : double) : bool :=
  match x with
  | S754_zero _ | S754_infinity false | S754_finite false _ _ => true
  | _ => false
  end.

Lemma positive_nonneg x : positive_double x = true → nonneg_double x = true.
Proof. by destruct x as [[]|[]| |[]]. Qed.

Lemma binary_round_aux_nonneg m e l :
  nonneg_double (binary_round_aux prec emax false m e l) = true ∨
  binary_round_aux prec emax false m e l = S754_nan.
Proof.
  unfold binary_round_aux. destruct (shr_fexp _ _ _ _ _) as [mrs e'].
  destruct (shr_fexp _ _ _ _ _) as [mrs' e''].
  destruct (shr_m mrs'); [by left| |by right]. destruct (_ <=? _); by left.
Qed.

Lemma int64_of_double_range x z : int64_of_double x = Ok z → int64_min ≤ z ≤ int64_max.
Proof.
  destruct x as [s|s| |s m e]; simpl; try done.
  - intros [= <-]. by unfold int64_min, int64_max.
  - unfold in_int64. destruct (_ && _) eqn:E; [|done]. intros [= <-].
    apply andb_true_iff in E as [?%Z.leb_le ?%Z.leb_le]. lia.
Qed.

Lemma int64_of_double_nonneg x z :
  nonneg_double x = true → int64_of_double x = Ok z → 0 ≤ z.
Proof.
  destruct x as [s|s| |[] m e]; simpl; try done.
  - intros _ [= <-]. lia.
  - intros _. destruct (in_int64 _); [|done]. intros [= <-].
    destruct (Z.leb_spec 0 e); [apply Z.mul_nonneg_nonneg|apply Z.div_pos]; lia.
Qed.

Lemma microseconds_nonneg s us :
  nonneg_double s = true → microseconds_of_seconds s = Ok us → 0 ≤ us.
Proof.
  unfold microseconds_of_seconds, dmul.
  assert (∃ m e, double_of_Z 1000000 = S754_finite false m e) as (m & e & ->).
  { vm_compute. eauto. }
  destruct s as [s|[]| |[] ms es]; simpl; try done.
  - intros _ [= <-]. lia.
  - intros _ H. destruct (binary_round_aux_nonneg (Zpos (ms * m)) (es + e) loc_Exact)
      as [Hn|Hn].
    + by apply int64_of_double_nonneg in H.
    + by rewrite Hn in H.
Qed.
