(* ===== verification/TimerQueue.v ===== *)
(** * Timers (Timer.h/.cc, TimerId.h, TimerQueue.h/.cc)

    [timer_list_] is a [std::map] from (expiration, sequence) to an owning
    pointer: a list of pairs sorted by key, where the pointer is [None] when it
    is null.  [active_timer_set_] and [canceling_timer_set_] are sets of
    (address, sequence).  The [Timer] objects live in a heap indexed by
    address; what [new] returns is the parameter [alloc], which may reuse the
    address of a deleted timer. *)

From Stdlib Require Import Floats.SpecFloat Sorting.Sorted.
From stdpp Require Import sorting.
From S2P Require Import Prelude Kernel Timestamp.

Definition LLONG_MAX : Z := int64_max.

(** ** class Timer *)

Record Timer (CB : Type) : Type := mkTimer {
  callback_ : option CB;
  expiration_ : Z;
  interval_ : double;
  repeat_ : bool;
  sequence_ : Z
}.
Arguments mkTimer {CB} _ _ _ _ _.
Arguments callback_ {CB} _. Arguments expiration_ {CB} _. Arguments interval_ {CB} _.
Arguments repeat_ {CB} _. Arguments sequence_ {CB} _.
#[export] Instance set_expiration_ {CB} : Setter (@expiration_ CB) := λ f t,
  mkTimer (callback_ t) (f (expiration_ t)) (interval_ t) (repeat_ t) (sequence_ t).
#[global] Arguments set_expiration_ {CB} _ !_ /.

(** The constructor; [seq] is what [s_global_sequence_.fetch_add(1)] returned. *)
Definition make_Timer {CB} (cb : option CB) (when : Z) (interval : double) (seq : Z) : Timer CB :=
  mkTimer cb when interval (positive_double interval) seq.

Definition restart {CB} (t : Timer CB) (now : Z) : outcome (Timer CB) :=
  if repeat_ t then
    e ← MonotonicTimestamp.addTime now (interval_ t); Ok (t <| expiration_ := e |>)
  else Ok (t <| expiration_ := MonotonicTimestamp.invaild |>).

(** ** class TimerId *)

Record TimerId : Type := mkTimerId { tid_timer : positive; tid_sequence : Z }.

(** ** std::map<Entry, unique_ptr<Timer>> *)

Abbreviation Entry := (Z * Z)%type.
Definition entry_ltb (a b : Entry) : bool :=
  (a.1 <? b.1) || ((a.1 =? b.1) && (a.2 <? b.2)).
Abbreviation TimerList := (list (Entry * option positive)).

Fixpoint map_find (e : Entry) (l : TimerList) : option (option positive) :=
  match l with
  | [] => None
  | (e', v) :: l => if bool_decide (e = e') then Some v else map_find e l
  end.

Fixpoint map_set (e : Entry) (v : option positive) (l : TimerList) : TimerList :=
  match l with
  | [] => [(e, v)]
  | (e', v') :: l' =>
      if entry_ltb e e' then (e, v) :: l
      else if bool_decide (e = e') then (e, v) :: l'
      else (e', v') :: map_set e v l'
  end.

Fixpoint map_erase (e : Entry) (l : TimerList) : TimerList :=
  match l with
  | [] => []
  | (e', v') :: l => if bool_decide (e = e') then l else (e', v') :: map_erase e l
  end.

(** [begin()] .. [upper_bound(e)], and what follows. *)
Fixpoint map_upto (e : Entry) (l : TimerList) : TimerList * TimerList :=
  match l with
  | [] => ([], [])
  | (e', v') :: l' =>
      if entry_ltb e e' then ([], l)
      else let '(before, after) := map_upto e l' in ((e', v') :: before, after)
  end.

(** ** class TimerQueue *)

Record TimerQueue : Type := mkTimerQueue {
  timer_fd : Z;
  timer_fd_channel : positive;
  timer_list_ : TimerList;
  active_timer_set_ : gset (positive * Z);
  canceling_timer_set_ : gset (positive * Z);
  is_running_callback_ : bool
}.
#[export] Instance set_timer_list_ : Setter timer_list_ := λ f q,
  mkTimerQueue (timer_fd q) (timer_fd_channel q) (f (timer_list_ q)) (active_timer_set_ q)
    (canceling_timer_set_ q) (is_running_callback_ q).
#[global] Arguments set_timer_list_ _ !_ /.
#[export] Instance set_active_timer_set_ : Setter active_timer_set_ := λ f q,
  mkTimerQueue (timer_fd q) (timer_fd_channel q) (timer_list_ q) (f (active_timer_set_ q))
    (canceling_timer_set_ q) (is_running_callback_ q).
#[global] Arguments set_active_timer_set_ _ !_ /.
#[export] Instance set_canceling_timer_set_ : Setter canceling_timer_set_ := λ f q,
  mkTimerQueue (timer_fd q) (timer_fd_channel q) (timer_list_ q) (active_timer_set_ q)
    (f (canceling_timer_set_ q)) (is_running_callback_ q).
#[global] Arguments set_canceling_timer_set_ _ !_ /.
#[export] Instance set_is_running_callback_ : Setter is_running_callback_ := λ f q,
  mkTimerQueue (timer_fd q) (timer_fd_channel q) (timer_list_ q) (active_timer_set_ q)
    (canceling_timer_set_ q) (f (is_running_callback_ q)).
#[global] Arguments set_is_running_callback_ _ !_ /.

(** What the timer code works on: the kernel (clock and timerfd), the heap of
    timers, the counter [Timer::s_global_sequence_] and one queue. *)
Record TimerState (K CB : Type) : Type := mkTimerState {
  ts_kernel : K;
  ts_heap : gmap positive (Timer CB);
  s_global_sequence_ : Z;
  ts_queue : TimerQueue
}.
Arguments mkTimerState {K CB} _ _ _ _.
Arguments ts_kernel {K CB} _. Arguments ts_heap {K CB} _.
Arguments s_global_sequence_ {K CB} _. Arguments ts_queue {K CB} _.
#[export] Instance set_ts_kernel {K CB} : Setter (@ts_kernel K CB) := λ f s,
  mkTimerState (f (ts_kernel s)) (ts_heap s) (s_global_sequence_ s) (ts_queue s).
#[global] Arguments set_ts_kernel {K CB} _ !_ /.
#[export] Instance set_ts_heap {K CB} : Setter (@ts_heap K CB) := λ f s,
  mkTimerState (ts_kernel s) (f (ts_heap s)) (s_global_sequence_ s) (ts_queue s).
#[global] Arguments set_ts_heap {K CB} _ !_ /.
#[export] Instance set_s_global_sequence_ {K CB} : Setter (@s_global_sequence_ K CB) := λ f s,
  mkTimerState (ts_kernel s) (ts_heap s) (f (s_global_sequence_ s)) (ts_queue s).
#[global] Arguments set_s_global_sequence_ {K CB} _ !_ /.
#[export] Instance set_ts_queue {K CB} : Setter (@ts_queue K CB) := λ f s,
  mkTimerState (ts_kernel s) (ts_heap s) (s_global_sequence_ s) (f (ts_queue s)).
#[global] Arguments set_ts_queue {K CB} _ !_ /.

Section queue.
Context {K CB : Type} `{!Kernel K}.
Abbreviation S := (TimerState K CB).

Definition queue : M S TimerQueue := gets ts_queue.
Definition set_queue (f : TimerQueue → TimerQueue) : M S unit := modify (λ s, s <| ts_queue ::= f |>).
Definition in_kernel {A} (f : K → A * K) : M S A := λ s,
  let '(a, k) := f (ts_kernel s) in Ok (a, s <| ts_kernel := k |>).

(** Follow a [Timer*]. *)
Definition deref (p : option positive) : M S (Timer CB) :=
  match p with
  | None => throw NullPointer
  | Some p => s ← get; from_option_or DanglingPointer (ts_heap s !! p)
  end.
(** Destroy the object an owning pointer points to. *)
Definition free (p : option positive) : M S unit :=
  match p with None => mret tt | Some p => modify (λ s, s <| ts_heap ::= delete p |>) end.

(** [timer_list_[entry]]: a missing entry is created with a null pointer. *)
Definition list_at (e : Entry) : M S (option positive) :=
  q ← queue;
  match map_find e (timer_list_ q) with
  | Some v => mret v
  | None => set_queue (λ q, q <| timer_list_ ::= map_set e None |>) ;; mret None
  end.
(** [*timer_list_[entry]] *)
Definition timer_at (e : Entry) : M S (Timer CB) := p ← list_at e; deref p.
(** [timer_list_[entry] = std::move(p)]: the timer that was there is deleted. *)
Definition list_assign (e : Entry) (p : option positive) : M S unit :=
  old ← list_at e;
  free old ;;
  set_queue (λ q, q <| timer_list_ ::= map_set e p |>).
(** [timer_list_.erase(entry)] *)
Definition list_erase (e : Entry) : M S unit :=
  q ← queue;
  match map_find e (timer_list_ q) with
  | Some v => set_queue (λ q, q <| timer_list_ ::= map_erase e |>) ;; free v
  | None => mret tt
  end.

Definition assert_sizes : M S unit :=
  q ← queue; assert_ (zlen (timer_list_ q) =? Z.of_nat (base.size (active_timer_set_ q))).

(** [howMuchTimeFromNow(when)]: seconds and nanoseconds, at least 100 us. *)
Definition howMuchTimeFromNow (when : Z) : M S (Z * Z) :=
  now ← in_kernel sys_steady_now;
  lift (check (in_int64 (when - now)) SignedOverflow) ;;
  let microseconds := if when - now <? 100 then 100 else when - now in
  mret (Z.quot microseconds 1000000, Z.rem microseconds 1000000 * 1000).

Definition resetTimerFd (expiration : Z) : M S unit :=
  q ← queue;
  new_value ← howMuchTimeFromNow expiration;
  _ ← in_kernel (sys_timerfd_settime (timer_fd q) new_value.1 new_value.2);
  mret tt.                                  (* an error is logged *)

Definition readTimerFd : M S unit :=
  q ← queue; _ ← in_kernel (sys_timerfd_read (timer_fd q)); mret tt.

Definition insert (isInLoopThread : bool) (timer : positive) : M S bool :=
  assert_ isInLoopThread ;;
  assert_sizes ;;
  t ← deref (Some timer);
  let new_entry := (expiration_ t, sequence_ t) in
  let new_timer := (timer, new_entry.2) in
  q ← queue;
  let is_earily_changed :=
    match timer_list_ q with
    | [] => true
    | ((first, _), _) :: _ => MonotonicTimestamp.lt new_entry.1 first
    end in
  list_assign new_entry (Some timer) ;;
  q ← queue;
  let success := bool_decide (new_timer ∉ active_timer_set_ q) in
  set_queue (λ q, q <| active_timer_set_ ::= union {[new_timer]} |>) ;;
  assert_ success ;;
  assert_sizes ;;
  mret is_earily_changed.

Definition erase (del_timer : positive * Z) : M S unit :=
  q ← queue;
  if bool_decide (del_timer ∈ active_timer_set_ q) then
    t ← deref (Some del_timer.1);
    let del_entry := (expiration_ t, sequence_ t) in
    set_queue (λ q, q <| active_timer_set_ ::= λ a, a ∖ {[del_timer]} |>) ;;
    list_erase del_entry
  else mret tt.

Definition addTimerInLoop (isInLoopThread : bool) (timer : positive) : M S unit :=
  assert_ isInLoopThread ;;
  is_earily_changed ← insert isInLoopThread timer;
  when is_earily_changed (t ← deref (Some timer); resetTimerFd (expiration_ t)).

Definition cancelTimerInLoop (isInLoopThread : bool) (timer_id : TimerId) : M S unit :=
  assert_ isInLoopThread ;;
  assert_sizes ;;
  let del_timer := (tid_timer timer_id, tid_sequence timer_id) in
  q ← queue;
  (if is_running_callback_ q then
     set_queue (λ q, q <| canceling_timer_set_ ::= union {[del_timer]} |>)
   else erase del_timer) ;;
  assert_sizes.

Definition getExpiredTimers (now : Z) : M S (list Entry) :=
  assert_sizes ;;
  q ← queue;
  let edge_entry := (now, LLONG_MAX) in
  let '(before, after) := map_upto edge_entry (timer_list_ q) in
  match after with
  | [] => mret tt
  | (_, v) :: _ => t ← deref v; assert_ (MonotonicTimestamp.gt (expiration_ t) now)
  end ;;
  mret (map fst before).

(** One round of the first loop of [reset]. *)
Definition reset_one (now : Z) (entry : Entry) : M S unit :=
  p ← list_at entry;
  let temp_ac_seq := entry.2 in
  t ← timer_at entry;
  q ← queue;
  let canceled := match p with
                  | Some p => bool_decide ((p, temp_ac_seq) ∈ canceling_timer_set_ q)
                  | None => false
                  end in
  match p with
  | Some p =>
      if repeat_ t && negb canceled then
        set_queue (λ q, q <| timer_list_ ::= map_set entry None |>) ;;   (* std::move *)
        t ← lift (restart t now);
        modify (λ s, s <| ts_heap ::= <[p := t]> |>) ;;
        list_erase entry ;;
        list_assign (expiration_ t, entry.2) (Some p)
      else
        erase (p, temp_ac_seq) ;;
        set_queue (λ q, q <| canceling_timer_set_ ::= λ c, c ∖ {[(p, temp_ac_seq)]} |>)
  | None => throw NullPointer
  end.

Definition reset (expired_timers : list Entry) (now : Z) : M S unit :=
  for_each (reset_one now) expired_timers ;;
  q ← queue;
  for_each erase (elements (canceling_timer_set_ q)) ;;
  set_queue (λ q, q <| canceling_timer_set_ := ∅ |>) ;;
  q ← queue;
  let next_expiration := match timer_list_ q with
                         | [] => MonotonicTimestamp.invaild
                         | ((first, _), _) :: _ => first
                         end in
  when (MonotonicTimestamp.vaild next_expiration) (resetTimerFd next_expiration).

(** [new Timer(cb, when, interval)]. *)
Definition new_timer (alloc : gmap positive (Timer CB) → positive)
    (cb : option CB) (when : Z) (interval : double) : M S TimerId := λ s,
  let p := alloc (ts_heap s) in
  let seq := s_global_sequence_ s in
  Ok (mkTimerId p seq,
      s <| ts_heap ::= <[p := make_Timer cb when interval seq]> |>
        <| s_global_sequence_ := wrap_int64 (seq + 1) |>).
End queue.

(** ** The read callback of the timerfd channel

    The callbacks of the timers are arbitrary code of the whole program, whose
    state [W] holds the timer state as a component. *)

Section handle_read.
Context {K CB W : Type} `{!Kernel K} `{!Lens W (TimerState K CB)}.
Variable run_callback : CB → M W unit.

Abbreviation in_queue m := (zoom (X := TimerState K CB) m).

(** [timer_list_[entry]->run()] *)
Definition run_timer (entry : Entry) : M W unit :=
  t ← in_queue (timer_at entry);
  match callback_ t with Some cb => run_callback cb | None => mret tt end.

Definition handleRead : M W unit :=
  in_queue assert_sizes ;;
  now ← in_queue (in_kernel sys_steady_now);
  in_queue readTimerFd ;;
  expired_timers ← in_queue (getExpiredTimers now);
  in_queue (set_queue (λ q, q <| is_running_callback_ := true |>)) ;;
  for_each run_timer expired_timers ;;
  in_queue (set_queue (λ q, q <| is_running_callback_ := false |>)) ;;
  in_queue (reset expired_timers now) ;;
  in_queue assert_sizes.
End handle_read.

(** ** The sorted map *)

Abbreviation entry_lt := (λ a b, entry_ltb a b = true).
Definition keys (l : TimerList) : list Entry := map fst l.
Definition sorted (l : TimerList) : Prop := StronglySorted entry_lt (keys l).

Lemma entry_ltb_spec a b : entry_ltb a b = true ↔ a.1 < b.1 ∨ (a.1 = b.1 ∧ a.2 < b.2).
Proof.
  unfold entry_ltb. rewrite orb_true_iff, andb_true_iff, !Z.ltb_lt, Z.eqb_eq. tauto.
Qed.
Lemma entry_ltb_false a b : entry_ltb a b = false ↔ b.1 < a.1 ∨ (b.1 = a.1 ∧ b.2 ≤ a.2).
Proof.
  rewrite <- not_true_iff_false, entry_ltb_spec. lia.
Qed.
Lemma entry_lt_irrefl a : ¬ entry_lt a a.
Proof. rewrite entry_ltb_spec. lia. Qed.
Lemma entry_lt_trans a b c : entry_lt a b → entry_lt b c → entry_lt a c.
Proof. rewrite !entry_ltb_spec. lia. Qed.
Lemma entry_not_lt a b : entry_ltb a b = false → a ≠ b → entry_lt b a.
Proof.
  rewrite entry_ltb_false, entry_ltb_spec. destruct a as [a1 a2], b as [b1 b2]; simpl.
  intros H1 H2. destruct (decide (a1 = b1)) as [->|]; [|lia].
  destruct (decide (a2 = b2)) as [->|]; [done|lia].
Qed.

Lemma sorted_cons x l : sorted (x :: l) ↔ sorted l ∧ ∀ e, e ∈ keys l → entry_lt x.1 e.
Proof.
  unfold sorted. simpl. split.
  - intros H. apply StronglySorted_inv in H as [H1 H2]. split; [done|].
    by apply Forall_forall.
  - intros [H1 H2]. constructor; [done|]. by apply Forall_forall.
Qed.

Lemma map_find_keys e l : e ∈ keys l ↔ is_Some (map_find e l).
Proof.
  induction l as [|[e' v'] l IH]; simpl.
  - split; [by intros ?%not_elem_of_nil|by intros []].
  - rewrite elem_of_cons, IH. case_bool_decide; simpl; naive_solver.
Qed.

Lemma map_find_None e l : e ∉ keys l → map_find e l = None.
Proof. rewrite map_find_keys. destruct (map_find e l); naive_solver. Qed.

Lemma map_find_elem e v l : sorted l → map_find e l = Some v ↔ (e, v) ∈ l.
Proof.
  induction l as [|[e' v'] l IH]; intros Hs; simpl.
  - split; [done|]. by intros ?%not_elem_of_nil.
  - apply sorted_cons in Hs as [Hs Hlt]. rewrite elem_of_cons. simpl in Hlt.
    case_bool_decide as Heq; subst.
    + split; [intros [= ->]; by left|]. intros [[= ->]|Hin]; [done|].
      apply IH in Hin; [|done]. exfalso.
      apply (entry_lt_irrefl e'), Hlt, map_find_keys. by rewrite Hin.
    + rewrite IH by done. naive_solver.
Qed.

Lemma map_find_set e e' v l :
  map_find e (map_set e' v l) = if bool_decide (e = e') then Some v else map_find e l.
Proof.
  induction l as [|[e1 v1] l IH]; simpl.
  - done.
  - destruct (entry_ltb e' e1) eqn:E; simpl; [done|].
    destruct (decide (e' = e1)) as [->|Hne].
    + rewrite bool_decide_true by done. simpl. by case_bool_decide.
    + rewrite (bool_decide_false (e' = e1)) by done. simpl. rewrite IH.
      repeat case_bool_decide; congruence.
Qed.

Lemma map_set_keys e x v l : x ∈ keys (map_set e v l) → x = e ∨ x ∈ keys l.
Proof.
  rewrite !map_find_keys, map_find_set. case_bool_decide; naive_solver.
Qed.

Lemma map_set_sorted e v l : sorted l → sorted (map_set e v l).
Proof.
  induction l as [|[e1 v1] l IH]; intros Hs; simpl.
  - apply sorted_cons. split; [constructor|]. by intros ? ?%not_elem_of_nil.
  - assert (Hs' := Hs). apply sorted_cons in Hs' as [Hl Hlt]. simpl in Hlt.
    destruct (entry_ltb e e1) eqn:E; [|case_bool_decide as Heq].
    + apply sorted_cons. split; [done|]. simpl. intros x.
      rewrite elem_of_cons. intros [->|Hx]; [done|]. eauto using entry_lt_trans.
    + subst. by apply sorted_cons.
    + apply sorted_cons. split; [by apply IH|]. simpl. intros x [->|Hx]%map_set_keys; [|auto].
      by apply entry_not_lt.
Qed.

Lemma map_find_erase e e' l :
  sorted l → map_find e (map_erase e' l) = if bool_decide (e = e') then None else map_find e l.
Proof.
  induction l as [|[e1 v1] l IH]; intros Hs; simpl; [by case_bool_decide|].
  apply sorted_cons in Hs as [Hs Hlt]. simpl in Hlt.
  destruct (decide (e' = e1)) as [->|Hne].
  - rewrite bool_decide_true by done. case_bool_decide; subst; [|done].
    apply map_find_None. intros Hin. by apply (entry_lt_irrefl e1), Hlt.
  - rewrite (bool_decide_false (e' = e1)) by done. simpl. rewrite IH by done.
    repeat case_bool_decide; congruence.
Qed.

Lemma map_erase_keys e x l : x ∈ keys (map_erase e l) → x ∈ keys l.
Proof.
  induction l as [|[e1 v1] l IH]; simpl; [done|]. case_bool_decide; simpl;
    rewrite !elem_of_cons; naive_solver.
Qed.

Lemma map_erase_sorted e l : sorted l → sorted (map_erase e l).
Proof.
  induction l as [|[e1 v1] l IH]; intros Hs; simpl; [done|].
  apply sorted_cons in Hs as [Hs Hlt]. case_bool_decide; [done|].
  apply sorted_cons. split; [by apply IH|]. intros x Hx%map_erase_keys. by apply Hlt.
Qed.

(** Two sorted lists with the same lookups are the same list. *)
Lemma sorted_ext l1 l2 :
  sorted l1 → sorted l2 → (∀ e, map_find e l1 = map_find e l2) → l1 = l2.
Proof.
  revert l2. induction l1 as [|[e1 v1] l1 IH]; intros [|[e2 v2] l2] H1 H2 Hf.
  - done.
  - specialize (Hf e2). simpl in Hf. by rewrite bool_decide_true in Hf.
  - specialize (Hf e1). simpl in Hf. by rewrite bool_decide_true in Hf.
  - apply sorted_cons in H1 as [Hs1 Hlt1]. apply sorted_cons in H2 as [Hs2 Hlt2]. simpl in *.
    assert (e1 = e2) as ->.
    { pose proof (Hf e1) as F1. pose proof (Hf e2) as F2.
      rewrite (bool_decide_true (e1 = e1)) in F1 by done.
      rewrite (bool_decide_true (e2 = e2)) in F2 by done.
      repeat case_bool_decide; try congruence.
      assert (entry_lt e2 e1) by (apply Hlt2, map_find_keys; by rewrite <- F1).
      assert (entry_lt e1 e2) by (apply Hlt1, map_find_keys; by rewrite F2).
      exfalso. by apply (entry_lt_irrefl e1), (entry_lt_trans e1 e2 e1). }
    pose proof (Hf e2) as F. rewrite !bool_decide_true in F by done. simplify_eq.
    f_equal. apply IH; [done..|]. intros e. specialize (Hf e). case_bool_decide as Heq; [|done].
    subst. rewrite !map_find_None; [done|..]; intros Hin;
      by apply (entry_lt_irrefl e2); auto.
Qed.

Lemma map_set_set e v v' l : sorted l → map_set e v (map_set e v' l) = map_set e v l.
Proof.
  intros Hs. apply sorted_ext; [auto using map_set_sorted..|].
  intros x. rewrite !map_find_set. by repeat case_bool_decide.
Qed.

Lemma map_erase_set e v l : sorted l → map_erase e (map_set e v l) = map_erase e l.
Proof.
  intros Hs. apply sorted_ext.
  - by apply map_erase_sorted, map_set_sorted.
  - by apply map_erase_sorted.
  - intros x. rewrite !map_find_erase, map_find_set by auto using map_set_sorted.
    by repeat case_bool_decide.
Qed.

(** [upper_bound] splits the map at the key. *)
Lemma map_upto_spec e l before after :
  sorted l → map_upto e l = (before, after) →
  l = before ++ after ∧
  (∀ x, x ∈ keys before → ¬ entry_lt e x) ∧ (∀ x, x ∈ keys after → entry_lt e x).
Proof.
  revert before after. induction l as [|[e1 v1] l IH]; intros before after Hs; simpl.
  - intros [= <- <-]. split; [done|]. split; by intros ? ?%not_elem_of_nil.
  - assert (Hs' := Hs). apply sorted_cons in Hs' as [Hl Hlt]. simpl in Hlt.
    destruct (entry_ltb e e1) eqn:E.
    + intros [= <- <-]. split; [done|]. split; [by intros ? ?%not_elem_of_nil|].
      simpl. intros x. rewrite elem_of_cons. intros [->|Hx]; [done|].
      eauto using entry_lt_trans.
    + destruct (map_upto e l) as [b a] eqn:El. intros [= <- <-].
      destruct (IH b a) as (-> & Hb & Ha); [done..|]. split; [done|]. split; [|done].
      simpl. intros x. rewrite elem_of_cons. intros [->|Hx]; [congruence|auto].
Qed.

(** ** The invariant of the queue *)

Section invariant.
Context {K CB : Type} `{!Kernel K}.
Abbreviation S := (TimerState K CB).
Implicit Types s : S.

Abbreviation tlist s := (timer_list_ (ts_queue s)).
Abbreviation tactive s := (active_timer_set_ (ts_queue s)).
Abbreviation tcanceling s := (canceling_timer_set_ (ts_queue s)).

(** The two indexes of the timers agree: every entry of the sorted map owns a
    live timer filed under its own expiration and sequence number, the active
    set holds exactly the (address, sequence) pairs of the map, and sequence
    numbers identify timers. *)
Record timer_inv s : Prop := TimerInv {
  ti_sorted : sorted (tlist s);
  ti_entries e v : map_find e (tlist s) = Some v →
    ∃ p t, v = Some p ∧ ts_heap s !! p = Some t ∧ e = (expiration_ t, sequence_ t);
  ti_active p q : (p, q) ∈ tactive s ↔ ∃ x, map_find (x, q) (tlist s) = Some (Some p);
  ti_seq_inj p1 p2 t1 t2 : ts_heap s !! p1 = Some t1 → ts_heap s !! p2 = Some t2 →
    sequence_ t1 = sequence_ t2 → p1 = p2;
  ti_seq_lt p t : ts_heap s !! p = Some t → sequence_ t < s_global_sequence_ s;
  ti_range p t : ts_heap s !! p = Some t →
    0 ≤ expiration_ t ≤ int64_max ∧ repeat_ t = positive_double (interval_ t)
}.

(** Everything but the kernel is the same. *)
Definition same_timers s s' : Prop :=
  ts_heap s = ts_heap s' ∧ s_global_sequence_ s = s_global_sequence_ s' ∧
  ts_queue s = ts_queue s'.

Lemma same_timers_refl s : same_timers s s.
Proof. done. Qed.
Lemma timer_inv_same s s' : same_timers s s' → timer_inv s → timer_inv s'.
Proof.
  destruct s as [k h g q], s' as [k' h' g' q']. intros (E1 & E2 & E3) [I1 I2 I3 I4 I5 I6].
  simpl in *. subst. by split.
Qed.

Lemma timer_inv_queue s s' :
  timer_inv s → ts_heap s' = ts_heap s → s_global_sequence_ s' = s_global_sequence_ s →
  tlist s' = tlist s → tactive s' = tactive s → timer_inv s'.
Proof.
  intros [I1 I2 I3 I4 I5 I6] Eh Eg El Ea. split; rewrite ?Eh, ?Eg, ?El, ?Ea; done.
Qed.

(** An active timer is in the heap and in the map, under its own key. *)
Lemma active_timer s p q :
  timer_inv s → (p, q) ∈ tactive s →
  ∃ t, ts_heap s !! p = Some t ∧ sequence_ t = q ∧
       map_find (expiration_ t, q) (tlist s) = Some (Some p).
Proof.
  intros Hi Ha. apply (ti_active _ Hi) in Ha as [x Hx].
  destruct (ti_entries _ Hi _ _ Hx) as (p' & t & [= <-] & Ht & E). simplify_eq. by exists t.
Qed.

Lemma entry_active s e p :
  timer_inv s → map_find e (tlist s) = Some (Some p) → (p, e.2) ∈ tactive s.
Proof. intros Hi He. apply (ti_active _ Hi). exists e.1. by destruct e. Qed.

(** The same timer cannot be filed twice. *)
Lemma same_sequence_same_entry s e1 e2 p1 p2 :
  timer_inv s → map_find e1 (tlist s) = Some (Some p1) → map_find e2 (tlist s) = Some (Some p2) →
  e1.2 = e2.2 → e1 = e2 ∧ p1 = p2.
Proof.
  intros Hi H1 H2 Hq.
  destruct (ti_entries _ Hi _ _ H1) as (q1 & t1 & [= <-] & Ht1 & ->).
  destruct (ti_entries _ Hi _ _ H2) as (q2 & t2 & [= <-] & Ht2 & ->). simpl in Hq.
  assert (p1 = p2) as <- by eauto using ti_seq_inj. split; congruence.
Qed.

(** The pair of the active set for a pair of the map. *)
Definition active_pair (x : Entry * option positive) : positive * Z := (default 1%positive x.2, x.1.2).

Lemma active_elements s :
  timer_inv s → tactive s = list_to_set (active_pair <$> tlist s).
Proof.
  intros Hi. apply set_eq. intros [p q].
  rewrite (ti_active _ Hi), elem_of_list_to_set, list_elem_of_fmap. split.
  - intros [x Hx]. exists ((x, q), Some p). split; [done|].
    by apply map_find_elem; [apply Hi|].
  - intros ([[x q'] v] & E & Hin%map_find_elem); [|apply Hi].
    destruct (ti_entries _ Hi _ _ Hin) as (p' & t & -> & _). unfold active_pair in E.
    simplify_eq/=. by exists x.
Qed.

Lemma sorted_NoDup l : sorted l → NoDup (keys l).
Proof.
  intros Hs. induction l as [|x l IH]; [constructor|].
  apply sorted_cons in Hs as [Hs Hlt]. simpl. constructor; [|by apply IH].
  intros Hin. by apply (entry_lt_irrefl x.1), Hlt.
Qed.

Lemma active_size s : timer_inv s → zlen (tlist s) = Z.of_nat (base.size (tactive s)).
Proof.
  intros Hi. rewrite (active_elements s Hi), size_list_to_set, length_fmap; [done|].
  apply NoDup_fmap_2_strong.
  - intros [e1 v1] [e2 v2] H1%map_find_elem H2%map_find_elem E; [|apply Hi..].
    destruct (ti_entries _ Hi _ _ H1) as (p1 & t1 & -> & _).
    destruct (ti_entries _ Hi _ _ H2) as (p2 & t2 & -> & _).
    unfold active_pair in E. simplify_eq/=.
    by destruct (same_sequence_same_entry s e1 e2 p2 p2) as [-> _].
  - apply (NoDup_fmap_1 fst). by apply sorted_NoDup, Hi.
Qed.

Lemma assert_sizes_ok s : timer_inv s → assert_sizes s = Ok (tt, s).
Proof.
  intros Hi. unfold assert_sizes, queue, gets, assert_, lift, check. mcbn.
  by rewrite (active_size s Hi), Z.eqb_refl.
Qed.

(** ** Single steps *)

Lemma queue_eq s : queue s = Ok (ts_queue s, s).
Proof. done. Qed.
Lemma set_queue_eq f s : set_queue f s = Ok (tt, s <| ts_queue ::= f |>).
Proof. done. Qed.

Lemma list_at_found e v s : map_find e (tlist s) = Some v → list_at e s = Ok (v, s).
Proof. intros E. unfold list_at, queue, gets. mcbn. by rewrite E. Qed.

Lemma list_at_missing e s :
  map_find e (tlist s) = None →
  list_at e s = Ok (None, s <| ts_queue ::= λ q, q <| timer_list_ ::= map_set e None |> |>).
Proof. intros E. unfold list_at, queue, gets. mcbn. by rewrite E. Qed.

Lemma deref_found p t s : ts_heap s !! p = Some t → deref (Some p) s = Ok (t, s).
Proof. intros E. unfold deref, get, from_option_or. mcbn. by rewrite E. Qed.

Lemma timer_at_found e p t s :
  map_find e (tlist s) = Some (Some p) → ts_heap s !! p = Some t → timer_at e s = Ok (t, s).
Proof. intros He Ht. unfold timer_at. mstep (list_at_found _ _ _ He). by apply deref_found. Qed.

(** Assigning to a key that is not in the map. *)
Lemma list_assign_new e p s :
  sorted (tlist s) → map_find e (tlist s) = None →
  list_assign e (Some p) s =
    Ok (tt, s <| ts_queue ::= λ q, q <| timer_list_ ::= map_set e (Some p) |> |>).
Proof.
  intros Hs E. unfold list_assign. mstep (list_at_missing _ _ E).
  destruct s as [k h g [fd ch l a c r]]. unfold free, set_queue, modify. mcbn. simpl.
  by rewrite map_set_set.
Qed.

(** [s] without the timer [t] at address [p]. *)
Definition without (p : positive) (t : Timer CB) s : S :=
  s <| ts_heap ::= delete p |>
    <| ts_queue ::= λ q, q <| timer_list_ ::= map_erase (expiration_ t, sequence_ t) |>
                           <| active_timer_set_ ::= λ a, a ∖ {[(p, sequence_ t)]} |> |>.

Lemma erase_active p q s :
  timer_inv s → (p, q) ∈ tactive s →
  ∃ t, ts_heap s !! p = Some t ∧ sequence_ t = q ∧ erase (p, q) s = Ok (tt, without p t s).
Proof.
  intros Hi Ha. destruct (active_timer s p q Hi Ha) as (t & Ht & <- & Hf).
  exists t. split; [done|]. split; [done|].
  unfold erase, queue, gets. mcbn. rewrite bool_decide_true by done.
  mstep (deref_found _ _ _ Ht). unfold set_queue, modify, list_erase, queue, gets. mcbn.
  destruct s as [k h g [fd ch l a c r]]. simpl in *. by rewrite Hf.
Qed.

Lemma erase_absent p q s : (p, q) ∉ tactive s → erase (p, q) s = Ok (tt, s).
Proof.
  intros Ha. unfold erase, queue, gets. mcbn. by rewrite bool_decide_false.
Qed.

Lemma without_inv p t s :
  timer_inv s → ts_heap s !! p = Some t → (p, sequence_ t) ∈ tactive s →
  timer_inv (without p t s).
Proof.
  intros Hi Ht Ha. assert (Hs := ti_sorted _ Hi).
  destruct (active_timer s _ _ Hi Ha) as (t' & Ht' & _ & Hf). simplify_eq.
  split; simpl.
  - by apply map_erase_sorted.
  - intros e v. rewrite map_find_erase by done. case_bool_decide as Hne; [done|]. intros He.
    destruct (ti_entries _ Hi _ _ He) as (p1 & t1 & -> & Ht1 & ->). exists p1, t1.
    split; [done|]. split; [|done]. rewrite lookup_delete_ne; [done|]. intros <-. congruence.
  - intros p1 q1. rewrite elem_of_difference, elem_of_singleton, (ti_active _ Hi). split.
    + intros [[x Hx] Hne]. exists x. rewrite map_find_erase by done.
      rewrite bool_decide_false; [done|]. intros [= -> ->].
      rewrite Hf in Hx. congruence.
    + intros [x Hx]. rewrite map_find_erase in Hx by done. case_bool_decide as Hne; [done|].
      split; [by exists x|]. intros [= -> ->].
      destruct (same_sequence_same_entry s _ _ _ _ Hi Hx Hf) as [[= ->] _]; done.
  - intros p1 p2 t1 t2 [_ H1]%lookup_delete_Some [_ H2]%lookup_delete_Some.
    by eapply (ti_seq_inj _ Hi).
  - intros p1 t1 [_ H1]%lookup_delete_Some. by eapply (ti_seq_lt _ Hi).
  - intros p1 t1 [_ H1]%lookup_delete_Some. by eapply (ti_range _ Hi).
Qed.

(** [s] with the timer [t] at [p] filed in both indexes. *)
Definition filed (p : positive) (t : Timer CB) s : S :=
  s <| ts_queue ::= λ q, q <| timer_list_ ::= map_set (expiration_ t, sequence_ t) (Some p) |>
                           <| active_timer_set_ ::= union {[(p, sequence_ t)]} |> |>.

Lemma not_active_not_listed p t s x :
  timer_inv s → ts_heap s !! p = Some t → (p, sequence_ t) ∉ tactive s →
  map_find (x, sequence_ t) (tlist s) = None.
Proof.
  intros Hi Ht Ha. destruct (map_find _ _) as [v|] eqn:E; [|done]. exfalso.
  destruct (ti_entries _ Hi _ _ E) as (p' & t' & -> & Ht' & [= -> E2]).
  assert (p = p') as <- by eauto using ti_seq_inj. apply Ha, (ti_active _ Hi). eauto.
Qed.

Lemma filed_inv p t s :
  timer_inv s → ts_heap s !! p = Some t → (p, sequence_ t) ∉ tactive s →
  timer_inv (filed p t s).
Proof.
  intros Hi Ht Ha. assert (Hs := ti_sorted _ Hi).
  split; simpl; [by apply map_set_sorted| | |apply Hi..].
  - intros e v. rewrite map_find_set. case_bool_decide as Heq.
    + intros [= <-]. by exists p, t.
    + apply Hi.
  - intros p1 q1. rewrite elem_of_union, elem_of_singleton, (ti_active _ Hi). split.
    + intros [[= -> ->]|[x Hx]].
      * exists (expiration_ t). rewrite map_find_set. by rewrite bool_decide_true.
      * exists x. rewrite map_find_set. rewrite bool_decide_false; [done|].
        intros [= -> ->]. by rewrite (not_active_not_listed p t) in Hx.
    + intros [x Hx]. rewrite map_find_set in Hx. case_bool_decide as Heq; [|by right; exists x].
      left. congruence.
Qed.

(** The map is empty, or begins later than [x]. *)
Definition earlier_than_all (x : Z) (l : TimerList) : bool :=
  match l with [] => true | ((first, _), _) :: _ => x <? first end.

Lemma insert_ok p t s :
  timer_inv s → ts_heap s !! p = Some t → (p, sequence_ t) ∉ tactive s →
  insert true p s = Ok (earlier_than_all (expiration_ t) (tlist s), filed p t s).
Proof.
  intros Hi Ht Ha. assert (Hf := filed_inv p t s Hi Ht Ha).
  assert (Hs := ti_sorted _ Hi).
  assert (Hnone := not_active_not_listed p t s (expiration_ t) Hi Ht Ha).
  unfold insert. mstep (assert_true s). mstep (assert_sizes_ok s Hi).
  mstep (deref_found _ _ _ Ht). mstep (queue_eq s).
  mstep (list_assign_new _ p _ Hs Hnone). rewrite queue_eq. mcbn. rewrite set_queue_eq. mcbn.
  rewrite assert_holds by (by apply bool_decide_eq_true). mcbn.
  match goal with |- context [assert_sizes ?s'] => change s' with (filed p t s) end.
  by mstep (assert_sizes_ok _ Hf).
Qed.

(** ** Arming the timerfd *)

(** [s'] is [s] after the kernel was asked to fire [max 100 (exp - now)]
    microseconds from [now]. *)
Definition armed_for (exp : Z) s s' : Prop :=
  ∃ now k1 r k2, sys_steady_now (ts_kernel s) = (now, k1) ∧
    let us := Z.max 100 (exp - now) in
    sys_timerfd_settime (timer_fd (ts_queue s)) (us / 1000000) (us mod 1000000 * 1000) k1 = (r, k2)
    ∧ s' = s <| ts_kernel := k2 |>.

Lemma armed_same exp s s' : armed_for exp s s' → same_timers s s'.
Proof. intros (now & k1 & r & k2 & _ & _ & ->). by destruct s. Qed.

Context `{!KernelLaws K}.

Lemma in_kernel_eq {A} (f : K → A * K) s a k :
  f (ts_kernel s) = (a, k) → in_kernel f s = Ok (a, s <| ts_kernel := k |>).
Proof. unfold in_kernel. by intros ->. Qed.

Lemma howMuchTimeFromNow_ok when s now k1 :
  0 ≤ when ≤ int64_max → sys_steady_now (ts_kernel s) = (now, k1) →
  let us := Z.max 100 (when - now) in
  howMuchTimeFromNow when s =
    Ok ((us / 1000000, us mod 1000000 * 1000), s <| ts_kernel := k1 |>).
Proof.
  intros Hw Hn us. pose proof (steady_now_law _ _ _ Hn) as [_ Hr].
  unfold howMuchTimeFromNow. mstep (in_kernel_eq _ _ _ _ Hn).
  assert (in_int64 (when - now) = true) as Hin.
  { unfold in_int64, int64_min, int64_max in *. apply andb_true_iff. split; apply Z.leb_le; lia. }
  unfold lift, check. rewrite Hin. mcbn.
  assert ((if when - now <? 100 then 100 else when - now) = us) as ->.
  { unfold us. destruct (Z.ltb_spec (when - now) 100); lia. }
  rewrite Z.quot_div_nonneg, Z.rem_mod_nonneg by lia. done.
Qed.

Lemma resetTimerFd_ok exp s :
  0 ≤ exp ≤ int64_max → ∃ s', resetTimerFd exp s = Ok (tt, s') ∧ armed_for exp s s'.
Proof.
  intros Hr. destruct (sys_steady_now (ts_kernel s)) as [now k1] eqn:En.
  set (us := Z.max 100 (exp - now)).
  destruct (sys_timerfd_settime (timer_fd (ts_queue s)) (us / 1000000)
    (us mod 1000000 * 1000) k1) as [r k2] eqn:Es.
  exists (s <| ts_kernel := k2 |>). split; [|by exists now, k1, r, k2].
  unfold resetTimerFd. mstep (queue_eq s). mstep (howMuchTimeFromNow_ok exp s now k1 Hr En).
  fold us. rewrite (in_kernel_eq _ (s <| ts_kernel := k1 |>) r k2) by (by destruct s).
  by destruct s.
Qed.

(** ** Operations of the loop thread *)

Lemma sorted_first_earliest e v l x w :
  sorted ((e, v) :: l) → map_find x ((e, v) :: l) = Some w → e.1 ≤ x.1.
Proof.
  intros [_ Hlt]%sorted_cons. simpl. case_bool_decide as Heq; [subst; lia|].
  intros Hf. assert (entry_lt e x) as H%entry_ltb_spec; [|lia].
  apply Hlt, map_find_keys. by rewrite Hf.
Qed.

Lemma cancel_running p q s :
  timer_inv s → is_running_callback_ (ts_queue s) = true →
  cancelTimerInLoop true (mkTimerId p q) s =
    Ok (tt, s <| ts_queue ::= λ u, u <| canceling_timer_set_ ::= union {[(p, q)]} |> |>).
Proof.
  intros Hi Hr. unfold cancelTimerInLoop. mstep (assert_true s). mstep (assert_sizes_ok s Hi).
  mstep (queue_eq s). rewrite Hr. rewrite set_queue_eq. mcbn. apply assert_sizes_ok. by eapply timer_inv_queue.
Qed.

Lemma cancel_idle p q s :
  timer_inv s → is_running_callback_ (ts_queue s) = false →
  ∃ s', cancelTimerInLoop true (mkTimerId p q) s = Ok (tt, s') ∧ timer_inv s' ∧
    tactive s' = tactive s ∖ {[(p, q)]} ∧
    (if bool_decide ((p, q) ∈ tactive s)
     then ∃ t, ts_heap s !! p = Some t ∧ sequence_ t = q ∧ s' = without p t s else s' = s).
Proof.
  intros Hi Hr. unfold cancelTimerInLoop. mstep (assert_true s). mstep (assert_sizes_ok s Hi).
  mstep (queue_eq s). rewrite Hr. cbn [tid_timer tid_sequence]. case_bool_decide as Ha.
  - destruct (erase_active p q s Hi Ha) as (t & Ht & <- & ->). mcbn.
    assert (timer_inv (without p t s)) as Hi' by (by apply without_inv).
    exists (without p t s). rewrite (assert_sizes_ok _ Hi').
    split; [done|]. split; [done|]. split; [done|]. by exists t.
  - rewrite (erase_absent p q s Ha). mcbn. exists s. rewrite (assert_sizes_ok s Hi).
    split; [done|]. split; [done|]. split; [set_solver|done].
Qed.

Lemma add_ok p t s :
  timer_inv s → ts_heap s !! p = Some t → (p, sequence_ t) ∉ tactive s →
  ∃ s', addTimerInLoop true p s = Ok (tt, s') ∧ timer_inv s' ∧
    if earlier_than_all (expiration_ t) (tlist s)
    then armed_for (expiration_ t) (filed p t s) s' else s' = filed p t s.
Proof.
  intros Hi Ht Ha. assert (Hf := filed_inv p t s Hi Ht Ha).
  unfold addTimerInLoop. mstep (assert_true s). mstep (insert_ok p t s Hi Ht Ha).
  destruct (earlier_than_all _ _); unfold when; [|by exists (filed p t s)].
  assert (ts_heap (filed p t s) !! p = Some t) as Ht' by done.
  mstep (deref_found _ _ _ Ht'). destruct (ti_range _ Hi _ _ Ht) as [Hr _].
  destruct (resetTimerFd_ok (expiration_ t) (filed p t s) Hr) as (s' & E & Har).
  exists s'. split; [done|]. split; [|done]. eauto using timer_inv_same, armed_same.
Qed.

(** ** Expired timers *)

Definition due (now : Z) s : list Entry := (map_upto (now, LLONG_MAX) (tlist s)).1.*1.

Lemma getExpired_ok now s :
  timer_inv s → s_global_sequence_ s ≤ LLONG_MAX →
  getExpiredTimers now s = Ok (due now s, s).
Proof.
  intros Hi Hg. unfold getExpiredTimers, due. mstep (assert_sizes_ok s Hi). mstep (queue_eq s).
  destruct (map_upto (now, LLONG_MAX) (tlist s)) as [before after] eqn:E.
  destruct (map_upto_spec _ _ _ _ (ti_sorted _ Hi) E) as (El & _ & Ha).
  destruct after as [|[e v] after]; [done|].
  assert (map_find e (tlist s) = Some v) as Hf.
  { apply map_find_elem; [apply Hi|]. rewrite El. set_solver. }
  destruct (ti_entries _ Hi _ _ Hf) as (p & t & -> & Ht & ->).
  mstep (deref_found p t s Ht).
  assert (entry_lt (now, LLONG_MAX) (expiration_ t, sequence_ t)) as Hlt.
  { apply Ha. simpl. set_solver. }
  apply entry_ltb_spec in Hlt. simpl in Hlt. pose proof (ti_seq_lt _ Hi _ _ Ht).
  rewrite assert_holds; [done|]. unfold MonotonicTimestamp.gt. apply Z.ltb_lt. lia.
Qed.

Lemma due_spec now s e :
  timer_inv s → s_global_sequence_ s ≤ LLONG_MAX →
  e ∈ due now s ↔ is_Some (map_find e (tlist s)) ∧ e.1 ≤ now.
Proof.
  intros Hi Hg. unfold due. destruct (map_upto _ _) as [before after] eqn:E.
  destruct (map_upto_spec _ _ _ _ (ti_sorted _ Hi) E) as (El & Hb & Ha).
  rewrite <- map_find_keys, El. unfold keys. rewrite map_app, elem_of_app. simpl.
  assert (∀ x, x ∈ keys (tlist s) → x.2 < s_global_sequence_ s) as Hseq.
  { intros x [v Hx]%map_find_keys. destruct (ti_entries _ Hi _ _ Hx) as (p & t & _ & Ht & ->).
    by apply (ti_seq_lt _ Hi p). }
  split.
  - intros Hin. split; [by left|].
    destruct (Z.le_gt_cases e.1 now) as [|Hgt]; [done|]. exfalso.
    apply (Hb e Hin), entry_ltb_spec. simpl. lia.
  - intros [[|Hin] Hle]; [done|]. exfalso.
    assert (H := Ha e Hin). apply entry_ltb_spec in H. simpl in H.
    specialize (Hseq e). rewrite El in Hseq. unfold keys in Hseq. rewrite map_app in Hseq.
    assert (e.2 < s_global_sequence_ s) by (apply Hseq; set_solver). lia.
Qed.

Lemma due_sorted now s : timer_inv s → StronglySorted entry_lt (due now s).
Proof.
  intros Hi. unfold due. destruct (map_upto _ _) as [before after] eqn:E.
  destruct (map_upto_spec _ _ _ _ (ti_sorted _ Hi) E) as (El & _ & _).
  pose proof (ti_sorted _ Hi) as Hs. unfold sorted, keys in Hs. rewrite El, map_app in Hs.
  by apply StronglySorted_app_1_l in Hs.
Qed.

Lemma due_NoDup now s : timer_inv s → NoDup (due now s).
Proof.
  intros Hi. pose proof (due_sorted now s Hi) as Hs. induction Hs as [|e l _ IH Hlt]; constructor.
  - intros Hin. rewrite Forall_forall in Hlt. by apply (entry_lt_irrefl e), Hlt.
  - done.
Qed.

(** ** Resetting one expired timer *)

(** [s] with the timer [t] at [p] moved from the key [e] to its new one. *)
Definition refiled (p : positive) (t : Timer CB) (e : Entry) s : S :=
  s <| ts_heap ::= <[p := t]> |>
    <| ts_queue ::= λ q, q <| timer_list_ ::=
         λ l, map_set (expiration_ t, e.2) (Some p) (map_erase e l) |> |>.

Lemma refiled_inv p t exp s e :
  timer_inv s → map_find e (tlist s) = Some (Some p) → ts_heap s !! p = Some t →
  0 ≤ exp ≤ int64_max → timer_inv (refiled p (t <| expiration_ := exp |>) e s).
Proof.
  intros Hi He Ht Hr. assert (Hs := ti_sorted _ Hi).
  destruct (ti_entries _ Hi _ _ He) as (p' & t' & [= <-] & Ht' & ->). simplify_eq.
  assert (∀ x v, map_find x (tlist s) = Some v → x.2 = sequence_ t → x = (expiration_ t, sequence_ t)) as Huniq.
  { intros x v Hx Hq. destruct (ti_entries _ Hi _ _ Hx) as (p1 & t1 & -> & _).
    by destruct (same_sequence_same_entry s _ _ _ _ Hi Hx He Hq) as [-> _]. }
  destruct t as [cb ex iv rp sq]. simpl in *.
  split; simpl.
  - by apply map_set_sorted, map_erase_sorted.
  - intros x v. rewrite map_find_set, map_find_erase by done. case_bool_decide as Hx.
    + intros [= <-]. exists p. eexists. split; [done|]. by rewrite lookup_insert_eq.
    + case_bool_decide as Hx'; [done|]. intros Hf.
      destruct (ti_entries _ Hi _ _ Hf) as (p1 & t1 & -> & Ht1 & ->). exists p1, t1.
      split; [done|]. split; [|done]. rewrite lookup_insert_ne; [done|]. intros <-.
      rewrite Ht in Ht1. by simplify_eq/=.
  - intros p1 q1. rewrite (ti_active _ Hi). split.
    + intros [x Hx]. destruct (decide (q1 = sq)) as [->|Hne].
      * assert (p1 = p) as -> by (specialize (Huniq _ _ Hx eq_refl); congruence).
        exists exp. rewrite map_find_set. by rewrite bool_decide_true.
      * exists x. rewrite map_find_set, map_find_erase by done.
        rewrite !bool_decide_false by congruence. done.
    + intros [x Hx]. rewrite map_find_set, map_find_erase in Hx by done.
      case_bool_decide as H1; [|case_bool_decide; [done|by exists x]].
      assert (q1 = sq) as -> by congruence. assert (p1 = p) as -> by congruence. by exists ex.
  - intros p1 p2 t1 t2 H1 H2 Hq.
    assert (Hold : ∀ q u, <[p := mkTimer cb exp iv rp sq]> (ts_heap s) !! q = Some u →
      ∃ u', ts_heap s !! q = Some u' ∧ sequence_ u' = sequence_ u).
    { intros q u. rewrite lookup_insert. case_decide; intros; simplify_eq/=; eauto. }
    apply Hold in H1 as (u1 & H1 & E1), H2 as (u2 & H2 & E2).
    apply (ti_seq_inj _ Hi _ _ _ _ H1 H2). congruence.
  - intros p1 t1. rewrite lookup_insert. case_decide; intros; simplify_eq/=.
    + by apply (ti_seq_lt _ Hi _ _ Ht).
    + by eapply (ti_seq_lt _ Hi).
  - intros p1 t1. rewrite lookup_insert. case_decide; intros; simplify_eq/=.
    + split; [done|]. by apply (ti_range _ Hi _ _ Ht).
    + by eapply (ti_range _ Hi).
Qed.

(** When the repeating timer [t] can be restarted at [now], and for when. *)
Definition restarts (t : Timer CB) (now exp : Z) : Prop :=
  ∃ us, microseconds_of_seconds (interval_ t) = Ok us ∧ exp = now + us ∧ exp ≤ int64_max.

Lemma restart_ok t now exp :
  0 ≤ now → positive_double (interval_ t) = true → repeat_ t = true → restarts t now exp →
  now ≤ exp ∧ restart t now = Ok (t <| expiration_ := exp |>).
Proof.
  intros Hn Hp Hr (us & Hus & -> & Hmax).
  assert (0 ≤ us) by eauto using microseconds_nonneg, positive_nonneg.
  split; [lia|]. unfold restart, MonotonicTimestamp.addTime. rewrite Hr, Hus. mcbn.
  assert (in_int64 (now + us) = true) as ->; [|done].
  unfold in_int64, int64_min, int64_max in *. apply andb_true_iff. split; apply Z.leb_le; lia.
Qed.

Lemma reset_one_repeat p t now exp s e :
  timer_inv s → map_find e (tlist s) = Some (Some p) → ts_heap s !! p = Some t →
  repeat_ t = true → (p, e.2) ∉ tcanceling s → 0 ≤ now → restarts t now exp →
  reset_one now e s = Ok (tt, refiled p (t <| expiration_ := exp |>) e s) ∧
  timer_inv (refiled p (t <| expiration_ := exp |>) e s).
Proof.
  intros Hi He Ht Hr Hc Hn Hre. assert (Hs := ti_sorted _ Hi).
  destruct (ti_range _ Hi _ _ Ht) as [_ Hrep]. rewrite Hr in Hrep.
  destruct (restart_ok t now exp Hn (eq_sym Hrep) Hr Hre) as [Hle Hres].
  assert (Hinv : timer_inv (refiled p (t <| expiration_ := exp |>) e s)).
  { apply refiled_inv; [done..|]. destruct Hre as (us & _ & _ & Hmax). lia. }
  split; [|done]. destruct (ti_entries _ Hi _ _ He) as (p' & t' & [= <-] & Ht' & Ee). simplify_eq.
  unfold reset_one. mstep (list_at_found _ _ _ He). mstep (timer_at_found _ _ _ _ He Ht). mstep (queue_eq s). rewrite Hr, bool_decide_false by done.
  cbn [negb andb]. rewrite set_queue_eq. mcbn. unfold lift. rewrite Hres. mcbn.
  unfold modify, list_erase. mcbn. destruct s as [k h g [fd ch l a c r]]. simpl in *.
  rewrite map_find_set, bool_decide_true by done. mcbn. simpl.
  rewrite map_erase_set by done.
  rewrite list_assign_new; simpl.
  - done.
  - by apply map_erase_sorted.
  - rewrite map_find_erase by done. case_bool_decide as Hx; [done|].
    match goal with |- map_find ?x _ = _ => destruct (map_find x l) as [v|] eqn:E end; [|done].
    exfalso. apply Hx.
    destruct (ti_entries _ Hi _ _ E) as (p1 & t1 & -> & Ht1 & _).
    by destruct (same_sequence_same_entry _ _ _ _ _ Hi E He eq_refl) as [-> _].
Qed.

Lemma reset_one_drop p t now s e :
  timer_inv s → map_find e (tlist s) = Some (Some p) → ts_heap s !! p = Some t →
  repeat_ t && negb (bool_decide ((p, e.2) ∈ tcanceling s)) = false →
  reset_one now e s =
    Ok (tt, (without p t s) <| ts_queue ::= λ q, q <| canceling_timer_set_ ::=
               λ c, c ∖ {[(p, e.2)]} |> |>) ∧ sequence_ t = e.2.
Proof.
  intros Hi He Ht Hc. assert (Ha := entry_active _ _ _ Hi He).
  destruct (erase_active p e.2 s Hi Ha) as (t' & Ht' & Hq & Her). simplify_eq.
  split; [|done]. unfold reset_one. mstep (list_at_found _ _ _ He).
  mstep (timer_at_found _ _ _ _ He Ht). mstep (queue_eq s). rewrite Hc. by mstep Her.
Qed.

(** What the passes over the queue leave alone. *)
Definition frame s s' : Prop :=
  ts_kernel s' = ts_kernel s ∧ s_global_sequence_ s' = s_global_sequence_ s ∧
  is_running_callback_ (ts_queue s') = is_running_callback_ (ts_queue s) ∧
  timer_fd (ts_queue s') = timer_fd (ts_queue s).

Lemma frame_refl s : frame s s.
Proof. done. Qed.
Lemma frame_trans s1 s2 s3 : frame s1 s2 → frame s2 s3 → frame s1 s3.
Proof. unfold frame. intuition congruence. Qed.

(** Erasing a list of timers. *)
Lemma erase_all l s :
  timer_inv s →
  ∃ s', for_each erase l s = Ok (tt, s') ∧ timer_inv s' ∧ frame s s' ∧
    tactive s' = tactive s ∖ list_to_set l ∧ tcanceling s' = tcanceling s ∧
    ∀ p t, ts_heap s !! p = Some t → (p, sequence_ t) ∈ tactive s' → ts_heap s' !! p = Some t.
Proof.
  revert s. induction l as [|[p q] l IH]; intros s Hi.
  { exists s. split; [done|]. split; [done|]. split; [done|]. split; [set_solver|done]. }
  assert (∃ s1, erase (p, q) s = Ok (tt, s1) ∧ timer_inv s1 ∧ frame s s1 ∧
    tactive s1 = tactive s ∖ {[(p, q)]} ∧ tcanceling s1 = tcanceling s ∧
    ∀ p' t, ts_heap s !! p' = Some t → (p', sequence_ t) ∈ tactive s1 → ts_heap s1 !! p' = Some t)
    as (s1 & E & Hi1 & Hf1 & Ha1 & Hc1 & Hh1).
  { destruct (decide ((p, q) ∈ tactive s)) as [Ha|Ha].
    - destruct (erase_active p q s Hi Ha) as (t & Ht & <- & E). exists (without p t s).
      split; [done|]. split; [by apply without_inv|]. split; [done|]. split; [done|].
      split; [done|]. simpl. intros p' t' Ht' Hin. rewrite lookup_delete_ne; [done|].
      intros <-. simplify_eq. set_solver.
    - exists s. split; [by apply erase_absent|]. split; [done|]. split; [done|].
      split; [set_solver|done]. }
  destruct (IH s1 Hi1) as (s2 & E2 & Hi2 & Hf2 & Ha2 & Hc2 & Hh2).
  exists s2. simpl. mstep E. split; [done|]. split; [done|].
  split; [by eapply frame_trans|]. split; [rewrite Ha2, Ha1; set_solver|].
  split; [congruence|]. intros p' t Ht Hin. apply Hh2; [|done].
  apply Hh1; [done|]. rewrite Ha2 in Hin. set_solver.
Qed.

(** Is the expired timer [t] of entry [e] finished, or to be restarted? *)
Definition finished s (p : positive) (e : Entry) (t : Timer CB) : bool :=
  negb (repeat_ t && negb (bool_decide ((p, e.2) ∈ tcanceling s))).

(** The effect of one round on the timer [t] at [p], filed under [e]. *)
Definition after_reset (now : Z) s (e : Entry) (p : positive) (t : Timer CB) s' : Prop :=
  (∀ e', e'.2 ≠ e.2 → map_find e' (tlist s') = map_find e' (tlist s)) ∧
  (∀ p', p' ≠ p → ts_heap s' !! p' = ts_heap s !! p') ∧
  if finished s p e t
  then tactive s' = tactive s ∖ {[(p, e.2)]} ∧ tcanceling s' = tcanceling s ∖ {[(p, e.2)]}
  else tactive s' = tactive s ∧ tcanceling s' = tcanceling s ∧
       ∃ exp, restarts t now exp ∧ ts_heap s' !! p = Some (t <| expiration_ := exp |>).

Lemma reset_one_ok now e p t s :
  timer_inv s → map_find e (tlist s) = Some (Some p) → ts_heap s !! p = Some t → 0 ≤ now →
  (repeat_ t = true → ∃ exp, restarts t now exp) →
  ∃ s', reset_one now e s = Ok (tt, s') ∧ timer_inv s' ∧ frame s s' ∧ after_reset now s e p t s'.
Proof.
  intros Hi He Ht Hn Hre. assert (Hs := ti_sorted _ Hi).
  destruct (repeat_ t && negb (bool_decide ((p, e.2) ∈ tcanceling s))) eqn:Er.
  - apply andb_true_iff in Er as [Hr Hc%negb_true_iff%bool_decide_eq_false].
    destruct (Hre Hr) as [exp Hexp].
    destruct (reset_one_repeat p t now exp s e) as [E Hi']; [done..|].
    exists (refiled p (t <| expiration_ := exp |>) e s).
    split; [done|]. split; [done|]. split; [done|]. unfold after_reset, finished.
    rewrite Hr, bool_decide_false by done. split; [|split].
    + intros e' Hne. simpl. rewrite map_find_set, map_find_erase by done.
      rewrite !bool_decide_false; [done|congruence|]. intros ->. done.
    + intros p' Hp. simpl. by rewrite lookup_insert_ne.
    + simpl. split; [done|]. split; [done|]. exists exp. by rewrite lookup_insert_eq.
  - destruct (reset_one_drop p t now s e) as [E Hq]; [done..|].
    assert (timer_inv (without p t s)) as Hi'.
    { apply without_inv; [done..|]. rewrite Hq. by eapply entry_active. }
    eexists. split; [done|]. split; [by eapply timer_inv_queue|]. split; [done|].
    unfold after_reset, finished. rewrite Er. split; [|split].
    + intros e' Hne. simpl. rewrite map_find_erase by done. rewrite bool_decide_false; [done|].
      intros ->. simpl in Hne. congruence.
    + intros p' Hp. simpl. by rewrite lookup_delete_ne.
    + simpl. by rewrite Hq.
Qed.

(** The timer at [p] with sequence number [q] is one of the entries [es], and
    finished. *)
Definition dropped s (es : list Entry) (p : positive) (q : Z) : Prop :=
  ∃ e t, e ∈ es ∧ map_find e (tlist s) = Some (Some p) ∧ e.2 = q ∧
         ts_heap s !! p = Some t ∧ finished s p e t = true.

(** The timer at [p] is filed under one of the entries [es]. *)
Definition listed s (es : list Entry) (p : positive) : Prop :=
  ∃ e, e ∈ es ∧ map_find e (tlist s) = Some (Some p).

Section one_round.
Variables (now : Z) (e : Entry) (es : list Entry) (p : positive) (t : Timer CB) (s s1 : S).
Hypotheses (Hi : timer_inv s) (He : map_find e (tlist s) = Some (Some p))
  (Ht : ts_heap s !! p = Some t) (Hne : e ∉ es)
  (Hin : ∀ e', e' ∈ es → is_Some (map_find e' (tlist s)))
  (Hr : after_reset now s e p t s1).

Lemma other_entry e' p' :
  e' ∈ es → map_find e' (tlist s) = Some (Some p') → e'.2 ≠ e.2 ∧ p' ≠ p.
Proof using Hi He Hne.
  intros He' Hp'. assert (e' ≠ e) as Hd by congruence. split.
  - intros Hq. by destruct (same_sequence_same_entry s e' e p' p Hi Hp' He Hq).
  - intros Hp. destruct (ti_entries _ Hi _ _ Hp') as (p1 & t1 & E1 & Ht1 & E1').
    destruct (ti_entries _ Hi _ _ He) as (p2 & t2 & E2 & Ht2 & E2'). congruence.
Qed.

Lemma other_find e' : e' ∈ es → map_find e' (tlist s1) = map_find e' (tlist s).
Proof.
  intros He'. destruct (Hin e' He') as [v' Hv'].
  destruct (ti_entries _ Hi _ _ Hv') as (p' & t' & -> & _). apply Hr. by eapply other_entry.
Qed.

Lemma other_listed p' : listed s1 es p' ↔ listed s es p'.
Proof.
  unfold listed. split; intros (e' & He' & Hf'); exists e'; (split; [done|]).
  - by rewrite <- other_find.
  - by rewrite other_find.
Qed.

Lemma other_finished e' p' t' :
  e' ∈ es → map_find e' (tlist s) = Some (Some p') → finished s1 p' e' t' = finished s p' e' t'.
Proof.
  intros He' Hf'. destruct (other_entry e' p' He' Hf') as [Hq Hp].
  unfold finished. do 3 f_equal. apply bool_decide_ext.
  destruct Hr as (_ & _ & Hd). destruct (finished s p e t).
  - destruct Hd as [_ ->]. set_solver.
  - by destruct Hd as (_ & -> & _).
Qed.

Lemma other_dropped p' q' : dropped s1 es p' q' ↔ dropped s es p' q'.
Proof.
  assert (∀ e', e' ∈ es → map_find e' (tlist s) = Some (Some p') →
    ts_heap s1 !! p' = ts_heap s !! p') as Hh.
  { intros e' He' Hf'. apply Hr. by eapply other_entry. }
  unfold dropped. split; intros (e' & t' & He' & Hf' & Hq & Ht' & Hfin); exists e', t'.
  - rewrite other_find in Hf' by done. rewrite (Hh e') in Ht' by done.
    by rewrite other_finished in Hfin.
  - rewrite other_find, (Hh e'), other_finished by done. done.
Qed.

Lemma dropped_cons p' q' :
  dropped s (e :: es) p' q' ↔
    ((p', q') = (p, e.2) ∧ finished s p e t = true) ∨ dropped s es p' q'.
Proof.
  unfold dropped. split.
  - intros (e' & t' & [->|He']%elem_of_cons & Hf' & <- & Ht' & Hfin).
    + left. simplify_eq. done.
    + right. by exists e', t'.
  - intros [[[= -> ->] Hfin]|(e' & t' & He' & H')].
    + exists e, t. split; [by left|done].
    + exists e', t'. split; [by right|done].
Qed.

Lemma round_active p' q' :
  (p', q') ∈ tactive s1 ↔
    (p', q') ∈ tactive s ∧ ¬ ((p', q') = (p, e.2) ∧ finished s p e t = true).
Proof.
  destruct Hr as (_ & _ & Hd). destruct (finished s p e t).
  - destruct Hd as [-> _]. set_solver.
  - destruct Hd as (-> & _). naive_solver.
Qed.

Lemma round_canceling p' q' :
  (p', q') ∈ tcanceling s1 ↔
    (p', q') ∈ tcanceling s ∧ ¬ ((p', q') = (p, e.2) ∧ finished s p e t = true).
Proof.
  destruct Hr as (_ & _ & Hd). destruct (finished s p e t).
  - destruct Hd as [_ ->]. set_solver.
  - destruct Hd as (_ & -> & _). naive_solver.
Qed.
End one_round.

(** Where the timer at [p] is after the pass over [es]. *)
Definition reset_timer (now : Z) s (es : list Entry) s' (p : positive) (t : Timer CB) : Prop :=
  (listed s es p ∧ ∃ exp, restarts t now exp ∧ ts_heap s' !! p = Some (t <| expiration_ := exp |>))
  ∨ (¬ listed s es p ∧ ts_heap s' !! p = Some t).

Lemma round_timer now e es p t s s1 s2 p' t' :
  timer_inv s → map_find e (tlist s) = Some (Some p) → ts_heap s !! p = Some t → e ∉ es →
  (∀ e', e' ∈ es → is_Some (map_find e' (tlist s))) → after_reset now s e p t s1 →
  (∀ p' q', (p', q') ∈ tactive s2 → (p', q') ∈ tactive s1) →
  (∀ p' t', ts_heap s1 !! p' = Some t' → (p', sequence_ t') ∈ tactive s2 →
     reset_timer now s1 es s2 p' t') →
  ts_heap s !! p' = Some t' → (p', sequence_ t') ∈ tactive s2 →
  reset_timer now s (e :: es) s2 p' t'.
Proof.
  intros Hi He Ht Hne Hin Hr Hsub IH Ht' Ha.
  destruct (ti_entries _ Hi _ _ He) as (p2 & t2 & [= <-] & Ht2 & Ee). simplify_eq.
  destruct (decide (p' = p)) as [->|Hp].
  - simplify_eq. left. split; [by eexists; split; [left|]|].
    assert (Hd := proj2 (proj2 Hr)). destruct (finished _ _ _ _) eqn:Ef.
    + exfalso. apply Hsub in Ha. destruct Hd as [Hd _]. rewrite Hd in Ha. set_solver.
    + destruct Hd as (_ & _ & exp & Hexp & Hh). exists exp. split; [done|].
      destruct (IH p (t <| expiration_ := exp |>) Hh Ha) as [[Hl _]|[_ ?]]; [|done].
      exfalso. rewrite (other_listed now (expiration_ t, sequence_ t) es p t s s1) in Hl by done.
      destruct Hl as (e' & He' & Hf').
      by destruct (other_entry (expiration_ t, sequence_ t) es p s Hi He Hne e' p He' Hf').
  - assert (ts_heap s1 !! p' = Some t') as Ht1 by (by rewrite (proj1 (proj2 Hr))).
    assert (listed s ((expiration_ t, sequence_ t) :: es) p' ↔ listed s1 es p') as Hl.
    { rewrite (other_listed now (expiration_ t, sequence_ t) es p t s s1) by done.
      unfold listed. split.
      - intros (e' & [->|He']%elem_of_cons & Hf'); [congruence|by exists e'].
      - intros (e' & He' & Hf'). exists e'. split; [by right|done]. }
    unfold reset_timer. rewrite Hl. by apply IH.
Qed.

Lemma reset_loop now es s :
  timer_inv s → 0 ≤ now → NoDup es →
  (∀ e, e ∈ es → is_Some (map_find e (tlist s))) →
  (∀ p t, listed s es p → ts_heap s !! p = Some t → repeat_ t = true →
    ∃ exp, restarts t now exp) →
  ∃ s', for_each (reset_one now) es s = Ok (tt, s') ∧ timer_inv s' ∧ frame s s' ∧
    (∀ p q, (p, q) ∈ tactive s' ↔ (p, q) ∈ tactive s ∧ ¬ dropped s es p q) ∧
    (∀ p q, (p, q) ∈ tcanceling s' ↔ (p, q) ∈ tcanceling s ∧ ¬ dropped s es p q) ∧
    (∀ p t, ts_heap s !! p = Some t → (p, sequence_ t) ∈ tactive s' → reset_timer now s es s' p t).
Proof.
  intros Hi Hn. revert s Hi. induction es as [|e es IH]; intros s Hi Hnd Hin Hre.
  { exists s. split; [done|]. split; [done|]. split; [done|].
    assert (∀ p q, ¬ dropped s [] p q) by (intros p q (?&?&?%not_elem_of_nil&?); done).
    assert (∀ p, ¬ listed s [] p) by (intros p (?&?%not_elem_of_nil&?); done).
    split; [naive_solver|]. split; [naive_solver|]. by right. }
  apply NoDup_cons in Hnd as [Hne Hnd].
  destruct (Hin e) as [v He]; [by left|].
  destruct (ti_entries _ Hi _ _ He) as (p & t & -> & Ht & _).
  assert (Hin' : ∀ e', e' ∈ es → is_Some (map_find e' (tlist s))) by (intros; apply Hin; by right).
  destruct (reset_one_ok now e p t s) as (s1 & E1 & Hi1 & Hf1 & Hr); [done..| |].
  { intros Hr. eapply Hre; [|done..]. exists e. split; [by left|done]. }
  destruct (IH s1) as (s2 & E2 & Hi2 & Hf2 & Ha2 & Hc2 & Hh2); [done..| | |].
  { intros e' He'. rewrite (other_find now e es p t s s1) by done. by apply Hin'. }
  { intros p' t' Hl Ht'. apply (other_listed now e es p t s s1) in Hl; [|done..].
    destruct Hl as (e' & He' & Hp'). apply (Hre p' t'); [exists e'; split; [by right|done]|].
    rewrite <- (proj1 (proj2 Hr)); [done|].
    by destruct (other_entry e es p s Hi He Hne e' p' He' Hp'). }
  exists s2. simpl. mstep E1. split; [done|]. split; [done|]. split; [by eapply frame_trans|].
  split; [|split].
  - intros p' q'. rewrite Ha2, (round_active now e es p t s s1 Hi He Ht Hne Hin' Hr),
      (dropped_cons e es p t s He Ht),
      (other_dropped now e es p t s s1) by done. tauto.
  - intros p' q'. rewrite Hc2, (round_canceling now e es p t s s1 Hi He Ht Hne Hin' Hr),
      (dropped_cons e es p t s He Ht), (other_dropped now e es p t s s1) by done. tauto.
  - intros p' t'. apply (round_timer now e es p t s s1 s2); [done..| |done].
    intros ? ? Hx. by apply Ha2.
Qed.

(** [first] is the time of the first entry, 0 (invalid) when there is none. *)
Definition first_expiration (l : TimerList) : Z :=
  match l with [] => MonotonicTimestamp.invaild | ((first, _), _) :: _ => first end.

(** What [reset] leaves: the finished and the cancelled timers are gone, the
    other expired ones are filed for a new time, nothing is left to cancel, and
    the timerfd is armed for the first timer left. *)
Record reset_done (now : Z) (es : list Entry) s s' : Prop := ResetDone {
  rd_inv : timer_inv s';
  rd_running : is_running_callback_ (ts_queue s') = is_running_callback_ (ts_queue s);
  rd_canceling : tcanceling s' = ∅;
  rd_active p q : (p, q) ∈ tactive s' ↔
    (p, q) ∈ tactive s ∧ ¬ dropped s es p q ∧ (p, q) ∉ tcanceling s;
  rd_timers p t : ts_heap s !! p = Some t → (p, sequence_ t) ∈ tactive s' →
    reset_timer now s es s' p t;
  rd_armed : 0 < first_expiration (tlist s') → ∃ s0,
    ts_kernel s0 = ts_kernel s ∧ armed_for (first_expiration (tlist s')) s0 s'
}.

(** The end of [reset]: clear the cancellations and arm the timerfd. *)
Lemma reset_tail s :
  timer_inv s →
  ∃ s', (set_queue (λ q, q <| canceling_timer_set_ := ∅ |>) ;;
         q ← queue;
         let next_expiration := first_expiration (timer_list_ q) in
         when (MonotonicTimestamp.vaild next_expiration) (resetTimerFd next_expiration)) s
        = Ok (tt, s') ∧
    let s3 := s <| ts_queue ::= λ q, q <| canceling_timer_set_ := ∅ |> |> in
    same_timers s3 s' ∧
    (0 < first_expiration (tlist s3) → armed_for (first_expiration (tlist s3)) s3 s').
Proof.
  intros Hi. set (s3 := s <| ts_queue ::= λ q, q <| canceling_timer_set_ := ∅ |> |>).
  assert (timer_inv s3) as Hi3 by (by eapply timer_inv_queue).
  mcbn. rewrite set_queue_eq. mcbn. rewrite queue_eq. mcbn. fold s3. unfold when.
  destruct (MonotonicTimestamp.vaild _) eqn:Ev; [|exists s3; split; [done|]; split; [done|]].
  - destruct (resetTimerFd_ok (first_expiration (tlist s3)) s3) as (s' & E & Ha).
    + unfold first_expiration. destruct (tlist s3) as [|[[f q] v] l] eqn:El; [done|].
      destruct (ti_entries _ Hi3 (f, q) v) as (p & t & _ & Ht & [= -> _]).
      { rewrite El. simpl. by rewrite bool_decide_true. }
      by apply (ti_range _ Hi3 p t).
    + exists s'. split; [done|]. split; [by eapply armed_same|done].
  - intros Hpos. apply Z.ltb_ge in Ev. by apply Z.lt_nge in Hpos.
Qed.

Lemma reset_ok now es s :
  timer_inv s → 0 ≤ now → NoDup es →
  (∀ e, e ∈ es → is_Some (map_find e (tlist s))) →
  (∀ p t, listed s es p → ts_heap s !! p = Some t → repeat_ t = true →
    ∃ exp, restarts t now exp) →
  ∃ s', reset es now s = Ok (tt, s') ∧ reset_done now es s s'.
Proof.
  intros Hi Hn Hnd Hin Hre.
  destruct (reset_loop now es s) as (s1 & E1 & Hi1 & Hf1 & Ha1 & Hc1 & Hh1); [done..|].
  destruct (erase_all (elements (tcanceling s1)) s1 Hi1)
    as (s2 & E2 & Hi2 & Hf2 & Ha2 & Hc2 & Hh2).
  set (s3 := s2 <| ts_queue ::= λ q, q <| canceling_timer_set_ := ∅ |> |>).
  assert (timer_inv s3) as Hi3 by (by eapply timer_inv_queue).
  destruct (reset_tail s2 Hi2) as (s' & E & Hsame & Harm). fold s3 in Hsame, Harm.
  assert (reset es now s = Ok (tt, s')) as E3.
  { unfold reset. mstep E1. mstep (queue_eq s1). mstep E2. exact E. }
  exists s'. split; [done|]. destruct (Hsame) as (Eh & Eg & Eq).
  destruct Hf1 as (Hk1 & Hg1 & Hr1 & _), Hf2 as (Hk2 & Hg2 & Hr2 & _).
  assert (Ha' : ∀ p q, (p, q) ∈ tactive s' ↔
    (p, q) ∈ tactive s ∧ ¬ dropped s es p q ∧ (p, q) ∉ tcanceling s).
  { intros p q. rewrite <- Eq. unfold s3. simpl. rewrite Ha2.
    rewrite elem_of_difference, list_to_set_elements_L, Ha1, Hc1.
    destruct (decide ((p, q) ∈ tcanceling s)); naive_solver. }
  assert (Hsub : ∀ p q, (p, q) ∈ tactive s' → (p, q) ∈ tactive s2).
  { intros p q. by rewrite <- Eq. }
  split.
  - by eapply timer_inv_same.
  - rewrite <- Eq. unfold s3. simpl. congruence.
  - by rewrite <- Eq.
  - done.
  - intros p t Ht Hin'. assert (Hin2 := Hsub _ _ Hin').
    assert ((p, sequence_ t) ∈ tactive s1) as Hin1 by set_solver.
    destruct (Hh1 p t Ht Hin1) as [[Hl (exp & Hexp & Hh)]|[Hl Hh]].
    + left. split; [done|]. exists exp. split; [done|]. rewrite <- Eh. by apply Hh2.
    + right. split; [done|]. rewrite <- Eh. by apply Hh2.
  - rewrite <- Eq. intros Hpos. exists s3. split; [|by apply Harm]. simpl. congruence.
Qed.
End invariant.

#[export] Hint Resolve ti_sorted ti_entries : muduo.

(** ** What the callbacks of the timers may do to the queue

    A callback is arbitrary code; to the timers it can only add a timer,
    cancel one, or leave the queue alone while it uses the kernel.  Other
    threads may create timers meanwhile (they file them later, in the loop). *)

Section user_steps.
Context {K CB : Type} `{!Kernel K} `{!KernelLaws K}.
Abbreviation S := (TimerState K CB).
Variable alloc : gmap positive (Timer CB) → positive.
Hypothesis alloc_fresh : ∀ h, h !! alloc h = None.
Implicit Types s : S.

Inductive user_step : S → S → Prop :=
| user_new cb when interval id s s1 :
    0 ≤ when ≤ int64_max → s_global_sequence_ s < LLONG_MAX →
    new_timer alloc cb when interval s = Ok (id, s1) → user_step s s1
| user_add cb when interval id s s1 s2 :
    0 ≤ when ≤ int64_max → s_global_sequence_ s < LLONG_MAX →
    new_timer alloc cb when interval s = Ok (id, s1) →
    addTimerInLoop true (tid_timer id) s1 = Ok (tt, s2) → user_step s s2
| user_cancel id s s1 : cancelTimerInLoop true id s = Ok (tt, s1) → user_step s s1
| user_kernel s s1 : same_timers s s1 → user_step s s1.

(** While callbacks run, the queue only grows: cancellation is postponed. *)
Record extends s s' : Prop := Extends {
  ex_heap : ts_heap s ⊆ ts_heap s';
  ex_active : active_timer_set_ (ts_queue s) ⊆ active_timer_set_ (ts_queue s');
  ex_canceling : canceling_timer_set_ (ts_queue s) ⊆ canceling_timer_set_ (ts_queue s');
  ex_running : is_running_callback_ (ts_queue s') = is_running_callback_ (ts_queue s);
  ex_global : s_global_sequence_ s' ≤ LLONG_MAX ∨ s_global_sequence_ s' = s_global_sequence_ s
}.

Lemma extends_refl s : extends s s.
Proof. split; auto. Qed.
Lemma extends_trans s1 s2 s3 : extends s1 s2 → extends s2 s3 → extends s1 s3.
Proof.
  intros [H1 H2 H3 H4 H5] [H1' H2' H3' H4' H5']. split; [by etrans|set_solver|set_solver|congruence|].
  destruct H5' as [|H5']; [by left|]. rewrite H5'. done.
Qed.
Lemma same_timers_extends s s' : same_timers s s' → extends s s'.
Proof. intros (E1 & E2 & E3). split; rewrite ?E1, ?E2, ?E3; auto. Qed.

Lemma wrap_int64_succ n : 0 ≤ n < LLONG_MAX → wrap_int64 (n + 1) = n + 1.
Proof.
  unfold wrap_int64, LLONG_MAX, int64_max. intros Hn. rewrite Z.mod_small; lia.
Qed.

(** Creating a timer. *)
Lemma new_timer_ok cb when interval s :
  timer_inv s → 0 ≤ when ≤ int64_max → 0 ≤ s_global_sequence_ s < LLONG_MAX →
  let p := alloc (ts_heap s) in
  let q := s_global_sequence_ s in
  let s1 := s <| ts_heap ::= <[p := make_Timer cb when interval q]> |>
              <| s_global_sequence_ := q + 1 |> in
  new_timer alloc cb when interval s = Ok (mkTimerId p q, s1) ∧ timer_inv s1 ∧ extends s s1 ∧
  (p, q) ∉ active_timer_set_ (ts_queue s).
Proof.
  intros Hi Hw Hg p q s1. pose proof (alloc_fresh (ts_heap s)) as Hfresh. fold p in Hfresh.
  split; [by unfold new_timer, s1; rewrite wrap_int64_succ|].
  assert (∀ p' t', <[p := make_Timer cb when interval q]> (ts_heap s) !! p' = Some t' →
    (p' = p ∧ t' = make_Timer cb when interval q) ∨ (p' ≠ p ∧ ts_heap s !! p' = Some t')) as Hl.
  { intros p' t'. rewrite lookup_insert. case_decide; naive_solver. }
  split; [|split].
  - split; simpl; try apply Hi.
    + intros e v Hv. destruct (ti_entries _ Hi _ _ Hv) as (p' & t' & -> & Ht' & ->).
      exists p', t'. split; [done|]. split; [|done]. rewrite lookup_insert_ne; [done|]. congruence.
    + intros p1 p2 t1 t2 [[-> ->]|[Hp1 H1]]%Hl [[-> ->]|[Hp2 H2]]%Hl; simpl.
      * done.
      * intros Hq. pose proof (ti_seq_lt _ Hi _ _ H2). unfold q in *. lia.
      * intros Hq. pose proof (ti_seq_lt _ Hi _ _ H1). unfold q in *. lia.
      * by eapply (ti_seq_inj _ Hi).
    + intros p' t' [[-> ->]|[_ H1]]%Hl; simpl; [lia|].
      pose proof (ti_seq_lt _ Hi _ _ H1). unfold q in *. lia.
    + intros p' t' [[-> ->]|[_ H1]]%Hl; simpl; [done|]. by apply (ti_range _ Hi _ _ H1).
  - split; simpl; try done.
    + by apply insert_subseteq.
    + left. unfold q. lia.
  - intros Ha. destruct (active_timer s p q Hi Ha) as (t & Ht & _). congruence.
Qed.

(** Sequence numbers are not negative: a part of the invariant that only
    creation needs. *)
Definition counting s : Prop := 0 ≤ s_global_sequence_ s.

Lemma user_step_running s s' :
  timer_inv s → counting s → is_running_callback_ (ts_queue s) = true → user_step s s' →
  timer_inv s' ∧ counting s' ∧ extends s s'.
Proof.
  unfold counting. intros Hi Hc Hr. destruct 1 as [cb when iv id s s1 Hw Hg E
    |cb when iv id s s1 s2 Hw Hg E E2|[p q] s s1 E|s s1 Hsame].
  - destruct (new_timer_ok cb when iv s) as (E' & Hi1 & Hx & _); [done..|].
    rewrite E' in E. injection E as <- <-. split; [done|]. split; [simpl; lia|done].
  - destruct (new_timer_ok cb when iv s) as (E' & Hi1 & Hx & Ha); [done..|].
    rewrite E' in E. injection E as <- Es. cbn [tid_timer] in E2.
    match type of Hi1 with timer_inv ?x => set (sn := x) in * end. subst s1.
    set (t := make_Timer cb when iv (s_global_sequence_ s)).
    assert (ts_heap sn !! alloc (ts_heap s) = Some t) as Ht by apply lookup_insert_eq.
    destruct (add_ok (alloc (ts_heap s)) t sn) as (s3 & E3 & Hi3 & Harm); [done..|].
    change (addTimerInLoop true (alloc (ts_heap s)) sn = Ok (tt, s2)) in E2.
    rewrite E3 in E2. injection E2 as <-.
    match type of Harm with context [filed ?p ?t ?s1] => set (sf := filed p t s1) in Harm end.
    assert (same_timers sf s3) as Hsame.
    { destruct (earlier_than_all _ _); [by eapply armed_same|by subst]. }
    split; [done|]. split; [destruct Hsame as (_ & <- & _); simpl; lia|].
    apply (extends_trans _ sf); [|by apply same_timers_extends].
    eapply extends_trans; [exact Hx|]. split; simpl; auto. set_solver.
  - rewrite (cancel_running p q s Hi Hr) in E. injection E as <-.
    split; [by eapply timer_inv_queue|]. split; [done|]. split; simpl; auto. set_solver.
  - split; [by eapply timer_inv_same|]. split; [by destruct Hsame as (_ & <- & _)|].
    by apply same_timers_extends.
Qed.

Lemma user_steps_running s s' :
  timer_inv s → counting s → is_running_callback_ (ts_queue s) = true → rtc user_step s s' →
  timer_inv s' ∧ counting s' ∧ extends s s'.
Proof.
  intros Hi Hc Hr Hs. induction Hs as [s|s1 s2 s3 H12 _ IH]; [by split; [|split; [|apply extends_refl]]|].
  destruct (user_step_running s1 s2) as (Hi2 & Hc2 & Hx); [done..|].
  destruct IH as (Hi3 & Hc3 & Hx3); [done|done|by rewrite (ex_running _ _ Hx)|].
  split; [done|]. split; [done|]. by eapply extends_trans.
Qed.

(** What is filed stays filed. *)
Lemma extends_find s s' e v :
  timer_inv s → timer_inv s' → extends s s' →
  map_find e (timer_list_ (ts_queue s)) = Some v → map_find e (timer_list_ (ts_queue s')) = Some v.
Proof.
  intros Hi Hi' Hx He. destruct (ti_entries _ Hi _ _ He) as (p & t & -> & Ht & ->).
  assert (Ha := entry_active _ _ _ Hi He). apply (ex_active _ _ Hx) in Ha.
  destruct (active_timer s' p _ Hi' Ha) as (t' & Ht' & Hq & Hf).
  assert (ts_heap s' !! p = Some t) as Ht2 by by eapply lookup_weaken, Hx.
  simplify_eq. done.
Qed.

Lemma extends_listed s s' es p :
  timer_inv s → timer_inv s' → extends s s' →
  (∀ e, e ∈ es → is_Some (map_find e (timer_list_ (ts_queue s)))) →
  listed s' es p ↔ listed s es p.
Proof.
  intros Hi Hi' Hx Hin. unfold listed. split; intros (e & He & Hf); exists e; (split; [done|]).
  - destruct (Hin e He) as [v Hv]. pose proof (extends_find _ _ _ _ Hi Hi' Hx Hv). congruence.
  - by apply (extends_find s s').
Qed.
End user_steps.

(** ** handleRead *)

Section handle_read_spec.
Context {K CB W : Type} `{!Kernel K} `{!KernelLaws K}.
Context `{!Lens W (TimerState K CB), !LensLaws W (TimerState K CB)}.
Abbreviation S := (TimerState K CB).
Variable alloc : gmap positive (Timer CB) → positive.
Hypothesis alloc_fresh : ∀ h, h !! alloc h = None.
Variable run_callback : CB → M W unit.
(** The calls made so far, a part of the program state the queue cannot touch. *)
Variable calls : W → list CB.
Hypothesis calls_frame : ∀ (x : S) w, calls (replace_view x w) = calls w.
(** The callbacks return, record that they ran, and touch the queue only
    through its interface. *)
Hypothesis callbacks_return : ∀ cb w,
  timer_inv (view w : S) → is_running_callback_ (ts_queue (view w)) = true →
  ∃ w', run_callback cb w = Ok (tt, w') ∧ calls w' = calls w ++ [cb] ∧
        rtc (user_step alloc) (view w) (view w').

(** The callback of the timer filed under [e]. *)
Definition callback_at (s : S) (e : Entry) : option CB :=
  v ← map_find e (timer_list_ (ts_queue s));
  p ← v;
  t ← ts_heap s !! p;
  callback_ t.

Lemma zoom_eq {A} (m : M S A) (w : W) a s' :
  m (view w) = Ok (a, s') → zoom m w = Ok (a, replace_view s' w).
Proof. apply zoom_ok. Qed.

Lemma zoom_read {A} (m : M S A) (w : W) a :
  m (view w) = Ok (a, view w) → zoom m w = Ok (a, w).
Proof. intros E. rewrite (zoom_ok _ _ _ _ E). by rewrite replace_same. Qed.

Lemma run_timer_ok e w :
  timer_inv (view w : S) → counting (view w : S) →
  is_running_callback_ (ts_queue (view w)) = true →
  is_Some (map_find e (timer_list_ (ts_queue (view w)))) →
  ∃ w', run_timer run_callback e w = Ok (tt, w') ∧
        calls w' = calls w ++ option_list (callback_at (view w) e) ∧
        rtc (user_step alloc) (view w) (view w').
Proof.
  intros Hi Hc Hr [v He]. destruct (ti_entries _ Hi _ _ He) as (p & t & -> & Ht & _).
  unfold run_timer, callback_at.
  assert (zoom (X := S) (timer_at e) w = Ok (t, w)) as E by (by eapply zoom_read, timer_at_found).
  mstep E. rewrite He. simpl. rewrite Ht. simpl.
  destruct (callback_ t) as [cb|]; [by apply callbacks_return|].
  exists w. split; [done|]. split; [by rewrite app_nil_r|done].
Qed.

Lemma run_timers_ok es w :
  timer_inv (view w : S) → counting (view w : S) →
  is_running_callback_ (ts_queue (view w)) = true →
  (∀ e, e ∈ es → is_Some (map_find e (timer_list_ (ts_queue (view w))))) →
  ∃ w', for_each (run_timer run_callback) es w = Ok (tt, w') ∧
        calls w' = calls w ++ omap (callback_at (view w)) es ∧
        rtc (user_step alloc) (view w) (view w').
Proof.
  revert w. induction es as [|e es IH]; intros w Hi Hc Hr Hin.
  { exists w. split; [done|]. split; [by rewrite app_nil_r|done]. }
  destruct (run_timer_ok e w) as (w1 & E1 & Hcalls1 & Hs1); [done..|apply Hin; by left|].
  destruct (user_steps_running alloc alloc_fresh (view w) (view w1)) as (Hi1 & Hc1 & Hx); [done..|].
  assert (∀ e v, map_find e (timer_list_ (ts_queue (view w : S))) = Some v →
    map_find e (timer_list_ (ts_queue (view w1 : S))) = Some v) as Hfind
    by (intros; by eapply (extends_find (view w))).
  destruct (IH w1) as (w2 & E2 & Hcalls2 & Hs2); [done|done|by rewrite (ex_running _ _ Hx)| |].
  { intros e' He'. destruct (Hin e') as [v Hv]; [by right|]. exists v. by apply Hfind. }
  exists w2. simpl. mstep E1. split; [done|]. split; [|by etrans].
  rewrite Hcalls2, Hcalls1, <- app_assoc. f_equal.
  assert (omap (callback_at (view w1)) es = omap (callback_at (view w)) es) as ->.
  { apply list_omap_ext, Forall2_same_length_lookup. split; [done|].
    intros i e' e2 He' He2. simplify_eq. destruct (Hin e') as [v Hv].
    { right. by eapply list_elem_of_lookup_2. }
    unfold callback_at. rewrite Hv, (Hfind _ _ Hv).
    destruct (ti_entries _ Hi _ _ Hv) as (p & t & -> & Ht & _). simpl.
    by rewrite Ht, (lookup_weaken _ _ _ _ Ht (ex_heap _ _ Hx)). }
  by destruct (callback_at (view w) e).
Qed.

(** The queue when the callbacks start. *)
Definition started (k : K) (s : S) : S :=
  s <| ts_kernel := k |> <| ts_queue ::= λ q, q <| is_running_callback_ := true |> |>.
(** The queue when they are done. *)
Definition stopped (s : S) : S :=
  s <| ts_queue ::= λ q, q <| is_running_callback_ := false |> |>.

Lemma handleRead_start w now k1 k2 r :
  timer_inv (view w : S) → s_global_sequence_ (view w : S) ≤ LLONG_MAX →
  sys_steady_now (ts_kernel (view w : S)) = (now, k1) →
  sys_timerfd_read (timer_fd (ts_queue (view w : S))) k1 = (r, k2) →
  handleRead run_callback w =
    (for_each (run_timer run_callback) (due now (view w)) ;;
     zoom (X := S) (set_queue (λ q, q <| is_running_callback_ := false |>)) ;;
     zoom (reset (due now (view w : S)) now) ;; zoom (X := S) assert_sizes)
    (replace_view (started k2 (view w)) w).
Proof.
  intros Hi Hg En Er. unfold handleRead.
  mstep (zoom_read _ w _ (assert_sizes_ok _ Hi)).
  mstep (zoom_eq (in_kernel sys_steady_now) w _ _ (in_kernel_eq _ _ _ _ En)).
  set (w1 := replace_view _ w).
  assert (view w1 = (view w : S) <| ts_kernel := k1 |>) as V1 by apply view_replace.
  set (s2 := (view w : S) <| ts_kernel := k2 |>).
  assert (zoom (X := S) readTimerFd w1 = Ok (tt, replace_view s2 w)) as E2.
  { erewrite zoom_eq; [|].
    2: { unfold readTimerFd. rewrite V1. mstep (queue_eq ((view w : S) <| ts_kernel := k1 |>)).
         rewrite (in_kernel_eq _ _ r k2) by (by destruct (view w : S)). done. }
    unfold w1, s2. rewrite replace_replace. by destruct (view w : S). }
  mstep E2. set (w2 := replace_view s2 w).
  assert (view w2 = s2) as V2 by apply view_replace.
  assert (timer_inv s2) as Hi2 by (eapply timer_inv_same; [|exact Hi]; by destruct (view w : S)).
  assert (zoom (X := S) (getExpiredTimers now) w2 = Ok (due now (view w : S), w2)) as E3.
  { apply zoom_read. rewrite V2. rewrite getExpired_ok by done.
    unfold due, s2. by destruct (view w : S). }
  mstep E3. erewrite zoom_eq; [|rewrite V2; apply set_queue_eq]. mcbn.
  unfold w2, s2. rewrite replace_replace. unfold started. by destruct (view w : S).
Qed.

Lemma started_ok k s :
  timer_inv s → counting s → timer_inv (started k s) ∧ counting (started k s) ∧
    is_running_callback_ (ts_queue (started k s)) = true.
Proof. intros Hi Hc. split; [by eapply timer_inv_queue|done]. Qed.

(** The timers that were due are still filed when the callbacks are done. *)
Lemma due_after_callbacks now k s s1 :
  timer_inv s → counting s → s_global_sequence_ s ≤ LLONG_MAX →
  rtc (user_step alloc) (started k s) s1 →
  timer_inv s1 ∧ is_running_callback_ (ts_queue s1) = true ∧
  (∀ e, e ∈ due now s → is_Some (map_find e (timer_list_ (ts_queue s1)))) ∧
  (∀ p t, listed s1 (due now s) p → ts_heap s1 !! p = Some t →
     listed s (due now s) p ∧ ts_heap s !! p = Some t).
Proof.
  intros Hi Hc Hg Hs. destruct (started_ok k s Hi Hc) as (Hi0 & Hc0 & Hr0).
  destruct (user_steps_running alloc alloc_fresh _ _ Hi0 Hc0 Hr0 Hs) as (Hi1 & _ & Hx).
  assert (∀ e, e ∈ due now s → is_Some (map_find e (timer_list_ (ts_queue s)))) as Hin
    by (intros e He; by apply (due_spec now s e Hi Hg)).
  split; [done|]. split; [by rewrite (ex_running _ _ Hx)|]. split.
  - intros e He. destruct (Hin e He) as [v Hv]. exists v. by apply (extends_find (started k s)).
  - intros p t Hl Ht. apply (extends_listed (started k s)) in Hl; [|done..].
    split; [done|]. destruct Hl as (e & He & Hf).
    destruct (ti_entries _ Hi _ _ Hf) as (p' & t' & [= <-] & Ht' & _).
    assert (ts_heap s1 !! p = Some t'); [|congruence]. by eapply lookup_weaken, Hx.
Qed.

(** C6: The timerfd callback.  When it fires, with any callbacks that touch
    the queue only by adding and cancelling timers, [handleRead] returns (no
    assertion fails, no null or dangling [Timer*] is followed).  It calls the
    callback of every timer due at the time [now] it read, each once, in order
    of expiration and then of creation, the timers that another callback of the
    same batch cancelled included.  Afterwards the finished one-shot timers and
    every timer cancelled meanwhile are gone, each repeating timer left is filed
    at [now] plus its interval, all others are where they were, the set of
    postponed cancellations is empty, and the timerfd is armed for the first
    timer left. *)
Theorem handleRead_correct (w : W) (now : Z) (k1 k2 : K) (r : Z) :
  timer_inv (view w : S) → counting (view w : S) → s_global_sequence_ (view w : S) ≤ LLONG_MAX →
  sys_steady_now (ts_kernel (view w : S)) = (now, k1) →
  sys_timerfd_read (timer_fd (ts_queue (view w : S))) k1 = (r, k2) →
  (∀ p t, listed (view w : S) (due now (view w)) p → ts_heap (view w : S) !! p = Some t →
     repeat_ t = true → ∃ exp, restarts t now exp) →
  ∃ w' s1, handleRead run_callback w = Ok (tt, w') ∧
    calls w' = calls w ++ omap (callback_at (view w)) (due now (view w)) ∧
    rtc (user_step alloc) (started k2 (view w)) s1 ∧
    reset_done now (due now (view w)) (stopped s1) (view w') ∧
    is_running_callback_ (ts_queue (view w' : S)) = false.
Proof.
  intros Hi Hc Hg En Er Hre. pose proof (steady_now_law _ _ _ En) as [_ [Hn _]].
  destruct (started_ok k2 (view w) Hi Hc) as (Hi0 & Hc0 & Hr0).
  set (w0 := replace_view (started k2 (view w)) w).
  assert (view w0 = started k2 (view w)) as V0 by apply view_replace.
  destruct (run_timers_ok (due now (view w)) w0) as (w1 & E1 & Hcalls & Hs1); rewrite ?V0; [done..| |].
  { intros e He. by apply (due_spec now (view w : S) e Hi Hg). }
  rewrite V0 in Hs1, Hcalls.
  destruct (due_after_callbacks now k2 (view w) (view w1)) as (Hi1 & Hr1 & Hin1 & Hl1); [done..|].
  destruct (reset_ok now (due now (view w)) (stopped (view w1))) as (s' & E2 & Hd); [| done | | | |].
  { by eapply timer_inv_queue. }
  { by apply due_NoDup. }
  { done. }
  { intros p t Hl Ht. destruct (Hl1 p t Hl Ht) as [Hl' Ht']. by apply (Hre p t). }
  set (w2 := replace_view (stopped (view w1)) w1).
  assert (view w2 = stopped (view w1)) as V2 by apply view_replace.
  exists (replace_view s' w2), (view w1). rewrite view_replace.
  split; [|split; [|split; [done|split; [done|by rewrite (rd_running _ _ _ _ Hd)]]]].
  - rewrite (handleRead_start w now k1 k2 r) by done. fold w0. mstep E1.
    rewrite (zoom_eq _ _ _ _ (set_queue_eq _ (view w1))). mcbn. fold (stopped (view w1)). fold w2.
    rewrite <- V2 in E2. rewrite (zoom_eq _ _ _ _ E2). mcbn.
    apply zoom_read. rewrite view_replace. apply assert_sizes_ok, Hd.
  - rewrite calls_frame. unfold w2. rewrite calls_frame, Hcalls. unfold w0. by rewrite calls_frame.
Qed.
End handle_read_spec.

(** ** Properties of the operations *)

Section properties.
Context {K CB : Type} `{!Kernel K} `{!KernelLaws K}.
Abbreviation S := (TimerState K CB).
Variable alloc : gmap positive (Timer CB) → positive.
Hypothesis alloc_fresh : ∀ h, h !! alloc h = None.
Implicit Types s : S.

(** [addTimer] when it is called in the loop thread. *)
Definition addTimer_in_loop (cb : option CB) (when : Z) (interval : double) : M S TimerId :=
  id ← new_timer alloc cb when interval;
  addTimerInLoop true (tid_timer id) ;;
  mret id.

Lemma addTimer_in_loop_ok cb when interval s :
  timer_inv s → 0 ≤ when ≤ int64_max → 0 ≤ s_global_sequence_ s < LLONG_MAX →
  let p := alloc (ts_heap s) in
  let q := s_global_sequence_ s in
  let t := make_Timer cb when interval q in
  let s1 := s <| ts_heap ::= <[p := t]> |> <| s_global_sequence_ := q + 1 |> in
  ∃ s2, addTimer_in_loop cb when interval s = Ok (mkTimerId p q, s2) ∧ timer_inv s2 ∧
    if earlier_than_all when (timer_list_ (ts_queue s))
    then armed_for when (filed p t s1) s2 else s2 = filed p t s1.
Proof.
  intros Hi Hw Hg p q t s1.
  destruct (new_timer_ok alloc alloc_fresh cb when interval s) as (E1 & Hi1 & _ & Ha); [done..|].
  assert (ts_heap s1 !! p = Some t) as Ht by apply lookup_insert_eq.
  destruct (add_ok p t s1) as (s2 & E2 & Hi2 & Harm); [done..|].
  exists s2. split; [|done]. unfold addTimer_in_loop. mstep E1. cbn [tid_timer]. fold p q t s1. by mstep E2.
Qed.

Lemma filed_find p t s e :
  map_find e (timer_list_ (ts_queue (filed p t s))) =
  if bool_decide (e = (expiration_ t, sequence_ t)) then Some (Some p)
  else map_find e (timer_list_ (ts_queue s)).
Proof. apply map_find_set. Qed.

(** C24: Adding a timer from the loop thread returns (no assertion fails), keeps
    the two indexes of the queue in agreement, files exactly one new entry,
    under (when, sequence number), and sets the timerfd exactly when the new
    timer is the first of the queue, for its expiration. *)
Theorem addTimer_files cb when interval s :
  timer_inv s → 0 ≤ when ≤ int64_max → 0 ≤ s_global_sequence_ s < LLONG_MAX →
  ∃ id s', addTimer_in_loop cb when interval s = Ok (id, s') ∧ timer_inv s' ∧
    (∀ e, map_find e (timer_list_ (ts_queue s')) =
       if bool_decide (e = (when, tid_sequence id)) then Some (Some (tid_timer id))
       else map_find e (timer_list_ (ts_queue s))) ∧
    ts_heap s' !! tid_timer id = Some (make_Timer cb when interval (tid_sequence id)) ∧
    (if earlier_than_all when (timer_list_ (ts_queue s))
     then ∃ s0, ts_kernel s0 = ts_kernel s ∧ armed_for when s0 s'
     else ts_kernel s' = ts_kernel s).
Proof.
  intros Hi Hw Hg. destruct (addTimer_in_loop_ok cb when interval s) as (s' & E & Hi' & Har); [done..|].
  eexists _, s'. split; [exact E|]. split; [done|]. cbn [tid_timer tid_sequence].
  destruct (earlier_than_all _ _).
  - pose proof (armed_same _ _ _ Har) as (Eh & _ & Eq). rewrite <- Eq, <- Eh.
    split; [intros e; by rewrite filed_find|]. split; [apply lookup_insert_eq|]. eexists; split; [|exact Har]; done.
  - rewrite Har. split; [intros e; by rewrite filed_find|]. split; [apply lookup_insert_eq|done].
Qed.

(** C23: Cancelling, in the loop thread and outside the callbacks, returns for
    every [TimerId], stale ones included; it takes away exactly the entry of
    that timer and deletes the timer, so that an id whose timer is gone, or
    whose address was given to a newer timer, removes nothing. *)
Theorem cancelTimer_exact id s :
  timer_inv s → is_running_callback_ (ts_queue s) = false →
  ∃ s', cancelTimerInLoop true id s = Ok (tt, s') ∧ timer_inv s' ∧
    (∀ e v, map_find e (timer_list_ (ts_queue s')) = Some v ↔
       map_find e (timer_list_ (ts_queue s)) = Some v ∧
       ¬ (v = Some (tid_timer id) ∧ e.2 = tid_sequence id)) ∧
    ((tid_timer id, tid_sequence id) ∈ active_timer_set_ (ts_queue s) →
       ts_heap s' !! tid_timer id = None) ∧
    (∀ p, p ≠ tid_timer id → ts_heap s' !! p = ts_heap s !! p) ∧
    ((tid_timer id, tid_sequence id) ∉ active_timer_set_ (ts_queue s) → s' = s).
Proof.
  intros Hi Hr. destruct id as [p q]. cbn [tid_timer tid_sequence].
  destruct (cancel_idle p q s Hi Hr) as (s' & E & Hi' & _ & Hs). exists s'.
  split; [done|]. split; [done|]. case_bool_decide as Ha.
  - destruct Hs as (t & Ht & <- & ->). destruct (active_timer s p _ Hi Ha) as (t' & Ht' & _ & Hf).
    rewrite Ht in Ht'. injection Ht' as <-. split; [|split; [|split]].
    + intros e v. simpl. rewrite map_find_erase by apply Hi. case_bool_decide as He.
      * split; [done|]. intros [Hv Hne]. subst e. rewrite Hf in Hv. naive_solver.
      * split; [|tauto]. intros Hv. split; [done|]. intros [-> Hq]. apply He.
        by destruct (same_sequence_same_entry s e _ p p Hi Hv Hf).
    + intros _. apply lookup_delete_eq.
    + intros p' Hp'. apply lookup_delete_ne. congruence.
    + tauto.
  - subst s'. split; [|by split]. intros e v. split; [|tauto]. intros Hv. split; [done|].
    intros [-> <-]. apply Ha. by apply entry_active.
Qed.

(** [getExpiredTimers(now)] returns exactly the entries whose expiration is
    at most [now], the one at [now] itself included, in order of expiration and
    then of creation, and changes nothing. *)
Theorem getExpiredTimers_exact now s :
  timer_inv s → s_global_sequence_ s ≤ LLONG_MAX →
  ∃ expired, getExpiredTimers now s = Ok (expired, s) ∧
    (∀ e, e ∈ expired ↔ is_Some (map_find e (timer_list_ (ts_queue s))) ∧ e.1 ≤ now) ∧
    StronglySorted entry_lt expired ∧ NoDup expired.
Proof.
  intros Hi Hg. exists (due now s). split; [by apply getExpired_ok|].
  split; [intros e; by apply due_spec|]. split; [by apply due_sorted|by apply due_NoDup].
Qed.

(** C33: The timerfd is never disarmed by accident: [resetTimerFd] asks for a
    normalised [timespec] that is not zero, and whose length is the time left to
    the expiration, or 100 microseconds when less is left or the expiration has
    passed. *)
Theorem resetTimerFd_setting exp s :
  0 ≤ exp ≤ int64_max →
  ∃ now k1 sec nsec r k2, sys_steady_now (ts_kernel s) = (now, k1) ∧
    sys_timerfd_settime (timer_fd (ts_queue s)) sec nsec k1 = (r, k2) ∧
    resetTimerFd exp s = Ok (tt, s <| ts_kernel := k2 |>) ∧
    0 ≤ sec ∧ 0 ≤ nsec < 1000000000 ∧ 0 < sec * 1000000000 + nsec ∧
    sec * 1000000000 + nsec = 1000 * Z.max 100 (exp - now).
Proof.
  intros Hr. destruct (resetTimerFd_ok exp s Hr) as (s' & E & now & k1 & r & k2 & En & Es & ->).
  exists now, k1. do 4 eexists. split; [exact En|]. split; [exact Es|]. split; [exact E|].
  set (us := Z.max 100 (exp - now)).
  pose proof (Z.div_mod us 1000000). pose proof (Z.mod_pos_bound us 1000000).
  assert (0 ≤ us / 1000000) by (apply Z.div_pos; lia). lia.
Qed.
End properties.

(** ** Witnesses

    A queue with a one-shot timer at 500 and a repeating one at 900 with an
    interval of one second; callback 1 cancels the timer it is given the id
    of, callback 2 does nothing else than being logged. *)

Abbreviation DemoState := (TimerState scripted nat).
Definition demo_alloc (h : gmap positive (Timer nat)) : positive := fresh (C := gset positive) (dom h).
Lemma demo_alloc_fresh h : h !! demo_alloc h = None.
Proof. 
  unfold demo_alloc. apply (not_elem_of_dom (D := gset positive)).
  apply (is_fresh (C := gset positive) (dom h)).
 Qed.

Definition demo_start : DemoState :=
  mkTimerState idle_kernel ∅ 0 (mkTimerQueue 5 7 [] ∅ ∅ false).
Definition demo_two : M DemoState unit :=
  _ ← addTimer_in_loop demo_alloc (Some 1%nat) 500 (double_of_Z 0);
  _ ← addTimer_in_loop demo_alloc (Some 2%nat) 900 (double_of_Z 1);
  mret tt.
Definition demo_state : DemoState :=
  match demo_two demo_start with Ok (_, s) => s | Fault _ => demo_start end.

Lemma demo_start_inv : timer_inv demo_start.
Proof.
  split; simpl; try done; [constructor|]. intros p q. split; [set_solver|]. by intros [].
Qed.

Lemma demo_state_inv : timer_inv demo_state.
Proof.
  unfold demo_state, demo_two.
  destruct (addTimer_in_loop_ok demo_alloc demo_alloc_fresh (Some 1%nat) 500 (double_of_Z 0)
    demo_start) as (s1 & E1 & Hi1 & Har1);
    [apply demo_start_inv|by unfold int64_max|by vm_compute|].
  destruct (addTimer_in_loop_ok demo_alloc demo_alloc_fresh (Some 2%nat) 900 (double_of_Z 1) s1)
    as (s2 & E2 & Hi2 & _); [done|by unfold int64_max| |].
  { simpl in Har1. apply armed_same in Har1 as (_ & <- & _). by vm_compute. }
  mstep E1. by mstep E2.
Qed.

(** The program around the queue: the timers and the log of callbacks. *)
Abbreviation DemoWorld := (DemoState * list nat)%type.
#[export] Instance demo_lens : Lens DemoWorld DemoState := {|
  view := fst; replace_view s w := (s, w.2) |}.
#[export] Instance demo_lens_laws : LensLaws DemoWorld DemoState.
Proof. split; [done..|by intros []]. Qed.

Definition demo_callback (cb : nat) : M DemoWorld unit :=
  (if (cb =? 1)%nat then zoom (cancelTimerInLoop true (mkTimerId 2 1)) else mret tt) ;;
  modify (λ w, (w.1, w.2 ++ [cb])).

Lemma demo_frame (x : DemoState) (w : DemoWorld) : (replace_view x w).2 = w.2.
Proof. done. Qed.
Lemma demo_callback_returns cb (w : DemoWorld) :
  timer_inv (view w : DemoState) → is_running_callback_ (ts_queue (view w : DemoState)) = true →
  ∃ w', demo_callback cb w = Ok (tt, w') ∧ w'.2 = w.2 ++ [cb] ∧
        rtc (user_step demo_alloc) (view w : DemoState) (view w').
Proof.
  intros Hi Hr. unfold demo_callback. destruct (cb =? 1)%nat; [|by eexists].
  pose proof (cancel_running 2 1 _ Hi Hr) as E. mstep (zoom_eq _ w _ _ E).
  eexists. split; [done|]. split; [done|]. apply rtc_once. by eapply user_cancel.
Qed.

(** At 900, when both timers are due. *)
Definition demo_kernel : scripted := (ts_kernel demo_state) <| sk_clock := 900 |>.
Definition demo_due : DemoState := demo_state <| ts_kernel := demo_kernel |>.

Lemma demo_due_inv : timer_inv demo_due.
Proof. eapply timer_inv_queue; [apply demo_state_inv|done..]. Qed.

Lemma demo_heap p t :
  ts_heap demo_due !! p = Some t → repeat_ t = true → ∃ exp, restarts t 900 exp.
Proof.
  assert (ts_heap demo_due = {[1%positive := mkTimer (Some 1%nat) 500 (double_of_Z 0) false 0;
    2%positive := mkTimer (Some 2%nat) 900 (double_of_Z 1) true 1]}) as -> by by vm_compute.
  rewrite lookup_insert. case_decide; [by intros [= <-]|].
  rewrite lookup_singleton_Some. intros [_ <-] _. exists 1000900, 1000000. split; [|split]; by vm_compute.
Qed.

Lemma handleRead_correct_witness :
  ∃ w' s1, handleRead demo_callback (demo_due, []) = Ok (tt, w') ∧
    w'.2 = [1%nat; 2%nat] ∧
    rtc (user_step demo_alloc) (started demo_kernel demo_due) s1 ∧
    reset_done 900 [(500, 0); (900, 1)] (stopped s1) w'.1 ∧
    is_running_callback_ (ts_queue w'.1) = false.
Proof.
  apply (handleRead_correct (K := scripted) (W := DemoWorld) demo_alloc demo_alloc_fresh demo_callback snd
    demo_frame demo_callback_returns (demo_due, []) 900 demo_kernel demo_kernel 8).
  - apply demo_due_inv.
  - by vm_compute.
  - by vm_compute.
  - by vm_compute.
  - by vm_compute.
  - intros p t _. apply demo_heap.
Defined.

Lemma addTimer_files_witness :
  ∃ id s', addTimer_in_loop demo_alloc (Some 3%nat) 100 (double_of_Z 0) demo_state = Ok (id, s') ∧
    timer_inv s' ∧
    (∀ e, map_find e (timer_list_ (ts_queue s')) =
       if bool_decide (e = (100, tid_sequence id)) then Some (Some (tid_timer id))
       else map_find e (timer_list_ (ts_queue demo_state))) ∧
    ts_heap s' !! tid_timer id = Some (make_Timer (Some 3%nat) 100 (double_of_Z 0) (tid_sequence id)) ∧
    ∃ s0, ts_kernel s0 = ts_kernel demo_state ∧ armed_for 100 s0 s'.
Proof.
  assert (earlier_than_all 100 (timer_list_ (ts_queue demo_state)) = true) as E by by vm_compute.
  pose proof (addTimer_files (K := scripted) demo_alloc demo_alloc_fresh (Some 3%nat) 100
    (double_of_Z 0) demo_state demo_state_inv) as H.
  rewrite E in H. apply H; by vm_compute.
Defined.

(** The timer 2 of the queue, and an id that outlived its timer. *)
Lemma cancelTimer_exact_witness :
  (∃ s', cancelTimerInLoop true (mkTimerId 2 1) demo_state = Ok (tt, s') ∧ timer_inv s' ∧
    (∀ e v, map_find e (timer_list_ (ts_queue s')) = Some v ↔
       map_find e (timer_list_ (ts_queue demo_state)) = Some v ∧ ¬ (v = Some 2%positive ∧ e.2 = 1)) ∧
    ((2%positive, 1) ∈ active_timer_set_ (ts_queue demo_state) → ts_heap s' !! 2%positive = None) ∧
    (∀ p, p ≠ 2%positive → ts_heap s' !! p = ts_heap demo_state !! p) ∧
    ((2%positive, 1) ∉ active_timer_set_ (ts_queue demo_state) → s' = demo_state)) ∧
  (∃ s', cancelTimerInLoop true (mkTimerId 2 9) demo_state = Ok (tt, s') ∧ s' = demo_state).
Proof.
  split; [apply (cancelTimer_exact (mkTimerId 2 1)); [apply demo_state_inv|by vm_compute]|].
  destruct (cancelTimer_exact (mkTimerId 2 9) demo_state) as (s' & E & _ & _ & _ & _ & Hs);
    [apply demo_state_inv|by vm_compute|].
  exists s'. split; [exact E|]. apply Hs. by apply (bool_decide_unpack _); vm_compute.
Defined.

Lemma getExpiredTimers_exact_witness :
  ∃ expired, getExpiredTimers 500 demo_state = Ok (expired, demo_state) ∧
    (∀ e, e ∈ expired ↔ is_Some (map_find e (timer_list_ (ts_queue demo_state))) ∧ e.1 ≤ 500) ∧
    StronglySorted entry_lt expired ∧ NoDup expired.
Proof. apply (getExpiredTimers_exact 500); [apply demo_state_inv|by vm_compute]. Defined.

Lemma resetTimerFd_setting_witness :
  ∃ now k1 sec nsec r k2, sys_steady_now (ts_kernel demo_state) = (now, k1) ∧
    sys_timerfd_settime (timer_fd (ts_queue demo_state)) sec nsec k1 = (r, k2) ∧
    resetTimerFd 3500000 demo_state = Ok (tt, demo_state <| ts_kernel := k2 |>) ∧
    0 ≤ sec ∧ 0 ≤ nsec < 1000000000 ∧ 0 < sec * 1000000000 + nsec ∧
    sec * 1000000000 + nsec = 1000 * Z.max 100 (3500000 - now).
Proof. apply (resetTimerFd_setting 3500000 demo_state). by vm_compute. Defined.
