(* ===== verification/Channel.v ===== *)
(** * Channel (include/Channel.h, src/Channel.cc)

    A [Channel] ties a file descriptor to the events its owner wants and to the
    callbacks that handle them.  The callbacks are [std::function]s, possibly
    empty: [option H], where a value of [H] names the code to run; [tie_] is a
    weak pointer to an owner named by a value of [T].  Channels live in a heap
    indexed by address, since the poller, the kernel and the owner share them. *)

From S2P Require Import Prelude Kernel.

(** ** Event masks *)

Create Rewrite HintDb events.

Definition kReadEvent : Z := Z.lor EPOLLIN EPOLLPRI.
Definition kWriteEvent : Z := EPOLLOUT.
Definition kNoneEvent : Z := 0.

(** [mask & bits] as a condition. *)
Definition has (mask bits : Z) : bool := negb (Z.land mask bits =? 0).

(** What the public operations do to [events_]. *)
Definition enable_reading (events : Z) : Z := Z.lor events kReadEvent.
Definition disable_reading (events : Z) : Z := Z.land events (Z.lnot kReadEvent).
Definition enable_writing (events : Z) : Z := Z.lor events kWriteEvent.
Definition disable_writing (events : Z) : Z := Z.land events (Z.lnot kWriteEvent).
Definition disable_all (events : Z) : Z := kNoneEvent.

Definition isReading (events : Z) : bool := has events kReadEvent.
Definition isWriting (events : Z) : bool := has events kWriteEvent.
Definition isNoneEvent (events : Z) : bool := events =? kNoneEvent.

(** ** The class *)

Record Channel (H T : Type) : Type := mkChannel {
  fd_ : Z;
  events_ : Z;
  revent_ : Z;
  index_ : Z;
  tie_ : option T;
  tied_ : bool;
  read_callback_ : option H;
  write_callback_ : option H;
  close_callback_ : option H;
  error_callback_ : option H
}.
Arguments mkChannel {H T} _ _ _ _ _ _ _ _ _ _.
Arguments fd_ {H T} _. Arguments events_ {H T} _. Arguments revent_ {H T} _.
Arguments index_ {H T} _. Arguments tie_ {H T} _. Arguments tied_ {H T} _.
Arguments read_callback_ {H T} _. Arguments write_callback_ {H T} _.
Arguments close_callback_ {H T} _. Arguments error_callback_ {H T} _.

#[export] Instance set_events_ {H T} : Setter (@events_ H T) := λ f c,
  mkChannel (fd_ c) (f (events_ c)) (revent_ c) (index_ c) (tie_ c) (tied_ c)
    (read_callback_ c) (write_callback_ c) (close_callback_ c) (error_callback_ c).
#[global] Arguments set_events_ {H T} _ !_ /.
#[export] Instance set_revent_ {H T} : Setter (@revent_ H T) := λ f c,
  mkChannel (fd_ c) (events_ c) (f (revent_ c)) (index_ c) (tie_ c) (tied_ c)
    (read_callback_ c) (write_callback_ c) (close_callback_ c) (error_callback_ c).
#[global] Arguments set_revent_ {H T} _ !_ /.
#[export] Instance set_index_ {H T} : Setter (@index_ H T) := λ f c,
  mkChannel (fd_ c) (events_ c) (revent_ c) (f (index_ c)) (tie_ c) (tied_ c)
    (read_callback_ c) (write_callback_ c) (close_callback_ c) (error_callback_ c).
#[global] Arguments set_index_ {H T} _ !_ /.
#[export] Instance set_tie_ {H T} : Setter (@tie_ H T) := λ f c,
  mkChannel (fd_ c) (events_ c) (revent_ c) (index_ c) (f (tie_ c)) (tied_ c)
    (read_callback_ c) (write_callback_ c) (close_callback_ c) (error_callback_ c).
#[global] Arguments set_tie_ {H T} _ !_ /.
#[export] Instance set_tied_ {H T} : Setter (@tied_ H T) := λ f c,
  mkChannel (fd_ c) (events_ c) (revent_ c) (index_ c) (tie_ c) (f (tied_ c))
    (read_callback_ c) (write_callback_ c) (close_callback_ c) (error_callback_ c).
#[global] Arguments set_tied_ {H T} _ !_ /.

(** [Channel(loop, fd)]; the owner then sets the callbacks it handles. *)
Definition make_Channel {H T} (fd : Z) : Channel H T :=
  mkChannel fd 0 0 (-1) None false None None None None.
Definition setCallbacks {H T} (read write close error : option H) (c : Channel H T)
    : Channel H T :=
  mkChannel (fd_ c) (events_ c) (revent_ c) (index_ c) (tie_ c) (tied_ c) read write close error.

Definition set_revent {H T} (revent : Z) (c : Channel H T) : Channel H T :=
  c <| revent_ := revent |>.
Definition tie {H T} (sp : T) (c : Channel H T) : Channel H T :=
  c <| tie_ := Some sp |> <| tied_ := true |>.

(** The operations on any mask. *)
Lemma has_lor_same e b : b ≠ 0 → has (Z.lor e b) b = true.
Proof.
  intros Hb. unfold has. rewrite Z.land_lor_distr_l, Z.land_diag.
  apply negb_true_iff, Z.eqb_neq. intros [_ H]%Z.lor_eq_0_iff. done.
Qed.
Lemma has_lor_other e b c : Z.land b c = 0 → has (Z.lor e b) c = has e c.
Proof. intros H. unfold has. by rewrite Z.land_lor_distr_l, H, Z.lor_0_r. Qed.
Lemma has_clear_same e b : has (Z.land e (Z.lnot b)) b = false.
Proof.
  unfold has. rewrite <- Z.land_assoc, (Z.land_comm (Z.lnot b)), Z.land_lnot_diag, Z.land_0_r. done.
Qed.
Lemma has_clear_other e b c : Z.land (Z.lnot b) c = c → has (Z.land e (Z.lnot b)) c = has e c.
Proof. intros H. unfold has. by rewrite <- Z.land_assoc, H. Qed.

Lemma isWriting_enable e : isWriting (enable_writing e) = true.
Proof. by apply has_lor_same. Qed.
Lemma isWriting_disable e : isWriting (disable_writing e) = false.
Proof. apply has_clear_same. Qed.
Lemma isWriting_enable_reading e : isWriting (enable_reading e) = isWriting e.
Proof. by apply has_lor_other. Qed.
Lemma isReading_enable e : isReading (enable_reading e) = true.
Proof. by apply has_lor_same. Qed.
Lemma isReading_enable_writing e : isReading (enable_writing e) = isReading e.
Proof. by apply has_lor_other. Qed.
Lemma isReading_disable_writing e : isReading (disable_writing e) = isReading e.
Proof. by apply has_clear_other. Qed.
#[export] Hint Rewrite isWriting_enable isWriting_disable isWriting_enable_reading
  isReading_enable isReading_enable_writing isReading_disable_writing : events.

(** ** Handling the events of one channel

    The callbacks are code of the whole program, with state [W]; [channel] reads
    the channel, which they may have changed; [lock] is [weak_ptr::lock]: is the
    owner still alive? *)

Section handle_event.
Context {H T W : Type}.
Variable channel : M W (Channel H T).
Variable lock : T → M W bool.
Variable call_read : H → Z → M W unit.
Variable call : H → M W unit.

Definition call_opt (cb : option H) : M W unit :=
  match cb with Some h => call h | None => mret tt end.
Definition call_read_opt (cb : option H) (receive_time : Z) : M W unit :=
  match cb with Some h => call_read h receive_time | None => mret tt end.

Definition handleEventWithGuard (receive_time : Z) : M W unit :=
  c ← channel;
  when (has (revent_ c) EPOLLHUP && negb (has (revent_ c) EPOLLIN))
    (call_opt (close_callback_ c)) ;;
  c ← channel;
  when (has (revent_ c) (Z.lor EPOLLIN EPOLLPRI))
    (call_read_opt (read_callback_ c) receive_time) ;;
  c ← channel;
  when (has (revent_ c) EPOLLOUT) (call_opt (write_callback_ c)) ;;
  c ← channel;
  when (has (revent_ c) EPOLLERR) (call_opt (error_callback_ c)).

Definition handleEvent (receive_time : Z) : M W unit :=
  c ← channel;
  if tied_ c then
    guard ← match tie_ c with Some sp => lock sp | None => mret false end;
    when guard (handleEventWithGuard receive_time)
  else handleEventWithGuard receive_time.

(** ** Reference: the calls one set of events causes, in order *)

Inductive handler_call : Type := Call (h : H) | CallRead (h : H).

Definition dispatch (c : Channel H T) : list handler_call :=
  let on (b : bool) (f : H → handler_call) (cb : option H) :=
    match cb with Some h => if b then [f h] else [] | None => [] end in
  on (has (revent_ c) EPOLLHUP && negb (has (revent_ c) EPOLLIN)) Call (close_callback_ c) ++
  on (has (revent_ c) (Z.lor EPOLLIN EPOLLPRI)) CallRead (read_callback_ c) ++
  on (has (revent_ c) EPOLLOUT) Call (write_callback_ c) ++
  on (has (revent_ c) EPOLLERR) Call (error_callback_ c).

Definition do_call (receive_time : Z) (k : handler_call) : M W unit :=
  match k with Call h => call h | CallRead h => call_read h receive_time end.

(** The callbacks leave the events and the callbacks of this channel alone:
    only [fillActiveChannels] sets [revent_], only the owner's constructor sets
    callbacks. *)
Definition keeps_channel (m : M W unit) : Prop :=
  ∀ w c w', channel w = Ok (c, w) → m w = Ok (tt, w') →
    ∃ c', channel w' = Ok (c', w') ∧ revent_ c' = revent_ c ∧
      read_callback_ c' = read_callback_ c ∧ write_callback_ c' = write_callback_ c ∧
      close_callback_ c' = close_callback_ c ∧ error_callback_ c' = error_callback_ c.

(** One part of the dispatch, then the rest. *)
Lemma guarded_call (b : bool) (cb : option H) (f : H → handler_call) t w c
    (rest : M W unit) (l : list handler_call) :
  (∀ h, keeps_channel (do_call t (f h))) →
  channel w = Ok (c, w) →
  (∀ w' c', channel w' = Ok (c', w') → revent_ c' = revent_ c →
     read_callback_ c' = read_callback_ c → write_callback_ c' = write_callback_ c →
     close_callback_ c' = close_callback_ c → error_callback_ c' = error_callback_ c →
     rest w' = for_each (do_call t) l w') →
  (when b (match cb with Some h => do_call t (f h) | None => mret tt end) ;; rest) w =
  for_each (do_call t)
    (match cb with Some h => if b then [f h] else [] | None => [] end ++ l) w.
Proof.
  intros Hk Hc Hrest.
  destruct cb as [h|]; [|destruct b; mcbn; by eapply Hrest].
  destruct b; unfold when; [|mcbn; by eapply Hrest]. cbn [app for_each]. mcbn.
  destruct (do_call t (f h) w) as [[[] w']|] eqn:E; [|done].
  destruct (Hk h w c w' Hc E) as (c' & Hc' & ?). naive_solver.
Qed.

Lemma handleEventWithGuard_dispatch t w c :
  (∀ k, keeps_channel (do_call t k)) → channel w = Ok (c, w) →
  handleEventWithGuard t w = for_each (do_call t) (dispatch c) w.
Proof.
  intros Hk Hc. unfold handleEventWithGuard, dispatch, call_opt, call_read_opt. cbv zeta.
  rewrite (M_bind_ok _ _ _ _ _ Hc).
  apply (guarded_call _ _ Call t w c); [by intros h; apply Hk|done|].
  intros w1 c1 H1 Er1 E1r E1w E1c E1e. rewrite (M_bind_ok _ _ _ _ _ H1).
  rewrite <- E1r, <- E1w, <- E1e, <- Er1.
  apply (guarded_call _ _ CallRead t w1 c1); [by intros h; apply Hk|done|].
  intros w2 c2 H2 Er2 E2r E2w E2c E2e. rewrite (M_bind_ok _ _ _ _ _ H2).
  rewrite <- E2w, <- E2e, <- Er2.
  apply (guarded_call _ _ Call t w2 c2); [by intros h; apply Hk|done|].
  intros w3 c3 H3 Er3 E3r E3w E3c E3e. rewrite (M_bind_ok _ _ _ _ _ H3).
  rewrite <- E3e, <- Er3, <- (app_nil_r (match error_callback_ c3 with _ => _ end)).
  transitivity ((when (has (revent_ c3) EPOLLERR)
     (match error_callback_ c3 with Some h => do_call t (Call h) | None => mret tt end) ;;
     (mret tt : M W unit)) w3).
  { mcbn. by destruct (when _ _ w3) as [[[] ?]|]. }
  by apply (guarded_call _ _ Call t w3 c3); [by intros h; apply Hk|done|].
Qed.
End handle_event.
Arguments handler_call H : clear implicits.
Arguments Call {H} h. Arguments CallRead {H} h.

(** ** Properties *)

(** C27: What [handleEvent] does with a set of events.  A channel tied to an
    owner that is dead does nothing; otherwise the calls are exactly those of
    [dispatch], in its order: close when the peer hung up and nothing is left to
    read, then read, then write, then error, each at most once, also when an
    earlier callback of the same round closed the connection. *)
Theorem handleEvent_dispatches {H T W} (channel : M W (Channel H T)) (lock : T → M W bool)
    call_read call (alive : T → bool) t w c :
  (∀ k, keeps_channel channel (do_call call_read call t k)) →
  channel w = Ok (c, w) →
  (∀ sp, tie_ c = Some sp → lock sp w = Ok (alive sp, w)) →
  handleEvent channel lock call_read call t w =
    if tied_ c && negb (match tie_ c with Some sp => alive sp | None => false end)
    then Ok (tt, w)
    else for_each (do_call call_read call t) (dispatch c) w.
Proof.
  intros Hk Hc Hl. unfold handleEvent. rewrite (M_bind_ok _ _ _ _ _ Hc).
  destruct (tied_ c); simpl andb; [|by apply handleEventWithGuard_dispatch].
  destruct (tie_ c) as [sp|] eqn:Et; [|done].
  rewrite (M_bind_ok _ _ _ _ _ (Hl sp eq_refl)).
  destruct (alive sp); simpl; [|done]. by apply handleEventWithGuard_dispatch.
Qed.

(** A program of one channel whose callbacks log themselves. *)
Definition logging_channel : Channel nat nat :=
  mkChannel 3 7 (Z.lor EPOLLIN (Z.lor EPOLLOUT (Z.lor EPOLLHUP EPOLLERR))) 1 (Some 9%nat) true
    (Some 1%nat) (Some 2%nat) (Some 3%nat) (Some 4%nat).
Definition log_call (h : nat) : M (Channel nat nat * list nat) unit :=
  modify (λ w, (w.1, w.2 ++ [h])).

Lemma handleEvent_dispatches_witness :
  handleEvent (gets fst) (λ _, mret true) (λ h _, log_call h) log_call 0 (logging_channel, [])
    = Ok (tt, (logging_channel, [1%nat; 2%nat; 4%nat])).
Proof.
  apply (handleEvent_dispatches (gets fst) (λ _, mret true) (λ h _, log_call h) log_call
    (λ _, true) 0 (logging_channel, []) logging_channel).
  - intros [h|h] [c0 l] c w' [= <-] [= <-]; by exists c0.
  - done.
  - by intros sp _.
Defined.

(** The public operations on [events_]. *)
Inductive mask_op : Type :=
| EnableReading | DisableReading | EnableWriting | DisableWriting | DisableAll.
Definition mask_apply (events : Z) (op : mask_op) : Z :=
  match op with
  | EnableReading => enable_reading events
  | DisableReading => disable_reading events
  | EnableWriting => enable_writing events
  | DisableWriting => disable_writing events
  | DisableAll => disable_all events
  end.

(** What they mean: whether reads and whether writes are wanted. *)
Definition wanted_apply (wanted : bool * bool) (op : mask_op) : bool * bool :=
  match op with
  | EnableReading => (true, wanted.2)
  | DisableReading => (false, wanted.2)
  | EnableWriting => (wanted.1, true)
  | DisableWriting => (wanted.1, false)
  | DisableAll => (false, false)
  end.

Definition mask_of (wanted : bool * bool) : Z :=
  (if wanted.1 then 3 else 0) + (if wanted.2 then 4 else 0).

Lemma mask_apply_wanted wanted op :
  mask_apply (mask_of wanted) op = mask_of (wanted_apply wanted op).
Proof. by destruct wanted as [[] []], op. Qed.

Lemma isReading_mask wanted : isReading (mask_of wanted) = wanted.1.
Proof. by destruct wanted as [[] []]. Qed.
Lemma isWriting_mask wanted : isWriting (mask_of wanted) = wanted.2.
Proof. by destruct wanted as [[] []]. Qed.

(** From a new channel on, after any sequence of the public operations,
    [events_] is one of the four masks of the abstract state "reads wanted,
    writes wanted", and [isReading], [isWriting] and [isNoneEvent] answer what
    the last operations asked for: reading and writing never disturb each
    other. *)
Theorem events_refine_wanted (ops : list mask_op) :
  let wanted := foldl wanted_apply (false, false) ops in
  let events := foldl mask_apply (events_ (make_Channel (H := nat) (T := nat) 0)) ops in
  events = mask_of wanted ∧ isReading events = wanted.1 ∧ isWriting events = wanted.2 ∧
  isNoneEvent events = negb (wanted.1 || wanted.2).
Proof.
  intros wanted events.
  assert (events = mask_of wanted) as ->.
  { unfold events, wanted. change (events_ _) with (mask_of (false, false)).
    generalize (false, false). induction ops as [|op ops IH]; intros s; [done|]. simpl.
    by rewrite mask_apply_wanted, IH. }
  split; [done|]. split; [apply isReading_mask|]. split; [apply isWriting_mask|].
  by destruct wanted as [[] []].
Qed.
