(* ===== verification/Poller.v ===== *)
(** * Poller (include/Poller.h, src/Poller.cc, src/DefaultPoller.cc,
      include/EPollPoller.h, src/EPollPoller.cc)

    [Poller] is the abstract class the event loop is written against: the class
    of its virtual functions, with [PollerLaws], what it promises to the loop.
    [EPollPoller] is its implementation over epoll, and satisfies the laws: a
    registration record per descriptor in [channels_], the state of each channel
    in its [index_], and the interest list of the kernel are kept in agreement. *)

From S2P Require Import Prelude Kernel Channel.

(** ** What a poller works on

    The kernel, the channels of the loop it belongs to, and its own state. *)

Record PollerState (K H T P : Type) : Type := mkPollerState {
  ps_kernel : K;
  ps_channels : gmap positive (Channel H T);
  ps_poller : P
}.
Arguments mkPollerState {K H T P} _ _ _.
Arguments ps_kernel {K H T P} _. Arguments ps_channels {K H T P} _. Arguments ps_poller {K H T P} _.
#[export] Instance set_ps_kernel {K H T P} : Setter (@ps_kernel K H T P) := λ f s,
  mkPollerState (f (ps_kernel s)) (ps_channels s) (ps_poller s).
#[global] Arguments set_ps_kernel {K H T P} _ !_ /.
#[export] Instance set_ps_channels {K H T P} : Setter (@ps_channels K H T P) := λ f s,
  mkPollerState (ps_kernel s) (f (ps_channels s)) (ps_poller s).
#[global] Arguments set_ps_channels {K H T P} _ !_ /.
#[export] Instance set_ps_poller {K H T P} : Setter (@ps_poller K H T P) := λ f s,
  mkPollerState (ps_kernel s) (ps_channels s) (f (ps_poller s)).
#[global] Arguments set_ps_poller {K H T P} _ !_ /.

(** ** The interface *)

Class Poller (K H T P : Type) : Type := {
  updateChannel : positive → M (PollerState K H T P) unit;
  removeChannel : positive → M (PollerState K H T P) unit;
  hasChannel : positive → M (PollerState K H T P) bool;
  (** [poll(time_out, active_channels)]: the time of return; the active channels
      are appended to the list. *)
  poll : Z → list positive → M (PollerState K H T P) (Z * list positive)
}.

(** Two kernel views that differ in the interest lists alone. *)
Definition same_io (v v' : kview) : Prop :=
  kv_sent v' = kv_sent v ∧ kv_shut v' = kv_shut v ∧
  kv_eventfd v' = kv_eventfd v ∧ kv_timerfd v' = kv_timerfd v.

Lemma same_io_refl v : same_io v v.
Proof. done. Qed.
Lemma same_io_trans v1 v2 v3 : same_io v1 v2 → same_io v2 v3 → same_io v1 v3.
Proof. unfold same_io. intuition congruence. Qed.
Lemma same_io_watch epfd fd e v : same_io v (kv_watch epfd fd e v).
Proof. done. Qed.
Lemma same_io_unwatch epfd fd v : same_io v (kv_unwatch epfd fd v).
Proof. done. Qed.
#[export] Hint Resolve same_io_refl same_io_watch same_io_unwatch : muduo.

(** Only the interest list of the epoll instance [epfd] may differ. *)
Definition touches (epfd : Z) (v v' : kview) : Prop :=
  same_io v v' ∧ ∀ epfd', epfd' ≠ epfd → interest_of v' epfd' = interest_of v epfd'.
Lemma touches_refl epfd v : touches epfd v v.
Proof. done. Qed.
#[export] Hint Resolve touches_refl : muduo.

(** What the poller promises: [poller_ok] is its invariant and [watched] the
    events the kernel watches for each descriptor. *)
Class PollerLaws (K H T P : Type) `{!Kernel K, !Poller K H T P} : Type := {
  poller_ok : PollerState K H T P → Prop;
  watched : PollerState K H T P → gmap Z epoll_event;
  (** The invariant speaks of the interest lists of the kernel alone. *)
  poller_ok_kernel s k : poller_ok s →
    kv_interest (kview_of k) = kv_interest (kview_of (ps_kernel s)) →
    poller_ok (s <| ps_kernel := k |>) ∧ watched (s <| ps_kernel := k |>) = watched s;
  (** Changing what is not the poller's business. *)
  poller_ok_channel s p c c' : poller_ok s → ps_channels s !! p = Some c →
    fd_ c' = fd_ c → events_ c' = events_ c → index_ c' = index_ c →
    poller_ok (s <| ps_channels ::= <[p := c']> |>) ∧
    watched (s <| ps_channels ::= <[p := c']> |>) = watched s;
  (** A new channel, on a descriptor no other channel has. *)
  poller_ok_new s p fd : poller_ok s → ps_channels s !! p = None →
    (∀ q d, ps_channels s !! q = Some d → fd_ d ≠ fd) →
    poller_ok (s <| ps_channels ::= <[p := make_Channel fd]> |>) ∧
    watched (s <| ps_channels ::= <[p := make_Channel fd]> |>) = watched s;
  (** [events_] was changed to [e]: the kernel watches [e], and nothing else changes. *)
  update_law s p c e : poller_ok s → ps_channels s !! p = Some c →
    ∃ s' i, updateChannel p (s <| ps_channels ::= <[p := c <| events_ := e |>]> |>) = Ok (tt, s') ∧
      poller_ok s' ∧
      ps_channels s' = <[p := c <| events_ := e |> <| index_ := i |>]> (ps_channels s) ∧
      same_io (kview_of (ps_kernel s)) (kview_of (ps_kernel s')) ∧
      watched s' = if isNoneEvent e then delete (fd_ c) (watched s)
                   else <[fd_ c := EpollEvent e p]> (watched s);
  remove_law s p c : poller_ok s → ps_channels s !! p = Some c →
    ∃ s' i, removeChannel p s = Ok (tt, s') ∧ poller_ok s' ∧
      ps_channels s' = <[p := c <| index_ := i |>]> (ps_channels s) ∧
      same_io (kview_of (ps_kernel s)) (kview_of (ps_kernel s')) ∧
      watched s' = delete (fd_ c) (watched s) ∧
      hasChannel p s' = Ok (false, s');
  (** The active channels exist and are watched; only [revent_] changes. *)
  poll_law s timeout active : poller_ok s →
    ∃ s' t new, poll timeout active s = Ok ((t, active ++ new), s') ∧ poller_ok s' ∧
      kview_of (ps_kernel s') = kview_of (ps_kernel s) ∧ watched s' = watched s ∧
      (∀ p, p ∈ new → ∃ c, ps_channels s !! p = Some c ∧ is_Some (watched s !! fd_ c)) ∧
      (∀ p, option_map (λ c, c <| revent_ := 0 |>) (ps_channels s' !! p) =
            option_map (λ c, c <| revent_ := 0 |>) (ps_channels s !! p))
}.

(** What the owners of several loops rely on besides: [registered] are the
    channels the poller keeps a pointer to, so that they must not be freed, and
    [poller_fd] is the epoll instance, the only one the poller touches. *)
Class PollerRegistry (K H T P : Type) `{!Kernel K, !Poller K H T P, !PollerLaws K H T P} : Type := {
  registered : P → positive → Prop;
  poller_fd : P → Z;
  interest_law s : poller_ok s →
    watched s = interest_of (kview_of (ps_kernel s)) (poller_fd (ps_poller s));
  poller_ok_local s k : poller_ok s →
    interest_of (kview_of k) (poller_fd (ps_poller s)) =
      interest_of (kview_of (ps_kernel s)) (poller_fd (ps_poller s)) →
    poller_ok (s <| ps_kernel := k |>);
  registered_alive s p : poller_ok s → registered (ps_poller s) p → is_Some (ps_channels s !! p);
  (** A watched descriptor is that of a registered channel. *)
  registered_watched s fd e : poller_ok s → watched s !! fd = Some e →
    registered (ps_poller s) (ev_ptr e) ∧ fd_ <$> ps_channels s !! ev_ptr e = Some fd;
  update_registered s p c e s' : poller_ok s → ps_channels s !! p = Some c →
    updateChannel p (s <| ps_channels ::= <[p := c <| events_ := e |>]> |>) = Ok (tt, s') →
    poller_fd (ps_poller s') = poller_fd (ps_poller s) ∧
    touches (poller_fd (ps_poller s)) (kview_of (ps_kernel s)) (kview_of (ps_kernel s')) ∧
    ∀ q, q ≠ p → registered (ps_poller s') q ↔ registered (ps_poller s) q;
  remove_registered s p c s' : poller_ok s → ps_channels s !! p = Some c →
    removeChannel p s = Ok (tt, s') →
    poller_fd (ps_poller s') = poller_fd (ps_poller s) ∧
    touches (poller_fd (ps_poller s)) (kview_of (ps_kernel s)) (kview_of (ps_kernel s')) ∧
    ∀ q, registered (ps_poller s') q ↔ registered (ps_poller s) q ∧ q ≠ p;
  (** Freeing a channel the poller has no pointer to. *)
  poller_ok_delete s p : poller_ok s → ¬ registered (ps_poller s) p →
    poller_ok (s <| ps_channels ::= delete p |>)
}.

(** ** EPollPoller *)

Definition kNew : Z := -1.
Definition kAdd : Z := 1.
Definition kDelete : Z := 2.
Definition kEpollEventListSize : Z := 16.

Record EPollPoller : Type := mkEPollPoller {
  channels_ : gmap Z positive;
  epoll_fd_ : Z
}.
#[export] Instance set_channels_ : Setter channels_ := λ f q,
  mkEPollPoller (f (channels_ q)) (epoll_fd_ q).
#[global] Arguments set_channels_ _ !_ /.

(** The constructor; [epoll_fd] is what [epoll_create1] returned. *)
Definition make_EPollPoller (epoll_fd : Z) : outcome EPollPoller :=
  if epoll_fd <? 0 then Fault FatalExit else Ok (mkEPollPoller ∅ epoll_fd).

(** [Poller::newDefaultPoller]: a null pointer when [MUDO_POLL] is in the
    environment. *)
Definition newDefaultPoller (getenv_MUDO_POLL : bool) (epoll_fd : Z)
    : outcome (option EPollPoller) :=
  if getenv_MUDO_POLL then Ok None
  else q ← make_EPollPoller epoll_fd; Ok (Some q).

Section epoll.
Context {K H T : Type} `{!Kernel K}.
Abbreviation S := (PollerState K H T EPollPoller).

Definition channel_at (p : positive) : M S (Channel H T) :=
  s ← get; from_option_or DanglingPointer (ps_channels s !! p).
Definition set_channel (p : positive) (c : Channel H T) : M S unit :=
  modify (λ s, s <| ps_channels ::= <[p := c]> |>).
Definition poll_kernel {A} (f : K → A * K) : M S A := λ s,
  let '(a, k) := f (ps_kernel s) in Ok (a, s <| ps_kernel := k |>).

Definition setIndex (p : positive) (index : Z) : M S unit :=
  c ← channel_at p; set_channel p (c <| index_ := index |>).

Definition update (operation : ctl_op) (p : positive) : M S unit :=
  c ← channel_at p;
  s ← get;
  ret ← poll_kernel (sys_epoll_ctl (epoll_fd_ (ps_poller s)) operation (fd_ c)
                       (EpollEvent (events_ c) p));
  if ret <? 0 then
    match operation with EPOLL_CTL_DEL => mret tt | _ => throw FatalExit end
  else mret tt.

Definition epoll_updateChannel (p : positive) : M S unit :=
  c ← channel_at p;
  let idx := index_ c in
  let cfd := fd_ c in
  if (idx =? kNew) || (idx =? kDelete) then
    if isNoneEvent (events_ c) then mret tt
    else
      when (idx =? kNew)
        (modify (λ s : S, s <| ps_poller ::= λ q, q <| channels_ ::= <[cfd := p]> |> |>)) ;;
      update EPOLL_CTL_ADD p ;;
      setIndex p kAdd
  else if isNoneEvent (events_ c) then
    update EPOLL_CTL_DEL p ;;
    setIndex p kDelete
  else update EPOLL_CTL_MOD p.

Definition epoll_removeChannel (p : positive) : M S unit :=
  c ← channel_at p;
  let idx := index_ c in
  let fd := fd_ c in
  if idx =? kNew then mret tt
  else
    modify (λ s : S, s <| ps_poller ::= λ q, q <| channels_ ::= delete fd |> |>) ;;
    when (idx =? kAdd) (update EPOLL_CTL_DEL p) ;;
    setIndex p kNew.

(** [Poller::hasChannel] *)
Definition epoll_hasChannel (p : positive) : M S bool :=
  c ← channel_at p;
  s ← get;
  mret match channels_ (ps_poller s) !! fd_ c with
       | Some q => bool_decide (q = p)
       | None => false
       end.

(** One round of the loop: the events of the descriptor go to its channel. *)
Definition fill_one (e : epoll_event) : M S unit :=
  c ← channel_at (ev_ptr e); set_channel (ev_ptr e) (set_revent (ev_events e) c).

Definition fillActiveChannels (events : list epoll_event) (active_channels : list positive)
    : M S (list positive) :=
  for_each fill_one events ;;
  mret (active_channels ++ (ev_ptr <$> events)).

Definition epoll_poll (time_out : Z) (active_channels : list positive)
    : M S (Z * list positive) :=
  s ← get;
  num_events ← poll_kernel
    (sys_epoll_wait (epoll_fd_ (ps_poller s)) kEpollEventListSize time_out);
  st ← poll_kernel sys_system_now;
  match num_events with
  | WaitOk [] => mret (st, active_channels)        (* timed out *)
  | WaitOk events =>
      active_channels ← fillActiveChannels events active_channels;
      mret (st, active_channels)
  | WaitErr _ => mret (st, active_channels)        (* logged unless EINTR *)
  end.
End epoll.

#[export] Instance EPollPoller_Poller {K H T} `{!Kernel K} : Poller K H T EPollPoller := {|
  updateChannel := epoll_updateChannel;
  removeChannel := epoll_removeChannel;
  hasChannel := epoll_hasChannel;
  poll := epoll_poll
|}.

(** ** The invariant of EPollPoller *)

Lemma interest_watch epfd fd e v :
  interest_of (kv_watch epfd fd e v) epfd = <[fd := e]> (interest_of v epfd).
Proof. unfold interest_of at 1, kv_watch. simpl. by rewrite lookup_insert_eq. Qed.
Lemma interest_unwatch epfd fd v :
  interest_of (kv_unwatch epfd fd v) epfd = delete fd (interest_of v epfd).
Proof. unfold interest_of at 1, kv_unwatch. simpl. by rewrite lookup_insert_eq. Qed.
Lemma interest_watch_other epfd epfd' fd e v :
  epfd' ≠ epfd → interest_of (kv_watch epfd fd e v) epfd' = interest_of v epfd'.
Proof. intros H. unfold interest_of at 1, kv_watch. simpl. by rewrite lookup_insert_ne. Qed.
Lemma interest_unwatch_other epfd epfd' fd v :
  epfd' ≠ epfd → interest_of (kv_unwatch epfd fd v) epfd' = interest_of v epfd'.
Proof. intros H. unfold interest_of at 1, kv_unwatch. simpl. by rewrite lookup_insert_ne. Qed.
Create Rewrite HintDb interest.
#[export] Hint Rewrite interest_watch interest_unwatch : interest.
#[export] Hint Rewrite interest_watch_other interest_unwatch_other using done : interest.

Section epoll_laws.
Context {K H T : Type} `{!Kernel K} `{!KernelLaws K}.
Abbreviation S := (PollerState K H T EPollPoller).
Implicit Types (s : S) (c : Channel H T).

Definition epoll_watched s : gmap Z epoll_event :=
  interest_of (kview_of (ps_kernel s)) (epoll_fd_ (ps_poller s)).

(** Live channels have different descriptors.  [channels_] records the channels
    whose index is not [kNew]; the kernel watches those whose index is [kAdd],
    for their [events_] and with their address as data; a channel that wants no
    event is not watched, one whose index is [kDelete] wants none. *)
Record epoll_ok s : Prop := EpollOk {
  eo_fd_inj p1 p2 c1 c2 : ps_channels s !! p1 = Some c1 → ps_channels s !! p2 = Some c2 →
    fd_ c1 = fd_ c2 → p1 = p2;
  eo_index p c : ps_channels s !! p = Some c →
    index_ c = kNew ∨ (index_ c = kAdd ∧ events_ c ≠ kNoneEvent) ∨
    (index_ c = kDelete ∧ events_ c = kNoneEvent);
  eo_channels fd p : channels_ (ps_poller s) !! fd = Some p ↔
    ∃ c, ps_channels s !! p = Some c ∧ fd_ c = fd ∧ index_ c ≠ kNew;
  eo_watched fd e : epoll_watched s !! fd = Some e ↔
    ∃ c, ps_channels s !! ev_ptr e = Some c ∧ fd_ c = fd ∧ index_ c = kAdd ∧
         ev_events e = events_ c
}.

Lemma watched_channel s p c :
  epoll_ok s → ps_channels s !! p = Some c →
  epoll_watched s !! fd_ c =
    if bool_decide (index_ c = kAdd) then Some (EpollEvent (events_ c) p) else None.
Proof.
  intros Hok Hc. apply option_eq. intros e. rewrite (eo_watched _ Hok). split.
  - intros (c' & Hc' & Hfd & Hi & He).
    assert (p = ev_ptr e) as -> by (by apply (eo_fd_inj _ Hok p (ev_ptr e) c c')).
    rewrite Hc in Hc'. injection Hc' as <-. rewrite bool_decide_true by done.
    by destruct e; simpl in *; subst.
  - case_bool_decide as Hi; [|done]. intros [= <-]. by exists c.
Qed.

(** The state after channel [p] was changed to [c']: the records of the poller
    and of the kernel follow the new index. *)
Lemma reindexed_ok s p c c' k chs :
  epoll_ok s → ps_channels s !! p = Some c → fd_ c' = fd_ c →
  (index_ c' = kNew ∨ (index_ c' = kAdd ∧ events_ c' ≠ kNoneEvent) ∨
   (index_ c' = kDelete ∧ events_ c' = kNoneEvent)) →
  chs = (if index_ c' =? kNew then delete (fd_ c) (channels_ (ps_poller s))
         else <[fd_ c := p]> (channels_ (ps_poller s))) →
  interest_of (kview_of k) (epoll_fd_ (ps_poller s)) =
    (if index_ c' =? kAdd then <[fd_ c := EpollEvent (events_ c') p]> (epoll_watched s)
     else delete (fd_ c) (epoll_watched s)) →
  epoll_ok (mkPollerState k (<[p := c']> (ps_channels s))
              (mkEPollPoller chs (epoll_fd_ (ps_poller s)))).
Proof.
  intros Hok Hc Hfd Hidx Hchs Hk.
  assert (∀ q d, q ≠ p → ps_channels s !! q = Some d → fd_ d ≠ fd_ c) as Hne.
  { intros q d Hq Hd Heq. apply Hq. by apply (eo_fd_inj _ Hok q p d c). }
  assert (∀ q d, <[p := c']> (ps_channels s) !! q = Some d ↔
            (q = p ∧ d = c') ∨ (q ≠ p ∧ ps_channels s !! q = Some d)) as Hl.
  { intros q d. rewrite lookup_insert. case_decide; naive_solver. }
  split; unfold epoll_watched; simpl.
  - intros p1 p2 c1 c2 [[-> ->]|[N1 H1]]%Hl [[-> ->]|[N2 H2]]%Hl E; [done| | |].
    + exfalso. apply (Hne p2 c2); congruence.
    + exfalso. apply (Hne p1 c1); congruence.
    + by eapply (eo_fd_inj _ Hok).
  - intros q d [[-> ->]|[_ Hd]]%Hl; [done|]. by apply (eo_index _ Hok q).
  - intros fd q. rewrite Hchs. split.
    + destruct (Z.eqb_spec (index_ c') kNew) as [Hn|Hn].
      * intros [Hf Hq]%lookup_delete_Some. apply (eo_channels _ Hok) in Hq as (d & Hd & <- & Hi).
        exists d. split; [|done]. apply Hl. right. split; [|done]. intros ->. congruence.
      * rewrite lookup_insert. case_decide as Hf.
        -- intros [= <-]. exists c'. split; [|split; [congruence|done]]. apply Hl. by left.
        -- intros (d & Hd & <- & Hi)%(eo_channels _ Hok). exists d. split; [|done].
           apply Hl. right. split; [|done]. intros ->. congruence.
    + intros (d & [[-> ->]|[Hq Hd]]%Hl & <- & Hi).
      * destruct (Z.eqb_spec (index_ c') kNew); [done|]. rewrite Hfd. apply lookup_insert_eq.
      * assert (fd_ d ≠ fd_ c) by eauto.
        assert (channels_ (ps_poller s) !! fd_ d = Some q) by (apply (eo_channels _ Hok); eauto).
        destruct (index_ c' =? kNew); [by rewrite lookup_delete_ne|by rewrite lookup_insert_ne].
  - intros fd e. rewrite Hk. split.
    + destruct (Z.eqb_spec (index_ c') kAdd) as [Hn|Hn].
      * rewrite lookup_insert. case_decide as Hf.
        -- intros [= <-]. exists c'. split; [|split; [congruence|done]]. apply Hl. by left.
        -- intros (d & Hd & <- & Hi)%(eo_watched _ Hok). exists d. split; [|done].
           apply Hl. right. split; [|done]. intros Heq. rewrite Heq in Hd. congruence.
      * intros [Hf (d & Hd & <- & Hi)%(eo_watched _ Hok)]%lookup_delete_Some.
        exists d. split; [|done]. apply Hl. right. split; [|done]. intros Heq.
        rewrite Heq in Hd. congruence.
    + intros (d & [[Hq ->]|[Hq Hd]]%Hl & <- & Hi & He).
      * rewrite Hi, Z.eqb_refl, Hfd, lookup_insert_eq. destruct e; simpl in *; congruence.
      * assert (fd_ d ≠ fd_ c) by eauto.
        assert (epoll_watched s !! fd_ d = Some e) by (apply (eo_watched _ Hok); eauto).
        destruct (index_ c' =? kAdd); [by rewrite lookup_insert_ne|by rewrite lookup_delete_ne].
Qed.

(** One successful [epoll_ctl]. *)
Lemma channel_at_ok p c s : ps_channels s !! p = Some c → channel_at p s = Ok (c, s).
Proof. intros E. unfold channel_at, get. mcbn. by rewrite E. Qed.

Lemma setIndex_ok p c i s :
  ps_channels s !! p = Some c →
  setIndex p i s = Ok (tt, s <| ps_channels ::= <[p := c <| index_ := i |>]> |>).
Proof. intros E. unfold setIndex. by mstep (channel_at_ok _ _ _ E). Qed.

Lemma update_ok op p c s :
  ps_channels s !! p = Some c →
  (match op with
   | EPOLL_CTL_ADD => epoll_watched s !! fd_ c = None
   | _ => is_Some (epoll_watched s !! fd_ c)
   end) →
  ∃ k, update op p s = Ok (tt, s <| ps_kernel := k |>) ∧
    touches (epoll_fd_ (ps_poller s)) (kview_of (ps_kernel s)) (kview_of k) ∧
    interest_of (kview_of k) (epoll_fd_ (ps_poller s)) =
      match op with
      | EPOLL_CTL_DEL => delete (fd_ c) (epoll_watched s)
      | _ => <[fd_ c := EpollEvent (events_ c) p]> (epoll_watched s)
      end.
Proof.
  intros Hc Hreg. unfold update. mstep (channel_at_ok _ _ _ Hc). unfold get, poll_kernel. mcbn.
  destruct (sys_epoll_ctl _ _ _ _ _) as [r k] eqn:E. apply epoll_ctl_law in E.
  unfold epoll_watched in *.
  assert (r = 0 ∧ kview_of k = match op with
     | EPOLL_CTL_DEL => kv_unwatch (epoll_fd_ (ps_poller s)) (fd_ c) (kview_of (ps_kernel s))
     | _ => kv_watch (epoll_fd_ (ps_poller s)) (fd_ c) (EpollEvent (events_ c) p)
              (kview_of (ps_kernel s)) end) as [-> Ek].
  { destruct op; [rewrite Hreg in E; done|destruct Hreg as [? Hr]; rewrite Hr in E; done..]. }
  exists k. split; [done|]. rewrite Ek. split; [|by destruct op; autorewrite with interest].
  split; [by destruct op|]. intros epfd' He. by destruct op; autorewrite with interest.
Qed.

Lemma channels_channel s p c :
  epoll_ok s → ps_channels s !! p = Some c →
  channels_ (ps_poller s) !! fd_ c = if bool_decide (index_ c = kNew) then None else Some p.
Proof.
  intros Hok Hc. apply option_eq. intros q. rewrite (eo_channels _ Hok). split.
  - intros (d & Hd & Hfd & Hi). assert (q = p) as -> by (by apply (eo_fd_inj _ Hok q p d c)).
    rewrite Hc in Hd. injection Hd as <-. by rewrite bool_decide_false.
  - case_bool_decide as Hi; [done|]. intros [= <-]. by exists c.
Qed.

Lemma insert_lookup_same {A} (m : gmap Z A) i x : m !! i = Some x → <[i := x]> m = m.
Proof. apply insert_id. Qed.

(** What an operation on channel [p] did, when it left it as [c']. *)
Definition channel_became (p : positive) (c' : Channel H T) s s' : Prop :=
  epoll_ok s' ∧ ps_channels s' = <[p := c']> (ps_channels s) ∧
  (touches (epoll_fd_ (ps_poller s)) (kview_of (ps_kernel s)) (kview_of (ps_kernel s')) ∧
   epoll_fd_ (ps_poller s') = epoll_fd_ (ps_poller s)) ∧
  epoll_watched s' =
    if index_ c' =? kAdd then <[fd_ c' := EpollEvent (events_ c') p]> (epoll_watched s)
    else delete (fd_ c') (epoll_watched s).

Lemma became_ok s p c c' k chs :
  epoll_ok s → ps_channels s !! p = Some c → fd_ c' = fd_ c →
  (index_ c' = kNew ∨ (index_ c' = kAdd ∧ events_ c' ≠ kNoneEvent) ∨
   (index_ c' = kDelete ∧ events_ c' = kNoneEvent)) →
  chs = (if index_ c' =? kNew then delete (fd_ c) (channels_ (ps_poller s))
         else <[fd_ c := p]> (channels_ (ps_poller s))) →
  touches (epoll_fd_ (ps_poller s)) (kview_of (ps_kernel s)) (kview_of k) →
  interest_of (kview_of k) (epoll_fd_ (ps_poller s)) =
    (if index_ c' =? kAdd then <[fd_ c := EpollEvent (events_ c') p]> (epoll_watched s)
     else delete (fd_ c) (epoll_watched s)) →
  channel_became p c' s (mkPollerState k (<[p := c']> (ps_channels s))
              (mkEPollPoller chs (epoll_fd_ (ps_poller s)))).
Proof.
  intros Hok Hc Hfd Hidx Hchs Hio Hk.
  split; [by eapply reindexed_ok|]. split; [done|]. split; [done|]. by rewrite Hfd.
Qed.

Lemma update_index_ok op i p c s :
  ps_channels s !! p = Some c →
  (match op with
   | EPOLL_CTL_ADD => epoll_watched s !! fd_ c = None
   | _ => is_Some (epoll_watched s !! fd_ c)
   end) →
  ∃ k, (update op p ;; setIndex p i) s =
      Ok (tt, s <| ps_kernel := k |> <| ps_channels ::= <[p := c <| index_ := i |>]> |>) ∧
    touches (epoll_fd_ (ps_poller s)) (kview_of (ps_kernel s)) (kview_of k) ∧
    interest_of (kview_of k) (epoll_fd_ (ps_poller s)) =
      match op with
      | EPOLL_CTL_DEL => delete (fd_ c) (epoll_watched s)
      | _ => <[fd_ c := EpollEvent (events_ c) p]> (epoll_watched s)
      end.
Proof.
  intros Hc Hreg. destruct (update_ok op p c s Hc Hreg) as (k & E & Hk). exists k.
  split; [|done]. mstep E. by apply setIndex_ok.
Qed.

Ltac became_tac :=
  simpl; first [done | by left | by right; left | by right; right
               | by rewrite delete_id | by rewrite insert_id].

Lemma epoll_update_ok s p c e :
  epoll_ok s → ps_channels s !! p = Some c →
  ∃ s' i, epoll_updateChannel p (s <| ps_channels ::= <[p := c <| events_ := e |>]> |>) = Ok (tt, s') ∧
    channel_became p (c <| events_ := e |> <| index_ := i |>) s s' ∧
    (i = kAdd ↔ e ≠ kNoneEvent).
Proof.
  intros Hok Hc. pose proof (watched_channel s p c Hok Hc) as Hw.
  pose proof (channels_channel s p c Hok Hc) as Hch.
  pose proof (eo_index _ Hok p c Hc) as Hidx.
  destruct s as [k h [chs epfd]], c as [fd ev rv ix ti td r w cl er].
  set (s := mkPollerState k h (mkEPollPoller chs epfd)) in *.
  set (c := mkChannel fd ev rv ix ti td r w cl er) in *.
  set (c1 := c <| events_ := e |>). set (s1 := s <| ps_channels ::= <[p := c1]> |>).
  assert (ps_channels s1 !! p = Some c1) as Hc1 by apply lookup_insert_eq.
  unfold epoll_updateChannel. rewrite (M_bind_ok _ _ _ _ _ (channel_at_ok p c1 s1 Hc1)).
  change (index_ c1) with ix. change (fd_ c1) with fd. change (events_ c1) with e.
  simpl in Hw, Hch, Hidx. unfold isNoneEvent.
  assert (ix = kNew ∨ ix = kDelete ∨ ix = kAdd) as [Hi|[Hi|Hi]] by tauto;
    subst ix; simpl in Hw, Hch; simpl orb; cbv iota;
    destruct (Z.eqb_spec e kNoneEvent) as [En|En].
  - (* not registered, nothing wanted *)
    exists s1, kNew. split; [done|]. split; [|unfold kNew, kAdd; lia].
    apply (became_ok s p c _ k chs); became_tac.
  - (* first registration *)
    simpl when. set (s2 := s1 <| ps_poller ::= λ q, q <| channels_ ::= <[fd := p]> |> |>).
    destruct (update_index_ok EPOLL_CTL_ADD kAdd p c1 s2) as (k' & E & Hio & Hin); [done|done|].
    exists (s2 <| ps_kernel := k' |> <| ps_channels ::= <[p := c1 <| index_ := kAdd |>]> |>), kAdd.
    split; [exact E|]. split; [|done]. simpl. rewrite insert_insert_eq.
    apply (became_ok s p c _ k' _); became_tac.
  - (* suspended, nothing wanted *)
    exists s1, kDelete. split; [done|]. split; [|unfold kDelete, kAdd; lia].
    apply (became_ok s p c _ k chs); became_tac.
  - (* resumed *)
    destruct (update_index_ok EPOLL_CTL_ADD kAdd p c1 s1) as (k' & E & Hio & Hin); [done|done|].
    exists (s1 <| ps_kernel := k' |> <| ps_channels ::= <[p := c1 <| index_ := kAdd |>]> |>), kAdd.
    split; [exact E|]. split; [|done]. simpl. rewrite insert_insert_eq.
    apply (became_ok s p c _ k' _); became_tac.
  - (* suspended now *)
    destruct (update_index_ok EPOLL_CTL_DEL kDelete p c1 s1) as (k' & E & Hio & Hin); [done|by eexists|].
    exists (s1 <| ps_kernel := k' |> <| ps_channels ::= <[p := c1 <| index_ := kDelete |>]> |>), kDelete.
    split; [exact E|]. split; [|unfold kDelete, kAdd; lia]. simpl. rewrite insert_insert_eq.
    apply (became_ok s p c _ k' _); became_tac.
  - (* other events *)
    destruct (update_ok EPOLL_CTL_MOD p c1 s1) as (k' & E & Hio & Hin); [done|by eexists|].
    exists (s1 <| ps_kernel := k' |>), kAdd. split; [exact E|]. split; [|done]. simpl.
    apply (became_ok s p c _ k' _); became_tac.
Qed.

Lemma hasChannel_ok s p c :
  epoll_ok s → ps_channels s !! p = Some c →
  epoll_hasChannel p s = Ok (negb (index_ c =? kNew), s).
Proof.
  intros Hok Hc. unfold epoll_hasChannel. rewrite (M_bind_ok _ _ _ _ _ (channel_at_ok p c s Hc)).
  unfold get. mcbn. rewrite (channels_channel s p c Hok Hc).
  destruct (Z.eqb_spec (index_ c) kNew); case_bool_decide; try done. by rewrite bool_decide_true.
Qed.

Lemma epoll_remove_ok s p c :
  epoll_ok s → ps_channels s !! p = Some c →
  ∃ s', epoll_removeChannel p s = Ok (tt, s') ∧
    channel_became p (c <| index_ := kNew |>) s s'.
Proof.
  intros Hok Hc. pose proof (watched_channel s p c Hok Hc) as Hw.
  pose proof (channels_channel s p c Hok Hc) as Hch.
  pose proof (eo_index _ Hok p c Hc) as Hidx.
  destruct s as [k h [chs epfd]], c as [fd ev rv ix ti td r w cl er].
  set (s := mkPollerState k h (mkEPollPoller chs epfd)) in *.
  set (c := mkChannel fd ev rv ix ti td r w cl er) in *.
  set (s2 := s <| ps_poller ::= λ q, q <| channels_ ::= delete fd |> |>).
  unfold epoll_removeChannel. rewrite (M_bind_ok _ _ _ _ _ (channel_at_ok p c s Hc)).
  change (index_ c) with ix. change (fd_ c) with fd. simpl in Hw, Hch, Hidx.
  assert (ix = kNew ∨ ix = kDelete ∨ ix = kAdd) as [Hi|[Hi|Hi]] by tauto;
    subst ix; simpl in Hw, Hch; simpl Z.eqb; cbv iota.
  - exists s. split; [done|].
    replace s with (mkPollerState k (<[p := c]> h) (mkEPollPoller chs epfd)) at 2
      by (by rewrite insert_id).
    apply (became_ok s p c _ k chs); became_tac.
  - exists (s2 <| ps_channels ::= <[p := c <| index_ := kNew |>]> |>).
    split; [unfold when, modify; mcbn; by apply setIndex_ok|].
    apply (became_ok s p c _ k _); became_tac.
  - destruct (update_index_ok EPOLL_CTL_DEL kNew p c s2) as (k' & E & Hio & Hin); [done|by eexists|].
    exists (s2 <| ps_kernel := k' |> <| ps_channels ::= <[p := c <| index_ := kNew |>]> |>).
    split; [exact E|]. apply (became_ok s p c _ k' _); became_tac.
Qed.

(** Changing what a channel has nothing to do with the poller for. *)
Lemma epoll_ok_same s p c c' :
  epoll_ok s → ps_channels s !! p = Some c →
  fd_ c' = fd_ c → events_ c' = events_ c → index_ c' = index_ c →
  epoll_ok (s <| ps_channels ::= <[p := c']> |>).
Proof.
  intros Hok Hc Hf He Hi. pose proof (watched_channel s p c Hok Hc) as Hw.
  pose proof (channels_channel s p c Hok Hc) as Hch.
  pose proof (eo_index _ Hok p c Hc) as Hidx.
  destruct s as [k h [chs epfd]]. simpl in *.
  apply (reindexed_ok (mkPollerState k h (mkEPollPoller chs epfd)) p c c' k chs);
    rewrite ?Hi, ?He; simpl; try done.
  - destruct (Z.eqb_spec (index_ c) kNew) as [En|En].
    + rewrite bool_decide_true in Hch by done. by rewrite delete_id.
    + rewrite bool_decide_false in Hch by done. by rewrite insert_id.
  - change (interest_of (kview_of k) epfd) with
      (epoll_watched (mkPollerState k h (mkEPollPoller chs epfd))).
    destruct (Z.eqb_spec (index_ c) kAdd) as [En|En].
    + rewrite bool_decide_true in Hw by done. by rewrite insert_id.
    + rewrite bool_decide_false in Hw by done. by rewrite delete_id.
Qed.

Lemma epoll_ok_kernel s k :
  epoll_ok s → interest_of (kview_of k) (epoll_fd_ (ps_poller s)) = epoll_watched s →
  epoll_ok (s <| ps_kernel := k |>).
Proof.
  intros Hok Hk. destruct Hok as [O1 O2 O3 O4]. destruct s as [k0 h q].
  split; simpl in *; try done. unfold epoll_watched. simpl. by rewrite Hk.
Qed.

Lemma new_channel_ok s p fd :
  epoll_ok s → ps_channels s !! p = None → (∀ q d, ps_channels s !! q = Some d → fd_ d ≠ fd) →
  epoll_ok (s <| ps_channels ::= <[p := make_Channel fd]> |>).
Proof.
  intros Hok Hp Hne.
  set (c0 := make_Channel fd : Channel H T).
  assert (∀ q d, <[p := c0]> (ps_channels s) !! q = Some d ↔
            (q = p ∧ d = c0) ∨ (q ≠ p ∧ ps_channels s !! q = Some d)) as Hl.
  { intros q d. rewrite lookup_insert. case_decide; naive_solver. }
  split; unfold epoll_watched; simpl.
  - intros p1 p2 c1 c2 [[-> ->]|[N1 H1]]%Hl [[-> ->]|[N2 H2]]%Hl E; [done| | |].
    + exfalso. by apply (Hne p2 c2).
    + exfalso. by apply (Hne p1 c1).
    + by eapply (eo_fd_inj _ Hok).
  - intros q d [[-> ->]|[_ Hd]]%Hl; [by left|]. by apply (eo_index _ Hok q).
  - intros fd' q. rewrite (eo_channels _ Hok). split; intros (d & Hd & Hf & Hi).
    + exists d. split; [|done]. apply Hl. right. split; [|done]. intros ->. congruence.
    + apply Hl in Hd as [[-> ->]|[Hq Hd]]; [done|]. by exists d.
  - intros fd' e. pose proof (eo_watched _ Hok fd' e) as Hw. unfold epoll_watched in Hw. rewrite Hw.
    split; intros (d & Hd & Hf & Hi & He).
    + exists d. split; [|done]. apply Hl. right. split; [|done]. intros Heq. rewrite Heq in Hd. congruence.
    + apply Hl in Hd as [[Hq ->]|[Hq Hd]]; [done|]. by exists d.
Qed.

(** ** poll *)

(** The channels but for [revent_]. *)
Definition unfired s : gmap positive (Channel H T) := set_revent 0 <$> ps_channels s.

Lemma fill_one_ok s e :
  epoll_ok s → is_Some (ps_channels s !! ev_ptr e) →
  ∃ s', fill_one e s = Ok (tt, s') ∧ epoll_ok s' ∧ ps_kernel s' = ps_kernel s ∧
    ps_poller s' = ps_poller s ∧ unfired s' = unfired s ∧
    (∃ c, ps_channels s' !! ev_ptr e = Some c ∧ revent_ c = ev_events e) ∧
    (∀ p, p ≠ ev_ptr e → ps_channels s' !! p = ps_channels s !! p).
Proof.
  intros Hok [c Hc]. exists (s <| ps_channels ::= <[ev_ptr e := set_revent (ev_events e) c]> |>).
  split; [unfold fill_one; by rewrite (M_bind_ok _ _ _ _ _ (channel_at_ok _ c s Hc))|].
  split; [by apply (epoll_ok_same s (ev_ptr e) c)|]. split; [done|]. split; [done|].
  split; [|split; [eexists; split; [apply lookup_insert_eq|done]|]].
  - unfold unfired. simpl. rewrite fmap_insert. apply insert_id. by rewrite lookup_fmap, Hc.
  - intros p Hp. by apply lookup_insert_ne.
Qed.

Lemma unfired_dom s s' p :
  unfired s' = unfired s → is_Some (ps_channels s !! p) → is_Some (ps_channels s' !! p).
Proof.
  unfold unfired. intros E [c Hc]. assert (H1 : set_revent 0 <$> ps_channels s' !! p = Some (set_revent 0 c)).
  { by rewrite <- lookup_fmap, E, lookup_fmap, Hc. }
  destruct (ps_channels s' !! p); [by eexists|done].
Qed.

Lemma fill_ok evs s :
  epoll_ok s → (∀ e, e ∈ evs → is_Some (ps_channels s !! ev_ptr e)) →
  ∃ s', for_each fill_one evs s = Ok (tt, s') ∧ epoll_ok s' ∧ ps_kernel s' = ps_kernel s ∧
    ps_poller s' = ps_poller s ∧ unfired s' = unfired s.
Proof.
  revert s. induction evs as [|e evs IH]; intros s Hok Hin; [by exists s|].
  destruct (fill_one_ok s e) as (s1 & E1 & Hok1 & Hk1 & Hp1 & Hu1 & _); [done|apply Hin; by left|].
  destruct (IH s1) as (s2 & E2 & Hok2 & Hk2 & Hp2 & Hu2); [done| |].
  { intros e' He'. apply (unfired_dom s); [done|]. apply Hin. by right. }
  exists s2. simpl. rewrite (M_bind_ok _ _ _ _ _ E1).
  split; [done|]. split; [done|]. split; [congruence|]. split; congruence.
Qed.

Lemma epoll_poll_ok s timeout active :
  epoll_ok s →
  ∃ s' t new, epoll_poll timeout active s = Ok ((t, active ++ new), s') ∧ epoll_ok s' ∧
    kview_of (ps_kernel s') = kview_of (ps_kernel s) ∧ epoll_watched s' = epoll_watched s ∧
    ps_poller s' = ps_poller s ∧ unfired s' = unfired s ∧
    zlen new ≤ kEpollEventListSize ∧
    (∀ p, p ∈ new → ∃ c, ps_channels s !! p = Some c ∧ is_Some (epoll_watched s !! fd_ c)).
Proof.
  intros Hok. unfold epoll_poll, get, poll_kernel. mcbn.
  destruct (sys_epoll_wait _ _ _ _) as [a k1] eqn:E1. apply epoll_wait_law in E1 as [Hv1 Ha].
  destruct (sys_system_now _) as [t k2] eqn:E2. apply system_now_law in E2.
  destruct s as [k h q]. simpl in *. set (s := mkPollerState k h q) in *.
  set (s2 := mkPollerState k2 h q).
  assert (kview_of k2 = kview_of k) as Hv by congruence.
  assert (epoll_ok s2) as Hok2.
  { apply (epoll_ok_kernel s k2 Hok). unfold epoll_watched. simpl. by rewrite Hv. }
  assert (epoll_watched s2 = epoll_watched s) as Hw2 by (unfold epoll_watched; simpl; by rewrite Hv).
  assert (∀ e (evs : list epoll_event), a = WaitOk evs → e ∈ evs → ∃ c, h !! ev_ptr e = Some c ∧
    is_Some (epoll_watched s !! fd_ c)) as Hev.
  { intros e evs -> He. destruct Ha as [_ Ha]. destruct (Ha e He) as (fd & reg & Hreg & Hp).
    change (interest_of (kview_of k) (epoll_fd_ q)) with (epoll_watched s) in Hreg.
    pose proof (proj1 (eo_watched _ Hok fd reg) Hreg) as (c & Hc & <- & _).
    rewrite Hp in Hc. by exists c. }
  destruct a as [[|e evs]|err].
  - exists s2, t, []. rewrite app_nil_r. do 7 (split; [done|]). by intros p Hp%not_elem_of_nil.
  - unfold fillActiveChannels.
    destruct (fill_ok (e :: evs) s2 Hok2) as (s3 & E3 & Hok3 & Hk3 & Hp3 & Hu3).
    { intros e' He'. destruct (Hev e' _ eq_refl He') as (c & Hc & _). by exists c. }
    exists s3, t, (ev_ptr <$> e :: evs). split; [by mstep E3|].
    split; [done|]. split; [by rewrite Hk3|]. split; [unfold epoll_watched; by rewrite Hk3, Hp3|].
    split; [done|]. split; [done|]. split.
    + unfold zlen. rewrite length_fmap. destruct Ha as [Ha _]. unfold zlen, kEpollEventListSize in *. lia.
    + intros p (e' & -> & He')%list_elem_of_fmap. by apply (Hev e' (e :: evs)).
  - exists s2, t, []. rewrite app_nil_r. do 7 (split; [done|]). by intros p Hp%not_elem_of_nil.
Qed.
End epoll_laws.

#[export] Instance EPollPoller_laws {K H T} `{!Kernel K, !KernelLaws K} :
  PollerLaws K H T EPollPoller.
Proof.
  refine {| poller_ok := epoll_ok; watched := epoll_watched |}.
  - intros s k Hok Hk. assert (interest_of (kview_of k) (epoll_fd_ (ps_poller s)) = epoll_watched s) as E.
    { unfold epoll_watched, interest_of. by rewrite Hk. }
    split; [by apply epoll_ok_kernel|]. by destruct s.
  - intros s p c c' Hok Hc Hf He Hi. split; [by apply (epoll_ok_same s p c)|]. by destruct s.
  - intros s p fd Hok Hp Hne. split; [by apply new_channel_ok|]. by destruct s.
  - intros s p c e Hok Hc. destruct (epoll_update_ok s p c e Hok Hc) as (s' & i & E & Hb & Hie).
    destruct Hb as (Hok' & Hch & Hio & Hw). exists s', i. split; [exact E|]. split; [done|].
    split; [done|]. split; [apply Hio|]. rewrite Hw. simpl. unfold isNoneEvent.
    destruct (Z.eqb_spec i kAdd), (Z.eqb_spec e kNoneEvent); tauto || done.
  - intros s p c Hok Hc. destruct (epoll_remove_ok s p c Hok Hc) as (s' & E & Hok' & Hch & Hio & Hw).
    exists s', kNew. split; [exact E|]. split; [done|]. split; [done|]. split; [apply Hio|]. split; [done|].
    assert (ps_channels s' !! p = Some (c <| index_ := kNew |>)) as Hc'
      by (rewrite Hch; apply lookup_insert_eq).
    by apply (hasChannel_ok s' p _ Hok' Hc').
  - intros s timeout active Hok.
    destruct (epoll_poll_ok s timeout active Hok) as (s' & t & new & E & Hok' & Hv & Hw & _ & Hu & _ & Hnew).
    exists s', t, new. split; [exact E|]. split; [done|]. split; [done|]. split; [done|]. split; [done|].
    intros p. pose proof (f_equal (lookup p) Hu) as Hp. unfold unfired in Hp.
    rewrite !lookup_fmap in Hp. exact Hp.
Defined.

(** [registered] are the channels in [channels_]. *)
Section epoll_registry.
Context {K H T : Type} `{!Kernel K} `{!KernelLaws K}.
Abbreviation S := (PollerState K H T EPollPoller).
Implicit Types s : S.

Definition epoll_registered (q : EPollPoller) (p : positive) : Prop := ∃ fd, channels_ q !! fd = Some p.

Lemma epoll_registered_index s p :
  epoll_ok s → epoll_registered (ps_poller s) p ↔ ∃ c, ps_channels s !! p = Some c ∧ index_ c ≠ kNew.
Proof.
  intros Hok. split.
  - intros [fd (c & Hc & _ & Hi)%(eo_channels _ Hok)]. by exists c.
  - intros (c & Hc & Hi). exists (fd_ c). apply (eo_channels _ Hok). by exists c.
Qed.

Lemma became_registered s s' p c' q :
  epoll_ok s → channel_became p c' s s' → q ≠ p →
  epoll_registered (ps_poller s') q ↔ epoll_registered (ps_poller s) q.
Proof.
  intros Hok (Hok' & Hch & _) Hq. by rewrite !epoll_registered_index, Hch, lookup_insert_ne.
Qed.

Lemma epoll_ok_delete s p :
  epoll_ok s → ¬ epoll_registered (ps_poller s) p → epoll_ok (s <| ps_channels ::= delete p |>).
Proof.
  intros Hok Hp. rewrite epoll_registered_index in Hp by done.
  assert (∀ q c, index_ c ≠ kNew → delete p (ps_channels s) !! q = Some c ↔ ps_channels s !! q = Some c) as Hl.
  { intros q c Hi. rewrite lookup_delete_Some. split; [tauto|]. intros Hc. split; [|done].
    intros ->. apply Hp. by exists c. }
  split; unfold epoll_watched; simpl.
  - intros p1 p2 c1 c2 [_ H1]%lookup_delete_Some [_ H2]%lookup_delete_Some. by apply (eo_fd_inj _ Hok).
  - intros q c [_ Hc]%lookup_delete_Some. by apply (eo_index _ Hok q).
  - intros fd q. rewrite (eo_channels _ Hok). split; intros (c & Hc & Hf & Hi); exists c; (split; [|done]);
      apply (Hl _ c Hi), Hc.
  - intros fd e. assert (Hw := eo_watched _ Hok fd e). unfold epoll_watched in Hw. rewrite Hw.
    assert (∀ i, i = kAdd → i ≠ kNew) as Hne by (by intros ? ->).
    split; intros (c & Hc & Hf & Hi & He); exists c; (split; [|done]); apply (Hl _ c (Hne _ Hi)), Hc.
Qed.
End epoll_registry.

#[export] Instance EPollPoller_registry {K H T} `{!Kernel K, !KernelLaws K} :
  PollerRegistry K H T EPollPoller.
Proof.
  refine {| registered := epoll_registered; poller_fd := epoll_fd_ |}.
  - done.
  - intros s k Hok Hk. by apply epoll_ok_kernel.
  - intros s p Hok (c & Hc & _)%epoll_registered_index; [|done]. by exists c.
  - intros s fd e Hok (c & Hc & Hf & Hi & _)%(eo_watched _ Hok). rewrite Hc. simpl. rewrite Hf. split; [|done].
    apply epoll_registered_index; [done|]. exists c. split; [done|]. by rewrite Hi.
  - intros s p c e s' Hok Hc E. destruct (epoll_update_ok s p c e Hok Hc) as (s1 & i & E1 & Hb & _).
    assert (Ok (tt, s1) = Ok (tt, s')) as [= ->] by (rewrite <- E1; exact E). split; [apply Hb|]. split; [apply Hb|].
    intros q. by apply (became_registered s s' p _ q Hok Hb).
  - intros s p c s' Hok Hc E. destruct (epoll_remove_ok s p c Hok Hc) as (s1 & E1 & Hb).
    assert (Ok (tt, s1) = Ok (tt, s')) as [= ->] by (rewrite <- E1; exact E). split; [apply Hb|]. split; [apply Hb|].
    intros q. destruct (decide (q = p)) as [->|Hq]; [|by rewrite (became_registered s s' p _ q Hok Hb); tauto].
    split; [|tauto]. destruct Hb as (Hok' & Hch & _). intros (d & Hd & Hi)%epoll_registered_index; [|done].
    rewrite Hch, lookup_insert_eq in Hd. by injection Hd as <-.
  - intros s p. apply epoll_ok_delete.
Defined.

(** ** Abstract specification: a registry of wanted events

    Which descriptor each channel has, and the events the kernel is asked to
    watch for each descriptor. *)

Module Registry.
Record t : Type := Reg { fds : gmap positive Z; wanted : gmap Z epoll_event }.

Inductive op : Type :=
| NewChannel (p : positive) (fd : Z)
| SetEvents (p : positive) (e : Z)
| RemoveChannel (p : positive)
| Poll (timeout : Z).

Definition fd_in_use (fd : Z) (r : t) : bool := existsb (λ x, x.2 =? fd) (map_to_list (fds r)).

(** [None]: the program may not do that. *)
Definition step (r : t) (o : op) : option t :=
  match o with
  | NewChannel p fd =>
      if bool_decide (is_Some (fds r !! p)) || fd_in_use fd r then None
      else Some (Reg (<[p := fd]> (fds r)) (wanted r))
  | SetEvents p e =>
      fd ← fds r !! p;
      Some (Reg (fds r) (if e =? 0 then delete fd (wanted r)
                         else <[fd := EpollEvent e p]> (wanted r)))
  | RemoveChannel p => fd ← fds r !! p; Some (Reg (fds r) (delete fd (wanted r)))
  | Poll _ => Some r
  end.
Definition steps (r : t) (os : list op) : option t := foldl (λ r o, r ≫= λ r, step r o) (Some r) os.
End Registry.

Section registry.
Context {K H T : Type} `{!Kernel K} `{!KernelLaws K}.
Abbreviation S := (PollerState K H T EPollPoller).
Implicit Types s : S.

(** A client of the poller: it creates channels, changes their events, takes
    them off the poller, and polls. *)
Definition run_registry_op (o : Registry.op) : M S unit :=
  match o with
  | Registry.NewChannel p fd => modify (λ s, s <| ps_channels ::= <[p := make_Channel fd]> |>)
  | Registry.SetEvents p e =>
      c ← channel_at p; set_channel p (c <| events_ := e |>) ;; updateChannel p
  | Registry.RemoveChannel p => removeChannel p
  | Registry.Poll timeout => _ ← poll timeout []; mret tt
  end.

Definition registry_of s : Registry.t :=
  Registry.Reg (fd_ <$> ps_channels s) (epoll_watched s).

Lemma unfired_fds s s' :
  unfired s' = unfired s → fd_ <$> ps_channels s' = fd_ <$> ps_channels s.
Proof.
  assert (∀ x : S, fd_ <$> ps_channels x = fd_ <$> unfired x) as E.
  { intros x. apply map_eq. intros p. unfold unfired. rewrite !lookup_fmap.
    by destruct (ps_channels x !! p). }
  rewrite (E s), (E s'). by intros ->.
Qed.

Lemma fd_in_use_false fd s p c :
  Registry.fd_in_use fd (registry_of s) = false → ps_channels s !! p = Some c → fd_ c ≠ fd.
Proof.
  unfold Registry.fd_in_use. rewrite <- not_true_iff_false, existsb_exists. simpl.
  intros Hn Hc Hfd. apply Hn. exists (p, fd_ c). rewrite <- list_elem_of_In. simpl.
  rewrite elem_of_map_to_list, lookup_fmap, Hc. split; [done|]. by apply Z.eqb_eq.
Qed.

Lemma registry_step_ok s o r' :
  epoll_ok s → Registry.step (registry_of s) o = Some r' →
  ∃ s', run_registry_op o s = Ok (tt, s') ∧ epoll_ok s' ∧ registry_of s' = r'.
Proof.
  intros Hok. destruct o as [p fd|p e|p|timeout]; simpl.
  - case_bool_decide as Hp; [done|]. destruct (Registry.fd_in_use _ _) eqn:Hfd; [done|].
    intros [= <-]. eexists. split; [done|].
    assert (ps_channels s !! p = None) as Hp'.
    { rewrite lookup_fmap, fmap_is_Some in Hp. destruct (ps_channels s !! p); naive_solver. }
    split; [apply new_channel_ok; [done..|]; intros q d; by apply fd_in_use_false|]. unfold registry_of. simpl. by rewrite fmap_insert.
  - rewrite lookup_fmap. destruct (ps_channels s !! p) as [c|] eqn:Hc; [|done]. intros [= <-].
    destruct (epoll_update_ok s p c e Hok Hc) as (s' & i & E & (Hok' & Hch & _ & Hw) & Hi).
    exists s'. split; [|split; [done|]].
    + rewrite (M_bind_ok _ _ _ _ _ (channel_at_ok p c s Hc)). exact E.
    + unfold registry_of. rewrite Hch, Hw, fmap_insert. simpl. f_equal.
      * apply insert_id. by rewrite lookup_fmap, Hc.
      * unfold kNoneEvent in Hi. destruct (Z.eqb_spec i kAdd), (Z.eqb_spec e 0); tauto || done.
  - rewrite lookup_fmap. destruct (ps_channels s !! p) as [c|] eqn:Hc; [|done]. intros [= <-].
    destruct (epoll_remove_ok s p c Hok Hc) as (s' & E & (Hok' & Hch & _ & Hw)).
    exists s'. split; [exact E|]. split; [done|].
    unfold registry_of. rewrite Hch, Hw, fmap_insert. simpl. f_equal.
    apply insert_id. by rewrite lookup_fmap, Hc.
  - intros [= <-].
    destruct (epoll_poll_ok s timeout [] Hok) as (s' & t & new & E & Hok' & _ & Hw & _ & Hu & _).
    exists s'. split; [by mstep E|]. split; [done|]. unfold registry_of. rewrite Hw. f_equal.
    by apply unfired_fds.
Qed.

(** C8: [EPollPoller] implements the registry.  For every sequence of creating
    channels (on unused descriptors), changing their events, removing them and
    polling, every call returns - [epoll_ctl] is never asked for something it
    refuses, so [LOG_FATAL] is never reached - and afterwards the kernel watches
    for each descriptor exactly the events last asked for, reporting them to
    that channel, and nothing for the others; the bookkeeping by [index_] and
    [channels_] stays consistent. *)
Theorem epoll_refines_registry (ops : list Registry.op) s r' :
  epoll_ok s → Registry.steps (registry_of s) ops = Some r' →
  ∃ s', for_each run_registry_op ops s = Ok (tt, s') ∧ epoll_ok s' ∧ registry_of s' = r'.
Proof.
  unfold Registry.steps. revert s. induction ops as [|o ops IH]; intros s Hok; simpl.
  - intros [= <-]. by exists s.
  - destruct (Registry.step (registry_of s) o) as [r1|] eqn:E1.
    + destruct (registry_step_ok s o r1 Hok E1) as (s1 & Er & Hok1 & <-).
      intros Hs. destruct (IH s1 Hok1 Hs) as (s' & E' & Hs').
      exists s'. rewrite (M_bind_ok _ _ _ _ _ Er). by split.
    + intros Hs. exfalso. revert Hs. clear. induction ops; done.
Qed.

End registry.

(** ** Witnesses *)

Abbreviation DemoPoller := (PollerState scripted nat nat EPollPoller).
Definition demo_poller : DemoPoller := mkPollerState idle_kernel ∅ (mkEPollPoller ∅ 3).

Lemma demo_poller_ok : epoll_ok demo_poller.
Proof.
  split; simpl; try done.
  - intros fd p. split; [done|by intros (c & ? & _)].
  - intros fd e. split; [done|by intros (c & ? & _)].
Qed.

Definition demo_ops : list Registry.op :=
  [Registry.NewChannel 1 7; Registry.SetEvents 1 3; Registry.NewChannel 2 8;
   Registry.SetEvents 2 7; Registry.SetEvents 1 0; Registry.SetEvents 1 4;
   Registry.RemoveChannel 2; Registry.Poll 10000].

Lemma epoll_refines_registry_witness :
  ∃ s', for_each run_registry_op demo_ops demo_poller = Ok (tt, s') ∧ epoll_ok s' ∧
    registry_of s' = Registry.Reg (<[2%positive := 8]> {[1%positive := 7]}) {[7 := EpollEvent 4 1]}.
Proof.
  apply (epoll_refines_registry demo_ops demo_poller).
  - apply demo_poller_ok.
  - by vm_compute.
Defined.

