(* ===== verification/EventLoop.v ===== *)
(** * EventLoop (include/EventLoop.h, src/EventLoop.cc)

    One event loop and what it owns: its poller, its channels, its timers and
    its queue of pending functors.  The code of the loop is written against the
    interface [Poller]; a null [poller_] is [None].

    The [std::function]s the loop stores are named: [Handler O] are the
    callbacks of channels - the two of the loop itself, and those of other
    owners, a value of [O] - and [Functor U] the functors of the queue - the two
    the timer queue posts, and those of other code, a value of [U].  What they
    run is passed to the operations that call them. *)

From Stdlib Require Import Floats.SpecFloat.
From S2P Require Import Prelude Kernel Timestamp TimerQueue Channel Poller.

Inductive Handler (O : Type) : Type :=
| WakeupRead                  (* [this](Timestamp){ handleRead(); } of EventLoop *)
| TimerRead                   (* [this](Timestamp){ handleRead(); } of TimerQueue *)
| Owned (o : O).
Arguments WakeupRead {O}. Arguments TimerRead {O}. Arguments Owned {O} o.

Inductive Functor (U : Type) : Type :=
| AddTimer (timer : positive)          (* [this,raw_timer_ptr](){ addTimerInLoop } *)
| CancelTimer (timer_id : TimerId)     (* [this,timer_id](){ cancelTimerInLoop } *)
| Task (u : U).
Arguments AddTimer {U} timer. Arguments CancelTimer {U} timer_id. Arguments Task {U} u.

Definition kPollTimeMs : Z := 10000.

Record EventLoop (P U : Type) : Type := mkEventLoop {
  active_channels : list positive;
  looping_ : bool;
  quit_ : bool;
  thread_id_ : Z;
  pollReturnTime_ : Z;
  poller_ : option P;
  timer_queue_ : TimerQueue;
  wakeup_fd_ : Z;
  wakeup_channel : positive;
  pendingFunctors_ : list (Functor U);
  calling_pending_functors_ : bool
}.
Arguments mkEventLoop {P U} _ _ _ _ _ _ _ _ _ _ _.
Arguments active_channels {P U} _. Arguments looping_ {P U} _. Arguments quit_ {P U} _.
Arguments thread_id_ {P U} _. Arguments pollReturnTime_ {P U} _. Arguments poller_ {P U} _.
Arguments timer_queue_ {P U} _. Arguments wakeup_fd_ {P U} _. Arguments wakeup_channel {P U} _.
Arguments pendingFunctors_ {P U} _. Arguments calling_pending_functors_ {P U} _.
#[export] Instance set_active_channels {P U} : Setter (@active_channels P U) := λ f l,
  mkEventLoop (f (active_channels l)) (looping_ l) (quit_ l) (thread_id_ l) (pollReturnTime_ l)
    (poller_ l) (timer_queue_ l) (wakeup_fd_ l) (wakeup_channel l) (pendingFunctors_ l)
    (calling_pending_functors_ l).
#[global] Arguments set_active_channels {P U} _ !_ /.
#[export] Instance set_looping_ {P U} : Setter (@looping_ P U) := λ f l,
  mkEventLoop (active_channels l) (f (looping_ l)) (quit_ l) (thread_id_ l) (pollReturnTime_ l)
    (poller_ l) (timer_queue_ l) (wakeup_fd_ l) (wakeup_channel l) (pendingFunctors_ l)
    (calling_pending_functors_ l).
#[global] Arguments set_looping_ {P U} _ !_ /.
#[export] Instance set_quit_ {P U} : Setter (@quit_ P U) := λ f l,
  mkEventLoop (active_channels l) (looping_ l) (f (quit_ l)) (thread_id_ l) (pollReturnTime_ l)
    (poller_ l) (timer_queue_ l) (wakeup_fd_ l) (wakeup_channel l) (pendingFunctors_ l)
    (calling_pending_functors_ l).
#[global] Arguments set_quit_ {P U} _ !_ /.
#[export] Instance set_pollReturnTime_ {P U} : Setter (@pollReturnTime_ P U) := λ f l,
  mkEventLoop (active_channels l) (looping_ l) (quit_ l) (thread_id_ l) (f (pollReturnTime_ l))
    (poller_ l) (timer_queue_ l) (wakeup_fd_ l) (wakeup_channel l) (pendingFunctors_ l)
    (calling_pending_functors_ l).
#[global] Arguments set_pollReturnTime_ {P U} _ !_ /.
#[export] Instance set_poller_ {P U} : Setter (@poller_ P U) := λ f l,
  mkEventLoop (active_channels l) (looping_ l) (quit_ l) (thread_id_ l) (pollReturnTime_ l)
    (f (poller_ l)) (timer_queue_ l) (wakeup_fd_ l) (wakeup_channel l) (pendingFunctors_ l)
    (calling_pending_functors_ l).
#[global] Arguments set_poller_ {P U} _ !_ /.
#[export] Instance set_timer_queue_ {P U} : Setter (@timer_queue_ P U) := λ f l,
  mkEventLoop (active_channels l) (looping_ l) (quit_ l) (thread_id_ l) (pollReturnTime_ l)
    (poller_ l) (f (timer_queue_ l)) (wakeup_fd_ l) (wakeup_channel l) (pendingFunctors_ l)
    (calling_pending_functors_ l).
#[global] Arguments set_timer_queue_ {P U} _ !_ /.
#[export] Instance set_wakeup_fd_ {P U} : Setter (@wakeup_fd_ P U) := λ f l,
  mkEventLoop (active_channels l) (looping_ l) (quit_ l) (thread_id_ l) (pollReturnTime_ l)
    (poller_ l) (timer_queue_ l) (f (wakeup_fd_ l)) (wakeup_channel l) (pendingFunctors_ l)
    (calling_pending_functors_ l).
#[global] Arguments set_wakeup_fd_ {P U} _ !_ /.
#[export] Instance set_wakeup_channel {P U} : Setter (@wakeup_channel P U) := λ f l,
  mkEventLoop (active_channels l) (looping_ l) (quit_ l) (thread_id_ l) (pollReturnTime_ l)
    (poller_ l) (timer_queue_ l) (wakeup_fd_ l) (f (wakeup_channel l)) (pendingFunctors_ l)
    (calling_pending_functors_ l).
#[global] Arguments set_wakeup_channel {P U} _ !_ /.
#[export] Instance set_pendingFunctors_ {P U} : Setter (@pendingFunctors_ P U) := λ f l,
  mkEventLoop (active_channels l) (looping_ l) (quit_ l) (thread_id_ l) (pollReturnTime_ l)
    (poller_ l) (timer_queue_ l) (wakeup_fd_ l) (wakeup_channel l) (f (pendingFunctors_ l))
    (calling_pending_functors_ l).
#[global] Arguments set_pendingFunctors_ {P U} _ !_ /.
#[export] Instance set_calling_pending_functors_ {P U} : Setter (@calling_pending_functors_ P U) := λ f l,
  mkEventLoop (active_channels l) (looping_ l) (quit_ l) (thread_id_ l) (pollReturnTime_ l)
    (poller_ l) (timer_queue_ l) (wakeup_fd_ l) (wakeup_channel l) (pendingFunctors_ l)
    (f (calling_pending_functors_ l)).
#[global] Arguments set_calling_pending_functors_ {P U} _ !_ /.

(** The loop in its surroundings: the kernel, the channels registered with it,
    its timers, the thread that executes ([CurrentThread::tid()]), and whether
    that thread has a loop already ([t_loopInThisThread]). *)
Record LoopState (K O T P U CB : Type) : Type := mkLoopState {
  ls_kernel : K;
  ls_channels : gmap positive (Channel (Handler O) T);
  ls_timers : gmap positive (Timer CB);
  ls_sequence : Z;                      (* Timer::s_global_sequence_ *)
  ls_tid : Z;
  t_loopInThisThread : bool;
  ls_loop : EventLoop P U
}.
Arguments mkLoopState {K O T P U CB} _ _ _ _ _ _ _.
Arguments ls_kernel {K O T P U CB} _. Arguments ls_channels {K O T P U CB} _.
Arguments ls_timers {K O T P U CB} _. Arguments ls_sequence {K O T P U CB} _.
Arguments ls_tid {K O T P U CB} _. Arguments t_loopInThisThread {K O T P U CB} _.
Arguments ls_loop {K O T P U CB} _.
#[export] Instance set_ls_kernel {K O T P U CB} : Setter (@ls_kernel K O T P U CB) := λ f s,
  mkLoopState (f (ls_kernel s)) (ls_channels s) (ls_timers s) (ls_sequence s) (ls_tid s)
    (t_loopInThisThread s) (ls_loop s).
#[global] Arguments set_ls_kernel {K O T P U CB} _ !_ /.
#[export] Instance set_ls_channels {K O T P U CB} : Setter (@ls_channels K O T P U CB) := λ f s,
  mkLoopState (ls_kernel s) (f (ls_channels s)) (ls_timers s) (ls_sequence s) (ls_tid s)
    (t_loopInThisThread s) (ls_loop s).
#[global] Arguments set_ls_channels {K O T P U CB} _ !_ /.
#[export] Instance set_ls_timers {K O T P U CB} : Setter (@ls_timers K O T P U CB) := λ f s,
  mkLoopState (ls_kernel s) (ls_channels s) (f (ls_timers s)) (ls_sequence s) (ls_tid s)
    (t_loopInThisThread s) (ls_loop s).
#[global] Arguments set_ls_timers {K O T P U CB} _ !_ /.
#[export] Instance set_ls_sequence {K O T P U CB} : Setter (@ls_sequence K O T P U CB) := λ f s,
  mkLoopState (ls_kernel s) (ls_channels s) (ls_timers s) (f (ls_sequence s)) (ls_tid s)
    (t_loopInThisThread s) (ls_loop s).
#[global] Arguments set_ls_sequence {K O T P U CB} _ !_ /.
#[export] Instance set_ls_tid {K O T P U CB} : Setter (@ls_tid K O T P U CB) := λ f s,
  mkLoopState (ls_kernel s) (ls_channels s) (ls_timers s) (ls_sequence s) (f (ls_tid s))
    (t_loopInThisThread s) (ls_loop s).
#[global] Arguments set_ls_tid {K O T P U CB} _ !_ /.
#[export] Instance set_t_loopInThisThread {K O T P U CB} : Setter (@t_loopInThisThread K O T P U CB) := λ f s,
  mkLoopState (ls_kernel s) (ls_channels s) (ls_timers s) (ls_sequence s) (ls_tid s)
    (f (t_loopInThisThread s)) (ls_loop s).
#[global] Arguments set_t_loopInThisThread {K O T P U CB} _ !_ /.
#[export] Instance set_ls_loop {K O T P U CB} : Setter (@ls_loop K O T P U CB) := λ f s,
  mkLoopState (ls_kernel s) (ls_channels s) (ls_timers s) (ls_sequence s) (ls_tid s)
    (t_loopInThisThread s) (f (ls_loop s)).
#[global] Arguments set_ls_loop {K O T P U CB} _ !_ /.

(** ** The parts of the loop *)

(** The timers of the loop, as [TimerQueue] works on them. *)
#[export] Instance timers_of_loop {K O T P U CB} :
    Lens (LoopState K O T P U CB) (TimerState K CB) := {|
  view s := mkTimerState (ls_kernel s) (ls_timers s) (ls_sequence s) (timer_queue_ (ls_loop s));
  replace_view x s :=
    s <| ls_kernel := ts_kernel x |> <| ls_timers := ts_heap x |>
      <| ls_sequence := s_global_sequence_ x |>
      <| ls_loop ::= λ l, l <| timer_queue_ := ts_queue x |> |>
|}.
#[export] Instance timers_of_loop_laws {K O T P U CB} :
  LensLaws (LoopState K O T P U CB) (TimerState K CB).
Proof.
  split.
  - by intros [] [? ? ? ? ? ? []].
  - by intros [] [] [? ? ? ? ? ? []].
  - by intros [? ? ? ? ? ? []].
Qed.

(** The program around the loop holds the loop; [timers_in] composes the two
    views. *)
Definition timers_in {W K O T P U CB} (L : Lens W (LoopState K O T P U CB)) :
    Lens W (TimerState K CB) := {|
  view w := view (view w : LoopState K O T P U CB);
  replace_view x w := replace_view (replace_view x (view w : LoopState K O T P U CB)) w
|}.

Section loop.
Context {K O T P U CB : Type} `{!Kernel K} `{!Poller K (Handler O) T P}.
Abbreviation S := (LoopState K O T P U CB).

Definition the_loop : M S (EventLoop P U) := gets ls_loop.
Definition set_loop (f : EventLoop P U → EventLoop P U) : M S unit :=
  modify (λ s, s <| ls_loop ::= f |>).
Definition loop_kernel {A} (f : K → A * K) : M S A := λ s,
  let '(a, k) := f (ls_kernel s) in Ok (a, s <| ls_kernel := k |>).

(** [poller_->m()] *)
Definition in_poller {A} (m : M (PollerState K (Handler O) T P) A) : M S A := λ s,
  match poller_ (ls_loop s) with
  | None => Fault NullPointer
  | Some q =>
      '(a, x) ← m (mkPollerState (ls_kernel s) (ls_channels s) q);
      Ok (a, s <| ls_kernel := ps_kernel x |> <| ls_channels := ps_channels x |>
               <| ls_loop ::= λ l, l <| poller_ := Some (ps_poller x) |> |>)
  end.

(** Follow a [Channel*]. *)
Definition the_channel (p : positive) : M S (Channel (Handler O) T) :=
  s ← get; from_option_or DanglingPointer (ls_channels s !! p).

Definition updateChannel (channel : positive) : M S unit := in_poller (Poller.updateChannel channel).
Definition removeChannel (channel : positive) : M S unit := in_poller (Poller.removeChannel channel).
Definition hasChannel (channel : positive) : M S bool := in_poller (Poller.hasChannel channel).

(** [Channel::enableReading] and the like: change [events_], then [update()]. *)
Definition change_events (channel : positive) (f : Z → Z) : M S unit :=
  c ← the_channel channel;
  modify (λ s, s <| ls_channels ::= <[channel := c <| events_ ::= f |>]> |>) ;;
  updateChannel channel.

(** [new Channel(loop, fd)] at an address, with its callbacks. *)
Definition new_channel (p : positive) (c : Channel (Handler O) T) : M S unit :=
  modify (λ s, s <| ls_channels ::= <[p := c]> |>).

Definition isInLoopThread (s : S) : bool := thread_id_ (ls_loop s) =? ls_tid s.

(** [createTimerFd] and [createEventFd]; [fd] is what the system call returned. *)
Definition createTimerFd (fd : Z) : M S Z := if fd =? -1 then throw FatalExit else mret fd.
Definition createEventFd (fd : Z) : M S Z := if fd <? 0 then throw FatalExit else mret fd.

(** [TimerQueue(loop)]: its channel is at [p]. *)
Definition make_TimerQueue (fd : Z) (p : positive) : M S unit :=
  timer_fd ← createTimerFd fd;
  new_channel p (make_Channel timer_fd) ;;
  set_loop (λ l, l <| timer_queue_ := mkTimerQueue timer_fd p [] ∅ ∅ false |>) ;;
  c ← the_channel p;
  new_channel p (setCallbacks (Some TimerRead) None None None c) ;;
  change_events p enable_reading.

(** [EventLoop()], member by member in the order of the class; [newPoller] is
    [Poller::newDefaultPoller]; [timer_fd] and [event_fd] are what the system
    calls return, [timer_ch] and [wakeup_ch] the addresses of the channels. *)
Definition make_EventLoop (newPoller : outcome (option P)) (timer_fd event_fd : Z)
    (timer_ch wakeup_ch : positive) : M S unit :=
  tid ← gets ls_tid;
  poller ← lift newPoller;
  modify (λ s, s <| ls_loop :=
    mkEventLoop [] false false tid Timestamp.invaild poller (mkTimerQueue 0 timer_ch [] ∅ ∅ false)
      0 wakeup_ch [] false |>) ;;
  make_TimerQueue timer_fd timer_ch ;;
  fd ← createEventFd event_fd;
  set_loop (λ l, l <| wakeup_fd_ := fd |>) ;;
  new_channel wakeup_ch (make_Channel fd) ;;
  another ← gets t_loopInThisThread;
  when another (throw FatalExit) ;;
  modify (λ s, s <| t_loopInThisThread := true |>) ;;
  c ← the_channel wakeup_ch;
  new_channel wakeup_ch (setCallbacks (Some WakeupRead) None None None c) ;;
  change_events wakeup_ch enable_reading.

(** The body of [~EventLoop()]. *)
Definition destroy_EventLoop : M S unit :=
  l ← the_loop;
  change_events (wakeup_channel l) disable_all ;;
  removeChannel (wakeup_channel l) ;;
  _ ← loop_kernel (λ k, (tt, sys_close (wakeup_fd_ l) k));
  modify (λ s, s <| t_loopInThisThread := false |>).

Definition handleRead : M S unit :=
  l ← the_loop;
  _ ← loop_kernel (sys_eventfd_read (wakeup_fd_ l));
  mret tt.                                       (* an error is logged *)

Definition wakeUp : M S unit :=
  l ← the_loop;
  _ ← loop_kernel (sys_eventfd_write (wakeup_fd_ l) 1);
  mret tt.                                       (* an error is logged *)

Definition queueInLoop (cb : Functor U) : M S unit :=
  set_loop (λ l, l <| pendingFunctors_ ::= λ q, q ++ [cb] |>) ;;
  inLoop ← gets isInLoopThread;
  l ← the_loop;
  when (negb inLoop || calling_pending_functors_ l) wakeUp.

Definition quit : M S unit :=
  set_loop (λ l, l <| quit_ := true |>) ;;
  inLoop ← gets isInLoopThread;
  when (negb inLoop) wakeUp.

(** [std::vector<Functor> tasks; tasks.swap(pendingFunctors_)] *)
Definition take_tasks : M S (list (Functor U)) :=
  l ← the_loop;
  set_loop (λ l, l <| pendingFunctors_ := [] |>) ;;
  mret (pendingFunctors_ l).

(** The head of one round: clear the active channels, wait, keep the answer. *)
Definition poll_round : M S (list positive) :=
  set_loop (λ l, l <| active_channels := [] |>) ;;
  '(t, active) ← in_poller (poll kPollTimeMs []);
  set_loop (λ l, l <| active_channels := active |> <| pollReturnTime_ := t |>) ;;
  mret active.

(** ** The operations that run callbacks

    [W] is the whole program, of which the loop is a part. *)

Section callbacks.
Context {W : Type} `{L : !Lens W S}.
Abbreviation in_loop m := (zoom (X := S) m).

(** What the other functors, the other channels and the timers run. *)
Variable run_task : U → M W unit.
Variable lock : T → M W bool.
Variable run_owned : O → Z → M W unit.
Variable run_timer_callback : CB → M W unit.

(** The bodies of the functors the timer queue posts. *)
Definition run_functor (f : Functor U) : M W unit :=
  match f with
  | AddTimer timer => in_loop (inLoop ← gets isInLoopThread; zoom (addTimerInLoop inLoop timer))
  | CancelTimer id => in_loop (inLoop ← gets isInLoopThread; zoom (cancelTimerInLoop inLoop id))
  | Task u => run_task u
  end.

Definition runInLoop (cb : Functor U) : M W unit :=
  inLoop ← in_loop (gets isInLoopThread);
  if (inLoop : bool) then run_functor cb else in_loop (queueInLoop cb).

Definition doingPendingFunctors : M W unit :=
  in_loop (set_loop (λ l, l <| calling_pending_functors_ := true |>)) ;;
  tasks ← in_loop take_tasks;
  for_each run_functor tasks ;;
  in_loop (set_loop (λ l, l <| calling_pending_functors_ := false |>)).

(** The callbacks of channels. *)
Definition call_handler (h : Handler O) (receive_time : Z) : M W unit :=
  match h with
  | WakeupRead => in_loop handleRead
  | TimerRead => TimerQueue.handleRead (Lens0 := timers_in L) run_timer_callback
  | Owned o => run_owned o receive_time
  end.

Definition handle_channel (receive_time : Z) (channel : positive) : M W unit :=
  handleEvent (in_loop (the_channel channel)) lock call_handler
    (λ h, call_handler h receive_time) receive_time.

Definition round : M W unit :=
  active ← in_loop poll_round;
  l ← in_loop the_loop;
  for_each (handle_channel (pollReturnTime_ l)) active ;;
  doingPendingFunctors.

(** [while(!quit_) {...}], for at most [fuel] rounds: did it stop? *)
Fixpoint rounds (fuel : nat) : M W bool :=
  l ← in_loop the_loop;
  if quit_ l then mret true
  else match fuel with
       | 0%nat => mret false
       | Datatypes.S fuel => round ;; rounds fuel
       end.

Definition loop (fuel : nat) : M W bool :=
  l ← in_loop the_loop;
  if quit_ l then mret true
  else
    in_loop (set_loop (λ l, l <| looping_ := true |>)) ;;
    in_loop (set_loop (λ l, l <| quit_ := false |>)) ;;
    stopped ← rounds fuel;
    when stopped (in_loop (set_loop (λ l, l <| looping_ := false |>))) ;;
    mret stopped.

(** [TimerQueue::addTimer]; the sequence number is read through the pointer
    after the timer was handed to the loop. *)
Definition addTimer (alloc : gmap positive (Timer CB) → positive)
    (cb : option CB) (at_ : Z) (interval : double) : M W TimerId :=
  id ← in_loop (zoom (new_timer alloc cb at_ interval));
  runInLoop (AddTimer (tid_timer id)) ;;
  timer ← in_loop (zoom (deref (Some (tid_timer id))));   (* read again *)
  mret (mkTimerId (tid_timer id) (sequence_ timer)).
Definition cancelTimer (id : TimerId) : M W unit := runInLoop (CancelTimer id).

Definition runAt alloc (at_ : Z) (cb : option CB) : M W TimerId :=
  addTimer alloc cb at_ (S754_zero false).
Definition runAfter alloc (delay : double) (cb : option CB) : M W TimerId :=
  now ← in_loop (loop_kernel sys_steady_now);
  at_ ← lift (MonotonicTimestamp.addTime now delay);
  addTimer alloc cb at_ (S754_zero false).
Definition runEveny alloc (interval : double) (cb : option CB) : M W TimerId :=
  now ← in_loop (loop_kernel sys_steady_now);
  at_ ← lift (MonotonicTimestamp.addTime now interval);
  addTimer alloc cb at_ interval.
Definition cancel (id : TimerId) : M W unit := cancelTimer id.
End callbacks.
End loop.

(** ** Lemmas on the loop and its poller *)

Section loop_lemmas.
Context {K O T P U CB : Type} `{!Kernel K} `{!KernelLaws K} `{!Poller K (Handler O) T P}
  `{!PollerLaws K (Handler O) T P}.
Abbreviation S := (LoopState K O T P U CB).
Implicit Types s : S.

(** The poller's view of the loop, and the loop after the poller changed it. *)
Definition poller_state s (q : P) : PollerState K (Handler O) T P :=
  mkPollerState (ls_kernel s) (ls_channels s) q.
Definition with_poller (x : PollerState K (Handler O) T P) s : S :=
  s <| ls_kernel := ps_kernel x |> <| ls_channels := ps_channels x |>
    <| ls_loop ::= λ l, l <| poller_ := Some (ps_poller x) |> |>.

(** The loop has a poller in a good state. *)
Definition polls s : Prop := ∃ q, poller_ (ls_loop s) = Some q ∧ poller_ok (poller_state s q).
(** What the kernel watches for the loop. *)
Definition loop_watched s : gmap Z epoll_event :=
  match poller_ (ls_loop s) with Some q => watched (poller_state s q) | None => ∅ end.

Lemma in_poller_ok {A} (m : M _ A) s q a x :
  poller_ (ls_loop s) = Some q → m (poller_state s q) = Ok (a, x) →
  in_poller m s = Ok (a, with_poller x s).
Proof. intros Eq E. unfold in_poller. rewrite Eq. unfold poller_state in E. by rewrite E. Qed.

Lemma poller_state_with x s : poller_state (with_poller x s) (ps_poller x) = x.
Proof. by destruct x. Qed.

Lemma loop_watched_eq s q :
  poller_ (ls_loop s) = Some q → loop_watched s = watched (poller_state s q).
Proof. unfold loop_watched. by intros ->. Qed.
Lemma loop_watched_with x s : loop_watched (with_poller x s) = watched x.
Proof. by destruct x. Qed.

Lemma the_channel_ok p c s : ls_channels s !! p = Some c → the_channel p s = Ok (c, s).
Proof. intros E. unfold the_channel, get. mcbn. by rewrite E. Qed.

(** [s'] is [s] but for the kernel, the channels and the poller's own state. *)
Definition poller_only s s' : Prop := ∃ x, s' = with_poller x s.

Lemma poller_only_same s s' :
  poller_only s s' →
  ls_timers s' = ls_timers s ∧ ls_sequence s' = ls_sequence s ∧ ls_tid s' = ls_tid s ∧
  t_loopInThisThread s' = t_loopInThisThread s ∧
  ∃ q, ls_loop s' = (ls_loop s) <| poller_ := q |>.
Proof. intros [x ->]. repeat split. by eexists. Qed.

Lemma poller_only_trans s1 s2 s3 : poller_only s1 s2 → poller_only s2 s3 → poller_only s1 s3.
Proof. intros [x ->] [y ->]. by exists y. Qed.

Lemma change_events_ok p c f s :
  polls s → ls_channels s !! p = Some c →
  ∃ s' i, change_events p f s = Ok (tt, s') ∧ polls s' ∧ poller_only s s' ∧
    ls_channels s' = <[p := c <| events_ ::= f |> <| index_ := i |>]> (ls_channels s) ∧
    same_io (kview_of (ls_kernel s)) (kview_of (ls_kernel s')) ∧
    loop_watched s' = if isNoneEvent (f (events_ c)) then delete (fd_ c) (loop_watched s)
                      else <[fd_ c := EpollEvent (f (events_ c)) p]> (loop_watched s).
Proof.
  intros (q & Eq & Hok) Hc.
  destruct (update_law (poller_state s q) p c (f (events_ c)) Hok Hc)
    as (x & i & E & Hok' & Hch & Hio & Hw).
  set (s1 := s <| ls_channels ::= <[p := c <| events_ ::= f |>]> |>).
  exists (with_poller x s1), i. split; [|split; [|split; [|split; [|split]]]].
  - unfold change_events. rewrite (M_bind_ok _ _ _ _ _ (the_channel_ok p c s Hc)).
    unfold modify. mcbn. apply in_poller_ok with (q := q); [done|]. exact E.
  - exists (ps_poller x). split; [done|]. by rewrite poller_state_with.
  - exists x. done.
  - exact Hch.
  - exact Hio.
  - rewrite loop_watched_with. unfold loop_watched. rewrite Eq. exact Hw.
Qed.

Lemma removeChannel_ok p c s :
  polls s → ls_channels s !! p = Some c →
  ∃ s' i, removeChannel p s = Ok (tt, s') ∧ polls s' ∧ poller_only s s' ∧
    ls_channels s' = <[p := c <| index_ := i |>]> (ls_channels s) ∧
    same_io (kview_of (ls_kernel s)) (kview_of (ls_kernel s')) ∧
    loop_watched s' = delete (fd_ c) (loop_watched s) ∧
    hasChannel p s' = Ok (false, s').
Proof.
  intros (q & Eq & Hok) Hc.
  destruct (remove_law (poller_state s q) p c Hok Hc) as (x & i & E & Hok' & Hch & Hio & Hw & Hhas).
  exists (with_poller x s), i. split; [|split; [|split; [|split; [|split; [|split]]]]].
  - by apply in_poller_ok with (q := q).
  - exists (ps_poller x). split; [done|]. by rewrite poller_state_with.
  - by exists x.
  - exact Hch.
  - exact Hio.
  - rewrite loop_watched_with. unfold loop_watched. rewrite Eq. exact Hw.
  - unfold hasChannel.
    rewrite (in_poller_ok _ _ (ps_poller x) false x); [by destruct s as [? ? ? ? ? ? []]|done|].
    by rewrite poller_state_with.
Qed.

Lemma new_channel_fresh p fd s :
  polls s → ls_channels s !! p = None →
  (∀ q d, ls_channels s !! q = Some d → fd_ d ≠ fd) →
  let s' := s <| ls_channels ::= <[p := make_Channel fd]> |> in
  new_channel p (make_Channel fd) s = Ok (tt, s') ∧ polls s' ∧ loop_watched s' = loop_watched s.
Proof.
  intros (q & Eq & Hok) Hp Hfd s'. split; [done|].
  destruct (poller_ok_new (poller_state s q) p fd Hok Hp Hfd) as [Hok' Hw].
  split; [by exists q|]. by rewrite !(loop_watched_eq _ q).
Qed.

Lemma set_callbacks_ok p c c' s :
  polls s → ls_channels s !! p = Some c →
  fd_ c' = fd_ c → events_ c' = events_ c → index_ c' = index_ c →
  let s' := s <| ls_channels ::= <[p := c']> |> in
  polls s' ∧ loop_watched s' = loop_watched s.
Proof.
  intros (q & Eq & Hok) Hc Hf He Hi s'.
  destruct (poller_ok_channel (poller_state s q) p c c' Hok Hc Hf He Hi) as [Hok' Hw].
  split; [by exists q|]. by rewrite !(loop_watched_eq _ q).
Qed.

Lemma polls_kernel k s :
  polls s → kv_interest (kview_of k) = kv_interest (kview_of (ls_kernel s)) →
  polls (s <| ls_kernel := k |>) ∧ loop_watched (s <| ls_kernel := k |>) = loop_watched s.
Proof.
  intros (q & Eq & Hok) Hk. destruct (poller_ok_kernel (poller_state s q) k Hok Hk) as [Hok' Hw].
  split; [by exists q|]. by rewrite !(loop_watched_eq _ q).
Qed.

(** ** Waking the loop *)

Definition wakeup_count s : Z := counter_of (kview_of (ls_kernel s)) (wakeup_fd_ (ls_loop s)).

Lemma loop_kernel_eq {A} (f : K → A * K) s a k :
  f (ls_kernel s) = (a, k) → loop_kernel f s = Ok (a, s <| ls_kernel := k |>).
Proof. unfold loop_kernel. by intros ->. Qed.

Lemma counter_set fd n v : counter_of (kv_set_counter fd n v) fd = n.
Proof. unfold counter_of, kv_set_counter. simpl. by rewrite lookup_insert_eq. Qed.

Lemma wakeUp_ok s :
  0 ≤ wakeup_count s →
  ∃ k n, wakeUp s = Ok (tt, s <| ls_kernel := k |>) ∧ 0 < n ∧
    (kview_of k = kv_set_counter (wakeup_fd_ (ls_loop s)) n (kview_of (ls_kernel s)) ∨
     kview_of k = kview_of (ls_kernel s) ∧ n = wakeup_count s).
Proof.
  intros Hc. destruct (sys_eventfd_write (wakeup_fd_ (ls_loop s)) 1 (ls_kernel s)) as [r k] eqn:E.
  exists k. assert (Ew := eventfd_write_law _ _ _ _ _ E).
  unfold wakeUp, the_loop, gets. mcbn. rewrite (loop_kernel_eq _ s r k E). mcbn.
  unfold wakeup_count in *. destruct (r =? 8).
  - eexists. split; [done|]. split; [|by left]. lia.
  - destruct Ew as [Hv Hmax]. unfold eventfd_max in Hmax.
    eexists. split; [done|]. split; [|right; by split]. lia.
Qed.

Lemma handleRead_ok s :
  ∃ k, handleRead s = Ok (tt, s <| ls_kernel := k |>) ∧
    counter_of (kview_of k) (wakeup_fd_ (ls_loop s)) = 0 ∧
    kv_sent (kview_of k) = kv_sent (kview_of (ls_kernel s)) ∧
    kv_interest (kview_of k) = kv_interest (kview_of (ls_kernel s)).
Proof.
  destruct (sys_eventfd_read (wakeup_fd_ (ls_loop s)) (ls_kernel s)) as [r k] eqn:E.
  exists k. assert (Ew := eventfd_read_law _ _ _ _ E).
  unfold handleRead, the_loop, gets. mcbn. rewrite (loop_kernel_eq _ s r k E). split; [done|].
  destruct (r =? 8).
  - rewrite Ew. split; [apply counter_set|done].
  - destruct Ew as [-> Hz]. done.
Qed.

(** [queueInLoop] appends the functor; when the loop might wait before it looks
    at the queue, the eventfd is readable afterwards. *)
Lemma queueInLoop_ok cb s :
  0 ≤ wakeup_count s →
  let wake := negb (isInLoopThread s) || calling_pending_functors_ (ls_loop s) in
  ∃ k, queueInLoop cb s = Ok (tt, s <| ls_kernel := k |>
         <| ls_loop ::= λ l, l <| pendingFunctors_ ::= λ q, q ++ [cb] |> |>) ∧
    (wake = true → 0 < counter_of (kview_of k) (wakeup_fd_ (ls_loop s))) ∧
    (wake = false → k = ls_kernel s) ∧
    wakeup_count s ≤ counter_of (kview_of k) (wakeup_fd_ (ls_loop s)) ∧
    kv_sent (kview_of k) = kv_sent (kview_of (ls_kernel s)) ∧
    kv_shut (kview_of k) = kv_shut (kview_of (ls_kernel s)) ∧
    kv_interest (kview_of k) = kv_interest (kview_of (ls_kernel s)).
Proof.
  intros Hc wake. set (s1 := s <| ls_loop ::= λ l, l <| pendingFunctors_ ::= λ q, q ++ [cb] |> |>).
  assert (queueInLoop cb s = when wake wakeUp s1) as E0.
  { unfold queueInLoop, set_loop, modify, gets, the_loop. mcbn. by destruct s as [? ? ? ? ? ? []]. }
  rewrite E0. destruct wake; simpl when.
  - destruct (sys_eventfd_write (wakeup_fd_ (ls_loop s)) 1 (ls_kernel s)) as [r k] eqn:E.
    assert (Ew := eventfd_write_law _ _ _ _ _ E). exists k. split.
    { unfold wakeUp, the_loop, gets. mcbn. rewrite (loop_kernel_eq _ s1 r k) by by destruct s as [? ? ? ? ? ? []].
      by destruct s as [? ? ? ? ? ? []]. }
    unfold wakeup_count in *. destruct (r =? 8).
    + rewrite Ew, counter_set. split; [lia|]. split; [done|]. split; [lia|done].
    + destruct Ew as [-> Hmax]. unfold eventfd_max in Hmax. split; [lia|]. split; [done|]. split; [lia|done].
  - exists (ls_kernel s). split; [by destruct s as [? ? ? ? ? ? []]|]. unfold wakeup_count.
    split; [done|]. split; [done|]. split; [lia|done].
Qed.

Lemma quit_ok s :
  0 ≤ wakeup_count s →
  let wake := negb (isInLoopThread s) in
  ∃ k, quit s = Ok (tt, s <| ls_kernel := k |> <| ls_loop ::= λ l, l <| quit_ := true |> |>) ∧
    (wake = true → 0 < counter_of (kview_of k) (wakeup_fd_ (ls_loop s))) ∧
    (wake = false → k = ls_kernel s).
Proof.
  intros Hc wake. set (s1 := s <| ls_loop ::= λ l, l <| quit_ := true |> |>).
  assert (quit s = when wake wakeUp s1) as ->.
  { unfold quit, set_loop, modify, gets, the_loop. mcbn. by destruct s as [? ? ? ? ? ? []]. }
  destruct wake; simpl when.
  - destruct (wakeUp_ok s1) as (k & n & E & Hn & Hv); [by destruct s as [? ? ? ? ? ? []]|].
    exists k. split; [rewrite E; by destruct s as [? ? ? ? ? ? []]|]. split; [|done]. intros _.
    destruct s as [k0 ? ? ? ? ? []]. unfold wakeup_count in *. simpl in *.
    destruct Hv as [->|[-> ->]]; [by rewrite counter_set|done].
  - exists (ls_kernel s). split; [by destruct s as [? ? ? ? ? ? []]|done].
Qed.
End loop_lemmas.

(** ** Construction *)

Section construction.
Context {K O T P U CB : Type} `{!Kernel K} `{!KernelLaws K} `{!Poller K (Handler O) T P}
  `{!PollerLaws K (Handler O) T P}.
Abbreviation S := (LoopState K O T P U CB).
Implicit Types s : S.

(** A loop as the constructor leaves it. *)
Record constructed (timer_fd event_fd : Z) (timer_ch wakeup_ch : positive) (s s' : S) : Prop := {
  co_polls : polls s';
  co_watched : loop_watched s' = <[event_fd := EpollEvent kReadEvent wakeup_ch]>
                                   {[timer_fd := EpollEvent kReadEvent timer_ch]};
  co_timer : read_callback_ <$> ls_channels s' !! timer_ch = Some (Some TimerRead);
  co_wakeup : read_callback_ <$> ls_channels s' !! wakeup_ch = Some (Some WakeupRead);
  co_queue : timer_queue_ (ls_loop s') = mkTimerQueue timer_fd timer_ch [] ∅ ∅ false;
  co_fresh : pendingFunctors_ (ls_loop s') = [] ∧ quit_ (ls_loop s') = false ∧
             looping_ (ls_loop s') = false ∧ calling_pending_functors_ (ls_loop s') = false;
  co_thread : isInLoopThread s' = true ∧ t_loopInThisThread s' = true;
  co_fds : wakeup_fd_ (ls_loop s') = event_fd ∧ wakeup_channel (ls_loop s') = wakeup_ch;
  co_io : same_io (kview_of (ls_kernel s)) (kview_of (ls_kernel s'))
}.

(** A new channel on [fd] at [p], with a read callback, watched for reading. *)
Lemma reading_channel p fd h s :
  polls s → ls_channels s !! p = None → (∀ q d, ls_channels s !! q = Some d → fd_ d ≠ fd) →
  let c := setCallbacks (Some h) None None None (make_Channel fd) in
  let s1 := s <| ls_channels ::= <[p := make_Channel fd]> |> in
  ∃ s' i, (c ← the_channel p; new_channel p (setCallbacks (Some h) None None None c) ;;
           change_events p enable_reading) s1 = Ok (tt, s') ∧ polls s' ∧
    poller_only s s' ∧
    ls_channels s' = <[p := c <| events_ := kReadEvent |> <| index_ := i |>]> (ls_channels s) ∧
    same_io (kview_of (ls_kernel s)) (kview_of (ls_kernel s')) ∧
    loop_watched s' = <[fd := EpollEvent kReadEvent p]> (loop_watched s).
Proof.
  intros Hp Hn Hfd c s1.
  destruct (new_channel_fresh p fd s Hp Hn Hfd) as (_ & Hp1 & Hw1). fold s1 in Hp1, Hw1.
  assert (ls_channels s1 !! p = Some (make_Channel fd)) as Hc1 by apply lookup_insert_eq.
  destruct (set_callbacks_ok p (make_Channel fd) c s1) as (Hp2 & Hw2); [done..|].
  set (s2 := s1 <| ls_channels ::= <[p := c]> |>) in *.
  assert (ls_channels s2 !! p = Some c) as Hc2 by apply lookup_insert_eq.
  destruct (change_events_ok p c enable_reading s2 Hp2 Hc2)
    as (s' & i & E & Hp' & [x ->] & Hch & Hio & Hw).
  eexists _, i. split; [|split; [exact Hp'|split; [by exists x|split; [|split; [exact Hio|]]]]].
  - rewrite (M_bind_ok _ _ _ _ _ (the_channel_ok p _ s1 Hc1)). exact E.
  - rewrite Hch. simpl. by rewrite !insert_insert_eq.
  - by rewrite Hw, Hw2, Hw1.
Qed.

Lemma construct_ok q timer_fd event_fd timer_ch wakeup_ch s :
  ls_channels s = ∅ → poller_ok (mkPollerState (ls_kernel s) ∅ q) →
  watched (mkPollerState (ls_kernel s) ∅ q) = ∅ → t_loopInThisThread s = false →
  timer_fd ≠ -1 → 0 ≤ event_fd → timer_fd ≠ event_fd → timer_ch ≠ wakeup_ch →
  ∃ s', make_EventLoop (Ok (Some q)) timer_fd event_fd timer_ch wakeup_ch s = Ok (tt, s') ∧
        constructed timer_fd event_fd timer_ch wakeup_ch s s'.
Proof.
  intros Hch Hok Hw0 Ht Htfd Hefd Hne Hpne. destruct s as [k chs ts sq tid tl l].
  simpl in Hch, Ht. subst chs tl. simpl in Hok, Hw0.
  set (s0 := mkLoopState k ∅ ts sq tid false (mkEventLoop [] false false tid Timestamp.invaild
    (Some q) (mkTimerQueue timer_fd timer_ch [] ∅ ∅ false) 0 wakeup_ch [] false) : S).
  assert (polls s0) as Hp0 by by exists q.
  destruct (reading_channel timer_ch timer_fd TimerRead s0 Hp0)
    as (s1 & i1 & E1 & Hp1 & [x1 X1] & Hch1 & Hio1 & Hw1); [done|done|].
  set (s2 := s1 <| ls_loop ::= λ l, l <| wakeup_fd_ := event_fd |> |>).
  assert (polls s2) as Hp2 by (destruct Hp1 as (q1 & ? & ?); by exists q1).
  assert (loop_watched s2 = loop_watched s1) as Hw2 by done.
  set (s3 := s2 <| t_loopInThisThread := true |>).
  assert (polls s3) as Hp3 by (destruct Hp1 as (q1 & ? & ?); by exists q1).
  destruct (reading_channel wakeup_ch event_fd WakeupRead s3 Hp3)
    as (s4 & i4 & E4 & Hp4 & [x4 X4] & Hch4 & Hio4 & Hw4).
  { change (ls_channels s1 !! wakeup_ch = None). rewrite Hch1. by rewrite lookup_insert_ne. }
  { intros p d. change (ls_channels s1 !! p = Some d → fd_ d ≠ event_fd). rewrite Hch1.
    intros [[<- <-]|[_ Hd]]%lookup_insert_Some; done. }
  exists s4. split.
  - unfold make_EventLoop, make_TimerQueue, createTimerFd, createEventFd, gets, lift, set_loop,
      modify. mcbn. rewrite (proj2 (Z.eqb_neq _ _) Htfd). mcbn.
    unfold mbind, M_bind, mret, M_ret in E1. simpl in E1. simpl.
    rewrite E1. rewrite (proj2 (Z.ltb_ge _ _) Hefd). subst s1. exact E4.
  - assert (ls_channels s3 = ls_channels s1) as Hch3 by done.
    assert (loop_watched s3 = loop_watched s1) as Hw3 by done.
    split.
    + done.
    + rewrite Hw4, Hw3, Hw1. change (loop_watched s0) with (watched (mkPollerState k ∅ q : PollerState K (Handler O) T P)).
      by rewrite Hw0.
    + rewrite Hch4, Hch3, Hch1. by rewrite lookup_insert_ne, lookup_insert_eq.
    + rewrite Hch4. by rewrite lookup_insert_eq.
    + rewrite X4. unfold s3, s2. by rewrite X1.
    + rewrite X4. unfold s3, s2. by rewrite X1.
    + rewrite X4. unfold s3, s2. rewrite X1. split; [|done]. unfold isInLoopThread. simpl. apply Z.eqb_refl.
    + rewrite X4. unfold s3, s2. by rewrite X1.
    + exact (same_io_trans _ _ _ Hio1 Hio4).
Qed.

(** The constructor of [EventLoop], with a working poller and in a thread
    without a loop: it returns a loop of this thread that watches exactly its
    timerfd and its eventfd, for reading, each reported to the channel whose
    callback serves it, with nothing queued and not asked to stop. *)
Theorem make_EventLoop_ok q timer_fd event_fd timer_ch wakeup_ch s :
  ls_channels s = ∅ → poller_ok (mkPollerState (ls_kernel s) ∅ q) →
  watched (mkPollerState (ls_kernel s) ∅ q) = ∅ → t_loopInThisThread s = false →
  timer_fd ≠ -1 → 0 ≤ event_fd → timer_fd ≠ event_fd → timer_ch ≠ wakeup_ch →
  ∃ s', make_EventLoop (Ok (Some q)) timer_fd event_fd timer_ch wakeup_ch s = Ok (tt, s') ∧
        constructed timer_fd event_fd timer_ch wakeup_ch s s'.
Proof. apply construct_ok. Qed.
End construction.

(** ** Running the queue *)

Section run_queue.
Context {K O T P U CB W : Type} `{!Kernel K} `{!KernelLaws K} `{!Poller K (Handler O) T P}.
Abbreviation S := (LoopState K O T P U CB).
Context `{L : !Lens W S} `{!LensLaws W S}.
Variable run_task : U → M W unit.

Abbreviation pending w := (pendingFunctors_ (ls_loop (view w : S))).
Abbreviation calling w := (calling_pending_functors_ (ls_loop (view w : S))).
Abbreviation woken w := (wakeup_count (view w : S)).

(** [w] after the queue and its flag were set. *)
Definition with_queue (fs : list (Functor U)) (b : bool) (w : W) : W :=
  replace_view ((view w : S) <| ls_loop ::= λ l, l <| calling_pending_functors_ := b |>
                                                  <| pendingFunctors_ := fs |> |>) w.

(** What a functor did: it ran, appended [new] to the queue, and the loop will be
    woken if there is something new. *)
Record functor_ran (ran : W → list (Functor U)) (I : W → Prop) f (w w' : W) : Prop := {
  fr_inv : I w';
  fr_ran : ran w' = ran w ++ [f];
  fr_calling : calling w' = calling w;
  fr_pending : ∃ new, pending w' = pending w ++ new ∧ (0 < woken w' ∨ new = [] ∧ woken w' = woken w)
}.

Lemma zoom_set (f : EventLoop P U → EventLoop P U) (w : W) :
  zoom (X := S) (set_loop f) w = Ok (tt, replace_view ((view w : S) <| ls_loop ::= f |>) w).
Proof. done. Qed.

Lemma run_queue (ran : W → list (Functor U)) (I : W → Prop) fs w :
  (∀ f w, f ∈ fs → I w → calling w = true →
     ∃ w', run_functor run_task f w = Ok (tt, w') ∧ functor_ran ran I f w w') →
  I w → calling w = true →
  ∃ w' new, for_each (run_functor run_task) fs w = Ok (tt, w') ∧ I w' ∧ calling w' = true ∧
    ran w' = ran w ++ fs ∧ pending w' = pending w ++ new ∧
    (0 < woken w' ∨ new = [] ∧ woken w' = woken w).
Proof.
  revert w. induction fs as [|f fs IH]; intros w Hf Hi Hc.
  - exists w, []. rewrite !app_nil_r. repeat split; auto.
  - destruct (Hf f w) as (w1 & E1 & [Hi1 Hr1 Hc1 (new1 & Hp1 & Hw1)]); [by left|done|done|].
    destruct (IH w1) as (w2 & new2 & E2 & Hi2 & Hc2 & Hr2 & Hp2 & Hw2); [|done|congruence|].
    { intros g w' Hg. apply Hf. by right. }
    exists w2, (new1 ++ new2). simpl. rewrite (M_bind_ok _ _ _ _ _ E1).
    split; [done|]. split; [done|]. split; [done|].
    split; [by rewrite Hr2, Hr1, <- app_assoc|]. split; [by rewrite Hp2, Hp1, <- app_assoc|].
    destruct Hw2 as [|[-> ->]]; [by left|]. destruct Hw1 as [|[-> ->]]; [by left|by right].
Qed.

Lemma take_queue {A} (k : list (Functor U) → M W A) (w : W) :
  (zoom (X := S) (set_loop (λ l, l <| calling_pending_functors_ := true |>)) ;;
   tasks ← zoom (X := S) take_tasks; k tasks) w = k (pending w) (with_queue [] true w).
Proof.
  rewrite (M_bind_ok _ _ _ _ _ (zoom_set _ w)). unfold mbind, M_bind, zoom.
  rewrite view_replace. unfold take_tasks, the_loop, gets, set_loop, modify. mcbn.
  rewrite replace_replace. unfold with_queue. by destruct (view w : S) as [? ? ? ? ? ? []].
Qed.

Lemma stop_queue (w : W) :
  zoom (X := S) (set_loop (λ l, l <| calling_pending_functors_ := false |>)) w =
    Ok (tt, with_queue (pending w) false w).
Proof. rewrite zoom_set. unfold with_queue. by destruct (view w : S) as [? ? ? ? ? ? []]. Qed.

End run_queue.

(** ** Stopping *)

Section stopping.
Context {K O T P U CB W : Type} `{!Kernel K} `{!KernelLaws K} `{!Poller K (Handler O) T P}.
Abbreviation S := (LoopState K O T P U CB).
Context `{L : !Lens W S} `{!LensLaws W S}.
Variable run_task : U → M W unit.
Variable lock : T → M W bool.
Variable run_owned : O → Z → M W unit.
Variable run_timer_callback : CB → M W unit.
Abbreviation round := (round run_task lock run_owned run_timer_callback).
Abbreviation rounds := (rounds run_task lock run_owned run_timer_callback).
Abbreviation loop := (loop run_task lock run_owned run_timer_callback).
Abbreviation quitting w := (quit_ (ls_loop (view w : S))).

(** [n] rounds, each entered with [quit_] unset, lead from [w] to [w']. *)
Inductive rounds_run : nat → W → W → Prop :=
| rounds_none w : rounds_run 0 w w
| rounds_one n w w1 w' : quitting w = false → round w = Ok (tt, w1) →
    rounds_run n w1 w' → rounds_run (Datatypes.S n) w w'.

(** [w] with the two flags of [loop()] set. *)
Definition with_flags (looping quitting : bool) (w : W) : W :=
  replace_view ((view w : S) <| ls_loop ::= λ l, l <| looping_ := looping |> <| quit_ := quitting |> |>) w.

Lemma rounds_unfold fuel w :
  rounds fuel w =
    if quitting w then Ok (true, w)
    else match fuel with
         | 0%nat => Ok (false, w)
         | Datatypes.S fuel => (round ;; rounds fuel) w
         end.
Proof.
  assert (zoom (X := S) the_loop w = Ok (ls_loop (view w : S), w)) as E.
  { unfold zoom, the_loop, gets. by rewrite replace_same. }
  destruct fuel as [|fuel]; cbn [EventLoop.rounds]; rewrite (M_bind_ok _ _ _ _ _ E);
    by destruct (quit_ _).
Qed.

Lemma rounds_spec fuel w w' :
  rounds fuel w = Ok (true, w') ↔ ∃ n, (n ≤ fuel)%nat ∧ rounds_run n w w' ∧ quitting w' = true.
Proof.
  revert w. induction fuel as [|fuel IH]; intros w; rewrite rounds_unfold.
  - destruct (quitting w) eqn:Eq.
    + split; [intros [= <-]; exists 0%nat; by repeat split; try constructor|].
      intros (n & Hn & Hr & Hq). assert (n = 0%nat) as -> by lia. by inversion Hr; subst.
    + split; [done|]. intros (n & Hn & Hr & Hq). assert (n = 0%nat) as -> by lia.
      inversion Hr; subst. congruence.
  - destruct (quitting w) eqn:Eq.
    + split; [intros [= <-]; exists 0%nat; split; [lia|]; by split; [constructor|]|].
      intros (n & Hn & Hr & Hq). inversion Hr; subst; [done|congruence].
    + split.
      * intros ([] & w1 & E1 & E2)%M_bind_inv. apply IH in E2 as (n & Hn & Hr & Hq).
        exists (Datatypes.S n). split; [lia|]. split; [by eapply rounds_one|done].
      * intros (n & Hn & Hr & Hq). inversion Hr as [|n' ? w1 ? Hw E1 Hr']; subst; [congruence|].
        rewrite (M_bind_ok _ _ _ _ _ E1). apply IH. exists n'. split; [lia|]. by split.
Qed.

(** When [loop()] returns.  Called with [quit_] set, it returns at once and
    nothing runs.  Otherwise it clears the flag, and returns exactly after the
    first round (with its handlers and its functors) that leaves [quit_] set,
    with [looping_] unset: no round is cut short, none follows. *)
Theorem loop_stops fuel w w' :
  (quitting w = true → loop fuel w = Ok (true, w)) ∧
  (quitting w = false →
   loop fuel w = Ok (true, w') ↔
   ∃ n w1, (n ≤ fuel)%nat ∧ rounds_run n (with_flags true false w) w1 ∧ quitting w1 = true ∧
           w' = with_flags false true w1).
Proof.
  assert (zoom (X := S) the_loop w = Ok (ls_loop (view w : S), w)) as E.
  { unfold zoom, the_loop, gets. by rewrite replace_same. }
  split; intros Hq; unfold EventLoop.loop; rewrite (M_bind_ok _ _ _ _ _ E), Hq; [done|].
  assert (∀ k : M W bool, (zoom (X := S) (set_loop (λ l, l <| looping_ := true |>)) ;;
    zoom (X := S) (set_loop (λ l, l <| quit_ := false |>)) ;; k) w = k (with_flags true false w)) as Ef.
  { intros k. unfold zoom, set_loop, modify. mcbn. rewrite view_replace, replace_replace.
    unfold with_flags. by destruct (view w : S) as [? ? ? ? ? ? []]. }
  assert (∀ w1, quitting w1 = true →
    zoom (X := S) (set_loop (λ l, l <| looping_ := false |>)) w1 = Ok (tt, with_flags false true w1)) as Es.
  { intros w1 Hw1. unfold zoom, set_loop, modify, with_flags.
    destruct (view w1 : S) as [? ? ? ? ? ? []]. simpl in *. by subst. }
  rewrite Ef. split.
  - intros (b & w1 & E1 & E2)%M_bind_inv. destruct b; [|done].
    pose proof E1 as (n & Hn & Hr & Hq1)%rounds_spec. simpl when in E2. rewrite (M_bind_ok _ _ _ _ _ (Es w1 Hq1)) in E2.
    injection E2 as <-. by exists n, w1.
  - intros (n & w1 & Hn & Hr & Hq1 & ->). assert (rounds fuel (with_flags true false w) = Ok (true, w1)) as E1.
    { apply rounds_spec. by exists n. }
    rewrite (M_bind_ok _ _ _ _ _ E1). simpl when. by rewrite (M_bind_ok _ _ _ _ _ (Es w1 Hq1)).
Qed.

(** [runInLoop].  In the thread of the loop the functor runs at once, and
    nothing is queued.  In any other thread it is appended to the queue, behind
    those that wait, it does not run, and the eventfd of the loop is readable
    afterwards even when its counter was full. *)
Theorem runInLoop_spec f w :
  0 ≤ wakeup_count (view w : S) →
  (isInLoopThread (view w : S) = true → runInLoop run_task f w = run_functor run_task f w) ∧
  (isInLoopThread (view w : S) = false →
   ∃ k, runInLoop run_task f w = Ok (tt, replace_view ((view w : S) <| ls_kernel := k |>
          <| ls_loop ::= λ l, l <| pendingFunctors_ ::= λ q, q ++ [f] |> |>) w) ∧
        0 < counter_of (kview_of k) (wakeup_fd_ (ls_loop (view w : S)))).
Proof.
  intros Hc. assert (zoom (X := S) (gets isInLoopThread) w = Ok (isInLoopThread (view w : S), w)) as E.
  { unfold zoom, gets. by rewrite replace_same. }
  split; intros Ht; unfold runInLoop; rewrite (M_bind_ok _ _ _ _ _ E), Ht; [done|].
  destruct (queueInLoop_ok f (view w : S) Hc) as (k & Eq & Hk & _).
  exists k. split; [by apply zoom_ok|]. apply Hk. by rewrite Ht.
Qed.
End stopping.

Lemma make_TimerQueue_null {K O T P U CB} `{!Kernel K, !Poller K (Handler O) T P} fd p
    (s : LoopState K O T P U CB) :
  fd ≠ -1 → poller_ (ls_loop s) = None → make_TimerQueue fd p s = Fault NullPointer.
Proof.
  intros Hfd Hq. unfold make_TimerQueue, createTimerFd, new_channel, set_loop, modify.
  rewrite (proj2 (Z.eqb_neq _ _) Hfd). mcbn.
  set (s1 := _ <| ls_loop ::= _ |>).
  assert (ls_channels s1 !! p = Some (make_Channel fd)) as Hc by apply lookup_insert_eq.
  rewrite (the_channel_ok p _ s1 Hc). unfold change_events. mcbn.
  set (s2 := s1 <| ls_channels ::= _ |>).
  assert (ls_channels s2 !! p = Some (setCallbacks (Some TimerRead) None None None (make_Channel fd)))
    as Hc2 by apply lookup_insert_eq.
  rewrite (the_channel_ok p _ s2 Hc2). unfold modify, updateChannel, in_poller. mcbn.
  change (poller_ (ls_loop _)) with (poller_ (ls_loop s)). by rewrite Hq.
Qed.

(** The ways the constructor of [EventLoop] can fail.  With [MUDO_POLL] in
    the environment the default poller is a null pointer, and the constructor
    calls through it; when the epoll descriptor or the timerfd cannot be created
    it ends the process. *)
Theorem make_EventLoop_fails {K O T U CB} `{!Kernel K, !KernelLaws K} epoll_fd timer_fd event_fd
    timer_ch wakeup_ch (s : LoopState K O T EPollPoller U CB) :
  (timer_fd ≠ -1 →
   make_EventLoop (newDefaultPoller true epoll_fd) timer_fd event_fd timer_ch wakeup_ch s
     = Fault NullPointer) ∧
  (epoll_fd < 0 →
   make_EventLoop (newDefaultPoller false epoll_fd) timer_fd event_fd timer_ch wakeup_ch s
     = Fault FatalExit) ∧
  (0 ≤ epoll_fd → timer_fd = -1 →
   make_EventLoop (newDefaultPoller false epoll_fd) timer_fd event_fd timer_ch wakeup_ch s
     = Fault FatalExit).
Proof.
  split; [|split].
  - intros Ht. unfold make_EventLoop, newDefaultPoller, gets, lift, modify. mcbn.
    by rewrite make_TimerQueue_null.
  - intros He. unfold make_EventLoop, newDefaultPoller, make_EPollPoller, gets, lift. mcbn.
    by rewrite (proj2 (Z.ltb_lt _ _) He).
  - intros He ->. unfold make_EventLoop, newDefaultPoller, make_EPollPoller, gets, lift. mcbn.
    by rewrite (proj2 (Z.ltb_ge _ _) He).
Qed.

(** ** Witnesses

    A loop over epoll whose tasks count down: task [n] queues task [n-1], task 0
    asks the loop to quit; every functor is logged. *)

Abbreviation DemoLoop := (LoopState scripted unit unit EPollPoller nat nat).
Abbreviation DemoProgram := (DemoLoop * list (Functor nat))%type.
#[export] Instance demo_program_lens : Lens DemoProgram DemoLoop := {|
  view := fst; replace_view s w := (s, w.2) |}.
#[export] Instance demo_program_laws : LensLaws DemoProgram DemoLoop.
Proof. split; [done..|by intros []]. Qed.

Definition countdown (n : nat) : M DemoProgram unit :=
  (match n with
   | 0%nat => zoom (X := DemoLoop) quit
   | Datatypes.S n => zoom (X := DemoLoop) (queueInLoop (Task n))
   end) ;;
  modify (λ w, (w.1, w.2 ++ [Task n])).

Definition blank_loop : DemoLoop :=
  mkLoopState idle_kernel ∅ ∅ 0 1 false
    (mkEventLoop [] false false 0 0 None (mkTimerQueue 0 1 [] ∅ ∅ false) 0 1 [] false).
Definition demo_loop : DemoLoop :=
  match make_EventLoop (newDefaultPoller false 3) 4 5 1 2 blank_loop with
  | Ok (_, s) => s
  | Fault _ => blank_loop
  end.

Lemma demo_poller_good :
  poller_ok (mkPollerState idle_kernel ∅ (mkEPollPoller ∅ 3) : PollerState scripted (Handler unit) unit EPollPoller).
Proof.
  split; simpl; try done.
  - intros fd p. split; [done|by intros (c & ? & _)].
  - intros fd e. split; [done|by intros (c & ? & _)].
Qed.

Lemma demo_loop_constructed : constructed 4 5 1 2 blank_loop demo_loop.
Proof.
  destruct (construct_ok (mkEPollPoller ∅ 3) 4 5 1 2 blank_loop) as (s & E & H); try done.
  { apply demo_poller_good. }
  unfold demo_loop, newDefaultPoller, make_EPollPoller. simpl Z.ltb. simpl.
  by rewrite E.
Qed.

Lemma make_EventLoop_ok_witness :
  ∃ s', make_EventLoop (Ok (Some (mkEPollPoller ∅ 3))) 4 5 1 2 blank_loop = Ok (tt, s') ∧
        constructed 4 5 1 2 blank_loop s'.
Proof.
  apply (make_EventLoop_ok (mkEPollPoller ∅ 3) 4 5 1 2 blank_loop); try done.
  apply demo_poller_good.
Defined.

Lemma make_EventLoop_fails_witness :
  make_EventLoop (newDefaultPoller true 3) 4 5 1 2 blank_loop = Fault NullPointer ∧
  make_EventLoop (newDefaultPoller false (-1)) 4 5 1 2 blank_loop = Fault FatalExit ∧
  make_EventLoop (newDefaultPoller false 3) (-1) 5 1 2 blank_loop = Fault FatalExit.
Proof.
  split; [|split].
  - destruct (make_EventLoop_fails 3 4 5 1 2 blank_loop) as (F & _ & _). by apply F.
  - destruct (make_EventLoop_fails (-1) 4 5 1 2 blank_loop) as (_ & F & _). by apply F.
  - destruct (make_EventLoop_fails 3 (-1) 5 1 2 blank_loop) as (_ & _ & F). by apply F.
Defined.

(** The loop with [Task 2] and [Task 0] queued. *)
Definition demo_queued : DemoProgram :=
  (demo_loop <| ls_loop ::= λ l, l <| pendingFunctors_ := [Task 2%nat; Task 0%nat] |> |>, []).
Definition in_its_thread (w : DemoProgram) : Prop :=
  isInLoopThread w.1 = true ∧ 0 ≤ wakeup_count w.1.

Lemma countdown_ok f w :
  f ∈ [Task 2%nat; Task 0%nat] → in_its_thread w → calling_pending_functors_ (ls_loop w.1) = true →
  ∃ w', run_functor (L := demo_program_lens) countdown f w = Ok (tt, w') ∧
        functor_ran snd in_its_thread f w w'.
Proof.
  intros Hf [Ht Hc] Hcall. destruct w as [s log]. simpl in *.
  rewrite !elem_of_cons in Hf. destruct Hf as [->|[->|[]%not_elem_of_nil]].
  - destruct (queueInLoop_ok (Task 1%nat) s Hc) as (k & E & Hk & _ & Hmono & _).
    simpl run_functor. unfold countdown. unfold mbind, M_bind, zoom. simpl view.
    rewrite E. eexists. split; [done|]. split; simpl.
    + split; [exact Ht|]. unfold wakeup_count in *. simpl in *. lia.
    + done.
    + done.
    + exists [Task 1%nat]. split; [done|]. left. apply Hk. by rewrite Hcall, orb_true_r.
  - simpl run_functor. unfold countdown, quit, mbind, M_bind, zoom, set_loop, modify, gets. simpl view.
    unfold isInLoopThread in *. simpl. rewrite Ht. simpl. eexists. split; [done|]. split; simpl.
    + by split.
    + done.
    + done.
    + exists []. by rewrite app_nil_r; split; [|right].
Qed.


(** Three rounds: the functors of one round run before the next one waits. *)
Definition demo_counting : DemoProgram :=
  (demo_loop <| ls_loop ::= λ l, l <| pendingFunctors_ := [Task 2%nat] |> |>, []).
Abbreviation demo_run :=
  (loop (L := demo_program_lens) countdown (λ _, mret true) (λ _ _, mret tt) (λ _, mret tt)).

Lemma demo_run_ends :
  ∃ w', demo_run 5 demo_counting = Ok (true, w') ∧ w'.2 = [Task 2%nat; Task 1%nat; Task 0%nat].
Proof. eexists. split; by vm_compute. Qed.

Lemma loop_stops_witness :
  (∃ w', demo_run 5 demo_counting = Ok (true, w') ∧ w'.2 = [Task 2%nat; Task 1%nat; Task 0%nat] ∧
    ∃ n w1, (n ≤ 5)%nat ∧
      rounds_run countdown (λ _, mret true) (λ _ _, mret tt) (λ _, mret tt) n
        (with_flags true false demo_counting) w1 ∧
      quit_ (ls_loop (view w1)) = true ∧ w' = with_flags false true w1) ∧
  demo_run 5 (with_flags false true demo_counting) = Ok (true, with_flags false true demo_counting).
Proof.
  split.
  - destruct demo_run_ends as (w' & E & Hl). exists w'. split; [done|]. split; [done|].
    destruct (loop_stops countdown (λ _, mret true) (λ _ _, mret tt) (λ _, mret tt) 5 demo_counting w')
      as [_ F].
    by apply F.
  - destruct (loop_stops countdown (λ _, mret true) (λ _ _, mret tt) (λ _, mret tt) 5
      (with_flags false true demo_counting) demo_counting) as [F _].
    by apply F.
Defined.

Definition demo_elsewhere : DemoProgram := (demo_loop <| ls_tid := 2 |>, []).
Lemma runInLoop_spec_witness :
  runInLoop (L := demo_program_lens) countdown (Task 0%nat) demo_counting =
    run_functor (L := demo_program_lens) countdown (Task 0%nat) demo_counting ∧
  ∃ k, runInLoop (L := demo_program_lens) countdown (Task 0%nat) demo_elsewhere =
         Ok (tt, replace_view (demo_elsewhere.1 <| ls_kernel := k |>
            <| ls_loop ::= λ l, l <| pendingFunctors_ ::= λ q, q ++ [Task 0%nat] |> |>) demo_elsewhere) ∧
       0 < counter_of (kview_of k) (wakeup_fd_ (ls_loop demo_elsewhere.1)).
Proof.
  split.
  - destruct (runInLoop_spec (L := demo_program_lens) countdown (Task 0%nat) demo_counting) as [F _];
      [by vm_compute|]. by apply F.
  - destruct (runInLoop_spec (L := demo_program_lens) countdown (Task 0%nat) demo_elsewhere) as [_ F];
      [by vm_compute|]. by apply F.
Defined.
