(* ===== verification/LoopChannels.v ===== *)
(** * The channels of a loop over their lifetime (Channel.h, EventLoop.cc)

    A channel is made by its owner, registered with the loop's poller when it
    first wants events, taken off by [remove()], and freed with its owner.  The
    poller and the kernel keep a raw pointer to a registered channel; here is what
    the owner of a channel has to see to, and how the pollers of several loops
    over one kernel leave each other alone ([PollerRegistry]). *)

From S2P Require Import Prelude Kernel TimerQueue Channel Poller EventLoop.

Section loop_channels.
Context {K O T P U CB : Type} `{!Kernel K, !KernelLaws K} `{!Poller K (Handler O) T P}
  `{!PollerLaws K (Handler O) T P} `{!PollerRegistry K (Handler O) T P}.
Abbreviation S := (LoopState K O T P U CB).
Implicit Types s : S.

(** [~Channel()] has no code of its own: the memory goes. *)
Definition destroy_Channel (p : positive) : M S unit := modify (λ s, s <| ls_channels ::= delete p |>).

(** The loop's poller keeps a pointer to the channel; the loop's epoll instance. *)
Definition loop_registered s (p : positive) : Prop :=
  ∃ q, poller_ (ls_loop s) = Some q ∧ registered q p.
Definition loop_epfd s : option Z := poller_fd <$> poller_ (ls_loop s).

Lemma loop_epfd_some s : polls s → ∃ epfd, loop_epfd s = Some epfd.
Proof. intros (q & Eq & _). exists (poller_fd q). unfold loop_epfd. by rewrite Eq. Qed.

Lemma loop_registered_alive s p : polls s → loop_registered s p → is_Some (ls_channels s !! p).
Proof.
  intros (q & Eq & Hok) (q' & Eq' & Hr). assert (q' = q) as -> by congruence.
  exact (registered_alive (poller_state s q) p Hok Hr).
Qed.

(** A watched descriptor belongs to a registered channel: a freed one cannot be
    reported. *)
Lemma loop_watched_registered s fd e :
  polls s → loop_watched s !! fd = Some e →
  loop_registered s (ev_ptr e) ∧ fd_ <$> ls_channels s !! ev_ptr e = Some fd.
Proof.
  intros (q & Eq & Hok) He. rewrite (loop_watched_eq s q Eq) in He.
  destruct (registered_watched (poller_state s q) fd e Hok He) as [Hr Hc]. split; [by exists q|exact Hc].
Qed.

(** What another loop over the same kernel does. *)
Lemma polls_local k s epfd :
  polls s → loop_epfd s = Some epfd →
  interest_of (kview_of k) epfd = interest_of (kview_of (ls_kernel s)) epfd →
  polls (s <| ls_kernel := k |>).
Proof.
  intros (q & Eq & Hok) He Hk. exists q. split; [done|]. unfold loop_epfd in He. rewrite Eq in He.
  injection He as <-. exact (poller_ok_local (poller_state s q) k Hok Hk).
Qed.

(** Closing a descriptor the loop does not watch. *)
Lemma interest_close fd v epfd : interest_of (kv_close fd v) epfd = delete fd (interest_of v epfd).
Proof.
  unfold interest_of, kv_close. simpl. rewrite lookup_fmap. destruct (kv_interest v !! epfd); simpl; [done|].
  by rewrite delete_empty.
Qed.

Lemma loop_interest s epfd :
  polls s → loop_epfd s = Some epfd → loop_watched s = interest_of (kview_of (ls_kernel s)) epfd.
Proof.
  intros (q & Eq & Hok) He. rewrite (loop_watched_eq s q Eq). unfold loop_epfd in He. rewrite Eq in He.
  injection He as <-. exact (interest_law (poller_state s q) Hok).
Qed.

Lemma polls_close k fd s :
  polls s → (∀ p c, ls_channels s !! p = Some c → fd_ c ≠ fd) →
  kview_of k = kv_close fd (kview_of (ls_kernel s)) → polls (s <| ls_kernel := k |>).
Proof.
  intros Hp Hfd Hk. destruct (loop_epfd_some s Hp) as [epfd He].
  apply (polls_local k s epfd Hp He). rewrite Hk, interest_close. apply delete_id.
  rewrite <- (loop_interest s epfd Hp He). apply eq_None_not_Some. intros [e Hw].
  destruct (loop_watched_registered s fd e Hp Hw) as [_ Hc].
  destruct (ls_channels s !! ev_ptr e) as [c|] eqn:Ec; [|done]. simpl in Hc. injection Hc. exact (Hfd _ c Ec).
Qed.

(** Of a step of the poller on the channel [p]: the epoll instance stays, nothing
    is touched outside of it, and the other channels stay registered or not. *)
Record registry_step (p : positive) s s' : Prop := RegistryStep {
  rs_epfd : loop_epfd s' = loop_epfd s;
  rs_touches epfd : loop_epfd s = Some epfd →
    touches epfd (kview_of (ls_kernel s)) (kview_of (ls_kernel s'));
  rs_others q : q ≠ p → loop_registered s' q ↔ loop_registered s q
}.

Lemma loop_registered_with x s p : loop_registered (with_poller x s) p ↔ registered (ps_poller x) p.
Proof.
  split; [by intros (q & [= <-] & Hr)|]. intros Hr. by exists (ps_poller x).
Qed.

Lemma loop_registered_eq s q p : poller_ (ls_loop s) = Some q → loop_registered s p ↔ registered q p.
Proof.
  intros Eq. split; [|intros Hr; by exists q]. intros (q' & Eq' & Hr). by assert (q' = q) as -> by congruence.
Qed.

Lemma change_events_registry p c f s s' :
  polls s → ls_channels s !! p = Some c → change_events p f s = Ok (tt, s') → registry_step p s s'.
Proof.
  intros (q & Eq & Hok) Hc E.
  destruct (update_law (poller_state s q) p c (f (events_ c)) Hok Hc) as (x & i & Ex & _).
  set (s1 := s <| ls_channels ::= <[p := c <| events_ ::= f |>]> |>).
  assert (change_events p f s = Ok (tt, with_poller x s1)) as E'.
  { unfold change_events. rewrite (M_bind_ok _ _ _ _ _ (the_channel_ok p c s Hc)).
    unfold modify. mcbn. apply in_poller_ok with (q := q); [done|]. exact Ex. }
  rewrite E in E'. injection E' as ->.
  destruct (update_registered (poller_state s q) p c (f (events_ c)) x Hok Hc Ex) as (Hfd & Ht & Hr).
  split.
  - unfold loop_epfd. rewrite Eq. simpl. by f_equal.
  - intros epfd He. unfold loop_epfd in He. rewrite Eq in He. injection He as <-. exact Ht.
  - intros q' Hq. rewrite loop_registered_with, (loop_registered_eq s q) by done. by apply Hr.
Qed.

Lemma removeChannel_registry p c s s' :
  polls s → ls_channels s !! p = Some c → removeChannel p s = Ok (tt, s') →
  registry_step p s s' ∧ ¬ loop_registered s' p.
Proof.
  intros (q & Eq & Hok) Hc E.
  destruct (remove_law (poller_state s q) p c Hok Hc) as (x & i & Ex & _).
  assert (removeChannel p s = Ok (tt, with_poller x s)) as E' by by apply in_poller_ok with (q := q).
  rewrite E in E'. injection E' as ->.
  destruct (remove_registered (poller_state s q) p c x Hok Hc Ex) as (Hfd & Ht & Hr). split; [split|].
  - unfold loop_epfd. rewrite Eq. simpl. by f_equal.
  - intros epfd He. unfold loop_epfd in He. rewrite Eq in He. injection He as <-. exact Ht.
  - intros q' Hq. rewrite loop_registered_with, (loop_registered_eq s q) by done. rewrite Hr. tauto.
  - rewrite loop_registered_with, Hr. tauto.
Qed.

(** A channel that is not registered can be freed. *)
Lemma destroy_Channel_ok p s :
  polls s → ¬ loop_registered s p → polls (s <| ls_channels ::= delete p |>).
Proof.
  intros (q & Eq & Hok) Hr. exists q. split; [done|].
  apply (poller_ok_delete (poller_state s q) p Hok). intros Hq. apply Hr. by exists q.
Qed.

(** A new channel is not registered. *)
Lemma new_not_registered p s : polls s → ls_channels s !! p = None → ¬ loop_registered s p.
Proof.
  intros Hp Hc Hr. destruct (loop_registered_alive s p Hp Hr) as [c Hc']. congruence.
Qed.
End loop_channels.
