(* ===== verification/TcpConnection.v ===== *)
(** * TcpConnection (include/TcpConnection.h, src/TcpConnection.cc, Socket::shutDownWrite)

    One connection: its state, its two buffers, and the handlers of its channel.
    Of the loop it runs in and of its channel it uses a few operations, the
    interface [Reactor]; the event loop implements it (LoopReactor.v), and the
    theorems here are proved against [ReactorLaws] alone.

    The callbacks the application sets are named by values of [UC], the functors
    the connection posts to its loop by [ConnFunctor]; the lambdas capture the
    raw [this].  Logging has no effect on the state ([errno] included). *)

From Stdlib Require Import Init.Byte.
From S2P Require Import Prelude Kernel Buffer Channel.

(** The callbacks the constructor gives to the channel. *)
Inductive ConnHandler : Type := ConnRead | ConnWrite | ConnClose | ConnError.

(** ** What a connection uses of its loop and its channel *)

Inductive ConnFunctor : Type :=
| ShutDownInLoop                       (* shutdown() *)
| SendInLoop (data : list byte)        (* send() *)
| SendFileInLoop                       (* sendFile() *)
| WriteComplete                        (* write_complete_callback_(shared_from_this()) *)
| HighWaterMark.                       (* high_water_mark_callback_(shared_from_this()) *)

Class Reactor (K E : Type) : Type := {
  re_kernel :: Lens E K;
  channel_events : E → Z;                   (* channel_->events() *)
  channel_update : (Z → Z) → M E unit;      (* channel_->enableX(), disableX() *)
  channel_tie : M E unit;                   (* channel_->tie(shared_from_this()) *)
  channel_remove : M E unit;                (* channel_->remove() *)
  loop_isInLoopThread : E → bool;
  loop_queueInLoop : ConnFunctor → M E unit
}.

(** What one step of the surroundings leaves alone. *)
Record same_wire {K E} `{!Kernel K, !Reactor K E} (e e' : E) : Prop := SameWire {
  sw_sent : kv_sent (kview_of (view e' : K)) = kv_sent (kview_of (view e : K));
  sw_shut : kv_shut (kview_of (view e' : K)) = kv_shut (kview_of (view e : K));
  sw_thread : loop_isInLoopThread e' = loop_isInLoopThread e
}.

(** What the loop promises: [reactor_ok] is its invariant, [posted] the functors
    of this connection that wait in its queue. *)
Class ReactorLaws (K E : Type) `{!Kernel K, !Reactor K E} : Type := {
  re_lens :: LensLaws E K;
  reactor_ok : E → Prop;
  posted : E → list ConnFunctor;
  reactor_kernel e k : reactor_ok e →
    kv_interest (kview_of k) = kv_interest (kview_of (view e : K)) →
    kv_eventfd (kview_of k) = kv_eventfd (kview_of (view e : K)) →
    reactor_ok (replace_view k e) ∧
    channel_events (replace_view k e) = channel_events e ∧
    posted (replace_view k e) = posted e ∧
    loop_isInLoopThread (replace_view k e) = loop_isInLoopThread e;
  channel_update_law f e : reactor_ok e → ∃ e', channel_update f e = Ok (tt, e') ∧
    reactor_ok e' ∧ same_wire e e' ∧
    channel_events e' = f (channel_events e) ∧ posted e' = posted e;
  channel_tie_law e : reactor_ok e → ∃ e', channel_tie e = Ok (tt, e') ∧
    reactor_ok e' ∧ same_wire e e' ∧
    channel_events e' = channel_events e ∧ posted e' = posted e;
  channel_remove_law e : reactor_ok e → ∃ e', channel_remove e = Ok (tt, e') ∧
    reactor_ok e' ∧ same_wire e e' ∧
    channel_events e' = channel_events e ∧ posted e' = posted e;
  queueInLoop_law f e : reactor_ok e → ∃ e', loop_queueInLoop f e = Ok (tt, e') ∧
    reactor_ok e' ∧ same_wire e e' ∧
    channel_events e' = channel_events e ∧ posted e' = posted e ++ [f]
}.

(** ** The class *)

Inductive StateE : Type := kConnected | kConnecting | kDisConnected | kDisConnecting.
#[export] Instance StateE_eq_dec : EqDecision StateE.
Proof. solve_decision. Defined.

Definition DefaultWaterMark : Z := 64 * 1024 * 1024.

Record TcpConnection (UC : Type) : Type := mkTcpConnection {
  state_ : StateE;
  reading_ : bool;
  sockfd_ : Z;                          (* of socket_ and of channel_ *)
  local_addr_ : sockaddr_in;
  peer_addr_ : sockaddr_in;
  input_buffer_ : Buffer;
  output_buffer_ : Buffer;
  high_water_mark_ : Z;
  connection_callback_ : option UC;
  close_callback_ : option UC;
  write_complete_callback_ : option UC;
  high_water_mark_callback_ : option UC;
  message_callback_ : option UC;
  name_ : string;
  sending_file : bool;
  fd_to_send_ : Z;                      (* file_to_send *)
  fd_offset_ : Z;
  count_ : Z
}.
Arguments mkTcpConnection {UC} _ _ _ _ _ _ _ _ _ _ _ _ _ _ _ _ _ _.
Arguments state_ {UC} _.
Arguments reading_ {UC} _.
Arguments sockfd_ {UC} _.
Arguments local_addr_ {UC} _.
Arguments peer_addr_ {UC} _.
Arguments input_buffer_ {UC} _.
Arguments output_buffer_ {UC} _.
Arguments high_water_mark_ {UC} _.
Arguments connection_callback_ {UC} _.
Arguments close_callback_ {UC} _.
Arguments write_complete_callback_ {UC} _.
Arguments high_water_mark_callback_ {UC} _.
Arguments message_callback_ {UC} _.
Arguments name_ {UC} _.
Arguments sending_file {UC} _.
Arguments fd_to_send_ {UC} _.
Arguments fd_offset_ {UC} _.
Arguments count_ {UC} _.
#[export] Instance set_state_ {UC} : Setter (@state_ UC) := λ f t,
  mkTcpConnection (f (state_ t)) (reading_ t) (sockfd_ t) (local_addr_ t) (peer_addr_ t)
    (input_buffer_ t) (output_buffer_ t) (high_water_mark_ t) (connection_callback_ t)
    (close_callback_ t) (write_complete_callback_ t) (high_water_mark_callback_ t)
    (message_callback_ t) (name_ t) (sending_file t) (fd_to_send_ t) (fd_offset_ t) (count_ t).
#[global] Arguments set_state_ {UC} _ !_ /.
#[export] Instance set_reading_ {UC} : Setter (@reading_ UC) := λ f t,
  mkTcpConnection (state_ t) (f (reading_ t)) (sockfd_ t) (local_addr_ t) (peer_addr_ t)
    (input_buffer_ t) (output_buffer_ t) (high_water_mark_ t) (connection_callback_ t)
    (close_callback_ t) (write_complete_callback_ t) (high_water_mark_callback_ t)
    (message_callback_ t) (name_ t) (sending_file t) (fd_to_send_ t) (fd_offset_ t) (count_ t).
#[global] Arguments set_reading_ {UC} _ !_ /.
#[export] Instance set_input_buffer_ {UC} : Setter (@input_buffer_ UC) := λ f t,
  mkTcpConnection (state_ t) (reading_ t) (sockfd_ t) (local_addr_ t) (peer_addr_ t)
    (f (input_buffer_ t)) (output_buffer_ t) (high_water_mark_ t) (connection_callback_ t)
    (close_callback_ t) (write_complete_callback_ t) (high_water_mark_callback_ t)
    (message_callback_ t) (name_ t) (sending_file t) (fd_to_send_ t) (fd_offset_ t) (count_ t).
#[global] Arguments set_input_buffer_ {UC} _ !_ /.
#[export] Instance set_output_buffer_ {UC} : Setter (@output_buffer_ UC) := λ f t,
  mkTcpConnection (state_ t) (reading_ t) (sockfd_ t) (local_addr_ t) (peer_addr_ t)
    (input_buffer_ t) (f (output_buffer_ t)) (high_water_mark_ t) (connection_callback_ t)
    (close_callback_ t) (write_complete_callback_ t) (high_water_mark_callback_ t)
    (message_callback_ t) (name_ t) (sending_file t) (fd_to_send_ t) (fd_offset_ t) (count_ t).
#[global] Arguments set_output_buffer_ {UC} _ !_ /.
#[export] Instance set_high_water_mark_ {UC} : Setter (@high_water_mark_ UC) := λ f t,
  mkTcpConnection (state_ t) (reading_ t) (sockfd_ t) (local_addr_ t) (peer_addr_ t)
    (input_buffer_ t) (output_buffer_ t) (f (high_water_mark_ t)) (connection_callback_ t)
    (close_callback_ t) (write_complete_callback_ t) (high_water_mark_callback_ t)
    (message_callback_ t) (name_ t) (sending_file t) (fd_to_send_ t) (fd_offset_ t) (count_ t).
#[global] Arguments set_high_water_mark_ {UC} _ !_ /.
#[export] Instance set_connection_callback_ {UC} : Setter (@connection_callback_ UC) := λ f t,
  mkTcpConnection (state_ t) (reading_ t) (sockfd_ t) (local_addr_ t) (peer_addr_ t)
    (input_buffer_ t) (output_buffer_ t) (high_water_mark_ t) (f (connection_callback_ t))
    (close_callback_ t) (write_complete_callback_ t) (high_water_mark_callback_ t)
    (message_callback_ t) (name_ t) (sending_file t) (fd_to_send_ t) (fd_offset_ t) (count_ t).
#[global] Arguments set_connection_callback_ {UC} _ !_ /.
#[export] Instance set_close_callback_ {UC} : Setter (@close_callback_ UC) := λ f t,
  mkTcpConnection (state_ t) (reading_ t) (sockfd_ t) (local_addr_ t) (peer_addr_ t)
    (input_buffer_ t) (output_buffer_ t) (high_water_mark_ t) (connection_callback_ t)
    (f (close_callback_ t)) (write_complete_callback_ t) (high_water_mark_callback_ t)
    (message_callback_ t) (name_ t) (sending_file t) (fd_to_send_ t) (fd_offset_ t) (count_ t).
#[global] Arguments set_close_callback_ {UC} _ !_ /.
#[export] Instance set_write_complete_callback_ {UC} : Setter (@write_complete_callback_ UC) := λ f t,
  mkTcpConnection (state_ t) (reading_ t) (sockfd_ t) (local_addr_ t) (peer_addr_ t)
    (input_buffer_ t) (output_buffer_ t) (high_water_mark_ t) (connection_callback_ t)
    (close_callback_ t) (f (write_complete_callback_ t)) (high_water_mark_callback_ t)
    (message_callback_ t) (name_ t) (sending_file t) (fd_to_send_ t) (fd_offset_ t) (count_ t).
#[global] Arguments set_write_complete_callback_ {UC} _ !_ /.
#[export] Instance set_high_water_mark_callback_ {UC} : Setter (@high_water_mark_callback_ UC) := λ f t,
  mkTcpConnection (state_ t) (reading_ t) (sockfd_ t) (local_addr_ t) (peer_addr_ t)
    (input_buffer_ t) (output_buffer_ t) (high_water_mark_ t) (connection_callback_ t)
    (close_callback_ t) (write_complete_callback_ t) (f (high_water_mark_callback_ t))
    (message_callback_ t) (name_ t) (sending_file t) (fd_to_send_ t) (fd_offset_ t) (count_ t).
#[global] Arguments set_high_water_mark_callback_ {UC} _ !_ /.
#[export] Instance set_message_callback_ {UC} : Setter (@message_callback_ UC) := λ f t,
  mkTcpConnection (state_ t) (reading_ t) (sockfd_ t) (local_addr_ t) (peer_addr_ t)
    (input_buffer_ t) (output_buffer_ t) (high_water_mark_ t) (connection_callback_ t)
    (close_callback_ t) (write_complete_callback_ t) (high_water_mark_callback_ t)
    (f (message_callback_ t)) (name_ t) (sending_file t) (fd_to_send_ t) (fd_offset_ t)
    (count_ t).
#[global] Arguments set_message_callback_ {UC} _ !_ /.
#[export] Instance set_sending_file {UC} : Setter (@sending_file UC) := λ f t,
  mkTcpConnection (state_ t) (reading_ t) (sockfd_ t) (local_addr_ t) (peer_addr_ t)
    (input_buffer_ t) (output_buffer_ t) (high_water_mark_ t) (connection_callback_ t)
    (close_callback_ t) (write_complete_callback_ t) (high_water_mark_callback_ t)
    (message_callback_ t) (name_ t) (f (sending_file t)) (fd_to_send_ t) (fd_offset_ t)
    (count_ t).
#[global] Arguments set_sending_file {UC} _ !_ /.
#[export] Instance set_fd_to_send_ {UC} : Setter (@fd_to_send_ UC) := λ f t,
  mkTcpConnection (state_ t) (reading_ t) (sockfd_ t) (local_addr_ t) (peer_addr_ t)
    (input_buffer_ t) (output_buffer_ t) (high_water_mark_ t) (connection_callback_ t)
    (close_callback_ t) (write_complete_callback_ t) (high_water_mark_callback_ t)
    (message_callback_ t) (name_ t) (sending_file t) (f (fd_to_send_ t)) (fd_offset_ t)
    (count_ t).
#[global] Arguments set_fd_to_send_ {UC} _ !_ /.
#[export] Instance set_fd_offset_ {UC} : Setter (@fd_offset_ UC) := λ f t,
  mkTcpConnection (state_ t) (reading_ t) (sockfd_ t) (local_addr_ t) (peer_addr_ t)
    (input_buffer_ t) (output_buffer_ t) (high_water_mark_ t) (connection_callback_ t)
    (close_callback_ t) (write_complete_callback_ t) (high_water_mark_callback_ t)
    (message_callback_ t) (name_ t) (sending_file t) (fd_to_send_ t) (f (fd_offset_ t))
    (count_ t).
#[global] Arguments set_fd_offset_ {UC} _ !_ /.
#[export] Instance set_count_ {UC} : Setter (@count_ UC) := λ f t,
  mkTcpConnection (state_ t) (reading_ t) (sockfd_ t) (local_addr_ t) (peer_addr_ t)
    (input_buffer_ t) (output_buffer_ t) (high_water_mark_ t) (connection_callback_ t)
    (close_callback_ t) (write_complete_callback_ t) (high_water_mark_callback_ t)
    (message_callback_ t) (name_ t) (sending_file t) (fd_to_send_ t) (fd_offset_ t)
    (f (count_ t)).
#[global] Arguments set_count_ {UC} _ !_ /.

(** [socket_->setKeepAlive(on)] *)
Definition setKeepAlive {K} `{!Kernel K} (sockfd : Z) (on : bool) : M K unit :=
  modify (sys_setsockopt sockfd SO_KEEPALIVE (if on then 1 else 0)).

(** The constructor, without the callbacks it gives to its channel; the fields
    of [file_to_send] are uninitialised, here zero. *)
Definition make_TcpConnection {K UC} `{!Kernel K} (name : string) (sockfd : Z)
    (local_addr peer_addr : sockaddr_in) (water_mark : Z) : M K (TcpConnection UC) :=
  input ← lift (make_Buffer kInitialSize);
  output ← lift (make_Buffer kInitialSize);
  setKeepAlive sockfd true ;;
  mret (mkTcpConnection kConnecting false sockfd local_addr peer_addr input output water_mark
          None None None None None name false 0 0 0).

(** The setters assign; an empty function is [None]. *)
Definition setConnecitonCallback {UC} (cb : option UC) (t : TcpConnection UC) : TcpConnection UC :=
  t <| connection_callback_ := cb |>.
Definition setCloseCallback {UC} (cb : option UC) (t : TcpConnection UC) : TcpConnection UC :=
  t <| close_callback_ := cb |>.
Definition setWriteCompleteCallback {UC} (cb : option UC) (t : TcpConnection UC) : TcpConnection UC :=
  t <| write_complete_callback_ := cb |>.
Definition setHighWaterMarkCallback {UC} (cb : option UC) (t : TcpConnection UC) : TcpConnection UC :=
  t <| high_water_mark_callback_ := cb |>.
Definition setMessageCallback {UC} (cb : option UC) (t : TcpConnection UC) : TcpConnection UC :=
  t <| message_callback_ := cb |>.

Definition connected {UC} (t : TcpConnection UC) : bool := bool_decide (state_ t = kConnected).

(** A connection and its surroundings. *)
Record ConnState (E UC : Type) : Type := mkConnState {
  cs_conn : TcpConnection UC;
  cs_env : E
}.
Arguments mkConnState {E UC} _ _. Arguments cs_conn {E UC} _. Arguments cs_env {E UC} _.
#[export] Instance set_cs_conn {E UC} : Setter (@cs_conn E UC) := λ f s,
  mkConnState (f (cs_conn s)) (cs_env s).
#[global] Arguments set_cs_conn {E UC} _ !_ /.
#[export] Instance set_cs_env {E UC} : Setter (@cs_env E UC) := λ f s,
  mkConnState (cs_conn s) (f (cs_env s)).
#[global] Arguments set_cs_env {E UC} _ !_ /.

Section connection.
Context {K E UC : Type} `{!Kernel K} `{!Reactor K E}.
Abbreviation S := (ConnState E UC).

Definition conn : M S (TcpConnection UC) := gets cs_conn.
Definition set_conn (f : TcpConnection UC → TcpConnection UC) : M S unit :=
  modify (λ s, s <| cs_conn ::= f |>).
Definition setState (st : StateE) : M S unit := set_conn (λ t, t <| state_ := st |>).

(** Code of the surroundings, and system calls. *)
Definition in_env {A} (m : M E A) : M S A := λ s,
  '(a, e) ← m (cs_env s); Ok (a, s <| cs_env := e |>).
Definition conn_kernel {A} (f : K → A * K) : M S A := λ s,
  let '(a, k) := f (view (cs_env s)) in Ok (a, s <| cs_env ::= replace_view k |>).

(** The kernel with one of the buffers, as [readFd] and [writeFd] need them. *)
Definition in_input {A} (m : M (K * Buffer) A) : M S A := λ s,
  '(a, (k, b)) ← m (view (cs_env s), input_buffer_ (cs_conn s));
  Ok (a, s <| cs_env ::= replace_view k |> <| cs_conn ::= λ t, t <| input_buffer_ := b |> |>).
Definition in_output {A} (m : M (K * Buffer) A) : M S A := λ s,
  '(a, (k, b)) ← m (view (cs_env s), output_buffer_ (cs_conn s));
  Ok (a, s <| cs_env ::= replace_view k |> <| cs_conn ::= λ t, t <| output_buffer_ := b |> |>).

Definition enableReading : M S unit := in_env (channel_update enable_reading).
Definition enableWriting : M S unit := in_env (channel_update enable_writing).
Definition disableWriting : M S unit := in_env (channel_update disable_writing).
Definition disableAll : M S unit := in_env (channel_update disable_all).
Definition channel_isWriting (s : S) : bool := isWriting (channel_events (cs_env s)).
Definition queueInLoop (f : ConnFunctor) : M S unit := in_env (loop_queueInLoop f).

(** [socket_->shutDownWrite()] *)
Definition shutDownWrite : M S unit :=
  t ← conn; _ ← conn_kernel (sys_shutdown (sockfd_ t)); mret tt.   (* an error is logged *)

Definition shutDownInLoop : M S unit :=
  writing ← gets channel_isWriting;
  when (negb writing) shutDownWrite.

(** [state_==kDisConnected||state_==kDisConnecting] *)
Definition giving_up (t : TcpConnection UC) : bool :=
  bool_decide (state_ t = kDisConnected) || bool_decide (state_ t = kDisConnecting).

(** The direct [write] of [sendInLoop]: (nwrote, remaining, fault_error). *)
Definition write_directly (data : list byte) : M S (Z * Z * bool) :=
  t ← conn;
  a ← conn_kernel (sys_write (sockfd_ t) data);
  match a with
  | WrOk n =>
      let remaining := wrap_size (zlen data - n) in
      when ((remaining =? 0) && bool_decide (is_Some (write_complete_callback_ t)))
        (queueInLoop WriteComplete) ;;
      mret (n, remaining, false)
  | WrErr errno =>
      mret (0, zlen data,
            negb (errno =? EWOULDBLOCK) && ((errno =? EPIPE) || (errno =? ECONNRESET)))
  end.

(** What is left goes to the output buffer. *)
Definition buffer_rest (data : list byte) (nwrote remaining : Z) : M S unit :=
  t ← conn;
  let old_len := readableBytes (output_buffer_ t) in
  when ((high_water_mark_ t <=? wrap_size (old_len + remaining)) &&
        (old_len <? high_water_mark_ t) &&
        bool_decide (is_Some (high_water_mark_callback_ t)))
    (queueInLoop HighWaterMark) ;;
  t ← conn;
  b ← lift (append (output_buffer_ t) (drop (Z.to_nat nwrote) data) remaining);
  set_conn (λ t, t <| output_buffer_ := b |>) ;;
  writing ← gets channel_isWriting;
  when (negb writing) enableWriting.

Definition sendInLoop (data : list byte) : M S unit :=
  t ← conn;
  if giving_up t then mret tt
  else
    writing ← gets channel_isWriting;
    r ← (if negb writing && (readableBytes (output_buffer_ t) =? 0) then write_directly data
         else mret (0, zlen data, false));
    let '(nwrote, remaining, fault_error) := r in
    when (negb fault_error && negb (remaining =? 0)) (buffer_rest data nwrote remaining).

(** All of the file was sent. *)
Definition file_done : M S unit :=
  t ← conn;
  when (bool_decide (is_Some (write_complete_callback_ t))) (queueInLoop WriteComplete) ;;
  set_conn (λ t, t <| sending_file := false |>) ;;
  disableWriting.

(** The call of [sendfile]: (remaining, fault_error). *)
Definition try_sendfile : M S (Z * bool) :=
  t ← conn;
  r ← conn_kernel (λ k, let '(a, off, k) :=
    sys_sendfile (sockfd_ t) (fd_to_send_ t) (fd_offset_ t) (count_ t) k in ((a, off), k));
  let '(bytes_send, fd_offset) := r in
  set_conn (λ t, t <| fd_offset_ := fd_offset |>) ;;
  match bytes_send with
  | WrOk n =>
      let remaining := wrap_size (count_ t - n) in
      when (remaining =? 0) file_done ;;
      mret (remaining, false)
  | WrErr errno =>
      let fault_error := (errno =? EPIPE) || (errno =? ECONNRESET) in
      when fault_error (set_conn (λ t, t <| sending_file := false |>)) ;;
      mret (count_ t, fault_error)
  end.

(** What is left is sent when the socket is writable. *)
Definition file_rest (remaining : Z) : M S unit :=
  set_conn (λ t, t <| count_ := remaining |>) ;;
  writing ← gets channel_isWriting;
  when (negb writing) enableWriting.

Definition sendFileInLoop : M S unit :=
  t ← conn;
  if giving_up t then set_conn (λ t, t <| sending_file := false |>)
  else
    r ← (if sending_file t then try_sendfile else mret (count_ t, false));
    let '(remaining, fault_error) := r in
    when (negb (remaining =? 0) && negb fault_error) (file_rest remaining).

(** [runInLoop(f)], where [body] is what [f] does. *)
Definition runInLoop (f : ConnFunctor) (body : M S unit) : M S unit :=
  inLoop ← gets (λ s : S, loop_isInLoopThread (cs_env s));
  if (inLoop : bool) then body else queueInLoop f.

Definition shutdown : M S unit :=
  t ← conn;
  when (connected t)
    (setState kDisConnecting ;; runInLoop ShutDownInLoop shutDownInLoop).

Definition send (data : list byte) : M S unit :=
  t ← conn;
  when (connected t)
    (inLoop ← gets (λ s : S, loop_isInLoopThread (cs_env s));
     if (inLoop : bool) then sendInLoop data else runInLoop (SendInLoop data) (sendInLoop data)).

Definition sendFile (file_descriptor offset count : Z) : M S unit :=
  t ← conn;
  when (connected t)
    (set_conn (λ t, t <| sending_file := true |> <| fd_to_send_ := file_descriptor |>
                      <| fd_offset_ := offset |> <| count_ := count |>) ;;
     inLoop ← gets (λ s : S, loop_isInLoopThread (cs_env s));
     if (inLoop : bool) then sendFileInLoop else queueInLoop SendFileInLoop).

(** ** The handlers of the channel

    The application's callbacks are code that works on the connection and its
    surroundings; the message callback also gets the time. *)

Variable call : UC → M S unit.
Variable call_message : UC → Z → M S unit.

Definition callback_opt (cb : TcpConnection UC → option UC) : M S unit :=
  t ← conn; match cb t with Some c => call c | None => mret tt end.

Definition connectionEstablished : M S unit :=
  setState kConnected ;;
  in_env channel_tie ;;
  enableReading ;;
  callback_opt connection_callback_.

Definition connectionDestroyed : M S unit :=
  t ← conn;
  when (bool_decide (state_ t = kConnected) || bool_decide (state_ t = kDisConnecting))
    (setState kDisConnected ;; disableAll ;; callback_opt connection_callback_) ;;
  in_env channel_remove.

Definition handleClose : M S unit :=
  setState kDisConnected ;;
  disableAll ;;
  callback_opt connection_callback_ ;;
  callback_opt close_callback_.

Definition handleError : M S unit :=
  t ← conn;
  _ ← conn_kernel (sys_getsockopt_error (sockfd_ t));      (* the error is logged *)
  handleClose.

Definition handleRead (receive_time : Z) : M S unit :=
  t ← conn;
  r ← in_input (readFd (sockfd_ t) 0);
  let '(n, saved_err) := r in
  if 0 <? n then
    t ← conn;
    match message_callback_ t with Some c => call_message c receive_time | None => mret tt end
  else if n =? 0 then handleClose
  else handleError.

(** All of the output buffer was written. *)
Definition output_drained : M S unit :=
  disableWriting ;;
  t ← conn;
  when (bool_decide (is_Some (write_complete_callback_ t))) (queueInLoop WriteComplete).

Definition handleWrite : M S unit :=
  writing ← gets channel_isWriting;
  t ← conn;
  if (writing : bool) && negb (readableBytes (output_buffer_ t) =? 0) then
    r ← in_output (writeFd (sockfd_ t) 0);
    let '(n, saved_err) := r in
    if 0 <? n then
      set_conn (λ t, t <| output_buffer_ ::= λ b, retrieve b n |>) ;;
      t ← conn;
      when (readableBytes (output_buffer_ t) =? 0) output_drained ;;
      t ← conn;
      when (bool_decide (state_ t = kDisConnecting)) shutDownInLoop
    else mret tt                                            (* logged *)
  else if (writing : bool) && sending_file t then sendFileInLoop
  else mret tt.                                             (* logged *)

(** The bodies of the posted lambdas; calling an empty [std::function] throws. *)
Definition run_conn_functor (f : ConnFunctor) : M S unit :=
  match f with
  | ShutDownInLoop => shutDownInLoop
  | SendInLoop data => sendInLoop data
  | SendFileInLoop => sendFileInLoop
  | WriteComplete =>
      t ← conn; match write_complete_callback_ t with Some c => call c | None => throw Terminated end
  | HighWaterMark =>
      t ← conn; match high_water_mark_callback_ t with Some c => call c | None => throw Terminated end
  end.
End connection.

(** ** The invariant of a connection, and its steps *)

Section lemmas.
Context {K E UC : Type} `{!Kernel K} `{!KernelLaws K} `{!Reactor K E} `{RL : !ReactorLaws K E}.
Abbreviation S := (ConnState E UC).
Implicit Types (s : S) (t : TcpConnection UC).

Abbreviation kern s := (view (cs_env s) : K).
Abbreviation out s := (content (output_buffer_ (cs_conn s))).

(** The bytes the kernel took from this connection so far, and those followed by
    the bytes that wait in the output buffer. *)
Definition sent s : list byte := sent_on (kview_of (kern s)) (sockfd_ (cs_conn s)).
Definition stream s : list byte := sent s ++ out s.
Definition half_closed s : Prop := sockfd_ (cs_conn s) ∈ kv_shut (kview_of (kern s)).

(** The buffers are well formed, and whatever waits in the output buffer is
    waited for: write events are wanted. *)
Record conn_ok s : Prop := ConnOk {
  ck_env : reactor_ok (cs_env s);
  ck_input : buffer_wf (input_buffer_ (cs_conn s));
  ck_output : buffer_wf (output_buffer_ (cs_conn s));
  ck_writing : out s ≠ [] → channel_isWriting s = true
}.

Lemma in_env_ok {A} (m : M E A) s a e :
  m (cs_env s) = Ok (a, e) → in_env m s = Ok (a, s <| cs_env := e |>).
Proof. intros H. unfold in_env. by rewrite H. Qed.

Lemma conn_kernel_ok {A} (f : K → A * K) s a k :
  f (kern s) = (a, k) → conn_kernel f s = Ok (a, s <| cs_env ::= replace_view k |>).
Proof. intros H. unfold conn_kernel. by rewrite H. Qed.

Lemma readable_content b : buffer_wf b → (readableBytes b =? 0) = bool_decide (content b = []).
Proof.
  intros Hwf. pose proof (content_nil b Hwf) as H.
  destruct (Z.eqb_spec (readableBytes b) 0); case_bool_decide; tauto.
Qed.

(** The kernel state of the surroundings was replaced by one that differs in
    the bytes sent and the half-closed sockets at most. *)
Record rewired (e e' : E) (v : kview) : Prop := Rewired {
  rw_ok : reactor_ok e';
  rw_events : channel_events e' = channel_events e;
  rw_posted : posted e' = posted e;
  rw_thread : loop_isInLoopThread e' = loop_isInLoopThread e;
  rw_view : kview_of (view e' : K) = v
}.

Lemma rewired_kernel e k v :
  reactor_ok e → kview_of k = v → kv_interest v = kv_interest (kview_of (view e : K)) →
  kv_eventfd v = kv_eventfd (kview_of (view e : K)) → rewired e (replace_view k e) v.
Proof.
  intros Hok Hv Hi Hf. destruct (reactor_kernel e k Hok) as (H1 & H2 & H3 & H4); [congruence..|].
  split; [done..|]. by rewrite view_replace.
Qed.

(** Posting a functor. *)
Lemma queue_ok f s :
  conn_ok s → ∃ e, queueInLoop f s = Ok (tt, s <| cs_env := e |>) ∧
    conn_ok (s <| cs_env := e |>) ∧ same_wire (cs_env s) e ∧
    channel_events e = channel_events (cs_env s) ∧ posted e = posted (cs_env s) ++ [f].
Proof.
  intros [H1 H2 H3 H4]. destruct (queueInLoop_law f (cs_env s) H1) as (e & E1 & Hok & Hw & He & Hp).
  exists e. split; [by apply in_env_ok|]. split; [|done].
  split; [done..|]. unfold channel_isWriting in *. simpl. by rewrite He.
Qed.

(** Changing the wanted events; [b] is whether writes are wanted afterwards. *)
Lemma update_events_ok f b s :
  conn_ok s → isWriting (f (channel_events (cs_env s))) = b → (b = false → out s = []) →
  ∃ e, in_env (channel_update f) s = Ok (tt, s <| cs_env := e |>) ∧
    conn_ok (s <| cs_env := e |>) ∧ same_wire (cs_env s) e ∧
    channel_events e = f (channel_events (cs_env s)) ∧ posted e = posted (cs_env s).
Proof.
  intros [H1 H2 H3 H4] Hb Ho.
  destruct (channel_update_law f (cs_env s) H1) as (e & E1 & Hok & Hw & He & Hp).
  exists e. split; [by apply in_env_ok|]. split; [|done].
  split; [done..|]. unfold channel_isWriting. simpl. rewrite He, Hb.
  destruct b; [done|]. intros Hne. by specialize (Ho eq_refl).
Qed.

Lemma sent_same s s' :
  sockfd_ (cs_conn s') = sockfd_ (cs_conn s) → same_wire (cs_env s) (cs_env s') → sent s' = sent s.
Proof. intros Hf [Hs _ _]. unfold sent, sent_on. by rewrite Hf, Hs. Qed.

Lemma same_wire_refl e : same_wire e e.
Proof. by split. Qed.
Lemma same_wire_trans e1 e2 e3 : same_wire e1 e2 → same_wire e2 e3 → same_wire e1 e3.
Proof. intros [A1 A2 A3] [B1 B2 B3]. split; congruence. Qed.

(** ** Sending *)

(** What the kernel's answer to a [write] of [data] means to [sendInLoop]: the
    bytes taken, and whether the connection is broken. *)
Definition taken (a : write_answer) : Z := match a with WrOk n => n | WrErr _ => 0 end.
Definition broken (a : write_answer) : bool :=
  match a with WrOk _ => false | WrErr e => (e =? EPIPE) || (e =? ECONNRESET) end.
Definition took_all (data : list byte) (a : write_answer) : bool :=
  match a with WrOk n => n =? zlen data | WrErr _ => false end.

Definition post_if (b : bool) (cb : option UC) (f : ConnFunctor) : list ConnFunctor :=
  if b && bool_decide (is_Some cb) then [f] else [].

Lemma when_queue_ok b cb f s :
  conn_ok s → ∃ e, when (b && bool_decide (is_Some cb)) (queueInLoop f) s = Ok (tt, s <| cs_env := e |>) ∧
    conn_ok (s <| cs_env := e |>) ∧ same_wire (cs_env s) e ∧
    channel_events e = channel_events (cs_env s) ∧ posted e = posted (cs_env s) ++ post_if b cb f.
Proof.
  intros Hok. unfold post_if, when. destruct (b && _).
  - by apply queue_ok.
  - exists (cs_env s). destruct s as [t e]. rewrite app_nil_r.
    split; [done|]. split; [done|]. split; [apply same_wire_refl|done].
Qed.

Lemma write_answer_bounds fd data k a k' :
  sys_write fd data k = (a, k') → 0 ≤ taken a ≤ zlen data ∧ kview_of k' =
    match a with WrOk n => kv_send fd (take (Z.to_nat n) data) (kview_of k) | _ => kview_of k end.
Proof.
  intros E1%write_law. destruct a; simpl; [done|]. split; [|tauto].
  pose proof (zlen_nonneg data). lia.
Qed.

Lemma sent_on_send fd bs v : sent_on (kv_send fd bs v) fd = sent_on v fd ++ bs.
Proof. unfold sent_on at 1, kv_send. simpl. by rewrite lookup_insert_eq. Qed.

Lemma sent_on_other fd fd' bs v : fd' ≠ fd → sent_on (kv_send fd bs v) fd' = sent_on v fd'.
Proof. intros Hn. unfold sent_on, kv_send. simpl. by rewrite lookup_insert_ne. Qed.

(** The kernel changed, but for the interest lists and the eventfds. *)
Lemma kernel_view_ok s k :
  conn_ok s → kv_interest (kview_of k) = kv_interest (kview_of (kern s)) →
  kv_eventfd (kview_of k) = kv_eventfd (kview_of (kern s)) →
  let s' := s <| cs_env ::= replace_view k |> in
  conn_ok s' ∧ channel_events (cs_env s') = channel_events (cs_env s) ∧
  posted (cs_env s') = posted (cs_env s) ∧
  loop_isInLoopThread (cs_env s') = loop_isInLoopThread (cs_env s) ∧ kern s' = k.
Proof.
  intros [H1 H2 H3 H4] Hi Hf s'.
  destruct (reactor_kernel (cs_env s) k H1 Hi Hf) as (R1 & R2 & R3 & R4).
  change (replace_view k (cs_env s)) with (cs_env s') in *.
  split; [split; [done..|unfold channel_isWriting in *; by rewrite R2]|].
  split; [done|]. split; [done|]. split; [done|]. apply view_replace.
Qed.

(** What the other sockets sent. *)
Definition apart s s' : Prop := ∀ fd, fd ≠ sockfd_ (cs_conn s) →
  sent_on (kview_of (kern s')) fd = sent_on (kview_of (kern s)) fd.

Lemma apart_kept s s' : kv_sent (kview_of (kern s')) = kv_sent (kview_of (kern s)) → apart s s'.
Proof. intros Hk fd _. unfold sent_on. by rewrite Hk. Qed.
Lemma sent_kept s s' : kv_sent (kview_of (kern s')) = kv_sent (kview_of (kern s)) →
  sockfd_ (cs_conn s') = sockfd_ (cs_conn s) → sent s' = sent s.
Proof. intros Hk Hf. unfold sent, sent_on. by rewrite Hk, Hf. Qed.

(** What the steps of sending share: the state around the connection. *)
Record steady s s' : Prop := Steady {
  st_apart : apart s s';
  st_reading : isReading (channel_events (cs_env s')) = isReading (channel_events (cs_env s));
  st_shut : kv_shut (kview_of (kern s')) = kv_shut (kview_of (kern s));
  st_thread : loop_isInLoopThread (cs_env s') = loop_isInLoopThread (cs_env s);
  st_conn : cs_conn s' = (cs_conn s) <| output_buffer_ := output_buffer_ (cs_conn s') |>
}.

Lemma steady_trans s1 s2 s3 : steady s1 s2 → steady s2 s3 → steady s1 s3.
Proof.
  intros [A0 A1 A2 A3 A4] [B0 B1 B2 B3 B4]. split; [|congruence..|].
  - intros fd Hfd. rewrite B0, A0; [done..|]. by rewrite A4.
  - rewrite B4, A4. by destruct (cs_conn s1).
Qed.

Lemma steady_env s e :
  same_wire (cs_env s) e → isReading (channel_events e) = isReading (channel_events (cs_env s)) →
  steady s (s <| cs_env := e |>).
Proof. intros [H1 H2 H3] Hr. split; [by apply apart_kept|done..|]. by destruct s as [[] ?]. Qed.

Lemma write_step s data a k :
  conn_ok s → sys_write (sockfd_ (cs_conn s)) data (kern s) = (a, k) →
  let s' := s <| cs_env ::= replace_view k |> in
  conn_ok s' ∧ sent s' = sent s ++ take (Z.to_nat (taken a)) data ∧ steady s s' ∧
  channel_events (cs_env s') = channel_events (cs_env s) ∧
  posted (cs_env s') = posted (cs_env s) ∧ 0 ≤ taken a ≤ zlen data.
Proof.
  intros Hok Ewr. destruct (write_answer_bounds _ _ _ _ _ Ewr) as [Hb Hv].
  intros s'. destruct (kernel_view_ok s k Hok) as (H1 & H2 & H3 & H4 & H5);
    [rewrite Hv; by destruct a..|]. fold s' in H1, H2, H3, H4, H5.
  split; [done|]. split; [|split; [split|split; [done|by split]]].
  - unfold sent. rewrite H5, Hv. destruct a; [apply sent_on_send|]. by rewrite app_nil_r.
  - intros fd Hfd. rewrite H5, Hv. destruct a; [by apply sent_on_other|done].
  - by rewrite H2.
  - rewrite H5, Hv. by destruct a.
  - done.
  - by destruct s as [[] ?].
Qed.

(** What goes to the output buffer after the answer [a], and whether it takes the
    buffer from below the high water mark to it or beyond. *)
Definition rest (data : list byte) (a : write_answer) : list byte :=
  if broken a then [] else drop (Z.to_nat (taken a)) data.
Definition crosses_mark s (more : list byte) : bool :=
  (high_water_mark_ (cs_conn s) <=? zlen (out s) + zlen more) &&
  (zlen (out s) <? high_water_mark_ (cs_conn s)).

Lemma room_no_wrap b len : buffer_wf b → room_for b len → wrap_size (zlen (content b) + len) = zlen (content b) + len.
Proof.
  intros Hwf [H1 H2]. rewrite content_zlen, readableBytes_wf by done. buffer_facts Hwf.
  apply wrap_size_small. lia.
Qed.

Lemma buffer_rest_ok data n s :
  conn_ok s → 0 ≤ n < zlen data → room_for (output_buffer_ (cs_conn s)) (zlen data - n) →
  let more := drop (Z.to_nat n) data in
  ∃ s', buffer_rest data n (zlen data - n) s = Ok (tt, s') ∧ conn_ok s' ∧ steady s s' ∧
    sent s' = sent s ∧ out s' = out s ++ more ∧ channel_isWriting s' = true ∧
    posted (cs_env s') = posted (cs_env s) ++
      post_if (crosses_mark s more) (high_water_mark_callback_ (cs_conn s)) HighWaterMark ∧
    zlen (buffer_ (output_buffer_ (cs_conn s'))) ≤ zlen (buffer_ (output_buffer_ (cs_conn s))) + (zlen data - n).
Proof.
  intros Hok Hn Hroom more. assert (Hwf := ck_output _ Hok).
  assert (zlen more = zlen data - n) as Hmore by (unfold more; rewrite zlen_drop; lia).
  destruct (when_queue_ok (crosses_mark s more) (high_water_mark_callback_ (cs_conn s)) HighWaterMark s Hok)
    as (e1 & E1 & Hok1 & Hw1 & He1 & Hp1).
  destruct (append_ok (output_buffer_ (cs_conn s)) more (zlen data - n) Hwf Hroom) as (b & Eb & Hwfb & Hcb & Hzb);
    [lia|]. rewrite take_ge in Hcb by (unfold zlen in *; lia).
  set (s2 := s <| cs_env := e1 |> <| cs_conn ::= λ t, t <| output_buffer_ := b |> |>).
  assert (out s2 = out s ++ more) as Ho2 by exact Hcb.
  assert (∃ s', (writing ← gets channel_isWriting; when (negb writing) enableWriting) s2 = Ok (tt, s') ∧
    conn_ok s' ∧ steady s2 s' ∧ sent s' = sent s2 ∧ out s' = out s2 ∧ channel_isWriting s' = true ∧
    posted (cs_env s') = posted (cs_env s2) ∧ cs_conn s' = cs_conn s2) as (s' & E2 & H2).
  { unfold gets. mcbn. destruct (channel_isWriting s2) eqn:Ew.
    - exists s2. split; [done|]. split; [|split; [split; [done..|by destruct s2 as [[] ?]]|done]].
      split; [apply Hok1|apply Hok|done|done].
    - destruct (channel_update_law enable_writing e1 (ck_env _ Hok1)) as (e2 & E2 & Hok2 & Hw2 & He2 & Hp2).
      exists (s2 <| cs_env := e2 |>). split; [by apply (in_env_ok _ s2)|].
      assert (channel_isWriting (s2 <| cs_env := e2 |>) = true) as Hwr.
      { unfold channel_isWriting. simpl. rewrite He2. apply isWriting_enable. }
      split; [split; [done|apply Hok|done|done]|]. split; [apply steady_env; [done|]|].
      { rewrite He2. by autorewrite with events. }
      split; [by apply sent_same|]. done. }
  destruct H2 as (Hok' & Hst & Hs' & Ho' & Hwr' & Hp' & Hc'). exists s'. split; [|split; [done|split; [|split; [|split; [|split; [done|split]]]]]].
  - unfold buffer_rest, conn, gets. mcbn.
    assert (((high_water_mark_ (cs_conn s) <=? wrap_size (readableBytes (output_buffer_ (cs_conn s)) + (zlen data - n))) &&
       (readableBytes (output_buffer_ (cs_conn s)) <? high_water_mark_ (cs_conn s))) = crosses_mark s more) as ->.
    { unfold crosses_mark. rewrite <- content_zlen, room_no_wrap, Hmore by done. done. }
    rewrite E1. mcbn. fold more. unfold lift. simpl output_buffer_. rewrite Eb. mcbn. exact E2.
  - apply (steady_trans s s2); [|done]. split; [by apply apart_kept, Hw1|by simpl; rewrite He1|by apply Hw1|by apply Hw1|done].
  - rewrite Hs'. by apply sent_same.
  - by rewrite Ho'.
  - by rewrite Hp'.
  - rewrite Hc'. simpl. rewrite Hzb. buffer_facts Hwf. destruct (needs_growth _ _); lia.
Qed.

(** ** sendInLoop *)

(** The answer of the kernel [sendInLoop] acts on: it writes directly unless
    data waits already. *)
Definition direct_answer data s : write_answer :=
  if channel_isWriting s then WrErr EAGAIN
  else (sys_write (sockfd_ (cs_conn s)) data (kern s)).1.

(** [s'] is [s] after [data] was given to [sendInLoop]. *)
Record sent_in_loop data s s' : Prop := SentInLoop {
  sl_ok : conn_ok s';
  sl_steady : steady s s';
  sl_sent : sent s' = sent s ++ take (Z.to_nat (taken (direct_answer data s))) data;
  sl_out : out s' = out s ++ rest data (direct_answer data s);
  sl_writing : channel_isWriting s' =
    channel_isWriting s || negb (bool_decide (rest data (direct_answer data s) = []));
  sl_posted : posted (cs_env s') = posted (cs_env s) ++
    post_if (negb (channel_isWriting s) && took_all data (direct_answer data s))
            (write_complete_callback_ (cs_conn s)) WriteComplete ++
    post_if (negb (bool_decide (rest data (direct_answer data s) = [])) &&
             crosses_mark s (rest data (direct_answer data s)))
            (high_water_mark_callback_ (cs_conn s)) HighWaterMark;
  sl_size : zlen (buffer_ (output_buffer_ (cs_conn s'))) ≤
    zlen (buffer_ (output_buffer_ (cs_conn s))) + zlen data
}.

Lemma post_if_false cb f : post_if false cb f = [].
Proof. done. Qed.

(** The last part of [sendInLoop], after [n] bytes were taken. *)
Lemma finish_send data n fault s :
  conn_ok s → 0 ≤ n ≤ zlen data → room_for (output_buffer_ (cs_conn s)) (zlen data) →
  let more := if fault : bool then [] else drop (Z.to_nat n) data in
  ∃ s', when (negb fault && negb (zlen data - n =? 0)) (buffer_rest data n (zlen data - n)) s = Ok (tt, s') ∧
    conn_ok s' ∧ steady s s' ∧ sent s' = sent s ∧ out s' = out s ++ more ∧
    channel_isWriting s' = channel_isWriting s || negb (bool_decide (more = [])) ∧
    posted (cs_env s') = posted (cs_env s) ++
      post_if (negb (bool_decide (more = [])) && crosses_mark s more)
        (high_water_mark_callback_ (cs_conn s)) HighWaterMark ∧
    zlen (buffer_ (output_buffer_ (cs_conn s'))) ≤ zlen (buffer_ (output_buffer_ (cs_conn s))) + zlen data.
Proof.
  intros Hok Hn Hroom more. pose proof (zlen_nonneg data).
  assert (more = [] → ∃ s', Ok (tt, s) = Ok (tt, s') ∧ conn_ok s' ∧ steady s s' ∧
    sent s' = sent s ∧ out s' = out s ++ more ∧
    channel_isWriting s' = channel_isWriting s || negb (bool_decide (more = [])) ∧
    posted (cs_env s') = posted (cs_env s) ++
      post_if (negb (bool_decide (more = [])) && crosses_mark s more)
        (high_water_mark_callback_ (cs_conn s)) HighWaterMark ∧
    zlen (buffer_ (output_buffer_ (cs_conn s'))) ≤ zlen (buffer_ (output_buffer_ (cs_conn s))) + zlen data) as Hnone.
  { intros ->. exists s. rewrite bool_decide_true, orb_false_r, !app_nil_r by done.
    split; [done|]. split; [done|]. split; [by split; [..|by destruct s as [[] ?]]|].
    do 4 (split; [done|]). lia. }
  destruct fault; [by apply Hnone|]. simpl andb.
  destruct (Z.eqb_spec (zlen data - n) 0) as [Hz|Hz]; simpl when.
  { apply Hnone. apply zlen_zero_inv. unfold more. rewrite zlen_drop. lia. }
  assert (more ≠ []) as Hne.
  { intros Hm. apply Hz. assert (zlen more = 0) as Hl by by rewrite Hm. unfold more in Hl.
    rewrite zlen_drop in Hl. lia. }
  destruct (buffer_rest_ok data n s Hok) as (s' & E1 & Hok' & Hst & Hs & Ho & Hw & Hp & Hsz).
  { lia. } { destruct Hroom. split; lia. }
  exists s'. rewrite (bool_decide_false (more = [])) by done. simpl negb. rewrite orb_true_r.
  do 7 (split; [done|]). lia.
Qed.

Lemma write_directly_ok data s a k :
  conn_ok s → room_for (output_buffer_ (cs_conn s)) (zlen data) →
  sys_write (sockfd_ (cs_conn s)) data (kern s) = (a, k) →
  ∃ s2, write_directly data s = Ok ((taken a, zlen data - taken a, broken a), s2) ∧
    cs_conn s2 = cs_conn s ∧ conn_ok s2 ∧ sent s2 = sent s ++ take (Z.to_nat (taken a)) data ∧ steady s s2 ∧
    channel_isWriting s2 = channel_isWriting s ∧
    posted (cs_env s2) = posted (cs_env s) ++
      post_if (took_all data a) (write_complete_callback_ (cs_conn s)) WriteComplete ∧
    0 ≤ taken a ≤ zlen data.
Proof.
  intros Hok Hroom Ewr. pose proof (zlen_nonneg data).
  destruct (write_step s data a k Hok Ewr) as (Hok1 & Hs1 & Hst1 & He1 & Hp1 & Hb1).
  set (s1 := s <| cs_env ::= replace_view k |>) in *.
  destruct (when_queue_ok (took_all data a) (write_complete_callback_ (cs_conn s)) WriteComplete s1 Hok1)
    as (e2 & E2 & Hok2 & Hw2 & He2 & Hp2).
  set (s2 := s1 <| cs_env := e2 |>) in *.
  assert (steady s1 s2) as Hst2 by (apply steady_env; [done|by rewrite He2]).
  exists s2. split; [|split; [done|split; [done|split; [|split; [by apply (steady_trans _ _ _ Hst1)|]]]]].
  - unfold write_directly, conn, gets. mcbn.
    rewrite (conn_kernel_ok (sys_write (sockfd_ (cs_conn s)) data) s a k Ewr). mcbn.
    pose proof (wf_size _ (ck_output _ Hok)). pose proof vector_max_lt.
    destruct Hroom as [_ Hroom]. pose proof (zlen_nonneg (buffer_ (output_buffer_ (cs_conn s)))).
    destruct a as [n|e]; simpl taken in *; simpl broken.
    + rewrite wrap_size_small by lia.
      replace (zlen data - n =? 0) with (n =? zlen data)
        by (destruct (Z.eqb_spec n (zlen data)), (Z.eqb_spec (zlen data - n) 0); lia || done).
      change (n =? zlen data) with (took_all data (WrOk n)).
      simpl write_complete_callback_ in E2. fold s1. rewrite E2. done.
    + simpl in E2. injection E2 as E2. unfold s2. rewrite <- E2.
      replace (zlen data - 0) with (zlen data) by lia.
      unfold s1. simpl. do 3 f_equal. unfold EWOULDBLOCK, EAGAIN, EPIPE, ECONNRESET.
      destruct (Z.eqb_spec e 32), (Z.eqb_spec e 104), (Z.eqb_spec e 11); lia || done.
  - rewrite <- Hs1. by apply sent_same.
  - split; [unfold channel_isWriting; simpl; by rewrite He2, He1|]. split; [|done].
    change (posted (cs_env s2)) with (posted e2). by rewrite Hp2, Hp1.
Qed.

Lemma sendInLoop_ok data s :
  conn_ok s → giving_up (cs_conn s) = false → room_for (output_buffer_ (cs_conn s)) (zlen data) →
  ∃ s', sendInLoop data s = Ok (tt, s') ∧ sent_in_loop data s s'.
Proof.
  intros Hok Hg Hroom. pose proof (zlen_nonneg data).
  unfold sendInLoop, conn, gets. mcbn. rewrite Hg.
  rewrite readable_content by apply Hok.
  destruct (channel_isWriting s) eqn:Ew.
  - (* data waits already *)
    simpl andb. cbv iota. mcbn. replace (zlen data) with (zlen data - 0) by lia.
    destruct (finish_send data 0 false s Hok) as (s' & E1 & Hok' & Hst & Hs & Ho & Hw & Hp & Hsz); [lia|done|].
    exists s'. replace (zlen data - 0) with (zlen data) in * by lia. split; [exact E1|].
    assert (direct_answer data s = WrErr EAGAIN) as Ed by (unfold direct_answer; by rewrite Ew).
    assert (rest data (direct_answer data s) = data) as Er by by rewrite Ed.
    split; rewrite ?Er; [done|done| |done|by rewrite Hw, Ew| |done].
    + rewrite Ed. simpl. by rewrite app_nil_r.
    + rewrite Hp, Ew. done.
  - (* a direct write *)
    assert (out s = []) as Hout.
    { destruct (decide (out s = [])) as [|Hne]; [done|]. by rewrite (ck_writing _ Hok Hne) in Ew. }
    rewrite Hout. rewrite bool_decide_true by done.
    change (negb false && true) with true. cbv iota.
    destruct (sys_write (sockfd_ (cs_conn s)) data (kern s)) as [a k] eqn:Ewr.
    assert (direct_answer data s = a) as Ed by (unfold direct_answer; by rewrite Ew, Ewr).
    destruct (write_directly_ok data s a k Hok Hroom Ewr) as (s2 & E3 & Hc2 & Hok2 & Hs1 & Hst2 & Hw2 & Hp2 & Hb1).
    rewrite E3. mcbn.
    destruct (finish_send data (taken a) (broken a) s2 Hok2) as (s' & E4 & Hok' & Hst & Hs & Ho & Hw & Hp & Hsz);
      [done|by rewrite Hc2|].
    exists s'. split; [exact E4|]. fold (rest data a) in Ho, Hw, Hp.
    split; rewrite ?Ed, ?Ew.
    + done.
    + exact (steady_trans _ _ _ Hst2 Hst).
    + by rewrite Hs, Hs1.
    + rewrite Ho. unfold out. by rewrite Hc2.
    + by rewrite Hw, Hw2, Ew.
    + rewrite Hp, Hp2, <- app_assoc. unfold crosses_mark, out. by rewrite Hc2.
    + by rewrite Hc2 in Hsz.
Qed.

(** ** Half-closing *)

(** [shutdown(fd, SHUT_WR)] was called. *)
Definition shut_called s s' : Prop :=
  ∃ k r k', sys_shutdown (sockfd_ (cs_conn s)) k = (r, k') ∧
    kv_shut (kview_of (kern s')) =
      if r =? 0 then {[sockfd_ (cs_conn s)]} ∪ kv_shut (kview_of (kern s))
      else kv_shut (kview_of (kern s)).

Lemma shutDownWrite_ok s :
  conn_ok s → ∃ s', shutDownWrite s = Ok (tt, s') ∧ conn_ok s' ∧ cs_conn s' = cs_conn s ∧
    kv_sent (kview_of (kern s')) = kv_sent (kview_of (kern s)) ∧
    channel_events (cs_env s') = channel_events (cs_env s) ∧
    posted (cs_env s') = posted (cs_env s) ∧
    loop_isInLoopThread (cs_env s') = loop_isInLoopThread (cs_env s) ∧ shut_called s s'.
Proof.
  intros Hok. destruct (sys_shutdown (sockfd_ (cs_conn s)) (kern s)) as [r k] eqn:Es.
  pose proof (shutdown_law _ _ _ _ Es) as Hv.
  destruct (kernel_view_ok s k Hok) as (H1 & H2 & H3 & H4 & H5); [rewrite Hv; by destruct (r =? 0)..|].
  eexists. split.
  { unfold shutDownWrite, conn, gets. mcbn. by rewrite (conn_kernel_ok _ s r k Es). }
  split; [done|]. split; [done|]. split; [|split; [done|split; [done|split; [done|]]]].
  - rewrite H5, Hv. by destruct (r =? 0).
  - exists (kern s), r, k. split; [done|]. rewrite H5, Hv. by destruct (r =? 0).
Qed.

Lemma shutDownInLoop_ok s :
  conn_ok s → ∃ s', shutDownInLoop s = Ok (tt, s') ∧ conn_ok s' ∧ cs_conn s' = cs_conn s ∧
    kv_sent (kview_of (kern s')) = kv_sent (kview_of (kern s)) ∧
    channel_events (cs_env s') = channel_events (cs_env s) ∧
    posted (cs_env s') = posted (cs_env s) ∧
    loop_isInLoopThread (cs_env s') = loop_isInLoopThread (cs_env s) ∧
    if channel_isWriting s then kv_shut (kview_of (kern s')) = kv_shut (kview_of (kern s))
    else shut_called s s'.
Proof.
  intros Hok. unfold shutDownInLoop, gets. mcbn.
  destruct (channel_isWriting s); simpl when; [by exists s|]. by apply shutDownWrite_ok.
Qed.

(** Whatever the state of the connection, only the kernel changes. *)
Lemma shutDownInLoop_any s :
  reactor_ok (cs_env s) → ∃ e, shutDownInLoop s = Ok (tt, s <| cs_env := e |>) ∧ reactor_ok e ∧
    channel_events e = channel_events (cs_env s) ∧ posted e = posted (cs_env s) ∧
    kv_sent (kview_of (view e : K)) = kv_sent (kview_of (kern s)).
Proof.
  intros Hok. unfold shutDownInLoop, gets. mcbn. destruct (channel_isWriting s); simpl when.
  { exists (cs_env s). by destruct s. }
  destruct (sys_shutdown (sockfd_ (cs_conn s)) (kern s)) as [r k] eqn:Es.
  assert (Hv := shutdown_law _ _ _ _ Es).
  destruct (reactor_kernel (cs_env s) k Hok) as (H1 & H2 & H3 & _); [rewrite Hv; by destruct (r =? 0)..|].
  exists (replace_view k (cs_env s)). split.
  { unfold shutDownWrite, conn, gets. mcbn. by rewrite (conn_kernel_ok _ s r k Es). }
  do 3 (split; [done|]). rewrite view_replace, Hv. by destruct (r =? 0).
Qed.

(** ** handleWrite *)

(** [s'] is [s] after the socket became writable, when the kernel answered [a] to
    a write of what waits. *)
Record wrote (a : write_answer) s s' : Prop := Wrote {
  wr_ok : conn_ok s';
  wr_apart : apart s s';
  wr_conn : cs_conn s' = (cs_conn s) <| output_buffer_ := output_buffer_ (cs_conn s') |>;
  wr_sent : sent s' = sent s ++ take (Z.to_nat (taken a)) (out s);
  wr_out : out s' = drop (Z.to_nat (taken a)) (out s);
  wr_reading : isReading (channel_events (cs_env s')) = isReading (channel_events (cs_env s));
  wr_thread : loop_isInLoopThread (cs_env s') = loop_isInLoopThread (cs_env s);
  wr_writing : channel_isWriting s' = negb (took_all (out s) a);
  wr_posted : posted (cs_env s') = posted (cs_env s) ++
    post_if (took_all (out s) a) (write_complete_callback_ (cs_conn s)) WriteComplete;
  wr_shut : if took_all (out s) a && bool_decide (state_ (cs_conn s) = kDisConnecting)
            then shut_called s s' else kv_shut (kview_of (kern s')) = kv_shut (kview_of (kern s));
  wr_size : zlen (buffer_ (output_buffer_ (cs_conn s'))) = zlen (buffer_ (output_buffer_ (cs_conn s)))
}.

Lemma retrieve_buffer b n : buffer_ (retrieve b n) = buffer_ b.
Proof. unfold retrieve. by destruct (_ <? _). Qed.

(** When the output buffer is empty ([b]), writes are not wanted any more, and the
    application is told. *)
Lemma output_drained_ok s b :
  conn_ok s → channel_isWriting s = true → bool_decide (out s = []) = b →
  ∃ s', when b output_drained s = Ok (tt, s') ∧ conn_ok s' ∧ cs_conn s' = cs_conn s ∧
    same_wire (cs_env s) (cs_env s') ∧
    isReading (channel_events (cs_env s')) = isReading (channel_events (cs_env s)) ∧
    channel_isWriting s' = negb b ∧
    posted (cs_env s') = posted (cs_env s) ++
      post_if b (write_complete_callback_ (cs_conn s)) WriteComplete.
Proof.
  intros Hok Hw Hb. destruct b; simpl when.
  - destruct (update_events_ok disable_writing false s Hok) as (e3 & E3 & Hok3 & Hsw & He3 & Hp3).
    { apply isWriting_disable. } { intros _. by apply bool_decide_eq_true in Hb. }
    destruct (when_queue_ok true (write_complete_callback_ (cs_conn s)) WriteComplete _ Hok3)
      as (e4 & E4 & Hok4 & Hsw4 & He4 & Hp4).
    exists (s <| cs_env := e3 |> <| cs_env := e4 |>). split.
    { unfold output_drained, disableWriting, conn, gets. mcbn. rewrite E3. mcbn. exact E4. }
    simpl in *. split; [done|]. split; [done|]. split; [by eapply same_wire_trans|].
    split; [by rewrite He4, He3, isReading_disable_writing|].
    split; [unfold channel_isWriting; simpl; by rewrite He4, He3, isWriting_disable|].
    by rewrite Hp4, Hp3.
  - exists s. rewrite app_nil_r. split; [done|]. split; [done|]. split; [done|].
    split; [apply same_wire_refl|]. done.
Qed.

Lemma handleWrite_start s a k :
  conn_ok s → channel_isWriting s = true → out s ≠ [] →
  sys_write (sockfd_ (cs_conn s)) (out s) (kern s) = (a, k) →
  handleWrite s =
    (if 0 <? taken a then
       set_conn (λ t, t <| output_buffer_ ::= λ b, retrieve b (taken a) |>) ;;
       t ← conn;
       when (readableBytes (output_buffer_ t) =? 0) output_drained ;;
       t ← conn;
       when (bool_decide (state_ t = kDisConnecting)) shutDownInLoop
     else mret tt) (s <| cs_env ::= replace_view k |>).
Proof.
  intros Hok Hw Ho Ewr. unfold handleWrite, conn, gets. mcbn. rewrite Hw.
  rewrite readable_content by apply Hok. rewrite (bool_decide_false (out s = [])) by done.
  change (true && negb false) with true. cbv iota.
  assert (in_output (writeFd (sockfd_ (cs_conn s)) 0) s =
    Ok ((if a is WrOk n then n else -1, if a is WrErr e then e else 0),
        s <| cs_env ::= replace_view k |>)) as E1.
  { unfold in_output. rewrite writeFd_ok by apply Hok. rewrite Ewr. by destruct a, s as [[] ?]. }
  cbv beta. rewrite E1. mcbn. destruct a as [n|e]; simpl taken; [done|].
  change (0 <? -1) with false. by change (0 <? 0) with false.
Qed.

(** Nothing was taken of the output, or some of it was. *)
Lemma wrote_nothing s a k :
  conn_ok s → channel_isWriting s = true → out s ≠ [] →
  sys_write (sockfd_ (cs_conn s)) (out s) (kern s) = (a, k) → taken a ≤ 0 →
  wrote a s (s <| cs_env ::= replace_view k |>).
Proof.
  intros Hok Hwr Hne Ewr Hn. assert (0 < zlen (out s)) by (destruct (out s); [done|unfold zlen; simpl; lia]).
  destruct (write_step s (out s) a k Hok Ewr) as (Hok1 & Hs1 & Hst1 & He1 & Hp1 & Hb1).
  assert (taken a = 0) as E0 by lia. assert (took_all (out s) a = false) as Et.
  { destruct a as [n|e]; [|done]. apply Z.eqb_neq. simpl in E0. lia. }
  rewrite E0 in Hs1.
  split; rewrite ?E0, ?Et; try done; [apply Hst1|by destruct s as [[] ?]|apply Hst1|apply Hst1| | |apply Hst1].
  - unfold channel_isWriting. by rewrite He1.
  - by rewrite Hp1, app_nil_r.
Qed.

Lemma retrieve_taken s a k :
  conn_ok s → channel_isWriting s = true → sys_write (sockfd_ (cs_conn s)) (out s) (kern s) = (a, k) → 0 < taken a →
  let s2 := s <| cs_env ::= replace_view k |> <| cs_conn ::= λ t, t <| output_buffer_ ::= λ b, retrieve b (taken a) |> |> in
  conn_ok s2 ∧ channel_isWriting s2 = true ∧ bool_decide (out s2 = []) = took_all (out s) a ∧
  out s2 = drop (Z.to_nat (taken a)) (out s).
Proof.
  intros Hok Hwr Ewr Hn s2.
  destruct (write_step s (out s) a k Hok Ewr) as (Hok1 & Hs1 & Hst1 & He1 & Hp1 & Hb1).
  destruct (retrieve_ok (output_buffer_ (cs_conn s)) (taken a) (ck_output _ Hok)) as [Hwf Hc]; [lia|].
  assert (channel_isWriting s2 = true) as Hw2 by (unfold channel_isWriting; simpl in *; by rewrite He1).
  assert (out s2 = drop (Z.to_nat (taken a)) (out s)) as Ho2 by exact Hc.
  split; [split; [apply Hok1|apply Hok|exact Hwf|done]|]. split; [done|]. split; [|done].
  assert (took_all (out s) a = (taken a =? zlen (out s))) as ->.
  { destruct a; [done|]. simpl in *. lia. }
  apply eq_bool_prop_intro. rewrite bool_decide_spec, Ho2, Is_true_true, Z.eqb_eq. unfold zlen in *. split.
  - intros Hd. apply (f_equal length) in Hd. rewrite length_drop in Hd. simpl in Hd. lia.
  - intros ->. apply drop_ge. lia.
Qed.

Lemma handleWrite_ok s :
  conn_ok s → channel_isWriting s = true → out s ≠ [] →
  ∃ s', handleWrite s = Ok (tt, s') ∧ wrote (sys_write (sockfd_ (cs_conn s)) (out s) (kern s)).1 s s'.
Proof.
  intros Hok Hwr Hne. destruct (sys_write _ (out s) (kern s)) as [a k] eqn:Ewr. simpl fst.
  rewrite (handleWrite_start s a k Hok Hwr Hne Ewr).
  destruct (write_step s (out s) a k Hok Ewr) as (Hok1 & Hs1 & Hst1 & He1 & Hp1 & Hb1).
  set (s1 := s <| cs_env ::= replace_view k |>) in *.
  destruct (Z.ltb_spec 0 (taken a)) as [Hn|Hn].
  2: { exists s1. split; [done|]. by apply wrote_nothing. }
  destruct (retrieve_taken s a k Hok Hwr Ewr Hn) as (Hok2 & Hw1 & Edr & Ho2).
  fold s1 in Hok2, Hw1, Edr, Ho2.
  set (s2 := s1 <| cs_conn ::= λ t, t <| output_buffer_ ::= λ b, retrieve b (taken a) |> |>) in *.
  destruct (output_drained_ok s2 _ Hok2 Hw1 Edr) as (s3 & E3 & Hok3 & Hc3 & Hsw3 & Hr3 & Hwr3 & Hp3).
  unfold set_conn, conn, gets, modify. mcbn. fold s2.
  rewrite readable_content by apply Hok2. rewrite Edr.
  rewrite E3. rewrite Hc3. change (state_ (cs_conn s2)) with (state_ (cs_conn s)).
  change (posted (cs_env s2)) with (posted (cs_env s1)) in Hp3. rewrite Hp1 in Hp3.
  assert (sent s3 = sent s ++ take (Z.to_nat (taken a)) (out s)) as Hs3.
  { rewrite <- Hs1. apply sent_same; [by rewrite Hc3|exact Hsw3]. }
  assert (apart s s3) as Hap3.
  { intros fd Hfd. etrans; [apply (apart_kept s2 s3); [apply Hsw3|done]|]. by apply (st_apart _ _ Hst1). }
  assert (kv_shut (kview_of (kern s3)) = kv_shut (kview_of (kern s))) as Hsh3.
  { rewrite (sw_shut _ _ Hsw3). apply (st_shut _ _ Hst1). }
  assert (loop_isInLoopThread (cs_env s3) = loop_isInLoopThread (cs_env s)) as Ht3.
  { rewrite (sw_thread _ _ Hsw3). apply (st_thread _ _ Hst1). }
  assert (isReading (channel_events (cs_env s3)) = isReading (channel_events (cs_env s))) as Hrd3.
  { rewrite Hr3. apply (st_reading _ _ Hst1). }
  assert (∀ s', cs_conn s' = cs_conn s3 → cs_conn s' = (cs_conn s) <| output_buffer_ := output_buffer_ (cs_conn s') |>) as Hcc.
  { intros s' Hs'. rewrite Hs', Hc3. by destruct s as [[] ?]. }
  assert (zlen (buffer_ (output_buffer_ (cs_conn s3))) = zlen (buffer_ (output_buffer_ (cs_conn s)))) as Hz.
  { rewrite Hc3. simpl. by rewrite retrieve_buffer. }
  destruct (bool_decide (state_ (cs_conn s) = kDisConnecting)) eqn:Edis; simpl when.
  - destruct (shutDownInLoop_ok s3 Hok3) as (s4 & E4 & Hok4 & Hc4 & Hs4 & He4 & Hp4 & Ht4 & Hsh4).
    exists s4. split; [exact E4|]. split.
    + done.
    + intros fd Hfd. rewrite <- Hap3 by done. apply (apart_kept s3 s4 Hs4). by rewrite Hc3.
    + by apply Hcc.
    + rewrite <- Hs3. apply sent_kept; [exact Hs4|by rewrite Hc4].
    + by rewrite Hc4, Hc3.
    + by rewrite He4.
    + by rewrite Ht4.
    + unfold channel_isWriting in *. by rewrite He4.
    + by rewrite Hp4.
    + rewrite Edis, andb_true_r. rewrite Hwr3 in Hsh4. destruct (took_all (out s) a); [|by rewrite Hsh4].
      change (shut_called s3 s4) in Hsh4. destruct Hsh4 as (k0 & r & k' & Hr & Hv).
      rewrite Hc3 in Hr, Hv. rewrite Hsh3 in Hv.
      change (shut_called s s4). by exists k0, r, k'.
    + by rewrite Hc4.
  - exists s3. split; [done|]. split; [done|done|by apply Hcc|done|by rewrite Hc3|done|done|done|done| |done].
    by rewrite Edis, andb_false_r.
Qed.
End lemmas.

(** ** Specification: a byte stream that can be closed

    The application sends and shuts down, the socket becomes writable. *)

Module ByteStream.
Inductive op : Type := Send (data : list byte) | Writable | Shutdown.

(** [accepts lossy open ops bs]: starting open (or after [shutdown]), [ops] add
    the bytes [bs] to the stream: every [Send] before the first [Shutdown] adds
    its data, whole and in order, except that on a [lossy] socket, one that
    reports EPIPE or ECONNRESET, it may be dropped whole. *)
Inductive accepts (lossy : bool) : bool → list op → list byte → Prop :=
| acc_nil o : accepts lossy o [] []
| acc_send data ops bs : accepts lossy true ops bs → accepts lossy true (Send data :: ops) (data ++ bs)
| acc_broken data ops bs : lossy = true → accepts lossy true ops bs →
    accepts lossy true (Send data :: ops) bs
| acc_closed data ops bs : accepts lossy false ops bs → accepts lossy false (Send data :: ops) bs
| acc_writable o ops bs : accepts lossy o ops bs → accepts lossy o (Writable :: ops) bs
| acc_shutdown o ops bs : accepts lossy false ops bs → accepts lossy o (Shutdown :: ops) bs.

Definition cost (o : op) : Z := match o with Send data => zlen data | _ => 0 end.
Definition total (ops : list op) : Z := foldr (λ o n, cost o + n) 0 ops.
End ByteStream.

Section streaming.
Context {K E UC : Type} `{!Kernel K} `{!KernelLaws K} `{!Reactor K E} `{RL : !ReactorLaws K E}.
Abbreviation S := (ConnState E UC).
Implicit Types s : S.
Abbreviation out s := (content (output_buffer_ (cs_conn s))).
Abbreviation vector s := (zlen (buffer_ (output_buffer_ (cs_conn s)))).

Definition run_stream_op (o : ByteStream.op) : M S unit :=
  match o with
  | ByteStream.Send data => send data
  | ByteStream.Writable => handleWrite
  | ByteStream.Shutdown => shutdown
  end.

(** A connection, in its own thread, that streams bytes: write events are wanted
    exactly while bytes wait, and it is half-closed only when it is closing and
    nothing waits. *)
Record streaming s : Prop := Streaming {
  sm_ok : conn_ok s;
  sm_thread : loop_isInLoopThread (cs_env s) = true;
  sm_state : state_ (cs_conn s) = kConnected ∨ state_ (cs_conn s) = kDisConnecting;
  sm_file : sending_file (cs_conn s) = false;
  sm_writing : channel_isWriting s = negb (bool_decide (out s = []));
  sm_closed : half_closed s → state_ (cs_conn s) = kDisConnecting ∧ out s = []
}.

Definition is_open s : bool := connected (cs_conn s).

Lemma giving_up_open s : streaming s → giving_up (cs_conn s) = negb (is_open s).
Proof.
  intros Hs. unfold giving_up, is_open, connected. destruct (sm_state _ Hs) as [-> | ->]; done.
Qed.

Lemma app_nil_decide {A} (l k : list A) :
  negb (bool_decide (l ++ k = [])) = negb (bool_decide (l = [])) || negb (bool_decide (k = [])).
Proof. by destruct l, k. Qed.

(** What [sendInLoop] and [handleWrite] do to the stream. *)
Lemma sent_stream data s s' :
  conn_ok s → sent_in_loop data s s' → ∃ bs, stream s' = stream s ++ bs ∧
    (bs = data ∨ bs = [] ∧ broken (direct_answer data s) = true).
Proof.
  intros Hok [_ _ L3 L4 _ _ _].
  exists (take (Z.to_nat (taken (direct_answer data s))) data ++ rest data (direct_answer data s)). split.
  - unfold stream. rewrite L3, L4. unfold direct_answer. destruct (channel_isWriting s) eqn:Ew.
    + simpl. by rewrite app_nil_r, <- app_assoc.
    + destruct (decide (out s = [])) as [-> |Hne]; [by rewrite app_nil_r, <- app_assoc|].
      by rewrite (ck_writing _ Hok Hne) in Ew.
  - unfold rest. destruct (broken (direct_answer data s)) eqn:Eb; [right|left; apply take_drop].
    split; [|done]. rewrite app_nil_r. by destruct (direct_answer data s).
Qed.
Lemma broken_write data s : broken (direct_answer data s) = true →
  broken (sys_write (sockfd_ (cs_conn s)) data (view (cs_env s) : K)).1 = true.
Proof. unfold direct_answer. by destruct (channel_isWriting s). Qed.
Lemma wrote_stream a s s' : wrote a s s' → stream s' = stream s.
Proof. intros Hw. unfold stream. by rewrite (wr_sent _ _ _ Hw), (wr_out _ _ _ Hw), <- app_assoc, take_drop. Qed.

(** [send] in the thread of the connection. *)
Lemma send_step data s :
  streaming s → vector s + zlen data ≤ vector_max_size →
  ∃ s' bs, send data s = Ok (tt, s') ∧ streaming s' ∧ is_open s' = is_open s ∧
    stream s' = stream s ++ bs ∧
    (if is_open s then bs = data ∨ bs = [] ∧ broken (direct_answer data s) = true else bs = []) ∧
    vector s' ≤ vector s + zlen data.
Proof.
  intros Hs Hv. pose proof (zlen_nonneg data). pose proof (giving_up_open s Hs) as Hg.
  unfold send, conn, gets. mcbn. change (connected (cs_conn s)) with (is_open s).
  destruct (is_open s) eqn:Ho; simpl when.
  2: { exists s, []. rewrite app_nil_r. do 5 (split; [done|]). lia. }
  rewrite (sm_thread _ Hs).
  assert (room_for (output_buffer_ (cs_conn s)) (zlen data)) as Hroom by (split; lia).
  destruct (sendInLoop_ok data s (sm_ok _ Hs) Hg Hroom) as (s' & E1 & Hsl).
  destruct (sent_stream data s s' (sm_ok _ Hs) Hsl) as (bs & Hbs & Hwhole). destruct Hsl as [L1 L2 L3 L4 L5 L6 L7].
  exists s', bs.
  assert (sockfd_ (cs_conn s') = sockfd_ (cs_conn s)) as Hfd by by rewrite (st_conn _ _ L2).
  assert (state_ (cs_conn s') = state_ (cs_conn s)) as Hst by by rewrite (st_conn _ _ L2).
  split; [exact E1|]. split; [split|split; [|split; [|split]]].
  - done.
  - by rewrite (st_thread _ _ L2), (sm_thread _ Hs).
  - rewrite Hst. apply Hs.
  - rewrite (st_conn _ _ L2). apply Hs.
  - by rewrite L5, L4, (sm_writing _ Hs), app_nil_decide.
  - unfold half_closed. rewrite (st_shut _ _ L2), Hfd. intros Hc.
    destruct (sm_closed _ Hs Hc) as [Hd _]. unfold is_open, connected in Ho.
    by rewrite Hd in Ho.
  - unfold is_open, connected in *. by rewrite Hst.
  - exact Hbs.
  - exact Hwhole.
  - done.
Qed.

(** A writable socket. *)
Lemma writable_step s :
  streaming s → ∃ s', handleWrite s = Ok (tt, s') ∧ streaming s' ∧ is_open s' = is_open s ∧
    stream s' = stream s ∧ vector s' = vector s.
Proof.
  intros Hs. destruct (decide (out s = [])) as [He|Hne].
  - exists s. split; [|done]. unfold handleWrite, conn, gets. mcbn.
    rewrite (sm_writing _ Hs), He. done.
  - assert (channel_isWriting s = true) as Hw by (rewrite (sm_writing _ Hs), bool_decide_false; done).
    destruct (handleWrite_ok s (sm_ok _ Hs) Hw Hne) as (s' & E1 & Hwr).
    destruct (sys_write _ _ _) as [a k] eqn:Ewr. simpl fst in Hwr.
    assert (Hstr := wrote_stream _ _ _ Hwr).
    destruct (write_answer_bounds _ _ _ _ _ Ewr) as [Hb _]. destruct Hwr as [L1 _ L2 L3 L4 L5 L6 L7 L8 L9 L10].
    assert (sockfd_ (cs_conn s') = sockfd_ (cs_conn s)) as Hfd by by rewrite L2.
    assert (state_ (cs_conn s') = state_ (cs_conn s)) as Hst by by rewrite L2.
    assert (took_all (out s) a = bool_decide (drop (Z.to_nat (taken a)) (out s) = [])) as Et.
    { apply eq_bool_prop_intro. rewrite bool_decide_spec, Is_true_true. unfold zlen in *. split.
      - destruct a as [n|e]; [|done]. simpl. intros ->%Z.eqb_eq. apply drop_ge. unfold zlen. lia.
      - intros Hd%(f_equal length). rewrite length_drop in Hd. simpl in Hd.
        destruct (out s) eqn:Eo; [done|]. destruct a as [n|e]; simpl in *; [|lia].
        apply Z.eqb_eq. unfold zlen. simpl. lia. }
    exists s'. split; [exact E1|]. split; [split|split; [|split]].
    + done.
    + by rewrite L6, (sm_thread _ Hs).
    + rewrite Hst. apply Hs.
    + rewrite L2. apply Hs.
    + by rewrite L7, L4, Et.
    + unfold half_closed. rewrite Hfd, Hst. intros Hc.
      rewrite Et in L9. destruct (bool_decide (drop _ _ = [])) eqn:Eta;
        [destruct (bool_decide (state_ (cs_conn s) = kDisConnecting)) eqn:Ed|]; simpl in L9.
      * split; [by apply bool_decide_eq_true in Ed|]. rewrite L4. by apply bool_decide_eq_true in Eta.
      * rewrite L9 in Hc. by destruct (sm_closed _ Hs Hc).
      * rewrite L9 in Hc. by destruct (sm_closed _ Hs Hc).
    + unfold is_open, connected. by rewrite Hst.
    + exact Hstr.
    + done.
Qed.

(** [shutdown] in the thread of the connection. *)
Lemma shutdown_step s :
  streaming s → ∃ s', shutdown s = Ok (tt, s') ∧ streaming s' ∧ is_open s' = false ∧
    stream s' = stream s ∧ vector s' = vector s.
Proof.
  intros Hs. unfold shutdown, conn, gets. mcbn. change (connected (cs_conn s)) with (is_open s).
  destruct (is_open s) eqn:Ho; simpl when; [|by exists s].
  unfold setState, set_conn, modify. mcbn.
  set (s1 := s <| cs_conn ::= λ t, t <| state_ := kDisConnecting |> |>).
  assert (conn_ok s1) as Hok1 by (split; apply Hs).
  destruct (shutDownInLoop_ok s1 Hok1) as (s' & E1 & Hok' & Hc' & Hs' & He' & Hp' & Ht' & Hsh').
  assert (loop_isInLoopThread (cs_env s1) = true) as Ht1 by apply Hs.
  exists s'. split.
  { transitivity ((if loop_isInLoopThread (cs_env s1) then shutDownInLoop
                   else queueInLoop ShutDownInLoop) s1); [done|by rewrite Ht1]. }
  split; [split|split; [|split]].
  - done.
  - rewrite Ht'. apply Hs.
  - rewrite Hc'. by right.
  - rewrite Hc'. apply Hs.
  - unfold channel_isWriting in *. rewrite He', Hc'. apply Hs.
  - unfold half_closed. rewrite Hc'. simpl. intros Hc. split; [done|].
    destruct (channel_isWriting s1) eqn:Ew.
    + rewrite Hsh' in Hc. destruct (sm_closed _ Hs Hc) as [_ Hout]. done.
    + change (channel_isWriting s = false) in Ew. rewrite (sm_writing _ Hs) in Ew.
      apply negb_false_iff in Ew. by apply bool_decide_eq_true in Ew.
  - unfold is_open, connected. by rewrite Hc'.
  - unfold stream. rewrite (sent_kept s1 s' Hs') by by rewrite Hc'. by rewrite Hc'.
  - by rewrite Hc'.
Qed.

(** C1: A connection is a byte stream.  For every sequence of sends, writable
    events and shutdowns in the thread of the connection, whatever part of each
    [write] the kernel takes: every call returns; the bytes the kernel has taken
    followed by those that wait in the output buffer are the old stream followed
    by the data of the sends made before the first shutdown, whole, in order,
    nothing twice (a send may be dropped, whole, only when the kernel answers
    EPIPE or ECONNRESET); writable events are asked for exactly while bytes wait;
    and the socket is half-closed only once the connection is closing and every
    byte was given to the kernel. *)
Theorem stream_refines lossy (ops : list ByteStream.op) s :
  streaming s → vector s + ByteStream.total ops ≤ vector_max_size →
  (lossy = false → ∀ fd data k, broken (sys_write fd data (k : K)).1 = false) →
  ∃ s' bs, for_each run_stream_op ops s = Ok (tt, s') ∧ streaming s' ∧
    ByteStream.accepts lossy (is_open s) ops bs ∧ stream s' = stream s ++ bs.
Proof.
  intros Hs Hv Hl. revert s Hs Hv. induction ops as [|o ops IH]; intros s Hs Hv.
  { exists s, []. rewrite app_nil_r. split; [done|]. split; [done|]. split; [constructor|done]. }
  simpl in Hv. destruct o as [data| |]; simpl in Hv.
  - destruct (send_step data s Hs) as (s1 & bs1 & E1 & Hs1 & Ho1 & Hst1 & Hb1 & Hv1).
    { assert (0 ≤ ByteStream.total ops); [|lia]. clear. induction ops as [|[data| |] ops IH]; simpl; [lia| |lia..].
      pose proof (zlen_nonneg data). lia. }
    destruct (IH s1) as (s2 & bs2 & E2 & Hs2 & Ha2 & Hst2); [done|lia|].
    exists s2, (bs1 ++ bs2). simpl. rewrite (M_bind_ok _ _ _ _ _ E1).
    split; [done|]. split; [done|]. split; [|by rewrite Hst2, Hst1, app_assoc].
    rewrite Ho1 in Ha2. destruct (is_open s); [|subst bs1; by constructor].
    destruct Hb1 as [->|[-> Hbr]]; [by constructor|]. apply ByteStream.acc_broken; [|done].
    destruct lossy; [done|]. unfold direct_answer in Hbr. destruct (channel_isWriting s); [done|].
    by rewrite Hl in Hbr.
  - destruct (writable_step s Hs) as (s1 & E1 & Hs1 & Ho1 & Hst1 & Hv1).
    destruct (IH s1) as (s2 & bs2 & E2 & Hs2 & Ha2 & Hst2); [done|lia|].
    exists s2, bs2. simpl. rewrite (M_bind_ok _ _ _ _ _ E1). rewrite Ho1 in Ha2.
    split; [done|]. split; [done|]. split; [by constructor|by rewrite Hst2, Hst1].
  - destruct (shutdown_step s Hs) as (s1 & E1 & Hs1 & Ho1 & Hst1 & Hv1).
    destruct (IH s1) as (s2 & bs2 & E2 & Hs2 & Ha2 & Hst2); [done|lia|].
    exists s2, bs2. simpl. rewrite (M_bind_ok _ _ _ _ _ E1). rewrite Ho1 in Ha2.
    split; [done|]. split; [done|]. split; [by constructor|by rewrite Hst2, Hst1].
Qed.

(** One writable event of a kernel that takes something. *)
Lemma drain_step s :
  streaming s → out s ≠ [] →
  (∀ data (k : K), data ≠ [] → 1 ≤ taken (sys_write (sockfd_ (cs_conn s)) data k).1) →
  (∀ k : K, (sys_shutdown (sockfd_ (cs_conn s)) k).1 = 0) →
  ∃ s', handleWrite s = Ok (tt, s') ∧ streaming s' ∧ stream s' = stream s ∧
    (length (out s') < length (out s))%nat ∧ sockfd_ (cs_conn s') = sockfd_ (cs_conn s) ∧
    state_ (cs_conn s') = state_ (cs_conn s) ∧
    (out s' = [] → state_ (cs_conn s) = kDisConnecting → half_closed s').
Proof.
  intros Hs Hne Ht Hsh.
  assert (channel_isWriting s = true) as Hw by (rewrite (sm_writing _ Hs), bool_decide_false; done).
  destruct (writable_step s Hs) as (s' & E1 & Hs' & _ & Hst & _).
  destruct (handleWrite_ok s (sm_ok _ Hs) Hw Hne) as (s2 & E2 & [_ _ L2 _ L4 _ _ L7 _ L9 _]).
  rewrite E2 in E1. injection E1 as ->.
  set (a := (sys_write (sockfd_ (cs_conn s)) (out s) (view (cs_env s))).1) in *.
  specialize (Ht (out s) (view (cs_env s)) Hne). fold a in Ht.
  exists s'. split; [done|]. split; [done|]. split; [done|].
  split; [|split; [by rewrite L2|split; [by rewrite L2|]]].
  - rewrite L4, length_drop. destruct (out s); [done|]. simpl. lia.
  - intros Ho Hd. rewrite (sm_writing _ Hs'), Ho in L7.
    rewrite bool_decide_true in L7 by done. symmetry in L7. apply negb_true_iff in L7.
    destruct (took_all (out s) a) eqn:Eta; [|done].
    rewrite Hd in L9. simpl in L9. destruct L9 as (k & r & k' & Hr & Hv).
    specialize (Hsh k). rewrite Hr in Hsh. simpl in Hsh. subst r.
    unfold half_closed. rewrite Hv, L2. simpl. set_solver.
Qed.

(** C20: Everything is sent in the end.  When the kernel takes at least a byte of
    every [write], then after as many writable events as bytes wait, all of the
    stream was given to the kernel, writable events are not asked for any more
    (the loop does not spin), and a connection that was being shut down is
    half-closed. *)
Theorem drain_finishes s :
  streaming s → out s ≠ [] →
  (∀ data (k : K), data ≠ [] → 1 ≤ taken (sys_write (sockfd_ (cs_conn s)) data k).1) →
  (∀ k : K, (sys_shutdown (sockfd_ (cs_conn s)) k).1 = 0) →
  ∃ s', for_each (λ _, handleWrite) (seq 0 (length (out s))) s = Ok (tt, s') ∧
    out s' = [] ∧ sent s' = stream s ∧ channel_isWriting s' = false ∧
    (state_ (cs_conn s) = kDisConnecting → half_closed s').
Proof.
  intros Hs Hne Ht Hsh. generalize 0%nat at 1 as i. remember (length (out s)) as n eqn:En.
  assert (length (out s) ≤ n)%nat as Hn by lia. clear En.
  revert s Hs Hne Ht Hsh Hn. induction n as [|n IH]; intros s Hs Hne Ht Hsh Hn i.
  { destruct (out s); [done|]. simpl in Hn. lia. }
  destruct (drain_step s Hs Hne Ht Hsh) as (s1 & E1 & Hs1 & Hst1 & Hlt & Hfd & Hstate & Hhc).
  cbn [seq for_each]. rewrite (M_bind_ok _ _ _ _ _ E1).
  destruct (decide (out s1 = [])) as [He|Hne1].
  - exists s1. split.
    { clear -He Hs1. generalize (Datatypes.S i). induction n as [|n IH]; intros j; [done|]. cbn [seq for_each].
      assert (handleWrite s1 = Ok (tt, s1)) as E2.
      { unfold handleWrite, conn, gets. mcbn. by rewrite (sm_writing _ Hs1), He. }
      rewrite (M_bind_ok _ _ _ _ _ E2). apply IH. }
    split; [done|]. split; [by rewrite <- Hst1; unfold stream; rewrite He, app_nil_r|].
    split; [by rewrite (sm_writing _ Hs1), He|]. auto.
  - destruct (IH s1) with (i := Datatypes.S i) as (s2 & E2 & Ho2 & Hs2 & Hw2 & Hh2); try done.
    { by rewrite Hfd. } { by rewrite Hfd. } { lia. }
    exists s2. split; [exact E2|]. split; [done|]. split; [by rewrite Hs2|]. split; [done|].
    intros Hd. apply Hh2. by rewrite Hstate.
Qed.

(** What [sendInLoop] tells the application.  [write_complete_callback_] is
    posted exactly when nothing waited and the kernel took all of the data at
    once; [high_water_mark_callback_] exactly when the data that has to wait takes
    the output buffer from below the mark to it or beyond - once per crossing,
    however much follows; nothing is posted for a callback that is not set, or by
    a connection that is closing. *)
Theorem sendInLoop_posts data s :
  conn_ok s → vector s + zlen data ≤ vector_max_size →
  ∃ s', sendInLoop data s = Ok (tt, s') ∧
    (giving_up (cs_conn s) = true → s' = s) ∧
    (giving_up (cs_conn s) = false →
      let a := direct_answer data s in
      posted (cs_env s') = posted (cs_env s) ++
        post_if (negb (channel_isWriting s) && took_all data a)
                (write_complete_callback_ (cs_conn s)) WriteComplete ++
        post_if (negb (bool_decide (rest data a = [])) &&
                 (zlen (out s) <? high_water_mark_ (cs_conn s)) &&
                 (high_water_mark_ (cs_conn s) <=? zlen (out s')))
                (high_water_mark_callback_ (cs_conn s)) HighWaterMark).
Proof.
  intros Hok Hv. destruct (giving_up (cs_conn s)) eqn:Eg.
  - exists s. split; [|done]. unfold sendInLoop, conn, gets. mcbn. by rewrite Eg.
  - pose proof (zlen_nonneg data).
    assert (room_for (output_buffer_ (cs_conn s)) (zlen data)) as Hroom by (split; lia).
    destruct (sendInLoop_ok data s Hok Eg Hroom) as (s' & E1 & [L1 L2 L3 L4 L5 L6 L7]).
    exists s'. split; [done|]. split; [done|]. intros _ a. rewrite L6. do 3 f_equal.
    unfold crosses_mark. fold a in L4 |- *. rewrite L4, zlen_app.
    destruct (negb _), (_ <=? _), (_ <? _); done.
Qed.

(** ** Sending from another thread *)


(** ** Sending files *)

Abbreviation file_answer s :=
  (sys_sendfile (sockfd_ (cs_conn s)) (fd_to_send_ (cs_conn s)) (fd_offset_ (cs_conn s))
     (count_ (cs_conn s)) (view (cs_env s))).1.1.

(** [s'] is [s] after a try to send what is left of the file. *)
Record file_sent (a : write_answer) s s' : Prop := FileSent {
  fs_env : reactor_ok (cs_env s');
  fs_out : output_buffer_ (cs_conn s') = output_buffer_ (cs_conn s);
  fs_offset : fd_offset_ (cs_conn s') = fd_offset_ (cs_conn s) + taken a;
  fs_same : sockfd_ (cs_conn s') = sockfd_ (cs_conn s) ∧ fd_to_send_ (cs_conn s') = fd_to_send_ (cs_conn s) ∧
    state_ (cs_conn s') = state_ (cs_conn s) ∧
    write_complete_callback_ (cs_conn s') = write_complete_callback_ (cs_conn s);
  fs_done : a = WrOk (count_ (cs_conn s)) →
    sending_file (cs_conn s') = false ∧ channel_isWriting s' = false ∧
    posted (cs_env s') = posted (cs_env s) ++ post_if true (write_complete_callback_ (cs_conn s)) WriteComplete;
  fs_broken : broken a = true →
    sending_file (cs_conn s') = false ∧ channel_isWriting s' = channel_isWriting s ∧
    posted (cs_env s') = posted (cs_env s);
  fs_more : a ≠ WrOk (count_ (cs_conn s)) → broken a = false → 0 < count_ (cs_conn s) →
    sending_file (cs_conn s') = true ∧ channel_isWriting s' = true ∧
    count_ (cs_conn s') = count_ (cs_conn s) - taken a ∧ posted (cs_env s') = posted (cs_env s)
}.

(** The last part of [sendFileInLoop]. *)
Lemma file_rest_ok remaining s :
  reactor_ok (cs_env s) →
  ∃ s', file_rest remaining s = Ok (tt, s') ∧
    reactor_ok (cs_env s') ∧ cs_conn s' = (cs_conn s) <| count_ := remaining |> ∧
    channel_isWriting s' = true ∧ posted (cs_env s') = posted (cs_env s).
Proof.
  intros Hok. unfold file_rest, set_conn, modify, gets. mcbn. set (s1 := s <| cs_conn ::= _ |>).
  destruct (channel_isWriting s1) eqn:Ew; simpl when.
  - by exists s1.
  - destruct (channel_update_law enable_writing (cs_env s) Hok) as (e & E1 & Hok1 & Hw & He & Hp).
    exists (s1 <| cs_env := e |>). split; [by apply (in_env_ok _ s1)|]. split; [done|]. split; [done|].
    split; [|done]. unfold channel_isWriting. simpl. by rewrite He, isWriting_enable.
Qed.

Lemma file_done_ok s :
  reactor_ok (cs_env s) →
  ∃ s', file_done s = Ok (tt, s') ∧
    reactor_ok (cs_env s') ∧ cs_conn s' = (cs_conn s) <| sending_file := false |> ∧
    channel_isWriting s' = false ∧
    posted (cs_env s') = posted (cs_env s) ++ post_if true (write_complete_callback_ (cs_conn s)) WriteComplete.
Proof.
  intros Hok.
  assert (∃ e, when (bool_decide (is_Some (write_complete_callback_ (cs_conn s)))) (queueInLoop WriteComplete) s
     = Ok (tt, s <| cs_env := e |>) ∧ reactor_ok e ∧
     posted e = posted (cs_env s) ++ post_if true (write_complete_callback_ (cs_conn s)) WriteComplete)
    as (e1 & E1 & Hok1 & Hp1).
  { unfold post_if, when. simpl andb. destruct (bool_decide _).
    - destruct (queueInLoop_law WriteComplete (cs_env s) Hok) as (e & E1 & Hok1 & _ & _ & Hp).
      exists e. split; [by apply in_env_ok|done].
    - exists (cs_env s). rewrite app_nil_r. by destruct s. }
  destruct (channel_update_law disable_writing e1 Hok1) as (e & E2 & Hok2 & Hw & He & Hp).
  exists (s <| cs_env := e1 |> <| cs_conn ::= λ t, t <| sending_file := false |> |> <| cs_env := e |>).
  unfold file_done, conn, gets. mcbn. rewrite E1. unfold set_conn, modify. mcbn.
  split; [apply (in_env_ok _ (s <| cs_env := e1 |> <| cs_conn ::= λ t, t <| sending_file := false |> |>)); exact E2|].
  split; [done|]. split; [done|]. split; [unfold channel_isWriting; simpl; by rewrite He, isWriting_disable|].
  simpl. by rewrite Hp.
Qed.

Lemma broken_not_would_block a : broken a = true → ∃ e, a = WrErr e.
Proof. destruct a; [done|]. by eexists. Qed.

Lemma sendFileInLoop_ok s :
  reactor_ok (cs_env s) → giving_up (cs_conn s) = false → sending_file (cs_conn s) = true →
  0 ≤ count_ (cs_conn s) < size_max →
  ∃ s', sendFileInLoop s = Ok (tt, s') ∧ file_sent (file_answer s) s s'.
Proof.
  intros Hok Hg Hf Hc.
  destruct (sys_sendfile (sockfd_ (cs_conn s)) (fd_to_send_ (cs_conn s)) (fd_offset_ (cs_conn s))
    (count_ (cs_conn s)) (view (cs_env s))) as [[a off] k] eqn:Esf. simpl fst.
  pose proof (sendfile_law _ _ _ _ _ _ _ _ (proj1 Hc) Esf) as Hlaw.
  assert (0 ≤ taken a ≤ count_ (cs_conn s) ∧ off = fd_offset_ (cs_conn s) + taken a) as [Ht Hoff].
  { destruct a; simpl; [tauto|]. split; [lia|]. destruct Hlaw as (_ & -> & _). lia. }
  assert (kv_interest (kview_of k) = kv_interest (kview_of (view (cs_env s) : K)) ∧
          kv_eventfd (kview_of k) = kv_eventfd (kview_of (view (cs_env s) : K))) as [Hi Hev].
  { destruct a; [destruct Hlaw as (_ & _ & bs & _ & ->)|destruct Hlaw as (_ & _ & ->)]; done. }
  destruct (reactor_kernel (cs_env s) k Hok Hi Hev) as (R1 & R2 & R3 & R4).
  set (s1 := s <| cs_env ::= replace_view k |> <| cs_conn ::= λ t, t <| fd_offset_ := off |> |>).
  assert (channel_isWriting s1 = channel_isWriting s) as Hw1 by (unfold channel_isWriting; simpl; by rewrite R2).
  assert (reactor_ok (cs_env s1)) as Hok1 by exact R1.
  assert (sendFileInLoop s = (r ← (match a with
      | WrOk n => when (wrap_size (count_ (cs_conn s) - n) =? 0) file_done ;;
                  mret (wrap_size (count_ (cs_conn s) - n), false)
      | WrErr errno => when ((errno =? EPIPE) || (errno =? ECONNRESET)) (set_conn (λ t, t <| sending_file := false |>)) ;;
                  mret (count_ (cs_conn s), (errno =? EPIPE) || (errno =? ECONNRESET))
      end);
     let '(remaining, fault_error) := r in
     when (negb (remaining =? 0) && negb fault_error) (file_rest remaining)) s1) as E0.
  { unfold sendFileInLoop, conn, gets. mcbn. rewrite Hg, Hf. unfold try_sendfile, conn, gets. mcbn.
    erewrite (conn_kernel_ok _ s (a, off) k) by (by rewrite Esf). by destruct a. }
  rewrite E0. clear E0. destruct a as [n|e]; simpl taken in *.
  - rewrite wrap_size_small by lia. destruct (Z.eqb_spec (count_ (cs_conn s) - n) 0) as [Hz|Hz].
    + destruct (file_done_ok s1 Hok1) as (s' & E1 & Hok' & Hc' & Hw' & Hp').
      exists s'. split; [simpl when; mcbn; by rewrite E1, Hz|]. simpl in Hc', Hp'.
      split; rewrite ?Hc'; try done.
      * intros _. split; [done|]. split; [done|]. by rewrite Hp', R3.
      * intros Hne. by assert (n = count_ (cs_conn s)) as -> by lia.
    + destruct (file_rest_ok (count_ (cs_conn s) - n) s1 Hok1) as (s' & E1 & Hok' & Hc' & Hw' & Hp').
      exists s'. split; [simpl when; mcbn; rewrite (proj2 (Z.eqb_neq _ _) Hz); exact E1|].
      simpl in Hc', Hp'. split; rewrite ?Hc'; try done.
      * intros [= ->]. lia.
      * intros _ _ _. simpl. by rewrite Hp', R3.
  - destruct ((e =? EPIPE) || (e =? ECONNRESET)) eqn:Eb; simpl when.
    + exists (s1 <| cs_conn ::= λ t, t <| sending_file := false |> |>).
      unfold set_conn, modify. mcbn. rewrite andb_false_r. split; [done|].
      split; simpl; rewrite ?Eb; try done.
    + mcbn. rewrite andb_true_r. destruct (Z.eqb_spec (count_ (cs_conn s)) 0) as [Hz|Hz]; simpl when.
      * exists s1. split; [done|]. split; simpl; rewrite ?Eb; try done. intros _ _ ?. lia.
      * destruct (file_rest_ok (count_ (cs_conn s)) s1 Hok1) as (s' & E1 & Hok' & Hc' & Hw' & Hp').
        exists s'. split; [exact E1|]. simpl in Hc', Hp'. split; rewrite ?Hc'; simpl; rewrite ?Eb; try done.
        intros _ _ _. split; [done|]. split; [done|]. split; [lia|]. by rewrite Hp', R3.
Qed.

(** C28: One step of sending a file, for every answer of [sendfile].  The file
    offset and the bytes left always add up: the offset moves by what the kernel
    took.  When all was taken the transfer ends: the flag is reset, writable
    events are not asked for any more, and [write_complete_callback_] is posted
    if it is set.  When the connection is broken (EPIPE, ECONNRESET) the
    transfer is given up.  Otherwise the rest is remembered and writable events
    are asked for. *)
Theorem sendFileInLoop_step s :
  reactor_ok (cs_env s) → giving_up (cs_conn s) = false → sending_file (cs_conn s) = true →
  0 ≤ count_ (cs_conn s) < size_max →
  ∃ s', sendFileInLoop s = Ok (tt, s') ∧ file_sent (file_answer s) s s' ∧
    (sending_file (cs_conn s') = true → 0 < count_ (cs_conn s) →
     fd_offset_ (cs_conn s') + count_ (cs_conn s') = fd_offset_ (cs_conn s) + count_ (cs_conn s)).
Proof.
  intros Hok Hg Hf Hc. destruct (sendFileInLoop_ok s Hok Hg Hf Hc) as (s' & E1 & Hs).
  exists s'. split; [done|]. split; [done|]. intros Hf' Hpos.
  destruct (decide (file_answer s = WrOk (count_ (cs_conn s)))) as [Ha|Ha].
  { destruct (fs_done _ _ _ Hs Ha) as [? _]. congruence. }
  destruct (broken (file_answer s)) eqn:Eb.
  { destruct (fs_broken _ _ _ Hs Eb) as [? _]. congruence. }
  destruct (fs_more _ _ _ Hs Ha Eb Hpos) as (_ & _ & -> & _). rewrite (fs_offset _ _ _ Hs). lia.
Qed.

(** A file shorter than the [count] asked for.  Past the end of the file
    [sendfile] returns 0; the transfer then never ends: after any number of
    writable events the same bytes are still to be sent, writable events are
    still asked for (so that [epoll_wait] returns at once, every time), and
    nothing is posted. *)
Theorem sendFile_past_end_spins n s :
  reactor_ok (cs_env s) → state_ (cs_conn s) = kConnected → sending_file (cs_conn s) = true →
  out s = [] → buffer_wf (output_buffer_ (cs_conn s)) → channel_isWriting s = true →
  0 < count_ (cs_conn s) < size_max →
  (∀ k : K, ∃ k', sys_sendfile (sockfd_ (cs_conn s)) (fd_to_send_ (cs_conn s)) (fd_offset_ (cs_conn s))
     (count_ (cs_conn s)) k = (WrOk 0, fd_offset_ (cs_conn s), k')) →
  ∃ s', for_each (λ _, handleWrite) (seq 0 n) s = Ok (tt, s') ∧
    sending_file (cs_conn s') = true ∧ count_ (cs_conn s') = count_ (cs_conn s) ∧
    channel_isWriting s' = true ∧ posted (cs_env s') = posted (cs_env s).
Proof.
  generalize 0%nat at 1 as i. revert s. induction n as [|n IH]; intros s i Hok Hst Hf Ho Hwf Hw Hc Hk.
  { by exists s. }
  assert (giving_up (cs_conn s) = false) as Hg by (unfold giving_up; by rewrite Hst).
  destruct (sendFileInLoop_ok s Hok Hg Hf) as (s1 & E1 & Hs1); [lia|].
  destruct (Hk (view (cs_env s))) as [k' Ek]. rewrite Ek in Hs1. simpl in Hs1.
  destruct (fs_more _ _ _ Hs1) as (Hf1 & Hw1 & Hc1 & Hp1); [intros [= ?]; lia|done|lia|].
  destruct (fs_same _ _ _ Hs1) as (Hfd1 & Hsrc1 & Hst1 & _).
  pose proof (fs_offset _ _ _ Hs1) as Hoff1. simpl in Hoff1, Hc1. rewrite Z.add_0_r in Hoff1. rewrite Z.sub_0_r in Hc1.
  assert (handleWrite s = Ok (tt, s1)) as E2.
  { unfold handleWrite, conn, gets. mcbn. rewrite Hw, readable_content by done.
    rewrite bool_decide_true, Hf by done. exact E1. }
  destruct (IH s1 (Datatypes.S i)) as (s2 & E3 & Hr); rewrite ?(fs_out _ _ _ Hs1), ?Hst1, ?Hc1, ?Hfd1, ?Hsrc1, ?Hoff1; try done.
  { apply Hs1. }
  exists s2. cbn [seq for_each]. rewrite (M_bind_ok _ _ _ _ _ E2). split; [done|].
  rewrite Hc1, Hp1 in Hr. done.
Qed.

(** [sendFile] while bytes wait in the output buffer.  When the kernel takes
    the file at once, the file overtakes the bytes that wait, and writable events
    are not asked for any more: the bytes stay in the buffer, and a writable
    event would not send them either. *)
Theorem sendFile_strands_output fd offset count s :
  conn_ok s → loop_isInLoopThread (cs_env s) = true → state_ (cs_conn s) = kConnected → out s ≠ [] →
  0 ≤ count < size_max →
  (sys_sendfile (sockfd_ (cs_conn s)) fd offset count (view (cs_env s))).1.1 = WrOk count →
  ∃ s', sendFile fd offset count s = Ok (tt, s') ∧ out s' = out s ∧ channel_isWriting s' = false ∧
    handleWrite s' = Ok (tt, s').
Proof.
  intros Hok Ht Hst Ho Hc Ha.
  set (s1 := s <| cs_conn ::= λ t, t <| sending_file := true |> <| fd_to_send_ := fd |>
                                     <| fd_offset_ := offset |> <| count_ := count |> |>).
  assert (giving_up (cs_conn s1) = false) as Hg by (unfold giving_up; simpl; by rewrite Hst).
  destruct (sendFileInLoop_ok s1 (ck_env _ Hok) Hg) as (s' & E1 & Hs'); [done..|].
  change (file_answer s1) with (sys_sendfile (sockfd_ (cs_conn s)) fd offset count (view (cs_env s))).1.1 in Hs'.
  rewrite Ha in Hs'. destruct (fs_done _ _ _ Hs' eq_refl) as (Hf & Hw & _).
  exists s'. split; [|split; [by rewrite (fs_out _ _ _ Hs')|split; [done|]]].
  - unfold sendFile, conn, gets. mcbn. unfold connected. rewrite Hst. simpl when.
    unfold set_conn, modify. mcbn.
    transitivity ((if loop_isInLoopThread (cs_env s) then sendFileInLoop else queueInLoop SendFileInLoop) s1);
      [done|]. by rewrite Ht.
  - unfold handleWrite, conn, gets. mcbn. by rewrite Hw.
Qed.
End streaming.

(** ** Reading, opening and closing *)

Section lifecycle.
Context {K E UC : Type} `{!Kernel K} `{!KernelLaws K} `{!Reactor K E} `{RL : !ReactorLaws K E}.
Abbreviation S := (ConnState E UC).
Implicit Types s : S.
Variable call : UC → M S unit.
Variable call_message : UC → Z → M S unit.
Abbreviation kern s := (view (cs_env s) : K).
Abbreviation callback := (callback_opt call).
Abbreviation message_callback s receive_time :=
  (match message_callback_ (cs_conn s) with Some c => call_message c receive_time | None => mret tt end).

Lemma channel_update_ok f s :
  reactor_ok (cs_env s) →
  ∃ e, in_env (channel_update f) s = Ok (tt, s <| cs_env := e |>) ∧ reactor_ok e ∧
    same_wire (cs_env s) e ∧ channel_events e = f (channel_events (cs_env s)) ∧
    posted e = posted (cs_env s).
Proof.
  intros Hok. destruct (channel_update_law f (cs_env s) Hok) as (e & E1 & ?). exists e.
  split; [by apply in_env_ok|done].
Qed.

Lemma handleClose_ok s :
  reactor_ok (cs_env s) →
  ∃ e, handleClose call s =
         (callback connection_callback_ ;; callback close_callback_)
           (mkConnState ((cs_conn s) <| state_ := kDisConnected |>) e) ∧
    reactor_ok e ∧ same_wire (cs_env s) e ∧ channel_events e = kNoneEvent ∧
    posted e = posted (cs_env s).
Proof.
  intros Hok. set (s1 := s <| cs_conn ::= λ t, t <| state_ := kDisConnected |> |>).
  destruct (channel_update_ok disable_all s1 Hok) as (e & E1 & Hok1 & Hw & He & Hp).
  exists e. split; [|done]. unfold handleClose, setState, set_conn, modify, disableAll.
  transitivity ((in_env (channel_update disable_all) ;;
    callback connection_callback_ ;; callback close_callback_) s1); [done|].
  by rewrite (M_bind_ok _ _ _ _ _ E1).
Qed.

Lemma handleError_ok s :
  reactor_ok (cs_env s) →
  ∃ k, handleError call s = handleClose call (s <| cs_env ::= replace_view k |>) ∧
    kview_of k = kview_of (kern s) ∧ reactor_ok (replace_view k (cs_env s)).
Proof.
  intros Hok. destruct (sys_getsockopt_error (sockfd_ (cs_conn s)) (kern s)) as [r k] eqn:Eg.
  pose proof (getsockopt_law _ _ _ _ Eg) as Hv. exists k. split.
  - unfold handleError, conn, gets. mcbn. by rewrite (conn_kernel_ok _ s r k Eg).
  - split; [done|]. apply reactor_kernel; by rewrite ?Hv.
Qed.

(** Of the connection itself, only the input buffer differs. *)
Definition only_input s s' : Prop :=
  cs_conn s' = (cs_conn s) <| input_buffer_ := input_buffer_ (cs_conn s') |>.

(** One [readv], and what follows from its answer. *)
Lemma conn_read_ok receive_time s :
  conn_ok s → room_for (input_buffer_ (cs_conn s)) extra_buffer_size →
  let a := (sys_readv (sockfd_ (cs_conn s)) (read_vec (input_buffer_ (cs_conn s))) (kern s)).1 in
  ∃ s1, handleRead call call_message receive_time s =
      (if a is RdOk (_ :: _) then message_callback s receive_time else handleClose call) s1 ∧
    conn_ok s1 ∧ stream s1 = stream s ∧ only_input s s1 ∧
    content (input_buffer_ (cs_conn s1)) =
      content (input_buffer_ (cs_conn s)) ++ (if a is RdOk bs then bs else []) ∧
    channel_events (cs_env s1) = channel_events (cs_env s) ∧ posted (cs_env s1) = posted (cs_env s) ∧
    kview_of (kern s1) = kview_of (kern s).
Proof.
  intros Hok Hroom. pose proof (read_vec_sum _ (ck_input _ Hok)) as [Hsum _].
  pose proof (readFd_ok (sockfd_ (cs_conn s)) 0 (kern s) _ (ck_input _ Hok) Hroom) as Hrd.
  destruct (sys_readv _ _ _) as [a k] eqn:Er. pose proof (readv_law _ _ _ _ _ Hsum Er) as [Hv _].
  destruct (kernel_view_ok s k Hok) as (Hok1 & He1 & Hp1 & Ht1 & Hk1); [by rewrite Hv..|].
  (* the state after the read, with input buffer [b] *)
  set (after b := s <| cs_env ::= replace_view k |> <| cs_conn ::= λ t, t <| input_buffer_ := b |> |>).
  assert (∀ b, buffer_wf b → conn_ok (after b) ∧ stream (after b) = stream s) as Hafter.
  { intros b Hb. split; [split; [apply Hok1|exact Hb|apply Hok|apply Hok1]|].
    unfold stream, sent. change (view (cs_env (after b)) : K) with (kern (s <| cs_env ::= replace_view k |>)).
    by rewrite Hk1, Hv. }
  assert (∀ b, kview_of (kern (after b)) = kview_of (kern s)) as Hkern.
  { intros b. change (kview_of (kern (s <| cs_env ::= replace_view k |>)) = kview_of (kern s)). by rewrite Hk1. }
  assert (∀ n err b, readFd (sockfd_ (cs_conn s)) 0 (kern s, input_buffer_ (cs_conn s)) = Ok ((n, err), (k, b)) →
    handleRead call call_message receive_time s =
      (if 0 <? n then message_callback s receive_time
       else if n =? 0 then handleClose call else handleError call) (after b)) as Hstart.
  { intros n err b Hb. unfold handleRead, conn, gets. mcbn. unfold in_input. mcbn. rewrite Hb. mcbn.
    by destruct (0 <? n). }
  simpl. destruct a as [bs|errno].
  - destruct Hrd as (b & Hb & Hwf & Hcb & _). destruct (Hafter b Hwf) as [Hok2 Hst2].
    rewrite (Hstart _ _ _ Hb). exists (after b). split; [destruct bs as [|b0 bs]; [done|]|].
    2: { do 3 (split; [done|]). split; [exact Hcb|]. do 2 (split; [done|]). by apply Hkern. }
    rewrite (proj2 (Z.ltb_lt 0 (zlen (b0 :: bs)))); [done|]. unfold zlen. simpl. lia.
  - destruct (Hafter (input_buffer_ (cs_conn s)) (ck_input _ Hok)) as [Hok2 Hst2].
    rewrite (Hstart _ _ _ Hrd). change (0 <? -1) with false. change (-1 =? 0) with false. cbv iota.
    set (s1 := after (input_buffer_ (cs_conn s))) in *.
    destruct (handleError_ok s1 (ck_env _ Hok2)) as (k2 & Ee & Hv2 & Hr2).
    exists (s1 <| cs_env ::= replace_view k2 |>). split; [done|].
    destruct (kernel_view_ok s1 k2 Hok2) as (Hok3 & He3 & Hp3 & _ & Hk3); [by rewrite Hv2..|].
    split; [done|]. split; [|split; [by destruct s as [[] ?]|]].
    + rewrite <- Hst2. unfold stream, sent. by rewrite Hk3, Hv2.
    + split; [by rewrite app_nil_r|]. split; [exact (eq_trans He3 He1)|]. split; [exact (eq_trans Hp3 Hp1)|].
      rewrite Hk3, Hv2. apply Hkern.
Qed.

(** C26: Reading.  [handleRead] does one [readv].  Bytes are appended to the input
    buffer, in order, and the message callback is called, once, after that; at
    the end of the stream the connection is closed; when the read fails, for
    whatever reason, the connection is closed as well. *)
Theorem handleRead_spec receive_time s :
  conn_ok s → room_for (input_buffer_ (cs_conn s)) extra_buffer_size →
  match sys_readv (sockfd_ (cs_conn s)) (read_vec (input_buffer_ (cs_conn s))) (kern s) with
  | (RdOk [], k) => ∃ s1, handleRead call call_message receive_time s = handleClose call s1 ∧
      conn_ok s1 ∧ stream s1 = stream s ∧ only_input s s1 ∧
      content (input_buffer_ (cs_conn s1)) = content (input_buffer_ (cs_conn s))
  | (RdOk bs, k) => ∃ s1, handleRead call call_message receive_time s = message_callback s receive_time s1 ∧
      conn_ok s1 ∧ stream s1 = stream s ∧ only_input s s1 ∧
      content (input_buffer_ (cs_conn s1)) = content (input_buffer_ (cs_conn s)) ++ bs
  | (RdErr errno, k) => ∃ s1, handleRead call call_message receive_time s = handleClose call s1 ∧
      conn_ok s1 ∧ stream s1 = stream s ∧ only_input s s1 ∧
      content (input_buffer_ (cs_conn s1)) = content (input_buffer_ (cs_conn s))
  end.
Proof.
  intros Hok Hroom. destruct (conn_read_ok receive_time s Hok Hroom) as (s1 & E1 & H1 & H2 & H3 & H4 & _).
  destruct (sys_readv _ _ _) as [[[|b bs]|errno] k]; exists s1; by rewrite ?app_nil_r in H4.
Qed.

(** [connectionEstablished] up to its callback. *)
Lemma connectionEstablished_ok s :
  reactor_ok (cs_env s) →
  ∃ e, connectionEstablished call s =
         callback connection_callback_ (mkConnState ((cs_conn s) <| state_ := kConnected |>) e) ∧
    reactor_ok e ∧ same_wire (cs_env s) e ∧
    channel_events e = enable_reading (channel_events (cs_env s)) ∧ posted e = posted (cs_env s).
Proof.
  intros Hok. set (s1 := s <| cs_conn ::= λ t, t <| state_ := kConnected |> |>).
  destruct (channel_tie_law (cs_env s1) Hok) as (e1 & E1 & Hok1 & Hw1 & He1 & Hp1).
  destruct (channel_update_ok enable_reading (s1 <| cs_env := e1 |>)) as (e2 & E2 & Hok2 & Hw2 & He2 & Hp2).
  { exact Hok1. }
  exists e2. split; [|split; [done|split; [by eapply same_wire_trans|split; [by rewrite He2; simpl; rewrite He1|by rewrite Hp2]]]].
  unfold connectionEstablished, setState, set_conn, modify, enableReading.
  transitivity ((in_env channel_tie ;; in_env (channel_update enable_reading) ;;
    callback connection_callback_) s1); [done|].
  rewrite (M_bind_ok _ _ _ _ _ (in_env_ok _ s1 _ _ E1)). by rewrite (M_bind_ok _ _ _ _ _ E2).
Qed.

(** When the application is told that a connection is up or down.
    [connectionEstablished] makes the connection connected, ties the channel to
    it and asks for read events before it calls the connection callback;
    [handleClose] makes it disconnected and asks for no events before it calls
    the connection callback and then the close callback; [connectionDestroyed]
    calls the connection callback only when the connection was not closed
    before, and always takes the channel off the poller at the end.
    [handleClose] has no guard of its own: called again, it calls both callbacks
    again. *)
Theorem lifecycle_callbacks s :
  reactor_ok (cs_env s) →
  (∃ e, connectionEstablished call s =
          callback connection_callback_ (mkConnState ((cs_conn s) <| state_ := kConnected |>) e) ∧
        reactor_ok e ∧ same_wire (cs_env s) e ∧ isReading (channel_events e) = true ∧
        isWriting (channel_events e) = channel_isWriting s) ∧
  (∃ e, handleClose call s =
          (callback connection_callback_ ;; callback close_callback_)
            (mkConnState ((cs_conn s) <| state_ := kDisConnected |>) e) ∧
        reactor_ok e ∧ same_wire (cs_env s) e ∧ channel_events e = kNoneEvent) ∧
  (∃ e, connectionDestroyed call s =
          (if giving_up (cs_conn s) && bool_decide (state_ (cs_conn s) = kDisConnected) ||
              bool_decide (state_ (cs_conn s) = kConnecting)
           then in_env channel_remove s
           else (callback connection_callback_ ;; in_env channel_remove)
                  (mkConnState ((cs_conn s) <| state_ := kDisConnected |>) e)) ∧
        reactor_ok e ∧ same_wire (cs_env s) e ∧ channel_events e = kNoneEvent).
Proof.
  intros Hok. split; [|split].
  - destruct (connectionEstablished_ok s Hok) as (e & E1 & H1 & H2 & H3 & _). exists e. do 3 (split; [done|]).
    rewrite H3, isReading_enable, isWriting_enable_reading. done.
  - destruct (handleClose_ok s Hok) as (e & E1 & H1 & H2 & H3 & _). by exists e.
  - set (s1 := s <| cs_conn ::= λ t, t <| state_ := kDisConnected |> |>).
    destruct (channel_update_ok disable_all s1 Hok) as (e & E1 & Hok1 & Hw & He & Hp).
    exists e. split; [|done]. unfold connectionDestroyed, conn, gets. mcbn. unfold giving_up.
    assert (∀ m : M S unit, (setState kDisConnected ;; disableAll ;; m) s = m (s1 <| cs_env := e |>)) as Eq.
    { intros m. unfold setState, set_conn, modify, disableAll.
      transitivity ((in_env (channel_update disable_all) ;; m) s1); [done|].
      by rewrite (M_bind_ok _ _ _ _ _ E1). }
    destruct (state_ (cs_conn s)); simpl when; try done;
      change (((setState kDisConnected ;; disableAll ;; callback connection_callback_) ;;
               in_env channel_remove) s =
              (callback connection_callback_ ;; in_env channel_remove) (s1 <| cs_env := e |>));
      unfold mbind at 1, M_bind at 1; by rewrite Eq.
Qed.
End lifecycle.

(** ** Witnesses

    The smallest surroundings that keep the promises: a kernel, a mask, a queue. *)

Record DemoEnv : Type := mkDemoEnv {
  de_kernel : scripted;
  de_events : Z;
  de_posted : list ConnFunctor;
  de_inLoop : bool
}.

#[export] Instance demo_reactor : Reactor scripted DemoEnv := {|
  re_kernel := {| view := de_kernel;
                  replace_view k e := mkDemoEnv k (de_events e) (de_posted e) (de_inLoop e) |};
  channel_events := de_events;
  channel_update f := modify (λ e, mkDemoEnv (de_kernel e) (f (de_events e)) (de_posted e) (de_inLoop e));
  channel_tie := mret tt;
  channel_remove := mret tt;
  loop_isInLoopThread := de_inLoop;
  loop_queueInLoop f :=
    modify (λ e, mkDemoEnv (de_kernel e) (de_events e) (de_posted e ++ [f]) (de_inLoop e))
|}.

#[export] Instance demo_reactor_laws : ReactorLaws scripted DemoEnv.
Proof.
  refine {| reactor_ok := λ _, True; posted := de_posted |}; try done.
  - split; [done..|by intros []].
  - intros f e _. eexists. by repeat split.
  - intros e _. eexists. by repeat split.
  - intros e _. eexists. by repeat split.
  - intros f e _. eexists. by repeat split.
Defined.

(** A connected connection on descriptor 9, with callbacks 1 to 5 and a high
    water mark of 4 bytes. *)
Definition demo_buffer : Buffer := mkBuffer (replicate 24 x00) 8 8.
Definition demo_conn : TcpConnection nat :=
  mkTcpConnection kConnected false 9 (SockaddrIn 2 0 0) (SockaddrIn 2 0 0) demo_buffer demo_buffer 4
    (Some 1%nat) (Some 2%nat) (Some 3%nat) (Some 4%nat) (Some 5%nat) "c" false 0 0 0.
Abbreviation DemoConn := (ConnState DemoEnv nat).
Definition demo_on (k : scripted) (inLoop : bool) : DemoConn :=
  mkConnState demo_conn (mkDemoEnv k kReadEvent [] inLoop).

Lemma demo_buffer_wf : buffer_wf demo_buffer.
Proof. by split; vm_compute. Qed.
Lemma demo_ok k b : conn_ok (demo_on k b).
Proof. split; [done|apply demo_buffer_wf..|done]. Qed.
Lemma demo_streaming k :
  kv_shut (kview_of k) = ∅ → streaming (demo_on k true).
Proof.
  intros Hk. split; [apply demo_ok|done|by left|done|done|].
  unfold half_closed. simpl in *. rewrite Hk. by intros ?%not_elem_of_empty.
Qed.

(** A kernel that takes two bytes, then one, then everything. *)
Definition stingy : scripted := idle_kernel <| sk_writes := [WrOk 2; WrOk 1] |>.
Definition demo_stream_ops : list ByteStream.op :=
  [ByteStream.Send [x61; x62; x63; x64]; ByteStream.Send [x65]; ByteStream.Writable;
   ByteStream.Shutdown; ByteStream.Send [x66]; ByteStream.Writable].

Lemma stream_refines_witness :
  ∃ s' bs, for_each run_stream_op demo_stream_ops (demo_on stingy true) = Ok (tt, s') ∧
    streaming s' ∧ ByteStream.accepts true true demo_stream_ops bs ∧
    stream s' = stream (demo_on stingy true) ++ bs.
Proof.
  apply (stream_refines true demo_stream_ops (demo_on stingy true)).
  - by apply demo_streaming.
  - by vm_compute.
  - done.
Defined.

(** The demo connection with two bytes that wait while it closes; a kernel that
    takes everything. *)
Definition demo_waiting : DemoConn :=
  mkConnState
    (demo_conn <| state_ := kDisConnecting |> <| output_buffer_ := mkBuffer (replicate 24 x00) 8 10 |>)
    (mkDemoEnv idle_kernel 7 [] true).
Lemma waiting_buffer_wf : buffer_wf (mkBuffer (replicate 24 x00) 8 10).
Proof. by split; vm_compute. Qed.
Lemma demo_waiting_ok : conn_ok demo_waiting.
Proof. split; [done|apply demo_buffer_wf|apply waiting_buffer_wf|done]. Qed.
Lemma demo_waiting_streaming : streaming demo_waiting.
Proof.
  split; [apply demo_waiting_ok|done|by right|done|done|].
  unfold half_closed. simpl. by intros ?%not_elem_of_empty.
Qed.

(** A kernel that takes all of every [write] and is at the end of every file. *)
Definition eager_kernel : Kernel scripted := {|
  kview_of := sk_view;
  sys_readv := scripted_readv;
  sys_write fd data k := scripted_write fd data (k <| sk_writes := [] |>);
  sys_sendfile out src off count k := (WrOk 0, off, k <| sk_view ::= kv_send out [] |>);
  sys_shutdown fd k := (0, k <| sk_view ::= kv_shutdown fd |>);
  sys_getsockopt_error := sys_getsockopt_error;
  sys_epoll_ctl := sys_epoll_ctl;
  sys_epoll_wait := sys_epoll_wait;
  sys_eventfd_write := sys_eventfd_write;
  sys_eventfd_read := sys_eventfd_read;
  sys_timerfd_settime := sys_timerfd_settime;
  sys_timerfd_read := sys_timerfd_read;
  sys_steady_now := sys_steady_now;
  sys_system_now := sys_system_now;
  sys_accept4 := sys_accept4;
  sys_getsockname := sys_getsockname;
  sys_listen := sys_listen;
  sys_bind := sys_bind;
  sys_setsockopt := sys_setsockopt;
  sys_close := sys_close
|}.
Lemma eager_laws : KernelLaws (Kernel0 := eager_kernel) scripted.
Proof.
  split; simpl; try apply scripted_laws.
  - intros fd data k a k' Hw.
    exact (write_law (Kernel0 := scripted_kernel) fd data (k <| sk_writes := [] |>) a k' Hw).
  - intros out src off count k a off' k' Hc [= <- <- <-]. split; [lia|]. split; [lia|]. by exists [].
Qed.
Definition eager_reactor_laws : ReactorLaws (Kernel0 := eager_kernel) scripted DemoEnv.
Proof.
  refine (@Build_ReactorLaws _ _ eager_kernel _ _ (λ _, True) de_posted _ _ _ _ _); try done.
  - intros f e _. eexists. by repeat split.
  - intros e _. eexists. by repeat split.
  - intros e _. eexists. by repeat split.
  - intros f e _. eexists. by repeat split.
Defined.

Lemma eager_takes data fd k :
  data ≠ [] → 1 ≤ taken (sys_write (Kernel := eager_kernel) fd data k).1.
Proof. destruct data; [done|]. intros _. simpl. unfold zlen. simpl. lia. Qed.

Lemma drain_finishes_witness :
  ∃ s', for_each (λ _, handleWrite (Kernel0 := eager_kernel)) (seq 0 2) demo_waiting = Ok (tt, s') ∧
    content (output_buffer_ (cs_conn s')) = [] ∧
    sent (Kernel0 := eager_kernel) s' = stream (Kernel0 := eager_kernel) demo_waiting ∧
    channel_isWriting s' = false ∧
    (state_ (cs_conn demo_waiting) = kDisConnecting → half_closed (Kernel0 := eager_kernel) s').
Proof.
  assert (@streaming _ _ _ eager_kernel _ eager_reactor_laws demo_waiting) as Hs.
  { split; [split; [done|apply demo_buffer_wf|apply waiting_buffer_wf|done]|done|by right|done|done|].
    unfold half_closed. simpl. by intros ?%not_elem_of_empty. }
  apply (@drain_finishes _ _ _ eager_kernel eager_laws _ eager_reactor_laws demo_waiting Hs).
  - done.
  - intros data k. apply eager_takes.
  - done.
Defined.

(** Two of seven bytes are taken; the five that wait reach the mark of four. *)
Lemma sendInLoop_posts_witness :
  ∃ s', sendInLoop [x61; x62; x63; x64; x65; x66; x67] (demo_on stingy true) = Ok (tt, s') ∧
    posted (cs_env s') = [HighWaterMark].
Proof.
  destruct (sendInLoop_posts [x61; x62; x63; x64; x65; x66; x67] (demo_on stingy true))
    as (s' & E1 & _ & Hp); [apply demo_ok|by vm_compute|].
  exists s'. split; [done|]. rewrite (Hp eq_refl). vm_compute in E1. injection E1 as <-. by vm_compute.
Defined.


(** Ten bytes of a file are left to send. *)
Definition demo_sending (k : scripted) : DemoConn :=
  mkConnState
    (demo_conn <| sending_file := true |> <| fd_to_send_ := 11 |> <| fd_offset_ := 100 |> <| count_ := 10 |>)
    (mkDemoEnv k 7 [] true).

Lemma sendFileInLoop_step_witness :
  ∃ s', sendFileInLoop (demo_sending (idle_kernel <| sk_sendfiles := [WrOk 4] |>)) = Ok (tt, s') ∧
    file_sent (WrOk 4) (demo_sending (idle_kernel <| sk_sendfiles := [WrOk 4] |>)) s' ∧
    (sending_file (cs_conn s') = true → 0 < 10 → fd_offset_ (cs_conn s') + count_ (cs_conn s') = 100 + 10).
Proof.
  destruct (sendFileInLoop_step (demo_sending (idle_kernel <| sk_sendfiles := [WrOk 4] |>)))
    as (s' & E1 & Hf & Hs); [done|done|done|by vm_compute|].
  exists s'. split; [exact E1|]. split; [exact Hf|exact Hs].
Defined.

Lemma sendFile_past_end_spins_witness :
  ∃ s', for_each (λ _, handleWrite (Kernel0 := eager_kernel)) (seq 0 1000) (demo_sending idle_kernel) = Ok (tt, s') ∧
    sending_file (cs_conn s') = true ∧ count_ (cs_conn s') = 10 ∧
    channel_isWriting s' = true ∧ posted (cs_env s') = [].
Proof.
  apply (@sendFile_past_end_spins _ _ _ eager_kernel eager_laws _ eager_reactor_laws 1000 (demo_sending idle_kernel)).
  - done.
  - done.
  - done.
  - done.
  - apply demo_buffer_wf.
  - done.
  - by vm_compute.
  - intros k. by eexists.
Defined.

Lemma sendFile_strands_output_witness :
  ∃ s', sendFile 11 0 10
      (mkConnState (demo_conn <| output_buffer_ := mkBuffer (replicate 24 x00) 8 10 |>)
                   (mkDemoEnv idle_kernel 7 [] true)) = Ok (tt, s') ∧
    content (output_buffer_ (cs_conn s')) = [x00; x00] ∧ channel_isWriting s' = false ∧
    handleWrite s' = Ok (tt, s').
Proof.
  destruct (sendFile_strands_output 11 0 10
    (mkConnState (demo_conn <| output_buffer_ := mkBuffer (replicate 24 x00) 8 10 |>)
                 (mkDemoEnv idle_kernel 7 [] true))) as (s' & E1 & Ho & Hw).
  - split; [done|apply demo_buffer_wf|apply waiting_buffer_wf|done].
  - done.
  - done.
  - done.
  - by vm_compute.
  - done.
  - exists s'. split; [exact E1|]. split; [exact Ho|exact Hw].
Defined.

(** A kernel with three bytes to read. *)
Definition readable : scripted := idle_kernel <| sk_reads := [RdOk [x61; x62; x63]] |>.
Definition demo_call (c : nat) : M DemoConn unit := mret tt.
Lemma handleRead_spec_witness :
  ∃ s1, handleRead demo_call (λ c _, demo_call c) 7 (demo_on readable true) = demo_call 5%nat s1 ∧
    conn_ok s1 ∧ stream s1 = stream (demo_on readable true) ∧ only_input (demo_on readable true) s1 ∧
    content (input_buffer_ (cs_conn s1)) = [x61; x62; x63].
Proof.
  destruct (handleRead_spec demo_call (λ c _, demo_call c) 7 (demo_on readable true))
    as (s1 & E1 & Hr); [apply demo_ok|by vm_compute|].
  exists s1. split; [exact E1|exact Hr].
Defined.

Lemma lifecycle_callbacks_witness :
  (∃ e, connectionEstablished demo_call (demo_on idle_kernel true) =
          callback_opt demo_call connection_callback_ (mkConnState demo_conn e) ∧
        isReading (channel_events e) = true) ∧
  (∃ e, handleClose demo_call (demo_on idle_kernel true) =
          (callback_opt demo_call connection_callback_ ;; callback_opt demo_call close_callback_)
            (mkConnState (demo_conn <| state_ := kDisConnected |>) e) ∧
        channel_events e = kNoneEvent) ∧
  (∃ e, connectionDestroyed demo_call (demo_on idle_kernel true) =
          (callback_opt demo_call connection_callback_ ;; in_env channel_remove)
            (mkConnState (demo_conn <| state_ := kDisConnected |>) e) ∧
        channel_events e = kNoneEvent).
Proof.
  destruct (lifecycle_callbacks demo_call (demo_on idle_kernel true))
    as ((e1 & H1 & _ & _ & H1' & _) & (e2 & H2 & _ & _ & H2') & (e3 & H3 & _ & _ & H3')); [done|].
  split; [by exists e1|]. split; [by exists e2|by exists e3].
Defined.
