(* ===== verification/LoopReactor.v ===== *)
(** * The event loop as the surroundings of a connection

    [TcpConnection.v] is written against the interface [Reactor]; here the event
    loop of EventLoop.v, with any poller that keeps [PollerLaws], implements it
    for a connection whose channel is at address [p], and the laws are proved
    from those of the loop and of the poller.  The last part runs a connection on
    a loop over epoll, from the events the kernel reports to the callbacks. *)

From Stdlib Require Import Init.Byte.
From S2P Require Import Prelude Kernel Buffer TimerQueue Channel Poller EventLoop TcpConnection.

Section loop_reactor.
Context {K O T P U CB : Type} `{!Kernel K} `{!Poller K (Handler O) T P}.
Abbreviation S := (LoopState K O T P U CB).
(** The address of the channel, the owner it is tied to, and how the functors of
    this connection are named in the queue of the loop. *)
Variable p : positive.
Variable owner : T.
Variable post : ConnFunctor → U.
Variable unpost : U → option ConnFunctor.

#[local] Instance kernel_of_loop : Lens S K := {|
  view := ls_kernel;
  replace_view k s := s <| ls_kernel := k |>
|}.

Definition tie_channel : M S unit :=
  c ← the_channel p; modify (λ s : S, s <| ls_channels ::= <[p := tie owner c]> |>).

Definition loop_reactor : Reactor K S := {|
  re_kernel := kernel_of_loop;
  channel_events s := match ls_channels s !! p with Some c => events_ c | None => 0 end;
  channel_update := change_events p;
  channel_tie := tie_channel;
  channel_remove := removeChannel p;
  loop_isInLoopThread := isInLoopThread;
  loop_queueInLoop f := EventLoop.queueInLoop (Task (post f))
|}.

Context `{!KernelLaws K} `{!PollerLaws K (Handler O) T P}.
Hypothesis unpost_post : ∀ f, unpost (post f) = Some f.

(** The functors of this connection in the queue. *)
Definition functor_of (f : Functor U) : option ConnFunctor :=
  match f with Task u => unpost u | _ => None end.
Definition posted_to (s : S) : list ConnFunctor := omap functor_of (pendingFunctors_ (ls_loop s)).

(** The loop polls, the channel exists, and the eventfd has a counter. *)
Definition loop_reactor_ok (s : S) : Prop :=
  polls s ∧ is_Some (ls_channels s !! p) ∧ 0 ≤ wakeup_count s.

Lemma poller_only_keeps (s s' : S) :
  poller_only s s' → same_io (kview_of (ls_kernel s)) (kview_of (ls_kernel s')) →
  wakeup_count s' = wakeup_count s ∧ posted_to s' = posted_to s ∧
  isInLoopThread s' = isInLoopThread s.
Proof.
  intros [x ->] (_ & _ & Hev & _). split; [|done].
  unfold wakeup_count, counter_of. simpl in *. by rewrite Hev.
Qed.

(** What a step of the poller on the channel means to the connection. *)
Lemma poller_step_laws (s s' : S) c' :
  loop_reactor_ok s → polls s' → poller_only s s' →
  same_io (kview_of (ls_kernel s)) (kview_of (ls_kernel s')) →
  ls_channels s' = <[p := c']> (ls_channels s) →
  loop_reactor_ok s' ∧ same_wire (Reactor0 := loop_reactor) s s' ∧
  channel_events (Reactor := loop_reactor) s' = events_ c' ∧ posted_to s' = posted_to s.
Proof.
  intros (_ & _ & Hw) Hp' Ho Hio Hch. destruct (poller_only_keeps s s' Ho Hio) as (Hw' & Hpo & Ht).
  split; [split; [done|split; [rewrite Hch, lookup_insert_eq; by eexists|lia]]|].
  split; [by split; [apply Hio|apply Hio|]|]. split; [|done].
  simpl. by rewrite Hch, lookup_insert_eq.
Qed.

Definition loop_reactor_laws : ReactorLaws (Reactor0 := loop_reactor) K S.
Proof.
  refine {| reactor_ok := loop_reactor_ok; posted := posted_to |}.
  - split; [done|done|by intros [? ? ? ? ? ? []]].
  - intros s k (Hp & Hc & Hw) Hi Hev. simpl in *.
    destruct (polls_kernel k s Hp Hi) as [Hp' _]. split; [|done].
    split; [done|]. split; [done|]. unfold wakeup_count, counter_of in *. simpl. by rewrite Hev.
  - intros f s Hok. assert (Hok' := Hok). destruct Hok' as (Hp & [c Hc] & Hw).
    destruct (change_events_ok p c f s Hp Hc) as (s' & i & E & Hp' & Ho & Hch & Hio & _).
    exists s'. split; [exact E|].
    destruct (poller_step_laws s s' _ Hok Hp' Ho Hio Hch) as (H1 & H2 & H3 & H4).
    split; [done|]. split; [done|]. split; [|done]. rewrite H3. simpl. by rewrite Hc.
  - intros s Hok. assert (Hok' := Hok). destruct Hok' as (Hp & [c Hc] & Hw).
    destruct (set_callbacks_ok p c (tie owner c) s Hp Hc) as [Hp' _]; [done..|].
    eexists. split; [simpl; unfold tie_channel; by rewrite (M_bind_ok _ _ _ _ _ (the_channel_ok p c s Hc))|].
    split; [split; [done|split; [simpl; rewrite lookup_insert_eq; by eexists|done]]|].
    split; [by split|]. split; [|done]. simpl. by rewrite lookup_insert_eq, Hc.
  - intros s Hok. assert (Hok' := Hok). destruct Hok' as (Hp & [c Hc] & Hw).
    destruct (removeChannel_ok p c s Hp Hc) as (s' & i & E & Hp' & Ho & Hch & Hio & _).
    exists s'. split; [exact E|].
    destruct (poller_step_laws s s' _ Hok Hp' Ho Hio Hch) as (H1 & H2 & H3 & H4).
    split; [done|]. split; [done|]. split; [|done]. rewrite H3. simpl. by rewrite Hc.
  - intros f s (Hp & Hc & Hw).
    destruct (queueInLoop_ok (Task (post f)) s Hw) as (k & E & _ & _ & Hmono & Hs & Hsh & Hi).
    eexists. split; [exact E|]. destruct (polls_kernel k s Hp Hi) as [Hp' _].
    split; [split; [|split; [done|unfold wakeup_count in *; simpl; lia]]|].
    { destruct Hp' as (q & Hq & Hok). by exists q. }
    split; [by split|]. split; [done|]. unfold posted_to. simpl.
    rewrite omap_app. simpl. by rewrite unpost_post.
Defined.

(** The events a connection asks for reach the kernel.  Changing [events_]
    through the channel ([enableWriting] and the like), in a loop whose poller
    is in order, returns, and then the kernel watches the connection's
    descriptor for exactly the new events, reporting them to its channel - or
    does not watch it at all when no event is wanted; what is watched for the
    other descriptors, the queue of the loop and the bytes sent are as before. *)
Theorem events_reach_kernel (c : Channel (Handler O) T) (f : Z → Z) (s : S) :
  polls s → ls_channels s !! p = Some c →
  ∃ s', channel_update (Reactor := loop_reactor) f s = Ok (tt, s') ∧ polls s' ∧
    loop_watched s' !! fd_ c =
      (if isNoneEvent (f (events_ c)) then None else Some (EpollEvent (f (events_ c)) p)) ∧
    (∀ fd, fd ≠ fd_ c → loop_watched s' !! fd = loop_watched s !! fd) ∧
    pendingFunctors_ (ls_loop s') = pendingFunctors_ (ls_loop s) ∧
    kv_sent (kview_of (ls_kernel s')) = kv_sent (kview_of (ls_kernel s)).
Proof.
  intros Hp Hc. destruct (change_events_ok p c f s Hp Hc) as (s' & i & E & Hp' & [x ->] & _ & Hio & Hw).
  eexists. split; [exact E|]. split; [done|]. rewrite Hw. split; [|split; [|split; [done|apply Hio]]].
  - destruct (isNoneEvent _); [apply lookup_delete_eq|apply lookup_insert_eq].
  - intros fd Hfd. destruct (isNoneEvent _); [by rewrite lookup_delete_ne|by rewrite lookup_insert_ne].
Qed.
End loop_reactor.

(** ** A connection on a loop over epoll *)

(** The queue holds the functors of the connection, and a note for every call of
    an application callback. *)
Abbreviation AppTask := (ConnFunctor + nat)%type.
Abbreviation AppLoop := (LoopState scripted ConnHandler unit EPollPoller AppTask nat).
#[local] Instance app_reactor : Reactor scripted AppLoop := loop_reactor 3 tt inl.
Abbreviation AppConn := (ConnState AppLoop nat).

Definition note_call (c : nat) : M AppConn unit := in_env (EventLoop.queueInLoop (Task (inr c))).

Definition run_conn_handler (h : Handler ConnHandler) (receive_time : Z) : M AppConn unit :=
  match h with
  | Owned ConnRead => TcpConnection.handleRead note_call (λ c _, note_call c) receive_time
  | Owned ConnWrite => handleWrite
  | Owned ConnClose => handleClose note_call
  | Owned ConnError => handleError note_call
  | _ => mret tt
  end.

(** The loop delivers the events of the connection's channel. *)
Definition deliver (receive_time : Z) : M AppConn unit :=
  handleEvent (in_env (the_channel 3)) (λ _, mret true) run_conn_handler
    (λ h, run_conn_handler h receive_time) receive_time.

(** A loop with the connection established: connection callback 1, close
    callback 2. *)
Definition app_blank : AppLoop :=
  mkLoopState idle_kernel ∅ ∅ 0 1 false
    (mkEventLoop [] false false 0 0 None (mkTimerQueue 0 1 [] ∅ ∅ false) 0 1 [] false).
Definition app_setup : M AppLoop unit :=
  make_EventLoop (newDefaultPoller false 3) 4 5 1 2 ;;
  new_channel 3 (setCallbacks (Some (Owned ConnRead)) (Some (Owned ConnWrite)) (Some (Owned ConnClose))
                   (Some (Owned ConnError)) (make_Channel 9)).
Definition app_conn : TcpConnection nat :=
  demo_conn <| state_ := kConnecting |> <| connection_callback_ := Some 1%nat |>
            <| close_callback_ := Some 2%nat |>.
Definition app_run (k : scripted → scripted) (revent : Z) : M AppConn unit :=
  in_env app_setup ;;
  connectionEstablished note_call ;;
  in_env (modify (λ s, s <| ls_kernel ::= k |> <| ls_loop ::= λ l, l <| pendingFunctors_ := [] |> |>)) ;;
  in_env (c ← the_channel 3; new_channel 3 (set_revent revent c)) ;;
  deliver 0.

(** What the application saw, and the channel afterwards. *)
Definition app_calls (s : AppConn) : list nat :=
  omap (λ f, match f with Task (inr c) => Some c | _ => None end) (pendingFunctors_ (ls_loop (cs_env s))).
Definition app_watched (s : AppConn) : bool :=
  match interest_of (kview_of (ls_kernel (cs_env s))) 3 !! 9 with Some _ => true | None => false end.

(** Closing happens once, unless the kernel reports an error with the data.
    A hang-up alone, and an end of stream, close the connection once: one call
    of the connection callback, one of the close callback.  When the kernel
    reports EPOLLIN together with EPOLLERR for a connection that was reset, the
    read callback fails and closes the connection, and then the error callback
    closes it again: both callbacks are called twice.  In every case the kernel
    does not watch the descriptor afterwards. *)
Theorem close_events :
  (∃ s, app_run id EPOLLHUP (mkConnState app_conn app_blank) = Ok (tt, s) ∧
        app_calls s = [1%nat; 2%nat] ∧ app_watched s = false) ∧
  (∃ s, app_run (set_field sk_reads (λ _, [RdOk []])) EPOLLIN (mkConnState app_conn app_blank) = Ok (tt, s) ∧
        app_calls s = [1%nat; 2%nat] ∧ app_watched s = false) ∧
  (∃ s, app_run (set_field sk_reads (λ _, [RdErr ECONNRESET])) (Z.lor EPOLLIN EPOLLERR)
          (mkConnState app_conn app_blank) = Ok (tt, s) ∧
        app_calls s = [1%nat; 2%nat; 1%nat; 2%nat] ∧ app_watched s = false).
Proof. split; [|split]; eexists; (split; [by vm_compute|by vm_compute]). Qed.

(** ** Witness *)

Lemma events_reach_kernel_witness :
  ∃ c s', ls_channels demo_loop !! 2%positive = Some c ∧
    channel_update (Reactor := loop_reactor 2 tt (λ _, 0%nat)) enable_writing demo_loop = Ok (tt, s') ∧ polls s' ∧
    loop_watched s' !! fd_ c = Some (EpollEvent (enable_writing (events_ c)) 2) ∧
    (∀ fd, fd ≠ fd_ c → loop_watched s' !! fd = loop_watched demo_loop !! fd).
Proof.
  destruct (ls_channels demo_loop !! 2%positive) as [c|] eqn:Hc; [|by vm_compute in Hc].
  destruct (events_reach_kernel 2 tt (λ _, 0%nat) c enable_writing demo_loop) as (s' & E & Hp & Hw & Ho & _).
  - apply (co_polls _ _ _ _ _ _ demo_loop_constructed).
  - done.
  - exists c, s'. split; [done|]. split; [exact E|]. split; [done|]. split; [|done].
    rewrite Hw. vm_compute in Hc. injection Hc as <-. done.
Defined.
