(* ===== verification/LoopThreads.v ===== *)
(** * The event loop and the other threads (EventLoop.cc, step by step)

    EventLoop.v runs every operation without interruption.  Here the operations
    of EventLoop.cc that other threads call, and [loop()] itself, are cut at the
    points where threads can interleave: the critical section of [queueInLoop],
    the store to [quit_], the write to the eventfd, the tests of [quit_], the
    wait in [epoll_wait], the swap of the queue, each functor.  What lies
    between two of these points touches no data another thread reads, the
    mutex makes the critical sections atomic, and the atomics are sequentially
    consistent, so that an execution is a sequence of these events.

    A state keeps the [EventLoop] object, whether its eventfd can be read, where
    the loop's thread is, and which threads still owe a [wakeUp()].  The last
    two fields are history: the functors in the order of the critical sections,
    and those that were run.  What a functor or a handler does is any sequence
    of the events named [Own...]: code in the loop's thread may queue functors
    and quit. *)

From S2P Require Import Prelude Kernel TimerQueue Channel Poller EventLoop.

Section threads.
Context {P U : Type}.

(** Where the thread of the loop is. *)
Inductive LoopPc : Type :=
| Entering                                (* about to call loop(), line 192 *)
| Starting                                (* quit_ was tested; lines 194, 195 are next *)
| Testing                                 (* while(!quit_) *)
| Polling                                 (* in poller_->poll(...) *)
| Dispatching (wake : bool)               (* handling channels; is the eventfd's still to come? *)
| Calling (tasks : list (Functor U))      (* for(const auto&task:tasks) *)
| OwnWaking (back : LoopPc)               (* queued a functor itself, about to wakeUp() *)
| Returned.

Record Threads : Type := mkThreads {
  th_loop : EventLoop P U;
  th_readable : bool;                     (* the counter of wakeup_fd_ is not 0 *)
  th_pc : LoopPc;
  th_waking : gset positive;              (* threads about to call wakeUp() *)
  th_posted : list (Functor U);
  th_ran : list (Functor U);
  th_rounds : nat                         (* times doingPendingFunctors() returned *)
}.
#[export] Instance set_th_loop : Setter th_loop := λ f s,
  mkThreads (f (th_loop s)) (th_readable s) (th_pc s) (th_waking s) (th_posted s) (th_ran s) (th_rounds s).
#[global] Arguments set_th_loop _ !_ /.
#[export] Instance set_th_readable : Setter th_readable := λ f s,
  mkThreads (th_loop s) (f (th_readable s)) (th_pc s) (th_waking s) (th_posted s) (th_ran s) (th_rounds s).
#[global] Arguments set_th_readable _ !_ /.
#[export] Instance set_th_pc : Setter th_pc := λ f s,
  mkThreads (th_loop s) (th_readable s) (f (th_pc s)) (th_waking s) (th_posted s) (th_ran s) (th_rounds s).
#[global] Arguments set_th_pc _ !_ /.
#[export] Instance set_th_waking : Setter th_waking := λ f s,
  mkThreads (th_loop s) (th_readable s) (th_pc s) (f (th_waking s)) (th_posted s) (th_ran s) (th_rounds s).
#[global] Arguments set_th_waking _ !_ /.
#[export] Instance set_th_posted : Setter th_posted := λ f s,
  mkThreads (th_loop s) (th_readable s) (th_pc s) (th_waking s) (f (th_posted s)) (th_ran s) (th_rounds s).
#[global] Arguments set_th_posted _ !_ /.
#[export] Instance set_th_ran : Setter th_ran := λ f s,
  mkThreads (th_loop s) (th_readable s) (th_pc s) (th_waking s) (th_posted s) (f (th_ran s)) (th_rounds s).
#[global] Arguments set_th_ran _ !_ /.
#[export] Instance set_th_rounds : Setter th_rounds := λ f s,
  mkThreads (th_loop s) (th_readable s) (th_pc s) (th_waking s) (th_posted s) (th_ran s) (f (th_rounds s)).
#[global] Arguments set_th_rounds _ !_ /.

Inductive event : Type :=
| Push (t : positive) (f : Functor U)     (* queueInLoop, lines 174-177, in thread [t] *)
| StoreQuit (t : positive)                (* quit, line 228, in thread [t] *)
| Wake (t : positive)                     (* the wakeUp() of either *)
| OwnPush (f : Functor U)                 (* queueInLoop in the thread of the loop *)
| OwnQuit                                 (* quit in the thread of the loop *)
| LoopStep                                (* loop() goes on *)
| PollReturns (wake : bool)               (* epoll_wait returns, with or without the eventfd *)
| ReadWakeup                              (* handleRead() *)
| TakeTasks.                              (* doingPendingFunctors, lines 143-151 *)

(** ** The steps *)

(** [pendingFunctors_.emplace_back(cb)] under the lock. *)
Definition push (f : Functor U) (s : Threads) : Threads :=
  s <| th_loop ::= λ l, l <| pendingFunctors_ ::= λ q, q ++ [f] |> |>
    <| th_posted ::= λ fs, fs ++ [f] |>.

Definition store_quit (b : bool) (s : Threads) : Threads :=
  s <| th_loop ::= λ l, l <| quit_ := b |> |>.

(** May the thread of the loop run code of others here? *)
Definition runs_code (pc : LoopPc) : bool :=
  match pc with Dispatching _ | Calling _ => true | _ => false end.

(** [queueInLoop] in the thread of the loop: wake up only when the functors of
    a round are being called. *)
Definition own_push (f : Functor U) (s : Threads) : Threads :=
  let s := push f s in
  if calling_pending_functors_ (th_loop s) then s <| th_pc ::= OwnWaking |> else s.

(** What [loop()] does next by itself. *)
Definition loop_step (s : Threads) : option Threads :=
  match th_pc s with
  | Entering => Some (s <| th_pc := if quit_ (th_loop s) then Returned else Starting |>)
  | Starting => Some (store_quit false (s <| th_loop ::= λ l, l <| looping_ := true |> |> <| th_pc := Testing |>))
  | Testing => Some (if quit_ (th_loop s)
                     then s <| th_loop ::= λ l, l <| looping_ := false |> |> <| th_pc := Returned |>
                     else s <| th_loop ::= λ l, l <| active_channels := [] |> |> <| th_pc := Polling |>)
  | Calling (f :: tasks) => Some (s <| th_pc := Calling tasks |> <| th_ran ::= λ fs, fs ++ [f] |>)
  | Calling [] => Some (s <| th_loop ::= λ l, l <| calling_pending_functors_ := false |> |>
                          <| th_pc := Testing |> <| th_rounds ::= S |>)
  | OwnWaking back => Some (s <| th_readable := true |> <| th_pc := back |>)
  | Polling | Dispatching _ | Returned => None
  end.

(** [calling_pending_functors_=true], and the queue is swapped out. *)
Definition swap_queue (s : Threads) : Threads :=
  s <| th_pc := Calling (pendingFunctors_ (th_loop s)) |>
    <| th_loop ::= λ l, l <| calling_pending_functors_ := true |> <| pendingFunctors_ := [] |> |>.

Definition do_event (e : event) (s : Threads) : option Threads :=
  match e with
  | Push t f => if bool_decide (t ∈ th_waking s) then None
                else Some (push f s <| th_waking ::= union {[t]} |>)
  | StoreQuit t => if bool_decide (t ∈ th_waking s) then None
                   else Some (store_quit true s <| th_waking ::= union {[t]} |>)
  | Wake t => if bool_decide (t ∈ th_waking s)
              then Some (s <| th_readable := true |> <| th_waking ::= λ w, w ∖ {[t]} |>) else None
  | OwnPush f => if runs_code (th_pc s) then Some (own_push f s) else None
  | OwnQuit => if runs_code (th_pc s) then Some (store_quit true s) else None
  | LoopStep => loop_step s
  | PollReturns wake => match th_pc s with
                        | Polling => if wake && negb (th_readable s) then None
                                     else Some (s <| th_pc := Dispatching wake |>)
                        | _ => None
                        end
  | ReadWakeup => match th_pc s with
                  | Dispatching true => Some (s <| th_readable := false |> <| th_pc := Dispatching false |>)
                  | _ => None
                  end
  | TakeTasks => match th_pc s with
                 | Dispatching false => Some (swap_queue s)
                 | _ => None
                 end
  end.

Definition exec (es : list event) (s : Threads) : option Threads :=
  foldl (λ s e, s ≫= do_event e) (Some s) es.

(** A loop whose thread is about to call [loop()], with what its own thread
    queued before. *)
Definition initial (l : EventLoop P U) : Threads :=
  mkThreads l false Entering ∅ (pendingFunctors_ l) [] 0.
End threads.
Arguments LoopPc : clear implicits.
Arguments Threads : clear implicits.
Arguments event : clear implicits.

(** ** Invariants *)

(** Take an event apart: where the thread of the loop is, and the guards. *)
Ltac split_event E :=
  repeat (simpl in E; match type of E with
    | context [match th_pc ?s with _ => _ end] => destruct (th_pc s) eqn:?
    | context [if ?b then _ else _] => destruct b eqn:?
    | context [match ?x with _ => _ end] => is_var x; destruct x
    end); simpl in E; try discriminate E; injection E as <-.

Section invariants.
Context {P U : Type}.
Abbreviation State := (Threads P U).
Implicit Types s : State.

Lemma exec_app (es es' : list (event U)) s : exec (es ++ es') s = exec es s ≫= exec es'.
Proof.
  unfold exec. rewrite foldl_app. destruct (foldl _ _ es) as [s'|]; [done|].
  induction es'; simpl; done.
Qed.

Lemma exec_cons e (es : list (event U)) s : exec (e :: es) s = do_event e s ≫= exec es.
Proof. apply (exec_app [e]). Qed.

Lemma exec_invariant (I : State → Prop) :
  (∀ e s s', I s → do_event e s = Some s' → I s') →
  ∀ es s s', I s → exec es s = Some s' → I s'.
Proof.
  intros Hstep es. induction es as [|e es IH]; intros s s' Hs.
  - by intros [= <-].
  - rewrite exec_cons. destruct (do_event e s) as [s1|] eqn:E; [|done]. simpl. eauto.
Qed.

Abbreviation pending s := (pendingFunctors_ (th_loop s)).
Abbreviation quitting s := (quit_ (th_loop s)).
Abbreviation calling s := (calling_pending_functors_ (th_loop s)).

Definition tasks_of (pc : LoopPc U) : list (Functor U) :=
  match pc with Calling fs | OwnWaking (Calling fs) => fs | _ => [] end.
Definition in_calls (pc : LoopPc U) : bool :=
  match pc with Calling _ | OwnWaking (Calling _) => true | _ => false end.
Definition own_waking (pc : LoopPc U) : bool := match pc with OwnWaking _ => true | _ => false end.
Definition well_placed (pc : LoopPc U) : bool :=
  match pc with OwnWaking (Calling _) => true | OwnWaking _ => false | _ => true end.

(** The next wait will return, or a wake-up is on its way. *)
Definition alarmed s : Prop := th_readable s = true ∨ th_waking s ≠ ∅ ∨ own_waking (th_pc s) = true.

(** Before the first round the functors of the loop's own thread wait silently. *)
Definition first_wait (early : list (Functor U)) s : Prop :=
  early ≠ [] ∧ th_rounds s = 0%nat ∧ in_calls (th_pc s) = false.

(** The places where the queue is watched. *)
Definition watching (pc : LoopPc U) : bool :=
  match pc with Dispatching _ | Returned => false | _ => true end.

(** The flag agrees with the place of the loop's thread. *)
Definition placed s : Prop := calling s = in_calls (th_pc s) ∧ well_placed (th_pc s) = true.

Record threads_inv (early : list (Functor U)) s : Prop := ThreadsInv {
  ti_order : th_posted s = th_ran s ++ tasks_of (th_pc s) ++ pending s;
  ti_placed : placed s;
  ti_queue : watching (th_pc s) = true → pending s ≠ [] → alarmed s ∨ first_wait early s;
  ti_quit : th_pc s = Polling → quitting s = true → alarmed s
}.

Lemma initial_inv (l : EventLoop P U) :
  calling_pending_functors_ l = false → threads_inv (pendingFunctors_ l) (initial l).
Proof. intros Hc. split; try done. intros _ Hp. right. by split. Qed.

Lemma alarm_event e s s' :
  do_event e s = Some s' → alarmed s → alarmed s' ∨ e = ReadWakeup.
Proof.
  unfold alarmed. destruct e; intros E Ha; simpl in E; unfold loop_step, own_push in E; split_event E; simpl in *;
    try (by right); left; try (by left); naive_solver set_solver.
Qed.

Lemma event_placed e s s' : placed s → do_event e s = Some s' → placed s'.
Proof.
  intros [Hc Hp] E. unfold placed.
  destruct e; simpl in E; unfold loop_step, own_push in E; split_event E; simpl in *.
  all: repeat match goal with H : th_pc _ = _ |- _ => rewrite H in * end; simpl in *; try done.
  - destruct (th_pc s); try done; simpl in *; congruence.
  - split; congruence.
  - by destruct l.
Qed.

Lemma event_order e s s' :
  th_posted s = th_ran s ++ tasks_of (th_pc s) ++ pending s → placed s → do_event e s = Some s' →
  th_posted s' = th_ran s' ++ tasks_of (th_pc s') ++ pending s'.
Proof.
  intros Ho [Hc Hp] E. destruct e; simpl in E; unfold loop_step, own_push in E; split_event E; simpl in *.
  all: repeat match goal with H : th_pc _ = _ |- _ => rewrite H in * end; simpl in *.
  all: try (by rewrite ?Ho, ?app_nil_r, <- ?app_assoc).
  - destruct (th_pc s); try done. simpl in *. by rewrite Ho, <- !app_assoc.
  - by destruct l.
Qed.

Lemma event_queue early e s s' :
  threads_inv early s → do_event e s = Some s' →
  watching (th_pc s') = true → pending s' ≠ [] → alarmed s' ∨ first_wait early s'.
Proof.
  intros [Ho [Hc Hp] Hq _] E Hw Hn.
  assert (pending s ≠ [] → watching (th_pc s) = true → alarmed s' ∨ first_wait early s).
  { intros H1 H2. destruct (Hq H2 H1) as [H|H]; [|by right].
    destruct (alarm_event e s s' E H) as [?| ->]; [by left|].
    simpl in E. split_event E. done. }
  clear Hq. unfold alarmed, first_wait in *.
  destruct e; simpl in E; unfold loop_step, own_push in E; split_event E; simpl in *.
  all: repeat match goal with H : th_pc _ = _ |- _ => rewrite H in * end; simpl in *; try done.
  all: try (by left; left).
  all: try (by left; right; right).
  all: try lazymatch goal with |- context [_ ∪ _] => left; right; left; set_solver end.
  all: try (destruct (th_pc s); done).
  all: destruct (H Hn) as [?|(? & ? & ?)]; try done; try (by left); by right.
Qed.

Lemma event_quit early e s s' :
  threads_inv early s → do_event e s = Some s' →
  th_pc s' = Polling → quitting s' = true → alarmed s'.
Proof.
  intros [Ho [Hc Hp] _ Hqq] E Hw Hn.
  assert (th_pc s = Polling → quitting s = true → alarmed s').
  { intros H1 H2. destruct (alarm_event e s s' E (Hqq H1 H2)) as [?| ->]; [done|].
    simpl in E. by rewrite H1 in E. }
  clear Hqq. unfold alarmed in *.
  destruct e; simpl in E; unfold loop_step, own_push in E; split_event E; simpl in *.
  all: repeat match goal with H : th_pc _ = _ |- _ => rewrite H in * end; simpl in *; try done; auto.
  all: try lazymatch goal with |- context [_ ∪ _] => right; left; set_solver end.
  all: try congruence.
Qed.

Lemma event_inv early e s s' :
  threads_inv early s → do_event e s = Some s' → threads_inv early s'.
Proof.
  intros Hi E. split; [by apply (event_order e s); try apply Hi|by apply (event_placed e s); try apply Hi| |];
    [by apply (event_queue early e s)|by apply (event_quit early e s)].
Qed.

Lemma run_inv (l : EventLoop P U) es s :
  calling_pending_functors_ l = false → exec es (initial l) = Some s →
  threads_inv (pendingFunctors_ l) s.
Proof.
  intros Hc. apply exec_invariant; [apply event_inv|by apply initial_inv].
Qed.

(** The functors queued by a sequence of events, in its order. *)
Definition pushed (e : event U) : option (Functor U) :=
  match e with Push _ f | OwnPush f => Some f | _ => None end.

Lemma event_posted e s s' :
  do_event e s = Some s' → th_posted s' = th_posted s ++ option_list (pushed e).
Proof.
  intros E. destruct e; simpl in E; unfold loop_step, own_push in E; split_event E; simpl;
    by rewrite ?app_nil_r.
Qed.

Lemma run_posted es s s' :
  exec es s = Some s' → th_posted s' = th_posted s ++ omap pushed es.
Proof.
  revert s. induction es as [|e es IH]; intros s.
  - intros [= <-]. by rewrite app_nil_r.
  - rewrite exec_cons. destruct (do_event e s) as [s1|] eqn:E; [|done]. simpl. intros Hr.
    rewrite (IH _ Hr), (event_posted _ _ _ E), <- app_assoc. by destruct (pushed e).
Qed.

(** ** Every functor queued is run *)

(** After a further round, all that was posted in [s0] was run. *)
Definition caught_up s0 s : Prop :=
  th_posted s0 `prefix_of` th_posted s ∧
  (th_rounds s = th_rounds s0 ∧
     (in_calls (th_pc s) = true → th_posted s0 `prefix_of` th_ran s ++ tasks_of (th_pc s)) ∨
   (th_rounds s0 < th_rounds s)%nat ∧ th_posted s0 `prefix_of` th_ran s).

Lemma event_caught_up early s0 e s s' :
  threads_inv early s → caught_up s0 s → do_event e s = Some s' → caught_up s0 s'.
Proof.
  intros [Ho [Hc Hp] _ _] [Hpre Hcu] E.
  split; [rewrite (event_posted _ _ _ E); by apply prefix_app_r|].
  destruct e; simpl in E; unfold loop_step, own_push in E; split_event E; simpl in *.
  all: repeat match goal with H : th_pc _ = _ |- _ => rewrite H in * end; simpl in *; try done.
  all: try (by rewrite app_nil_r in Hcu).
  all: try (by destruct Hcu as [[??]|[??]]; [left|right]).
  - destruct (th_pc s); try done; by destruct Hcu as [[??]|[??]]; [left|right].
  - right. rewrite app_nil_r in Hcu. destruct Hcu as [[-> Hcu]|[? ?]]; [|split; [lia|done]].
    split; [lia|by apply Hcu].
  - destruct Hcu as [[? Hcu]|[? ?]]; [left|right].
    + split; [done|]. rewrite <- app_assoc. by apply Hcu.
    + split; [done|by apply prefix_app_r].
  - by destruct l.
  - destruct Hcu as [[? _]|[? ?]]; [left|by right]. split; [done|]. by rewrite Ho in Hpre.
Qed.

(** ** Quitting *)

(** The loop goes round: [quit_] is tested, not reset. *)
Definition going_round (pc : LoopPc U) : bool :=
  match pc with Entering | Starting | Returned => false | _ => true end.

(** The rounds a loop that is asked to quit may still finish. *)
Definition rounds_left (pc : LoopPc U) : nat :=
  match pc with Testing | Returned => 0 | _ => 1 end.

Definition stopping (n : nat) s : Prop :=
  quitting s = true ∧ (going_round (th_pc s) = true ∨ th_pc s = Returned) ∧
  well_placed (th_pc s) = true ∧ (th_rounds s + rounds_left (th_pc s) ≤ n)%nat.

Lemma event_stopping n e s s' :
  placed s → stopping n s → do_event e s = Some s' → stopping n s'.
Proof.
  intros [Hc _] (Hq & Hg & Hp & Hn) E. unfold stopping.
  destruct e; simpl in E; unfold loop_step, own_push in E; split_event E; simpl in *.
  all: repeat match goal with H : th_pc _ = _ |- _ => rewrite H in * end; simpl in *; try done.
  all: try (split; [done|split; [auto|split; [done|lia]]]).
  - destruct (th_pc s); simpl in *; try done; try congruence.
    split; [done|]. split; [by left|]. split; [done|lia].
  - by destruct Hg.
  - destruct l; try done. split; [done|]. split; [by left|]. split; [done|simpl; lia].
Qed.

(** Nobody asks the loop to quit. *)
Definition asks_quit (e : event U) : bool :=
  match e with StoreQuit _ | OwnQuit => true | _ => false end.

Definition unstopped s : Prop := quitting s = false ∧ th_pc s ≠ Returned.

Lemma event_unstopped e s s' :
  placed s → asks_quit e = false → unstopped s → do_event e s = Some s' → unstopped s'.
Proof.
  intros [Hc Hp] He (Hq & Hg) E. unfold unstopped.
  destruct e; try done; simpl in E; unfold loop_step, own_push in E; split_event E; simpl in *.
  all: repeat match goal with H : th_pc _ = _ |- _ => rewrite H in * end; simpl in *; try done.
  all: try congruence.
  by destruct l.
Qed.

(** The loop's own events: no other thread, no functor or handler asks for more. *)
Definition own_event (e : event U) : bool :=
  match e with LoopStep | PollReturns _ | ReadWakeup | TakeTasks => true | _ => false end.

(** [s] comes to an end when the loop's thread is left alone. *)
Definition can_return s : Prop :=
  ∃ es s', Forall (λ e, own_event e = true) es ∧ exec es s = Some s' ∧ th_pc s' = Returned.

Lemma can_return_step e s s' :
  own_event e = true → do_event e s = Some s' → can_return s' → can_return s.
Proof.
  intros He E (es & s1 & Hes & Hx & Hr). exists (e :: es), s1.
  split; [by constructor|]. by rewrite exec_cons, E.
Qed.

Lemma testing_returns s : th_pc s = Testing → quitting s = true → can_return s.
Proof.
  intros Hp Hq. exists [LoopStep]. eexists. split; [by repeat constructor|].
  rewrite exec_cons. simpl. unfold loop_step. rewrite Hp, Hq. done.
Qed.

Lemma calling_returns tasks s : th_pc s = Calling tasks → quitting s = true → can_return s.
Proof.
  revert s. induction tasks as [|f tasks IH]; intros s Hp Hq;
    (eapply (can_return_step LoopStep); [done|simpl; unfold loop_step; by rewrite Hp|]).
  - by apply testing_returns.
  - by apply IH.
Qed.

Lemma dispatching_returns s : th_pc s = Dispatching false → quitting s = true → can_return s.
Proof.
  intros Hp Hq. eapply (can_return_step TakeTasks); [done|simpl; by rewrite Hp|].
  by apply (calling_returns (pending s)).
Qed.

Lemma stopping_returns s :
  well_placed (th_pc s) = true → going_round (th_pc s) = true → quitting s = true → can_return s.
Proof.
  intros Hw Hg Hq. destruct (th_pc s) as [| | | |wake|tasks|back|] eqn:Hp; try done.
  - by apply testing_returns.
  - eapply (can_return_step (PollReturns false)); [done|simpl; by rewrite Hp|].
    by apply dispatching_returns.
  - destruct wake; [|by apply dispatching_returns].
    eapply (can_return_step ReadWakeup); [done|simpl; by rewrite Hp|]. by apply dispatching_returns.
  - by apply (calling_returns tasks).
  - destruct back as [| | | | |tasks| |]; try done.
    eapply (can_return_step LoopStep); [done|simpl; unfold loop_step; by rewrite Hp|].
    by apply (calling_returns tasks).
Qed.

(** The loop's thread alone finishes the round it is in. *)
Definition can_finish_round (n : nat) s : Prop :=
  ∃ es s', Forall (λ e, own_event e = true) es ∧ exec es s = Some s' ∧ th_rounds s' = S n.

Lemma can_finish_round_step n e s s' :
  own_event e = true → do_event e s = Some s' → can_finish_round n s' → can_finish_round n s.
Proof.
  intros He E (es & s1 & Hes & Hx & Hr). exists (e :: es), s1.
  split; [by constructor|]. by rewrite exec_cons, E.
Qed.

Lemma calling_finishes tasks s : th_pc s = Calling tasks → can_finish_round (th_rounds s) s.
Proof.
  revert s. induction tasks as [|f tasks IH]; intros s Hp;
    (eapply (can_finish_round_step _ LoopStep); [done|simpl; unfold loop_step; by rewrite Hp|]).
  - by exists [], (s <| th_loop ::= λ l, l <| calling_pending_functors_ := false |> |>
      <| th_pc := Testing |> <| th_rounds ::= S |>).
  - exact (IH (s <| th_pc := Calling tasks |> <| th_ran ::= λ fs, fs ++ [f] |>) eq_refl).
Qed.

Lemma dispatching_finishes wake s : th_pc s = Dispatching wake → can_finish_round (th_rounds s) s.
Proof.
  assert (∀ s, th_pc s = Dispatching false → can_finish_round (th_rounds s) s) as H.
  { intros s1 Hp. eapply (can_finish_round_step _ TakeTasks); [done|simpl; by rewrite Hp|].
    exact (calling_finishes (pending s1) (swap_queue s1) eq_refl). }
  intros Hp. destruct wake; [|by apply H].
  eapply (can_finish_round_step _ ReadWakeup); [done|simpl; by rewrite Hp|].
  exact (H (s <| th_readable := false |> <| th_pc := Dispatching false |>) eq_refl).
Qed.
End invariants.

(** ** Properties *)

Section properties.
Context {P U : Type}.
Abbreviation State := (Threads P U).
Abbreviation pending s := (pendingFunctors_ (th_loop s)).
Abbreviation quitting s := (quit_ (th_loop s)).

(** C7: No wake-up is lost.  Whatever the threads do, when the loop is in
    [epoll_wait] and no [wakeUp()] is still to be made, work that waits has made
    the eventfd readable: a request to quit always, queued functors from the
    second wait on, and in the first wait unless the loop's own thread queued
    functors before it called [loop()]. *)
Theorem no_lost_wakeup (l : EventLoop P U) (es : list (event U)) (s : State) :
  calling_pending_functors_ l = false → exec es (initial l) = Some s →
  th_pc s = Polling → th_waking s = ∅ →
  (quitting s = true → th_readable s = true) ∧
  (pending s ≠ [] → th_readable s = true ∨ (pendingFunctors_ l ≠ [] ∧ th_rounds s = 0%nat)).
Proof.
  intros Hc E Hp Hw. destruct (run_inv l es s Hc E) as [_ _ Hqu Hqt].
  unfold alarmed, first_wait in *. rewrite Hp, Hw in *. split.
  - intros Hq. by destruct (Hqt eq_refl Hq) as [?|[?|?]].
  - intros Hn. destruct (Hqu eq_refl Hn) as [[?|[?|?]]|(? & ? & _)]; [by left|done|done|by right].
Qed.

(** C15: Functors run once each, in the order of the critical sections that
    queued them, in whatever threads: at every moment those that were run,
    those of the current batch and those in the queue are, in this order, the
    ones queued at first and then the ones queued since. *)
Theorem functors_run_in_order (l : EventLoop P U) (es : list (event U)) (s : State) :
  calling_pending_functors_ l = false → exec es (initial l) = Some s →
  pendingFunctors_ l ++ omap pushed es = th_ran s ++ tasks_of (th_pc s) ++ pending s.
Proof.
  intros Hc E. rewrite <- (ti_order _ _ (run_inv l es s Hc E)). by rewrite (run_posted es _ _ E).
Qed.

(** What is posted before a wait has run after the round. *)
Lemma round_catches_up (l : EventLoop P U) (es es' : list (event U)) (s s' : State) :
  calling_pending_functors_ l = false → exec es (initial l) = Some s → th_pc s = Polling →
  exec es' s = Some s' → (th_rounds s < th_rounds s')%nat →
  th_posted s `prefix_of` th_ran s'.
Proof.
  intros Hc E Hp E' Hr. assert (Hi := run_inv l es s Hc E).
  enough (caught_up s s') as [_ [[? _]|[_ ?]]]; [lia|done|].
  apply (exec_invariant (λ s1, threads_inv (pendingFunctors_ l) s1 ∧ caught_up s s1)) with es' s.
  - intros e s1 s2 [Hi1 Hc1] Es. split; [by apply (event_inv _ e s1)|by apply (event_caught_up _ s e s1 s2 Hi1)].
  - split; [done|]. split; [done|left; split; [done|by rewrite Hp]].
  - done.
Qed.

(** C17: A functor queued before a wait has run by the end of the round that
    follows it, whatever the threads do meanwhile; and that round comes to its
    end: [poll] returns - through the eventfd if it is readable, by its time-out
    otherwise - and then the steps of the loop's own thread finish it. *)
Theorem posted_then_run (l : EventLoop P U) (es : list (event U)) (s : State) :
  calling_pending_functors_ l = false → exec es (initial l) = Some s → th_pc s = Polling →
  (∀ es' s', exec es' s = Some s' → (th_rounds s < th_rounds s')%nat → th_posted s `prefix_of` th_ran s') ∧
  ∃ es' s', Forall (λ e, own_event e = true) es' ∧
    exec (PollReturns (th_readable s) :: es') s = Some s' ∧
    th_rounds s' = S (th_rounds s) ∧ th_posted s `prefix_of` th_ran s'.
Proof.
  intros Hc E Hp. split; [intros es' s'; by apply (round_catches_up l es)|].
  set (s1 := s <| th_pc := Dispatching (th_readable s) |>).
  destruct (dispatching_finishes (th_readable s) s1) as (es' & s' & Hes & Hx & Hr); [done|].
  assert (exec (PollReturns (th_readable s) :: es') s = Some s') as Hx'.
  { rewrite exec_cons. simpl. rewrite Hp. by destruct (th_readable s). }
  exists es', s'. split; [done|]. split; [done|]. split; [done|].
  apply (round_catches_up l es (PollReturns (th_readable s) :: es') s); try done. rewrite Hr. simpl. lia.
Qed.

(** C21: A request to quit that finds the loop going round stops it: the flag
    stays set, at most the round under way is finished, the thread of the loop
    does not wait again without having returned from the wait it was in, and
    left alone it returns from [loop()]. *)
Theorem quit_stops_loop (l : EventLoop P U) (es es' : list (event U)) (s s' : State) :
  calling_pending_functors_ l = false → exec es (initial l) = Some s →
  going_round (th_pc s) = true → quitting s = true → exec es' s = Some s' →
  quitting s' = true ∧ (th_rounds s' ≤ th_rounds s + rounds_left (th_pc s))%nat ∧
  (going_round (th_pc s') = true ∨ th_pc s' = Returned) ∧ can_return s'.
Proof.
  intros Hc E Hg Hq E'. assert (Hi := run_inv l es s Hc E).
  enough (stopping (th_rounds s + rounds_left (th_pc s)) s') as (Hq' & Hg' & Hw & Hn).
  { split; [done|]. split; [lia|]. split; [done|]. destruct Hg' as [Hg'|Hp].
    - by apply stopping_returns.
    - by exists [], s'. }
  apply (exec_invariant (λ s1, threads_inv (pendingFunctors_ l) s1 ∧
    stopping (th_rounds s + rounds_left (th_pc s)) s1)) with es' s.
  - intros e s1 s2 [Hi1 Hc1] Es. split; [by apply (event_inv _ e s1)|].
    apply (event_stopping _ e s1); [apply Hi1|done..].
  - split; [done|]. split; [done|]. split; [by left|]. split; [apply Hi|lia].
  - done.
Qed.

(** C40: A request to quit can be lost.  A thread that calls [quit()] after the
    loop tested the flag (line 192) and before the loop resets it (line 195)
    has its request erased: the loop wakes up, handles the eventfd, and waits
    again with nothing set; and it never returns unless somebody calls [quit()]
    again. *)
Theorem quit_lost (l : EventLoop P U) (t : positive) :
  quit_ l = false → calling_pending_functors_ l = false → pendingFunctors_ l = [] →
  ∃ s, exec [LoopStep; StoreQuit t; Wake t; LoopStep; LoopStep; PollReturns true; ReadWakeup;
             TakeTasks; LoopStep; LoopStep] (initial l) = Some s ∧
    th_pc s = Polling ∧ quitting s = false ∧ th_readable s = false ∧ th_waking s = ∅ ∧
    ∀ es s', Forall (λ e, asks_quit e = false) es → exec es s = Some s' → th_pc s' ≠ Returned.
Proof.
  intros Hq Hc Hp.
  assert (∃ s, exec [LoopStep; StoreQuit t; Wake t; LoopStep; LoopStep; PollReturns true; ReadWakeup;
             TakeTasks; LoopStep; LoopStep] (initial l) = Some s ∧
    th_pc s = Polling ∧ quitting s = false ∧ th_readable s = false ∧ th_waking s = ∅)
    as (s & E & Hpc & Hqs & Hr & Hw).
  { unfold exec. simpl. unfold loop_step. simpl. rewrite Hq. simpl.
    rewrite bool_decide_eq_false_2 by set_solver. simpl.
    rewrite bool_decide_eq_true_2 by set_solver. simpl. rewrite Hp. simpl.
    eexists. split; [done|]. simpl. do 3 (split; [done|]). set_solver. }
  exists s. do 5 (split; [done|]). intros es s' Hes E'.
  enough (unstopped s') as [_ Hg] by done.
  assert (Hi := ti_placed _ _ (run_inv l _ s Hc E)). clear E.
  assert (unstopped s) as Hu by (split; [done|by rewrite Hpc]). clear Hpc Hqs Hr Hw.
  revert s Hi Hu E'. induction Hes as [|e es He _ IH]; intros s Hi Hu E'.
  - by injection E' as <-.
  - rewrite exec_cons in E'. destruct (do_event e s) as [s1|] eqn:E1; [|done].
    apply (IH s1); [by apply (event_placed e s)|by apply (event_unstopped e s _ Hi)|done].
Qed.
End properties.

(** ** The operations of EventLoop.v are these events *)

Section sequential.
Context {K O T P U CB : Type} `{!Kernel K, !KernelLaws K}.
Abbreviation S := (LoopState K O T P U CB).

(** What the threads see of a loop: its object, and whether its eventfd can be
    read. *)
Definition seen (pc : LoopPc U) (w : gset positive) (posted ran : list (Functor U)) (n : nat) (s : S) :
    Threads P U :=
  mkThreads (ls_loop s) (0 <? wakeup_count s) pc w posted ran n.

Lemma seen_update pc w posted ran n (s : S) k g b :
  wakeup_fd_ (g (ls_loop s)) = wakeup_fd_ (ls_loop s) →
  (0 <? counter_of (kview_of k) (wakeup_fd_ (ls_loop s))) = b →
  seen pc w posted ran n (s <| ls_kernel := k |> <| ls_loop ::= g |>) =
    mkThreads (g (ls_loop s)) b pc w posted ran n.
Proof. intros Hg <-. unfold seen, wakeup_count. simpl. by rewrite Hg. Qed.

(** An event of thread [t], and then its wake-up. *)
Lemma exec_then_wake (e : event U) t pc w (s1 : Threads P U) s2 :
  do_event e s1 = Some (s2 <| th_waking ::= union {[t]} |>) →
  th_waking s2 = w → t ∉ w → th_pc s2 = pc →
  exec [e; Wake t] s1 =
    Some (mkThreads (th_loop s2) true pc w (th_posted s2) (th_ran s2) (th_rounds s2)).
Proof.
  intros E Hw Ht Hp. unfold exec. simpl. rewrite E. simpl.
  rewrite bool_decide_eq_true_2 by set_solver. destruct s2. simpl in *. subst.
  do 2 f_equal. set_solver.
Qed.

(** C25: The operations of EventLoop.v, which run without interruption, are
    sequences of these events: [queueInLoop] and [quit] in another thread are
    the critical section (the store) and then the wake-up; in the thread of the
    loop they are the event of its own, with the wake-up only while functors
    are called; [handleRead] of the eventfd, and the start of
    [doingPendingFunctors], are the events of the loop. *)
Theorem operations_are_events pc w posted ran n t f (s : S) :
  0 ≤ wakeup_count s → t ∉ w →
  (isInLoopThread s = false →
   ∃ s1 s2, queueInLoop f s = Ok (tt, s1) ∧ quit s = Ok (tt, s2) ∧
     exec [Push t f; Wake t] (seen pc w posted ran n s) = Some (seen pc w (posted ++ [f]) ran n s1) ∧
     exec [StoreQuit t; Wake t] (seen pc w posted ran n s) = Some (seen pc w posted ran n s2)) ∧
  (isInLoopThread s = true → runs_code pc = true →
   ∃ s1 s2, queueInLoop f s = Ok (tt, s1) ∧ quit s = Ok (tt, s2) ∧
     exec (OwnPush f :: if calling_pending_functors_ (ls_loop s) then [LoopStep] else [])
          (seen pc w posted ran n s) = Some (seen pc w (posted ++ [f]) ran n s1) ∧
     exec [OwnQuit] (seen pc w posted ran n s) = Some (seen pc w posted ran n s2)) ∧
  (∃ s1, handleRead s = Ok (tt, s1) ∧
     exec [ReadWakeup] (seen (Dispatching true) w posted ran n s) =
       Some (seen (Dispatching false) w posted ran n s1)) ∧
  (∃ tasks s1, (set_loop (λ l, l <| calling_pending_functors_ := true |>) ;; take_tasks) s = Ok (tasks, s1) ∧
     exec [TakeTasks] (seen (Dispatching false) w posted ran n s) =
       Some (seen (Calling tasks) w posted ran n s1)).
Proof.
  intros Hc Ht. split; [|split; [|split]].
  - intros Hl. destruct (queueInLoop_ok f s Hc) as (k & E & Hw & _).
    destruct (quit_ok s Hc) as (k2 & E2 & Hw2 & _). rewrite Hl in *.
    do 2 eexists. split; [exact E|]. split; [exact E2|].
    rewrite !(seen_update _ _ _ _ _ _ _ _ true) by (done || by apply Z.ltb_lt; auto).
    split.
    + rewrite (exec_then_wake (Push t f) t pc w _ (push f (seen pc w posted ran n s))); try done.
      simpl. by rewrite bool_decide_eq_false_2.
    + rewrite (exec_then_wake (StoreQuit t) t pc w _ (store_quit true (seen pc w posted ran n s))); try done.
      simpl. by rewrite bool_decide_eq_false_2.
  - intros Hl Hr. destruct (queueInLoop_ok f s Hc) as (k & E & Hw & Hk & _).
    destruct (quit_ok s Hc) as (k2 & E2 & _ & Hk2). rewrite Hl in *.
    do 2 eexists. split; [exact E|]. split; [exact E2|].
    rewrite (Hk2 eq_refl). split.
    + simpl in Hw, Hk. destruct (calling_pending_functors_ (ls_loop s)) eqn:Hca.
      * rewrite (seen_update _ _ _ _ _ _ _ _ true) by (done || by apply Z.ltb_lt; auto).
        unfold exec. simpl. rewrite Hr. unfold own_push. simpl. by rewrite Hca.
      * rewrite (Hk eq_refl), (seen_update _ _ _ _ _ _ _ _ (0 <? wakeup_count s)) by done.
        unfold exec. simpl. rewrite Hr. unfold own_push. simpl. by rewrite Hca.
    + rewrite (seen_update _ _ _ _ _ _ _ _ (0 <? wakeup_count s)) by done.
      unfold exec. simpl. by rewrite Hr.
  - destruct (handleRead_ok s) as (k & E & Hz & _). eexists. split; [exact E|].
    unfold exec, seen, wakeup_count. simpl. by rewrite Hz.
  - destruct s as [k ch ti sq tid th []]. do 2 eexists. split; [done|]. done.
Qed.
End sequential.

(** ** Witnesses *)

Definition plain_loop : EventLoop unit nat :=
  mkEventLoop [] false false 1 0 (Some tt) (mkTimerQueue 0 1 [] ∅ ∅ false) 5 2 [] false.
Definition to_wait : list (event nat) := [LoopStep; LoopStep; LoopStep].
Definition one_round : list (event nat) :=
  [Push 1 (Task 7%nat); Wake 1; Push 2 (Task 8%nat); PollReturns true; ReadWakeup; OwnPush (Task 9%nat); TakeTasks;
   LoopStep; OwnPush (Task 10%nat); LoopStep; Wake 2].
Definition rest_of_round : list (event nat) := [LoopStep; LoopStep; LoopStep; LoopStep].

(** The state after a run that succeeds. *)
Definition after (es : list (event nat)) : Threads unit nat :=
  default (initial plain_loop) (exec es (initial plain_loop)).

Lemma no_lost_wakeup_witness :
  let s := after (to_wait ++ [Push 1 (Task 7%nat); Wake 1; StoreQuit 2; Wake 2]) in
  exec (to_wait ++ [Push 1 (Task 7%nat); Wake 1; StoreQuit 2; Wake 2]) (initial plain_loop) = Some s ∧
  pendingFunctors_ (th_loop s) = [Task 7%nat] ∧ th_readable s = true.
Proof.
  intros s.
  assert (exec (to_wait ++ [Push 1 (Task 7%nat); Wake 1; StoreQuit 2; Wake 2]) (initial plain_loop) = Some s)
    as E by (vm_compute; reflexivity).
  split; [exact E|]. split; [vm_compute; reflexivity|].
  apply (no_lost_wakeup plain_loop (to_wait ++ [Push 1 (Task 7%nat); Wake 1; StoreQuit 2; Wake 2]) s
           eq_refl E); vm_compute; reflexivity.
Defined.

Lemma functors_run_in_order_witness :
  let s := after (to_wait ++ one_round) in
  exec (to_wait ++ one_round) (initial plain_loop) = Some s ∧
  th_ran s = [Task 7%nat] ∧ tasks_of (th_pc s) = [Task 8%nat; Task 9%nat] ∧
  [Task 7%nat; Task 8%nat; Task 9%nat; Task 10%nat] = th_ran s ++ tasks_of (th_pc s) ++ pendingFunctors_ (th_loop s).
Proof.
  intros s. assert (exec (to_wait ++ one_round) (initial plain_loop) = Some s) as E by (vm_compute; reflexivity).
  split; [exact E|]. split; [vm_compute; reflexivity|]. split; [vm_compute; reflexivity|].
  exact (functors_run_in_order plain_loop (to_wait ++ one_round) s eq_refl E).
Defined.

Lemma posted_then_run_witness :
  let s := after (to_wait ++ [Push 1 (Task 6%nat); Wake 1]) in
  ∃ es' s', exec (PollReturns true :: es') s = Some s' ∧ th_rounds s' = 1%nat ∧
    [Task 6%nat] `prefix_of` th_ran s'.
Proof.
  intros s.
  destruct (posted_then_run plain_loop (to_wait ++ [Push 1 (Task 6%nat); Wake 1]) s eq_refl)
    as (_ & es' & s' & _ & E & Hr & Hrun); [vm_compute; reflexivity|vm_compute; reflexivity|].
  exists es', s'. split; [exact E|]. split; [exact Hr|exact Hrun].
Defined.

Lemma quit_stops_loop_witness :
  let s := after (to_wait ++ [PollReturns false; OwnQuit]) in
  ∃ s', exec [TakeTasks; LoopStep; Push 1 (Task 7%nat)] s = Some s' ∧
    quit_ (th_loop s') = true ∧ can_return s'.
Proof.
  intros s.
  assert (is_Some (exec [TakeTasks; LoopStep; Push 1 (Task 7%nat)] s)) as [s' E] by (vm_compute; eexists; reflexivity).
  exists s'. split; [exact E|].
  destruct (quit_stops_loop plain_loop (to_wait ++ [PollReturns false; OwnQuit])
    [TakeTasks; LoopStep; Push 1 (Task 7%nat)] s s' eq_refl) as (Hq & _ & _ & Hr);
    [vm_compute; reflexivity|vm_compute; reflexivity|vm_compute; reflexivity|exact E|].
  split; [exact Hq|exact Hr].
Defined.

Lemma quit_lost_witness :
  ∃ s, exec ([LoopStep; StoreQuit 1; Wake 1; LoopStep; LoopStep; PollReturns true; ReadWakeup;
             TakeTasks; LoopStep; LoopStep]) (initial plain_loop) = Some s ∧
    quit_ (th_loop s) = false ∧
    ∀ es s', Forall (λ e, asks_quit e = false) es → exec es s = Some s' → th_pc s' ≠ Returned.
Proof.
  destruct (quit_lost plain_loop 1 eq_refl eq_refl eq_refl) as (s & E & _ & Hq & _ & _ & Hn).
  exists s. split; [exact E|]. split; [exact Hq|exact Hn].
Defined.

Lemma operations_are_events_witness :
  let s := demo_loop <| ls_tid := 2 |> in
  ∃ s1, queueInLoop (Task 7%nat) s = Ok (tt, s1) ∧
    exec [Push 3 (Task 7%nat); Wake 3] (seen Polling ∅ [] [] 0 s) =
      Some (seen Polling ∅ [Task 7%nat] [] 0 s1).
Proof.
  intros s.
  destruct (operations_are_events (K := scripted) Polling ∅ [] [] 0 3 (Task 7%nat) s) as (H & _).
  - by vm_compute.
  - apply not_elem_of_empty.
  - destruct (H eq_refl) as (s1 & _ & E & _ & Ex & _). exists s1. split; [exact E|exact Ex].
Defined.
