(* ===== verification/Thread.v ===== *)
(** * Threads (CurrentThread.h/.cc, Thread.h/.cc)

    The cached thread id, and [Thread], a wrapper of [std::thread] with a name:
    its life from the constructor over [start()] and [join()] to the destructor.
    Of [std::thread] the source uses that destroying, or assigning over, one
    that is still joinable calls [std::terminate].  [start()] waits until the
    new thread has stored its id, so that here it stores it.  The object is
    owned by a [shared_ptr] ([shared_from_this()] does not throw), of which the
    new thread keeps a copy. *)

From stdpp Require Import pretty.
From S2P Require Import Prelude.

Module CurrentThread.
(** [gettid] is what the system call answers in this thread; the state is the
    thread-local [t_cachedTid]. *)
Definition cacheTid (gettid t_cachedTid : Z) : Z :=
  if t_cachedTid =? 0 then gettid else t_cachedTid.

Definition tid (gettid : Z) : M Z Z := λ t_cachedTid,
  let t_cachedTid := if t_cachedTid =? 0 then cacheTid gettid t_cachedTid else t_cachedTid in
  Ok (t_cachedTid, t_cachedTid).

(** However often it is called, the answer is that of the system call. *)
Lemma tid_cached gettid n cached :
  cached = 0 ∨ cached = gettid → gettid ≠ 0 →
  for_each (λ _ : nat, t ← tid gettid; assert_ (t =? gettid)) (seq 0 n) cached =
    Ok (tt, if (n =? 0)%nat then cached else gettid).
Proof.
  intros Hc Hg. assert (∀ c, c = 0 ∨ c = gettid → tid gettid c = Ok (gettid, gettid)) as Ht.
  { intros c [->| ->]; unfold tid, cacheTid; [done|].
    by rewrite (proj2 (Z.eqb_neq gettid 0) Hg). }
  generalize 0%nat at 1. revert cached Hc. induction n as [|n IH]; intros c Hc i; [done|].
  simpl. mcbn. rewrite (Ht c Hc). simpl. rewrite Z.eqb_refl. simpl. rewrite IH by by right.
  by destruct n.
Qed.
End CurrentThread.

Section thread.
(** What a thread runs. *)
Context {F : Type}.

Record Thread : Type := mkThread {
  name_ : string;
  started_ : bool;
  joined_ : bool;
  func_ : F;
  thread_ : option bool;       (* the std::thread, if there is one: is it joinable? *)
  tid_ : Z
}.
#[export] Instance set_started_ : Setter started_ := λ f t,
  mkThread (name_ t) (f (started_ t)) (joined_ t) (func_ t) (thread_ t) (tid_ t).
#[global] Arguments set_started_ _ !_ /.
#[export] Instance set_joined_ : Setter joined_ := λ f t,
  mkThread (name_ t) (started_ t) (f (joined_ t)) (func_ t) (thread_ t) (tid_ t).
#[global] Arguments set_joined_ _ !_ /.
#[export] Instance set_thread_ : Setter thread_ := λ f t,
  mkThread (name_ t) (started_ t) (joined_ t) (func_ t) (f (thread_ t)) (tid_ t).
#[global] Arguments set_thread_ _ !_ /.
#[export] Instance set_tid_ : Setter tid_ := λ f t,
  mkThread (name_ t) (started_ t) (joined_ t) (func_ t) (thread_ t) (f (tid_ t)).
#[global] Arguments set_tid_ _ !_ /.

(** [std::atomic_int] wraps around. *)
Definition next_num (num_created : Z) : Z := (num_created + 1 + 2 ^ 31) mod 2 ^ 32 - 2 ^ 31.

Definition setDefaultName (num : Z) (name : string) : string :=
  if bool_decide (name = ""%string) then ("Thread" +:+ pretty num)%string else name.

(** The constructor; the state is [num_created]. *)
Definition make_Thread (func : F) (name : string) : M Z Thread := λ num_created,
  let num := next_num num_created in
  Ok (mkThread (setDefaultName num name) false false func None 0, num).

(** [thread_=std::make_unique<std::thread>(...)]: the old one is destroyed. *)
Definition replace_std_thread (t : Thread) : outcome Thread :=
  check (negb (default false (thread_ t))) Terminated ;; Ok (t <| thread_ := Some true |>).

Definition start (new_tid : Z) (t : Thread) : outcome Thread :=
  t ← replace_std_thread (t <| started_ := true |>);
  Ok (t <| tid_ := new_tid |>).

Definition join (t : Thread) : outcome Thread :=
  check (started_ t) AssertFailed ;;
  check (negb (joined_ t)) AssertFailed ;;
  if started_ t && negb (joined_ t) then
    let t := t <| joined_ := true |> in
    check (bool_decide (is_Some (thread_ t))) NullPointer ;;
    check (default false (thread_ t)) Terminated ;;    (* std::system_error *)
    Ok (t <| thread_ := Some false |>)
  else Ok t.

(** The destructor, and then that of [thread_]. *)
Definition destroy_Thread (t : Thread) : outcome unit :=
  t ← (if started_ t && negb (joined_ t) then
         check (bool_decide (is_Some (thread_ t))) NullPointer ;;
         check (default false (thread_ t)) Terminated ;;
         Ok (t <| thread_ := Some false |>)
       else Ok t);
  check (negb (default false (thread_ t))) Terminated.
End thread.
Arguments Thread : clear implicits.

(** ** The life of a thread *)

Inductive thread_op : Type := Start (new_tid : Z) | Join.

Definition thread_step {F} (o : thread_op) (t : Thread F) : outcome (Thread F) :=
  match o with Start i => start i t | Join => join t end.
Fixpoint thread_run {F} (os : list thread_op) (t : Thread F) : outcome (Thread F) :=
  match os with [] => Ok t | o :: os => t ← thread_step o t; thread_run os t end.

(** The life the class is made for: created, started, joined. *)
Inductive life : Type := Created | Running | Joined.
Definition live_step (l : life) (o : thread_op) : outcome life :=
  match l, o with
  | Created, Start _ => Ok Running
  | Running, Join => Ok Joined
  | Running, Start _ => Fault Terminated       (* the running std::thread is assigned over *)
  | Created, Join | Joined, Join => Fault AssertFailed
  | Joined, Start _ => Ok Running
  end.
Fixpoint live (l : life) (os : list thread_op) : outcome life :=
  match os with [] => Ok l | o :: os => l ← live_step l o; live l os end.
Definition starts (os : list thread_op) : nat :=
  length (List.filter (λ o, match o with Start _ => true | Join => false end) os).

Section properties.
Context {F : Type}.
Implicit Types t : Thread F.

Definition at_life (l : life) t : Prop :=
  match l with
  | Created => started_ t = false ∧ joined_ t = false ∧ thread_ t = None
  | Running => started_ t = true ∧ joined_ t = false ∧ thread_ t = Some true
  | Joined => started_ t = true ∧ joined_ t = true ∧ thread_ t = Some false
  end.

(** With at most one [start()]. *)
Lemma thread_run_live os l t :
  at_life l t → (starts os ≤ match l with Created => 1 | _ => 0 end)%nat →
  match live l os with
  | Ok l' => ∃ t', thread_run os t = Ok t' ∧ at_life l' t'
  | Fault f => thread_run os t = Fault f
  end.
Proof.
  revert l t. induction os as [|o os IH]; intros l t Hl Hs; [by exists t|].
  destruct l, o; unfold starts in *; simpl in Hs; try lia;
    destruct t as [n st j f th i]; simpl in Hl; destruct Hl as (-> & -> & ->); mcbn; try done;
    simpl; apply IH; try done; unfold starts; lia.
Qed.


(** Starting a [Thread] again.  While it runs, [start()] ends the process;
    after a join it runs again, but [joined_] stays set: the new thread can
    neither be joined (the assertion fails) nor detached, and the destructor
    ends the process. *)
Theorem thread_restart t i :
  (at_life Running t → start i t = Fault Terminated) ∧
  (at_life Joined t → ∃ t', start i t = Ok t' ∧ thread_ t' = Some true ∧
     join t' = Fault AssertFailed ∧ destroy_Thread t' = Fault Terminated).
Proof.
  destruct t as [n st j f th i0]. split; intros (Ha & Hb & Hc); simpl in *; subst; [done|].
  by eexists.
Qed.
End properties.

(** ** Witness *)


Lemma thread_restart_witness :
  ∃ t t', make_Thread tt "io"%string 0 = Ok (t, 1) ∧ thread_run [Start 77] t = Ok t' ∧
    start 78 t' = Fault Terminated.
Proof.
  do 2 eexists. split; [reflexivity|]. split; [reflexivity|].
  refine (proj1 (thread_restart _ 78) _). split; [reflexivity|]. split; reflexivity.
Defined.
