(* ===== verification/EventLoopThread.v ===== *)
(** * The thread of an event loop (EventLoopThread.h/.cc)

    [startLoop()] makes a thread that builds an [EventLoop], hands its address
    over through [loop_] and runs [loop()]; the destructor asks the loop to quit
    and joins the thread.  Two threads take part, the owner of the object and
    the child, and any others that use the loop; a state says where the two are,
    and contains the loop as LoopThreads.v describes it.  The mutex and the
    condition variable make publishing [loop_], and the test of [cv_.wait],
    atomic; [startLoop] reads [loop_] once more when it returns, and the
    destructor reads it twice, without the mutex. *)

From S2P Require Import Prelude Kernel TimerQueue Channel Poller EventLoop LoopThreads.

Section event_loop_thread.
Context {P U : Type}.

(** ThreadFunc() *)
Inductive ChildPc : Type :=
| Unborn
| Spawned            (* running, its id not stored yet *)
| Init               (* EventLoop loop; call_back_(&loop) *)
| Publishing         (* !exiting_ was true; about to lock, store loop_ and notify *)
| InLoop             (* loop.loop() *)
| Clearing           (* about to lock and reset loop_ *)
| Unwinding          (* about to destroy loop *)
| Finished.

(** The caller of startLoop() and of the destructor. *)
Inductive OwnerPc : Type :=
| Fresh
| Awaiting           (* thread_->start(): waits for the id of the thread *)
| Waiting            (* cv_.wait(...) *)
| Awake              (* the mutex is released; return loop_ is next *)
| Up (r : bool)      (* startLoop() returned: not nullptr? *)
| Exiting            (* exiting_=true was stored *)
| NotNull            (* loop_!=nullptr was true *)
| Quitting           (* loop_ was read again; in quit() *)
| QuitWaking         (* quit_ was stored; in wakeUp() *)
| Joining            (* thread_->join() *)
| Gone
| Crashed (f : fault).

Record ThreadState : Type := mkThreadState {
  el_child : ChildPc;
  el_owner : OwnerPc;
  el_loop_ : bool;              (* loop_ is not nullptr *)
  el_exiting_ : bool;
  el_loop : Threads P U         (* the EventLoop object of the child *)
}.
#[export] Instance set_el_child : Setter el_child := λ f s,
  mkThreadState (f (el_child s)) (el_owner s) (el_loop_ s) (el_exiting_ s) (el_loop s).
#[global] Arguments set_el_child _ !_ /.
#[export] Instance set_el_owner : Setter el_owner := λ f s,
  mkThreadState (el_child s) (f (el_owner s)) (el_loop_ s) (el_exiting_ s) (el_loop s).
#[global] Arguments set_el_owner _ !_ /.
#[export] Instance set_el_loop_ : Setter el_loop_ := λ f s,
  mkThreadState (el_child s) (el_owner s) (f (el_loop_ s)) (el_exiting_ s) (el_loop s).
#[global] Arguments set_el_loop_ _ !_ /.
#[export] Instance set_el_exiting_ : Setter el_exiting_ := λ f s,
  mkThreadState (el_child s) (el_owner s) (el_loop_ s) (f (el_exiting_ s)) (el_loop s).
#[global] Arguments set_el_exiting_ _ !_ /.
#[export] Instance set_el_loop : Setter el_loop := λ f s,
  mkThreadState (el_child s) (el_owner s) (el_loop_ s) (el_exiting_ s) (f (el_loop s)).
#[global] Arguments set_el_loop _ !_ /.

Inductive thread_event : Type :=
| StartLoop                         (* the owner calls startLoop() *)
| Destroy                           (* the owner calls the destructor *)
| OwnerStep                         (* the owner goes on in the call it is in *)
| ChildStep                         (* ThreadFunc() goes on *)
| CallbackPush (f : Functor U)      (* call_back_ calls queueInLoop *)
| CallbackQuit                      (* call_back_ calls quit *)
| LoopEvent (e : event U).          (* the loop's thread inside loop(), or another thread *)

(** The [EventLoop] of the child exists. *)
Definition loop_alive (c : ChildPc) : bool :=
  match c with Init | Publishing | InLoop | Clearing | Unwinding => true | _ => false end.

Definition child_step (s : ThreadState) : option ThreadState :=
  match el_child s with
  | Spawned => Some (s <| el_child := Init |>)
  | Init => Some (s <| el_child := if el_exiting_ s then Unwinding else Publishing |>)
  | Publishing => Some (s <| el_child := InLoop |> <| el_loop_ := true |>)
  | InLoop => match th_pc (el_loop s) with
              | Returned => Some (s <| el_child := Clearing |>)
              | _ => None
              end
  | Clearing => Some (s <| el_child := Unwinding |> <| el_loop_ := false |>)
  | Unwinding => Some (s <| el_child := Finished |>)
  | Unborn | Finished => None
  end.

(** [m], on a loop that must still exist. *)
Definition on_loop (s : ThreadState) (pc : OwnerPc) (m : Threads P U → Threads P U) : ThreadState :=
  if loop_alive (el_child s) then s <| el_loop ::= m |> <| el_owner := pc |>
  else s <| el_owner := Crashed DanglingPointer |>.

Definition owner_step (s : ThreadState) : option ThreadState :=
  match el_owner s with
  | Awaiting => match el_child s with
                | Unborn | Spawned => None
                | _ => Some (s <| el_owner := Waiting |>)
                end
  | Waiting => if el_loop_ s then Some (s <| el_owner := Awake |>) else None
  | Awake => Some (s <| el_owner := Up (el_loop_ s) |>)
  | Exiting => Some (s <| el_owner := if el_loop_ s then NotNull else Joining |>)
  | NotNull => Some (s <| el_owner := if el_loop_ s then Quitting else Crashed NullPointer |>)
  | Quitting => Some (on_loop s QuitWaking (store_quit true))
  | QuitWaking => Some (on_loop s Joining (λ l, l <| th_readable := true |>))
  | Joining => match el_child s with
               | Unborn | Finished => Some (s <| el_owner := Gone |>)
               | _ => None
               end
  | Fresh | Up _ | Gone | Crashed _ => None
  end.

(** Events of the loop's own thread happen in [loop()] only. *)
Definition in_own_thread (e : event U) : bool :=
  match e with Push _ _ | StoreQuit _ | Wake _ => false | _ => true end.

Definition do_thread_event (e : thread_event) (s : ThreadState) : option ThreadState :=
  match e with
  | StartLoop => match el_owner s with
                 | Fresh => Some (s <| el_owner := Awaiting |> <| el_child := Spawned |>)
                 | _ => None
                 end
  | Destroy => match el_owner s with
               | Fresh | Up _ => Some (s <| el_owner := Exiting |> <| el_exiting_ := true |>)
               | _ => None
               end
  | OwnerStep => owner_step s
  | ChildStep => child_step s
  | CallbackPush f => match el_child s with
                      | Init => Some (s <| el_loop ::= push f |>)
                      | _ => None
                      end
  | CallbackQuit => match el_child s with
                    | Init => Some (s <| el_loop ::= store_quit true |>)
                    | _ => None
                    end
  | LoopEvent e => if (if in_own_thread e then match el_child s with InLoop => true | _ => false end else loop_alive (el_child s))
                   then l ← do_event e (el_loop s); Some (s <| el_loop := l |>) else None
  end.

Definition run_thread (es : list thread_event) (s : ThreadState) : option ThreadState :=
  foldl (λ s e, s ≫= do_thread_event e) (Some s) es.

(** The constructor; [l] is the loop the child will build. *)
Definition make_EventLoopThread (l : EventLoop P U) : ThreadState :=
  mkThreadState Unborn Fresh false false (initial l).
End event_loop_thread.
Arguments ThreadState : clear implicits.
Arguments thread_event : clear implicits.

(** ** Starting up *)

Section lemmas.
Context {P U : Type}.
Abbreviation State := (ThreadState P U).
Implicit Types s : State.

Lemma run_thread_cons e (es : list (thread_event U)) s :
  run_thread (e :: es) s = do_thread_event e s ≫= run_thread es.
Proof.
  unfold run_thread. simpl. destruct (do_thread_event e s); [done|]. simpl.
  induction es; simpl; done.
Qed.

(** Invariants of the events that [allowed] lets happen. *)
Lemma run_thread_invariant (allowed : thread_event U → bool) (I : State → Prop) :
  (∀ e s s', allowed e = true → I s → do_thread_event e s = Some s' → I s') →
  ∀ es s s', Forall (λ e, allowed e = true) es → I s → run_thread es s = Some s' → I s'.
Proof.
  intros Hstep es. induction es as [|e es IH]; intros s s' Ha Hs.
  - by intros [= <-].
  - apply Forall_cons in Ha as [He Ha]. rewrite run_thread_cons.
    destruct (do_thread_event e s) as [s1|] eqn:E; [|done]. simpl. eauto.
Qed.

(** Nobody but the destructor asks the loop to quit. *)
Definition undisturbed (e : thread_event U) : bool :=
  match e with CallbackQuit => false | LoopEvent e => negb (asks_quit e) | _ => true end.

Definition in_loop (c : ChildPc) : bool := match c with InLoop => true | _ => false end.
Definition on_the_way (c : ChildPc) : bool :=
  match c with Spawned | Init | Publishing | InLoop => true | _ => false end.
Definition destroying (o : OwnerPc) : bool :=
  match o with Fresh | Awaiting | Waiting | Awake | Up _ => false | _ => true end.

(** The loop of a child that is not told to quit. *)
Record starting_up s : Prop := StartingUp {
  su_placed : placed (el_loop s);
  su_open : unstopped (el_loop s);
  su_entering : in_loop (el_child s) = false → th_pc (el_loop s) = Entering;
  su_exiting : el_exiting_ s = false;
  su_loop : el_loop_ s = in_loop (el_child s);
  su_where : match el_owner s with
             | Fresh => el_child s = Unborn
             | Awaiting => on_the_way (el_child s) = true
             | Waiting => on_the_way (el_child s) = true ∧ el_child s ≠ Spawned
             | Awake => el_child s = InLoop
             | Up r => r = true ∧ el_child s = InLoop
             | _ => True
             end
}.

Definition starts_well s : Prop := destroying (el_owner s) = false → starting_up s.

Lemma other_thread_pc (e : event U) (l l' : Threads P U) :
  in_own_thread e = false → do_event e l = Some l' → th_pc l' = th_pc l.
Proof. destruct e; try done; intros _ E; simpl in E; split_event E; done. Qed.

Lemma event_starts_well (e : thread_event U) s s' :
  undisturbed e = true → starts_well s → do_thread_event e s = Some s' → starts_well s'.
Proof.
  intros Hu Hs E Hd'.
  destruct e as [| | | |f| |e]; simpl in E.
  - destruct (el_owner s) eqn:Ho; try done. injection E as <-. destruct Hs as []; [by rewrite Ho|].
    rewrite Ho in *. split; try done; simpl.
    + rewrite su_where0 in *. auto.
    + by rewrite su_where0 in *.
  - destruct (el_owner s) eqn:Ho; try done; injection E as <-; done.
  - assert (destroying (el_owner s) = false) as Hd.
    { unfold owner_step, on_loop in E. destruct (el_owner s); try done;
        repeat (case_match; simplify_eq/=); done. }
    destruct (Hs Hd) as []. unfold owner_step in E.
    destruct (el_owner s) eqn:Ho; try done.
    + destruct (el_child s) eqn:Hc; try done; injection E as <-; split; simpl; rewrite ?Hc; try done.
    + destruct (el_loop_ s) eqn:Hl; try done; injection E as <-. 
      split; simpl; try done; rewrite ?Hl; try done. destruct (el_child s); done.
    + injection E as <-. split; simpl; try done. by rewrite su_loop0, su_where0.
  - unfold child_step in E. destruct (destroying (el_owner s)) eqn:Hd.
    { exfalso. revert Hd' E. repeat (case_match; simpl); intros; simplify_eq/=; congruence. }
    destruct (Hs Hd) as [].
    destruct (el_child s) eqn:Hc; try done.
    + injection E as <-. split; simpl; try done; destruct (el_owner s); naive_solver.
    + injection E as <-. rewrite su_exiting0. split; simpl; try done; destruct (el_owner s); naive_solver.
    + injection E as <-. split; simpl; try done; destruct (el_owner s); naive_solver.
    + destruct (th_pc (el_loop s)) eqn:Hp; try done. by destruct su_open0.
    + destruct (el_owner s); naive_solver.
    + destruct (el_owner s); naive_solver.
  - destruct (el_child s) eqn:Hc; try done. injection E as <-. destruct (Hs Hd') as [].
    rewrite Hc in *. split; simpl; rewrite ?Hc; try done.
  - done.
  - destruct (if in_own_thread e then _ else _) eqn:Hg; [|done].
    destruct (do_event e (el_loop s)) as [l|] eqn:El; [|done]. injection E as <-.
    destruct (Hs Hd') as []. simpl in Hu. apply negb_true_iff in Hu.
    split; simpl; try done.
    + by apply (event_placed e (el_loop s)).
    + by apply (event_unstopped e (el_loop s)).
    + intros Hn. destruct (in_own_thread e) eqn:Ht.
      * by destruct (el_child s).
      * rewrite (other_thread_pc e _ _ Ht El). auto.
Qed.

(** ** What can still happen *)

Definition own_step (e : thread_event U) : bool :=
  match e with OwnerStep | ChildStep => true | LoopEvent e => own_event e | _ => false end.

(** The two threads alone can bring the owner to [pc]. *)
Definition can_reach (pc : OwnerPc) s : Prop :=
  ∃ es s', Forall (λ e, own_step e = true) es ∧ run_thread es s = Some s' ∧ el_owner s' = pc.

Lemma can_reach_step e pc s s' :
  own_step e = true → do_thread_event e s = Some s' → can_reach pc s' → can_reach pc s.
Proof.
  intros He E (es & s1 & Hes & Hx & Hr). exists (e :: es), s1.
  split; [by constructor|]. by rewrite run_thread_cons, E.
Qed.

Lemma can_reach_refl s : can_reach (el_owner s) s.
Proof. by exists [], s. Qed.

Lemma publishing_reached pc s :
  on_the_way (el_child s) = true → el_exiting_ s = false →
  can_reach pc (s <| el_child := InLoop |> <| el_loop_ := true |>) →
  (el_child s = InLoop → el_loop_ s = true) → can_reach pc s.
Proof.
  intros Hw He Hr Hl.
  assert (∀ s, el_child s = Publishing → can_reach pc (s <| el_child := InLoop |> <| el_loop_ := true |>) →
               can_reach pc s) as H1.
  { intros s1 Hc Hr1. eapply (can_reach_step ChildStep); [done| |exact Hr1].
    simpl. unfold child_step. by rewrite Hc. }
  assert (∀ s, el_child s = Init → el_exiting_ s = false →
     can_reach pc (s <| el_child := InLoop |> <| el_loop_ := true |>) → can_reach pc s) as H2.
  { intros s1 Hc He1 Hr1. apply (can_reach_step ChildStep pc s1 (s1 <| el_child := Publishing |>)).
    - done.
    - simpl. unfold child_step. by rewrite Hc, He1.
    - by apply H1. }
  destruct s as [c o lp ex l]; simpl in *. destruct c; try done.
  - apply (can_reach_step ChildStep pc _ (mkThreadState Init o lp ex l)); [done..|by apply H2].
  - by apply H2.
  - by apply H1.
  - by rewrite Hl.
Qed.

Lemma startLoop_can_return s :
  starting_up s → destroying (el_owner s) = false → el_owner s ≠ Fresh → can_reach (Up true) s.
Proof.
  intros [] Hd Hf. 
  assert (∀ s, el_child s = InLoop → el_loop_ s = true → el_owner s ∈ [Awaiting; Waiting; Awake] →
               can_reach (Up true) s) as H.
  { intros [c o lp ex l] Hc Hl Ho. simpl in *. subst.
    assert (∀ o, o = Awake → can_reach (Up true) (mkThreadState InLoop o true ex l)) as H1.
    { intros ? ->. eapply (can_reach_step OwnerStep); [done..|apply (can_reach_refl (mkThreadState _ (Up true) _ _ _))]. }
    assert (∀ o, o = Waiting → can_reach (Up true) (mkThreadState InLoop o true ex l)) as H2.
    { intros ? ->. eapply (can_reach_step OwnerStep); [done..|by apply H1]. }
    rewrite !elem_of_cons, elem_of_nil in Ho. destruct Ho as [->|[->|[->|?]]]; auto; [|done].
    eapply (can_reach_step OwnerStep); [done..|by apply H2]. }
  destruct (el_owner s) eqn:Ho; try done.
  - apply publishing_reached; try done; [apply H; try done; simpl; rewrite Ho; set_solver|].
    intros Hc. by rewrite su_loop0, Hc.
  - destruct su_where0. apply publishing_reached; try done; [apply H; try done; simpl; rewrite Ho; set_solver|].
    intros Hc. by rewrite su_loop0, Hc.
  - apply H; [done|by rewrite su_loop0, su_where0|set_solver].
  - destruct su_where0 as [-> _]. rewrite <- Ho. apply can_reach_refl.
Qed.

(** ** Whatever anybody does *)

Definition published (c : ChildPc) : bool :=
  match c with InLoop | Clearing | Unwinding | Finished => true | _ => false end.

Record orderly s : Prop := Orderly {
  or_placed : placed (el_loop s);
  or_loop : el_loop_ s = match el_child s with InLoop | Clearing => true | _ => false end;
  or_exiting : el_exiting_ s = destroying (el_owner s);
  or_where : match el_owner s with
             | Fresh => el_child s = Unborn
             | Awaiting => el_child s ≠ Unborn
             | Waiting => el_child s ≠ Unborn ∧ el_child s ≠ Spawned
             | Exiting | Joining | Gone => published (el_child s) = true ∨ el_child s = Unborn
             | _ => published (el_child s) = true
             end;
  or_finishing : match el_child s with
                 | Clearing | Unwinding | Finished => th_pc (el_loop s) = Returned
                 | _ => True end
}.

Lemma own_loop_returned (e : event U) (l l' : Threads P U) :
  th_pc l = Returned → do_event e l = Some l' → th_pc l' = Returned.
Proof.
  intros Hp E. destruct e; simpl in E; unfold loop_step in E; rewrite ?Hp in E; simpl in E;
    split_event E; done.
Qed.

Lemma event_orderly e s s' : orderly s → do_thread_event e s = Some s' → orderly s'.
Proof.
  intros [] E. destruct e as [| | | |f| |e]; simpl in E.
  - destruct (el_owner s) eqn:Ho; try done. injection E as <-. rewrite or_where0 in *. split; try done.
  - destruct (el_owner s) eqn:Ho; try done; injection E as <-; split; simpl; try done; auto.
  - unfold owner_step, on_loop in E. destruct (el_owner s) eqn:Ho; try done.
    all: rewrite ?or_loop0 in E; destruct (el_child s) eqn:Hc; try done; injection E as <-.
    all: split; simpl; rewrite ?Hc, ?Ho; try done; try (by destruct or_where0); auto.
  - unfold child_step in E. destruct (el_child s) eqn:Hc; try done.
    all: try (destruct (th_pc (el_loop s)) eqn:Hp; try done).
    all: destruct (el_exiting_ s) eqn:Hx; try done; injection E as <-.
    all: split; simpl; try done; destruct (el_owner s) eqn:Ho; simpl in *; try done; naive_solver.
  - destruct (el_child s) eqn:Hc; try done. injection E as <-. split; simpl; rewrite ?Hc; try done.
  - destruct (el_child s) eqn:Hc; try done. injection E as <-. split; simpl; rewrite ?Hc; try done.
  - destruct (if in_own_thread e then _ else _) eqn:Hg; [|done].
    destruct (do_event e (el_loop s)) as [l|] eqn:El; [|done]. injection E as <-.
    split; simpl; try done.
    + by apply (event_placed e (el_loop s)).
    + destruct (el_child s) eqn:Hc; try done; by apply (own_loop_returned e (el_loop s)).
Qed.

(** ** Ending *)

(** The loop was told to quit where it cannot forget it. *)
Definition told_to_quit (l : Threads P U) : Prop :=
  quit_ (th_loop l) = true ∧ th_pc l ≠ Starting.

Lemma event_told (e : event U) (l l' : Threads P U) :
  placed l → told_to_quit l → do_event e l = Some l' → told_to_quit l'.
Proof.
  intros [Hc Hp] [Hq Hs] E. unfold told_to_quit.
  destruct e; simpl in E; unfold loop_step, own_push in E; split_event E; simpl in *.
  all: repeat match goal with H : th_pc _ = _ |- _ => rewrite H in * end; simpl in *; try done.
  by destruct l0.
Qed.

Lemma told_returns (l : Threads P U) : placed l → told_to_quit l → can_return l.
Proof.
  intros [Hc Hp] [Hq Hs]. destruct (going_round (th_pc l)) eqn:Hg; [by apply stopping_returns|].
  destruct (th_pc l) eqn:Hpc; try done.
  - apply (can_return_step LoopStep l (l <| th_pc := Returned |>)); [done| |by exists [], (l <| th_pc := Returned |>)].
    simpl. unfold loop_step. by rewrite Hpc, Hq.
  - by exists [], l.
Qed.

Lemma lift_run es s l :
  Forall (λ e, own_event e = true) es → el_child s = InLoop → exec es (el_loop s) = Some l →
  Forall (λ e, own_step e = true) (LoopEvent <$> es) ∧
  run_thread (LoopEvent <$> es) s = Some (s <| el_loop := l |>).
Proof.
  intros Hes. revert s. induction Hes as [|e es He _ IH]; intros s Hc.
  - intros [= <-]. split; [constructor|by destruct s].
  - rewrite exec_cons. destruct (do_event e (el_loop s)) as [l1|] eqn:E; [|done]. cbn [mbind option_bind]. intros Hr.
    destruct (IH (s <| el_loop := l1 |>)) as [Hf Hx]; [done..|].
    split; [by constructor|]. rewrite fmap_cons, run_thread_cons.
    assert (do_thread_event (LoopEvent e) s = Some (s <| el_loop := l1 |>)) as ->.
    { simpl. rewrite Hc, E. by destruct (in_own_thread e). }
    etrans; [exact Hx|by destruct s].
Qed.

Lemma can_reach_run es pc s s' :
  Forall (λ e, own_step e = true) es → run_thread es s = Some s' → can_reach pc s' → can_reach pc s.
Proof.
  intros Hes. revert s. induction Hes as [|e es He _ IH]; intros s.
  - by intros [= <-].
  - rewrite run_thread_cons. destruct (do_thread_event e s) as [s1|] eqn:E; [|done]. simpl.
    intros Hr Hq. apply (can_reach_step e _ s s1); auto.
Qed.

Lemma join_finishes s :
  orderly s → told_to_quit (el_loop s) → el_owner s = Joining → can_reach Gone s.
Proof.
  intros [] Ht Ho.
  assert (∀ s, el_owner s = Joining → el_child s = Finished ∨ el_child s = Unborn → can_reach Gone s) as H1.
  { intros s1 Ho1 Hc1. apply (can_reach_step OwnerStep _ s1 (s1 <| el_owner := Gone |>)); [done| |].
    - simpl. unfold owner_step. rewrite Ho1. by destruct Hc1 as [->| ->].
    - by exists [], (s1 <| el_owner := Gone |>). }
  assert (∀ s, el_owner s = Joining → el_child s = Unwinding → can_reach Gone s) as H2.
  { intros s1 Ho1 Hc1. apply (can_reach_step ChildStep _ s1 (s1 <| el_child := Finished |>)); [done| |].
    - simpl. unfold child_step. by rewrite Hc1.
    - apply H1; [done|by left]. }
  assert (∀ s, el_owner s = Joining → el_child s = Clearing → can_reach Gone s) as H3.
  { intros s1 Ho1 Hc1. eapply (can_reach_step ChildStep); [done| |].
    - simpl. unfold child_step. by rewrite Hc1.
    - by apply H2. }
  rewrite Ho in or_where0. destruct (el_child s) eqn:Hc; try (by destruct or_where0); auto.
  destruct (told_returns (el_loop s)) as (es & l & Hes & Hx & Hr); [done..|].
  destruct (lift_run es s l) as [Hf Hx']; [done..|].
  apply (can_reach_run _ _ _ _ Hf Hx'). eapply (can_reach_step ChildStep); [done| |].
  - simpl. unfold child_step. simpl. by rewrite Hc, Hr.
  - by apply H3.
Qed.

Lemma event_finishing e s s' :
  orderly s → told_to_quit (el_loop s) → (destroying (el_owner s) = true) →
  do_thread_event e s = Some s' → told_to_quit (el_loop s').
Proof.
  intros [] Ht Hd E. destruct e as [| | | |f| |e]; simpl in E.
  - by destruct (el_owner s).
  - by destruct (el_owner s).
  - unfold owner_step, on_loop in E. destruct (el_owner s); try done.
    all: repeat (case_match; simplify_eq/=); try done; by destruct Ht.
  - unfold child_step in E. repeat (case_match; simplify_eq/=); done.
  - by destruct (el_child s); simplify_eq.
  - by destruct (el_child s); simplify_eq; destruct Ht.
  - destruct (if in_own_thread e then _ else _); [|done].
    destruct (do_event e (el_loop s)) as [l|] eqn:El; [|done]. injection E as <-.
    by apply (event_told e (el_loop s)).
Qed.
End lemmas.

(** ** Properties *)

Section properties.
Context {P U : Type}.
Abbreviation State := (ThreadState P U).
Implicit Types s : State.

Lemma make_starts_well (l : EventLoop P U) :
  quit_ l = false → calling_pending_functors_ l = false → starts_well (make_EventLoopThread l).
Proof. intros Hq Hc _. by split. Qed.

Lemma make_orderly (l : EventLoop P U) :
  calling_pending_functors_ l = false → orderly (make_EventLoopThread l).
Proof. intros Hc. by split. Qed.

Lemma run_orderly es s s' : orderly s → run_thread es s = Some s' → orderly s'.
Proof.
  apply (run_thread_invariant (λ _, true)); [|by apply Forall_true].
  intros e s1 s2 _. apply event_orderly.
Qed.


(** The destructor can finish.  Once it has stored [quit_] in a loop that is
    not between its test of the flag and its reset (line 195 of EventLoop.cc),
    whatever all threads do then: whenever the owner is in [join()], the two
    threads alone can bring the loop to return, the child to end and the join to
    return. *)
Theorem destructor_can_finish (l : EventLoop P U) (es es' : list (thread_event U)) s s' :
  calling_pending_functors_ l = false → run_thread es (make_EventLoopThread l) = Some s →
  el_owner s = QuitWaking → quit_ (th_loop (el_loop s)) = true → th_pc (el_loop s) ≠ Starting →
  run_thread es' s = Some s' → el_owner s' = Joining → can_reach Gone s'.
Proof.
  intros Hc E Ho Hq Hs E' Hj. assert (Hor := run_orderly _ _ _ (make_orderly l Hc) E).
  enough (orderly s' ∧ told_to_quit (el_loop s') ∧ destroying (el_owner s') = true) as (? & ? & _)
    by by apply join_finishes.
  apply (run_thread_invariant (λ _, true) (λ s1, orderly s1 ∧ told_to_quit (el_loop s1) ∧
    destroying (el_owner s1) = true)) with es' s; [|by apply Forall_true| |done].
  - intros e s1 s2 _ (H1 & H2 & H3) Es.
    split; [by apply (event_orderly e s1)|]. split; [by apply (event_finishing e s1)|].
    assert (el_exiting_ s2 = true) as Hx.
    { assert (el_exiting_ s1 = true) as H4 by by rewrite (or_exiting _ H1).
      clear -Es H4. destruct e; simpl in Es; unfold owner_step, child_step, on_loop in Es;
        repeat (case_match; simplify_eq/=; try done). 
      all: by destruct (do_event e (el_loop s1)); simplify_eq/=. }
    by rewrite <- (or_exiting _ (event_orderly e s1 s2 H1 Es)).
  - split; [done|]. split; [by split|by rewrite Ho].
Qed.

(** The start of an object's life: startLoop() has returned, the child is about
    to call loop(). *)
Definition brought_up : list (thread_event U) :=
  [StartLoop; ChildStep; ChildStep; ChildStep; OwnerStep; OwnerStep; OwnerStep].
(** The destructor, as far as [join()]. *)
Definition torn_down : list (thread_event U) := [Destroy; OwnerStep; OwnerStep; OwnerStep; OwnerStep].

(** C38: The destructor can wait for ever.  If the owner destroys the object
    right after [startLoop()] returned, while the child is between the test of
    [quit_] and its reset, the request is erased: the loop takes the wake-up and
    waits, and unless somebody else asks it to quit the owner stays in [join()]. *)
Theorem destructor_can_hang (l : EventLoop P U) :
  quit_ l = false → calling_pending_functors_ l = false → pendingFunctors_ l = [] →
  ∃ s, run_thread (brought_up ++ [LoopEvent LoopStep] ++ torn_down ++
         (LoopEvent <$> [LoopStep; LoopStep; PollReturns true; ReadWakeup; TakeTasks; LoopStep; LoopStep]))
         (make_EventLoopThread l) = Some s ∧
    th_pc (el_loop s) = Polling ∧ th_readable (el_loop s) = false ∧
    ∀ es s', Forall (λ e, undisturbed e = true) es → run_thread es s = Some s' → el_owner s' = Joining.
Proof.
  intros Hq Hc Hp. unfold run_thread. simpl. unfold do_event, loop_step. simpl. rewrite Hq. simpl.
  rewrite Hp. simpl.
  eexists. split; [done|]. split; [done|]. split; [done|]. intros es s' Hes E.
  assert (placed (el_loop s') ∧ unstopped (el_loop s') ∧ el_child s' = InLoop ∧ el_owner s' = Joining)
    as (_ & _ & _ & ?); [|done].
  revert E. apply (run_thread_invariant undisturbed (λ s, placed (el_loop s) ∧ unstopped (el_loop s) ∧
    el_child s = InLoop ∧ el_owner s = Joining)); [|done|by repeat split].
  clear. intros e s s' He (Hpl & Hun & Hch & Ho) E.
  destruct e as [| | | | | |e]; simpl in E; unfold owner_step, child_step in E; rewrite ?Ho, ?Hch in E; try done.
  - destruct Hun as [_ Hr]. by destruct (th_pc (el_loop s)).
  - assert ((if in_own_thread e then true else true) = true) as Hg by by destruct (in_own_thread e).
    simpl in E. rewrite Hg in E. destruct (do_event e (el_loop s)) as [l1|] eqn:El; [|done].
    injection E as <-. simpl in *. apply negb_true_iff in He.
    split; [by apply (event_placed e (el_loop s))|]. split; [by apply (event_unstopped e (el_loop s))|done].
Qed.


(** A loop that is told to quit before [startLoop()] has returned, say by
    the thread-init callback.  [startLoop()] can return a null pointer, when the
    loop ends before [loop_] is read again after the wait; or the loop ends
    before the owner has looked at [loop_] at all, and then the owner waits for
    ever, whatever happens. *)
Theorem early_quit_breaks_startLoop (l : EventLoop P U) :
  (∃ s, run_thread [StartLoop; ChildStep; CallbackQuit; ChildStep; ChildStep; OwnerStep; OwnerStep;
                    LoopEvent LoopStep; ChildStep; ChildStep; OwnerStep] (make_EventLoopThread l) = Some s ∧
        el_owner s = Up false) ∧
  (∃ s, run_thread [StartLoop; ChildStep; CallbackQuit; ChildStep; ChildStep; OwnerStep;
                    LoopEvent LoopStep; ChildStep; ChildStep; ChildStep] (make_EventLoopThread l) = Some s ∧
        ∀ es s', run_thread es s = Some s' → el_owner s' = Waiting).
Proof.
  split.
  - by eexists.
  - eexists. split; [done|]. intros es s' E.
    assert (el_child s' = Finished ∧ el_loop_ s' = false ∧ el_owner s' = Waiting) as (_ & _ & ?); [|done].
    revert E. apply (run_thread_invariant (λ _, true) (λ s, el_child s = Finished ∧ el_loop_ s = false ∧
      el_owner s = Waiting)); [|by apply Forall_true|done].
    clear. intros e s s' _ (Hch & Hl & Ho) E.
    destruct e as [| | | | | |e]; simpl in E; unfold owner_step, child_step in E; rewrite ?Ho, ?Hch, ?Hl in E; try done.
    by destruct (in_own_thread e).
Qed.
End properties.

(** ** Witnesses *)

Abbreviation DemoThread := (ThreadState unit nat).
Definition demo_after (es : list (thread_event nat)) : DemoThread :=
  default (make_EventLoopThread plain_loop) (run_thread es (make_EventLoopThread plain_loop)).


(** The owner destroys the object while the loop waits. *)
Definition to_quit_waking : list (thread_event nat) :=
  brought_up ++ (LoopEvent <$> [LoopStep; LoopStep; LoopStep]) ++ [Destroy; OwnerStep; OwnerStep; OwnerStep].

Lemma destructor_can_finish_witness :
  let s := demo_after to_quit_waking in
  ∃ s', run_thread to_quit_waking (make_EventLoopThread plain_loop) = Some s ∧
    run_thread [OwnerStep] s = Some s' ∧ el_owner s' = Joining ∧ can_reach Gone s'.
Proof.
  intros s.
  assert (run_thread to_quit_waking (make_EventLoopThread plain_loop) = Some s) as E by (vm_compute; reflexivity).
  assert (is_Some (run_thread [OwnerStep] s)) as [s' E'] by (vm_compute; eexists; reflexivity).
  assert (el_owner s' = Joining) as Ho by (vm_compute in E'; injection E' as <-; reflexivity).
  exists s'. split; [exact E|]. split; [exact E'|]. split; [exact Ho|].
  apply (destructor_can_finish plain_loop to_quit_waking [OwnerStep] s s' eq_refl E);
    [vm_compute; reflexivity|vm_compute; reflexivity|vm_compute; discriminate|exact E'|exact Ho].
Defined.

Lemma destructor_can_hang_witness :
  ∃ s, run_thread (brought_up ++ [LoopEvent LoopStep] ++ torn_down ++
         (LoopEvent <$> [LoopStep; LoopStep; PollReturns true; ReadWakeup; TakeTasks; LoopStep; LoopStep]))
         (make_EventLoopThread plain_loop) = Some s ∧
    ∀ es s', Forall (λ e, undisturbed e = true) es → run_thread es s = Some s' → el_owner s' = Joining.
Proof.
  destruct (destructor_can_hang plain_loop eq_refl eq_refl eq_refl) as (s & E & _ & _ & H).
  exists s. split; [exact E|exact H].
Defined.

