(* ===== verification/Text.v ===== *)
(** * Text: what [snprintf] and [inet_ntop] print

    Decimal numbers, the truncation of [snprintf], and, for the specifications,
    the functions that read such text back: a number is read digit by digit, a
    text is split at its first separator. *)

From Stdlib Require Import Ascii.
From S2P Require Import Prelude.

#[local] Open Scope string_scope.
#[local] Open Scope Z_scope.

(** ** Printing *)

Definition digit (d : Z) : ascii := ascii_of_nat (48 + Z.to_nat d).

#[global] Arguments digit : simpl never.

(** The last [fuel] digits of [n], at most, in front of [rest]. *)
Fixpoint print_digits (fuel : nat) (n : Z) (rest : string) : string :=
  match fuel with
  | O => rest
  | S fuel => let rest := String.String (digit (n mod 10)) rest in
              if n <? 10 then rest else print_digits fuel (n / 10) rest
  end.

(** [%u] and [%d], for the numbers of 64 bits and fewer: they have at most 20
    digits. *)
Definition printf_u (n : Z) : string := print_digits 20 n "".
Definition printf_d (n : Z) : string := if n <? 0 then "-" +:+ printf_u (- n) else printf_u n.

(** [snprintf(buf,size,...)] keeps [size-1] characters. *)
Definition snprintf (size : nat) (s : string) : string := String.substring 0 (size - 1) s.

(** ** Reading *)

Definition digit_value (c : ascii) : option Z :=
  let v := Z.of_nat (nat_of_ascii c) - 48 in
  if (0 <=? v) && (v <? 10) then Some v else None.

#[global] Arguments digit_value : simpl never.

(** The number a text of digits continues from [v]. *)
Fixpoint read_digits (v : Z) (s : string) : option Z :=
  match s with
  | "" => Some v
  | String.String c s => d ← digit_value c; read_digits (10 * v + d) s
  end.
Definition read_u (s : string) : option Z := if bool_decide (s = "") then None else read_digits 0 s.

(** What stands before and behind the first [c]. *)
Fixpoint split_at (c : ascii) (s : string) : option (string * string) :=
  match s with
  | "" => None
  | String.String a s => if Ascii.eqb a c then Some ("", s)
                         else '(x, y) ← split_at c s; Some (String.String a x, y)
  end.

(** ** Lemmas *)

Lemma string_app_cons (a : ascii) (s t : string) : String.String a s +:+ t = String.String a (s +:+ t).
Proof. done. Qed.

Lemma string_app_nil_r (s : string) : s +:+ "" = s.
Proof. induction s as [|a s IH]; [done|by rewrite string_app_cons, IH]. Qed.

Lemma string_app_assoc (a b c : string) : (a +:+ b) +:+ c = a +:+ (b +:+ c).
Proof. induction a as [|x a IH]; [done|by rewrite !string_app_cons, IH]. Qed.

Lemma string_app_length (a b : string) : String.length (a +:+ b) = (String.length a + String.length b)%nat.
Proof. induction a as [|x a IH]; [done|]. rewrite string_app_cons. simpl. by rewrite IH. Qed.

Lemma digit_value_digit d : 0 ≤ d < 10 → digit_value (digit d) = Some d.
Proof.
  intros Hd. assert (d = 0 ∨ d = 1 ∨ d = 2 ∨ d = 3 ∨ d = 4 ∨ d = 5 ∨ d = 6 ∨ d = 7 ∨ d = 8 ∨ d = 9) as H by lia.
  repeat (destruct H as [->|H]; [by vm_compute|]). subst. by vm_compute.
Qed.

Lemma print_digits_read fuel n v rest :
  0 ≤ n < 10 ^ Z.of_nat fuel → fuel ≠ O → ∃ k, 1 ≤ k ∧
  read_digits v (print_digits fuel n rest) = read_digits (10 ^ k * v + n) rest.
Proof.
  revert n rest. induction fuel as [|fuel IH]; intros n rest Hn Hf; [done|].
  simpl. assert (Hm := Z.mod_pos_bound n 10 eq_refl). assert (Hd := Z.div_mod n 10 ltac:(done)).
  destruct (Z.ltb_spec n 10) as [Hlt|Hge].
  - exists 1. split; [lia|]. cbn [read_digits]. rewrite digit_value_digit by done. mcbn.
    cbn [mbind option_bind]. rewrite Z.mod_small by lia. by rewrite Z.pow_1_r.
  - assert (0 ≤ n / 10 < 10 ^ Z.of_nat fuel) as Hq.
    { split; [apply Z.div_pos; lia|]. apply Z.div_lt_upper_bound; [lia|].
      rewrite Nat2Z.inj_succ, Z.pow_succ_r in Hn by lia. lia. }
    destruct (IH (n / 10) (String.String (digit (n mod 10)) rest) Hq) as (k & Hk & ->).
    { intros ->. change (10 ^ Z.of_nat 0) with 1 in Hq. lia. }
    exists (k + 1). split; [lia|]. cbn [read_digits]. rewrite digit_value_digit by done. cbn [mbind option_bind]. f_equal.
    rewrite Z.pow_add_r by lia. lia.
Qed.

Lemma print_digits_nonempty fuel n rest : fuel ≠ O → print_digits fuel n rest ≠ "".
Proof.
  intros Hf. assert (∀ fuel n rest, rest ≠ "" → print_digits fuel n rest ≠ "") as H.
  { clear. intros fuel. induction fuel as [|fuel IH]; intros n rest Hr; simpl; [done|].
    destruct (_ <? _); [done|by apply IH]. }
  destruct fuel as [|fuel]; [done|]. simpl. destruct (_ <? _); [done|by apply H].
Qed.

(** Numbers are read back. *)
Lemma read_printf_u n : 0 ≤ n < 10 ^ 20 → read_u (printf_u n) = Some n.
Proof.
  intros Hn. unfold read_u, printf_u.
  rewrite bool_decide_eq_false_2 by by apply print_digits_nonempty.
  destruct (print_digits_read 20 n 0 "") as (k & _ & ->); [done..|]. simpl. f_equal. lia.
Qed.

Lemma print_digits_length fuel n k rest :
  0 ≤ n < 10 ^ Z.of_nat k → k ≠ O →
  (String.length (print_digits fuel n rest) ≤ k + String.length rest)%nat.
Proof.
  revert n k rest. induction fuel as [|fuel IH]; intros n k rest Hn Hk; simpl; [lia|].
  destruct (Z.ltb_spec n 10); simpl; [lia|].
  destruct k as [|k]; [done|]. rewrite Nat2Z.inj_succ, Z.pow_succ_r in Hn by lia.
  etrans; [apply (IH (n / 10) k)|simpl; lia].
  - split; [apply Z.div_pos; lia|apply Z.div_lt_upper_bound; lia].
  - intros ->. change (10 ^ Z.of_nat 0) with 1 in Hn. lia.
Qed.

Lemma printf_u_length n k : 0 ≤ n < 10 ^ Z.of_nat k → k ≠ O → (String.length (printf_u n) ≤ k)%nat.
Proof.
  intros Hn Hk. unfold printf_u. etrans; [by apply (print_digits_length 20 n k "")|].
  change (String.length "") with 0%nat. lia.
Qed.

Lemma printf_u_nonneg n : 0 ≤ n → printf_d n = printf_u n.
Proof. intros Hn. unfold printf_d. by rewrite (proj2 (Z.ltb_ge n 0)). Qed.

(** Characters of numbers are digits. *)
Fixpoint has_char (c : ascii) (s : string) : bool :=
  match s with "" => false | String.String a s => Ascii.eqb a c || has_char c s end.

Lemma digit_not_char c d : digit_value c = None → 0 ≤ d < 10 → Ascii.eqb (digit d) c = false.
Proof.
  intros Hc Hd. destruct (Ascii.eqb_spec (digit d) c) as [<-|]; [|done].
  by rewrite digit_value_digit in Hc.
Qed.

Lemma print_digits_char c fuel n rest :
  digit_value c = None → 0 ≤ n → has_char c (print_digits fuel n rest) = has_char c rest.
Proof.
  intros Hc. revert n rest. induction fuel as [|fuel IH]; intros n rest Hn; [done|]. cbn [print_digits].
  assert (Ascii.eqb (digit (n mod 10)) c = false) as Hd by by apply digit_not_char, Z.mod_pos_bound.
  destruct (n <? 10); [cbn [has_char]; by rewrite Hd|].
  rewrite IH by (apply Z.div_pos; lia). cbn [has_char]. by rewrite Hd.
Qed.

Lemma printf_u_char c n : digit_value c = None → 0 ≤ n → has_char c (printf_u n) = false.
Proof. apply print_digits_char. Qed.

Lemma has_char_app c a b : has_char c (a +:+ b) = has_char c a || has_char c b.
Proof. induction a as [|x a IH]; [done|]. rewrite string_app_cons. simpl. by rewrite IH, orb_assoc. Qed.

Lemma split_at_app c a b : has_char c a = false → split_at c (a +:+ String.String c b) = Some (a, b).
Proof.
  induction a as [|x a IH]; [intros _; unfold String.append; simpl; by rewrite Ascii.eqb_refl|].
  rewrite string_app_cons. simpl. intros [Hx Ha]%orb_false_iff. by rewrite Hx, IH.
Qed.

(** [snprintf] into a buffer that is large enough. *)
Lemma substring_whole n s : (String.length s ≤ n)%nat → String.substring 0 n s = s.
Proof.
  revert s. induction n as [|n IH]; intros [|a s] Hs; simpl in *; try done; [lia|].
  by rewrite IH by lia.
Qed.

Lemma snprintf_fits size s : (String.length s < size)%nat → snprintf size s = s.
Proof. intros Hs. apply substring_whole. lia. Qed.
