(* ===== verification/InetAddress.v ===== *)
(** * Addresses and sockets (InetAddress.h/.cc, Socket.h/.cc)

    An address is the [sockaddr_in] it wraps; its fields are in network byte
    order, read here on a little-endian machine, so that the first byte of
    [s_addr] in memory is its low byte.  [inet_ntop] for [AF_INET] prints the
    four bytes in decimal; [inet_addr] is a parameter, of which the text form
    [a.b.c.d] is used.  [Socket::shutDownWrite] and [Socket::setKeepAlive] are
    in TcpConnection.v, which uses them. *)

From Stdlib Require Import Ascii.
From S2P Require Import Prelude Kernel Text.

#[local] Open Scope string_scope.
#[local] Open Scope Z_scope.

Definition AF_INET : Z := 2.

(** Byte order of 16-bit numbers. *)
Definition htons (z : Z) : Z := z mod 256 * 256 + z / 256.
Definition ntohs (z : Z) : Z := htons z.

(** The bytes of [s_addr] in memory. *)
Definition addr_byte (i : Z) (s_addr : Z) : Z := s_addr / 256 ^ i mod 256.
Definition addr_of (a b c d : Z) : Z := a + 256 * b + 256 ^ 2 * c + 256 ^ 3 * d.

Definition dotted (a b c d : Z) : string :=
  printf_u a +:+ "." +:+ printf_u b +:+ "." +:+ printf_u c +:+ "." +:+ printf_u d.
Definition inet_ntop (s_addr : Z) : string :=
  dotted (addr_byte 0 s_addr) (addr_byte 1 s_addr) (addr_byte 2 s_addr) (addr_byte 3 s_addr).

(** ** InetAddress *)

Abbreviation InetAddress := sockaddr_in.

Definition make_InetAddress (inet_addr : string → Z) (port : Z) (ip : string) : InetAddress :=
  SockaddrIn AF_INET (htons port) (inet_addr ip).

Definition setSockAddr (addr : sockaddr_in) (this : InetAddress) : InetAddress := addr.
Definition getSockAddr (this : InetAddress) : sockaddr_in := this.

Definition toIp (this : InetAddress) : string := snprintf 64 (inet_ntop (s_addr this)).

(** The port is printed behind the address, into what is left of [buf]. *)
Definition toIpPort (this : InetAddress) : string :=
  let buf := toIp this in
  buf +:+ snprintf (64 - String.length buf) (":" +:+ printf_u (ntohs (sin_port this))).

Definition toPort (this : InetAddress) : Z := ntohs (sin_port this).

(** ** Socket *)

Section socket.
Context {K : Type} `{!Kernel K}.

Definition listen (socketfd_ : Z) : M K unit := λ k,
  let '(r, k) := sys_listen socketfd_ (1024 * 16) k in
  if r =? 0 then Ok (tt, k) else Fault FatalExit.

Definition bindAddress (socketfd_ : Z) (addr : InetAddress) : M K unit := λ k,
  let '(r, k) := sys_bind socketfd_ (getSockAddr addr) k in
  if r <? 0 then Fault FatalExit else Ok (tt, k).

(** The new descriptor or -1, [errno], and [peer_addr] afterwards. *)
Definition accept (socketfd_ : Z) (peer_addr : InetAddress) : M K (Z * Z * InetAddress) := λ k,
  let '((connfd, errno, addr), k) := sys_accept4 socketfd_ k in
  Ok (connfd, errno, if 0 <=? connfd then setSockAddr addr peer_addr else peer_addr, k).

Definition optval (on : bool) : Z := if on then 1 else 0.
Definition setTcpNoDelay (socketfd_ : Z) (on : bool) : M K unit :=
  modify (sys_setsockopt socketfd_ TCP_NODELAY (optval on)).
Definition setReuseAddr (socketfd_ : Z) (on : bool) : M K unit :=
  modify (sys_setsockopt socketfd_ SO_REUSEADDR (optval on)).
Definition setReusePort (socketfd_ : Z) (on : bool) : M K unit :=
  modify (sys_setsockopt socketfd_ SO_REUSEPORT (optval on)).

Definition destroy_Socket (socketfd_ : Z) : M K unit := modify (sys_close socketfd_).
End socket.

(** ** Reading addresses back *)

(** [a.b.c.d:port] *)
Definition read_ip (s : string) : option Z :=
  '(a, s) ← split_at "." s; '(b, s) ← split_at "." s; '(c, d) ← split_at "." s;
  a ← read_u a; b ← read_u b; c ← read_u c; d ← read_u d;
  Some (addr_of a b c d).
Definition read_ip_port (s : string) : option InetAddress :=
  '(ip, port) ← split_at ":" s;
  a ← read_ip ip; p ← read_u port;
  Some (SockaddrIn AF_INET (htons p) a).

Definition is_byte (z : Z) : Prop := 0 ≤ z < 256.
Record inet_ok (a : InetAddress) : Prop := InetOk {
  io_family : sin_family a = AF_INET;
  io_port : 0 ≤ sin_port a < 2 ^ 16;
  io_addr : 0 ≤ s_addr a < 2 ^ 32
}.

Lemma addr_byte_ok i s : is_byte (addr_byte i s).
Proof. by apply Z.mod_pos_bound. Qed.

Lemma htons_involutive z : 0 ≤ z < 2 ^ 16 → htons (htons z) = z.
Proof.
  intros Hz. unfold htons.
  assert (Hm := Z.mod_pos_bound z 256 eq_refl). assert (Hd := Z.div_mod z 256 ltac:(done)).
  assert (0 ≤ z / 256 < 256) as Hq by (split; [apply Z.div_pos; lia|apply Z.div_lt_upper_bound; lia]).
  assert ((z mod 256 * 256 + z / 256) / 256 = z mod 256) as ->.
  { symmetry. apply (Z.div_unique _ _ _ (z / 256)); lia. }
  assert ((z mod 256 * 256 + z / 256) mod 256 = z / 256) as ->; [|lia].
  symmetry. apply (Z.mod_unique _ _ (z mod 256)); lia.
Qed.

Lemma htons_range z : 0 ≤ z < 2 ^ 16 → 0 ≤ htons z < 2 ^ 16.
Proof.
  intros Hz. unfold htons.
  assert (Hm := Z.mod_pos_bound z 256 eq_refl).
  assert (0 ≤ z / 256 < 256) by (split; [apply Z.div_pos; lia|apply Z.div_lt_upper_bound; lia]). lia.
Qed.

Lemma addr_of_bytes s : 0 ≤ s < 2 ^ 32 →
  addr_of (addr_byte 0 s) (addr_byte 1 s) (addr_byte 2 s) (addr_byte 3 s) = s.
Proof.
  intros Hs. unfold addr_of, addr_byte.
  change (256 ^ 0) with 1. change (256 ^ 1) with 256. change (256 ^ 2) with (256 * 256).
  change (256 ^ 3) with (256 * 256 * 256). rewrite Z.div_1_r, <- !Z.div_div by lia.
  assert (s / 256 / 256 / 256 < 256) as Hq by (repeat (apply Z.div_lt_upper_bound; [lia|]); lia).
  rewrite (Z.mod_small (s / 256 / 256 / 256)) by (split; [repeat apply Z.div_pos; lia|done]).
  assert (H0 := Z.div_mod s 256 ltac:(done)). assert (H1 := Z.div_mod (s / 256) 256 ltac:(done)).
  assert (H2 := Z.div_mod (s / 256 / 256) 256 ltac:(done)). lia.
Qed.

Lemma byte_text (z : Z) : is_byte z →
  read_u (printf_u z) = Some z ∧ has_char "." (printf_u z) = false ∧ has_char ":" (printf_u z) = false ∧
  (String.length (printf_u z) ≤ 3)%nat.
Proof.
  intros Hz. unfold is_byte in Hz. split; [apply read_printf_u; lia|].
  split; [by apply printf_u_char; [vm_compute|lia]|]. split; [by apply printf_u_char; [vm_compute|lia]|].
  by apply printf_u_length; [lia|].
Qed.

Lemma split_at_sep (c : ascii) (a b : string) :
  has_char c a = false → split_at c (a +:+ String.String c "" +:+ b) = Some (a, b).
Proof. exact (split_at_app c a b). Qed.

Lemma read_dotted a b c d :
  is_byte a → is_byte b → is_byte c → is_byte d → read_ip (dotted a b c d) = Some (addr_of a b c d).
Proof.
  intros (Ra & Pa & _)%byte_text (Rb & Pb & _)%byte_text (Rc & Pc & _)%byte_text (Rd & _)%byte_text.
  unfold read_ip, dotted.
  rewrite (split_at_sep "." _ _ Pa). cbn [mbind option_bind].
  rewrite (split_at_sep "." _ _ Pb). cbn [mbind option_bind].
  rewrite (split_at_sep "." _ _ Pc). cbn [mbind option_bind].
  rewrite Ra, Rb, Rc, Rd. done.
Qed.

Lemma dotted_text a b c d :
  is_byte a → is_byte b → is_byte c → is_byte d →
  has_char ":" (dotted a b c d) = false ∧ (String.length (dotted a b c d) ≤ 15)%nat.
Proof.
  intros (_ & _ & Pa & La)%byte_text (_ & _ & Pb & Lb)%byte_text (_ & _ & Pc & Lc)%byte_text
    (_ & _ & Pd & Ld)%byte_text.
  unfold dotted. rewrite !has_char_app, !string_app_length, Pa, Pb, Pc, Pd.
  change (String.length ".") with 1%nat. split; [done|lia].
Qed.

(** Nothing is cut off. *)
Lemma toIp_whole a : toIp a = inet_ntop (s_addr a).
Proof.
  apply snprintf_fits. destruct (dotted_text (addr_byte 0 (s_addr a)) (addr_byte 1 (s_addr a))
    (addr_byte 2 (s_addr a)) (addr_byte 3 (s_addr a))) as [_ Hl]; [apply addr_byte_ok..|].
  unfold inet_ntop. lia.
Qed.

Lemma toIpPort_whole a : inet_ok a →
  toIpPort a = inet_ntop (s_addr a) +:+ ":" +:+ printf_u (toPort a) ∧ (String.length (toIpPort a) ≤ 21)%nat.
Proof.
  intros [_ Hp _]. destruct (dotted_text (addr_byte 0 (s_addr a)) (addr_byte 1 (s_addr a))
    (addr_byte 2 (s_addr a)) (addr_byte 3 (s_addr a))) as [_ Hl]; [apply addr_byte_ok..|].
  assert (String.length (printf_u (toPort a)) ≤ 5)%nat as Hpl.
  { apply printf_u_length; [|done]. unfold toPort, ntohs. assert (H := htons_range _ Hp). lia. }
  assert (String.length (":" +:+ printf_u (toPort a)) ≤ 6)%nat as Hcl.
  { rewrite string_app_length. change (String.length ":") with 1%nat. lia. }
  assert (toIpPort a = inet_ntop (s_addr a) +:+ ":" +:+ printf_u (toPort a)) as ->.
  { unfold toIpPort. rewrite toIp_whole, snprintf_fits; [done|]. unfold inet_ntop, toPort in *. lia. }
  split; [done|]. rewrite string_app_length. unfold inet_ntop. lia.
Qed.

(** C30: Addresses and their text.  [toIpPort] of every address can be read back:
    it determines the address and the port, and is never cut off (at most 21 of
    63 characters); an address built from a port and the text [a.b.c.d] answers
    that port and that text. *)
Theorem address_roundtrip (inet_addr : string → Z) :
  (∀ a, inet_ok a → read_ip_port (toIpPort a) = Some a ∧ (String.length (toIpPort a) ≤ 21)%nat) ∧
  ((∀ a b c d, is_byte a → is_byte b → is_byte c → is_byte d →
               inet_addr (dotted a b c d) = addr_of a b c d) →
   ∀ port a b c d, 0 ≤ port < 2 ^ 16 → is_byte a → is_byte b → is_byte c → is_byte d →
     let this := make_InetAddress inet_addr port (dotted a b c d) in
     inet_ok this ∧ toPort this = port ∧ toIp this = dotted a b c d).
Proof.
  split.
  - intros a Ha. destruct (toIpPort_whole a Ha) as [E Hl]. split; [|done]. rewrite E.
    destruct Ha as [Hf Hp Hs].
    destruct (dotted_text (addr_byte 0 (s_addr a)) (addr_byte 1 (s_addr a))
      (addr_byte 2 (s_addr a)) (addr_byte 3 (s_addr a))) as [Hc _]; [apply addr_byte_ok..|].
    unfold read_ip_port. rewrite (split_at_sep ":") by done. cbn [mbind option_bind].
    unfold inet_ntop. rewrite read_dotted by apply addr_byte_ok. cbn [mbind option_bind].
    assert (H := htons_range _ Hp). unfold toPort, ntohs. rewrite read_printf_u by lia.
    cbn [mbind option_bind]. rewrite addr_of_bytes, htons_involutive by done.
    destruct a; simpl in *; by subst.
  - intros Hin port a b c d Hp Ha Hb Hc Hd this. unfold is_byte in *.
    assert (s_addr this = addr_of a b c d) as Hs by by apply Hin.
    assert (addr_byte 0 (addr_of a b c d) = a ∧ addr_byte 1 (addr_of a b c d) = b ∧
            addr_byte 2 (addr_of a b c d) = c ∧ addr_byte 3 (addr_of a b c d) = d) as (E0 & E1 & E2 & E3).
    { unfold addr_byte, addr_of. change (256 ^ 0) with 1. change (256 ^ 1) with 256.
      change (256 ^ 2) with 65536. change (256 ^ 3) with 16777216. rewrite Z.div_1_r.
      assert ((a + 256 * b + 65536 * c + 16777216 * d) / 256 = b + 256 * c + 65536 * d) as ->
        by (symmetry; apply (Z.div_unique _ _ _ a); lia).
      assert ((a + 256 * b + 65536 * c + 16777216 * d) / 65536 = c + 256 * d) as ->
        by (symmetry; apply (Z.div_unique _ _ _ (a + 256 * b)); lia).
      assert ((a + 256 * b + 65536 * c + 16777216 * d) / 16777216 = d) as ->
        by (symmetry; apply (Z.div_unique _ _ _ (a + 256 * b + 65536 * c)); lia).
      split; [symmetry; apply (Z.mod_unique _ _ (b + 256 * c + 65536 * d)); lia|].
      split; [symmetry; apply (Z.mod_unique _ _ (c + 256 * d)); lia|].
      split; [symmetry; apply (Z.mod_unique _ _ d); lia|apply Z.mod_small; lia]. }
    split; [|split].
    + split; [done|by apply htons_range|]. rewrite Hs. unfold addr_of. lia.
    + by apply htons_involutive.
    + rewrite toIp_whole, Hs. unfold inet_ntop. by rewrite E0, E1, E2, E3.
Qed.

(** ** Witness: an [inet_addr] that reads the text form *)

Lemma address_roundtrip_witness :
  let inet_addr := λ s, default 0 (read_ip s) in
  let this := make_InetAddress inet_addr 8080 "127.0.0.1" in
  toPort this = 8080 ∧ toIp this = "127.0.0.1" ∧ read_ip_port (toIpPort this) = Some this ∧
  toIpPort this = "127.0.0.1:8080".
Proof.
  intros inet_addr this.
  destruct (address_roundtrip inet_addr) as [H1 H2].
  destruct (H2 ltac:(intros a b c d Ha Hb Hc Hd; unfold inet_addr; rewrite read_dotted; done)
    8080 127 0 0 1) as (Hok & Hp & Hi); [lia|unfold is_byte; lia..|].
  split; [exact Hp|]. split; [exact Hi|]. split; [exact (proj1 (H1 this Hok))|vm_compute; reflexivity].
Defined.
