(* ===== verification/Acceptor.v ===== *)
(** * Acceptor (Acceptor.h/.cc)

    The listening socket and its channel in the base loop.  The channel is in
    the loop's state, at the address [accept_channel_]; its handler is the one
    [Owned] handler of this file, [handleRead].  The callback of a new connection
    is code on the whole program [W], of which the acceptor and its loop are a
    part. *)

From S2P Require Import Prelude Kernel TimerQueue Channel Poller EventLoop InetAddress.

Record Acceptor (N : Type) : Type := mkAcceptor {
  accept_socket_ : Z;
  accept_channel_ : positive;
  listening_ : bool;
  connection_callback_ : option N
}.
Arguments mkAcceptor {N} _ _ _ _. Arguments accept_socket_ {N} _. Arguments accept_channel_ {N} _.
Arguments listening_ {N} _. Arguments connection_callback_ {N} _.
#[export] Instance set_listening_ {N} : Setter (@listening_ N) := λ f a,
  mkAcceptor (accept_socket_ a) (accept_channel_ a) (f (listening_ a)) (connection_callback_ a).
#[global] Arguments set_listening_ {N} _ !_ /.
#[export] Instance set_connection_callback_ {N} : Setter (@connection_callback_ N) := λ f a,
  mkAcceptor (accept_socket_ a) (accept_channel_ a) (listening_ a) (f (connection_callback_ a)).
#[global] Arguments set_connection_callback_ {N} _ !_ /.

(** The acceptor and its loop. *)
Record AcceptorState (K O T P U CB N : Type) : Type := mkAcceptorState {
  ac_acceptor : Acceptor N;
  ac_loop : LoopState K O T P U CB
}.
Arguments mkAcceptorState {K O T P U CB N} _ _. Arguments ac_acceptor {K O T P U CB N} _.
Arguments ac_loop {K O T P U CB N} _.
#[export] Instance set_ac_acceptor {K O T P U CB N} : Setter (@ac_acceptor K O T P U CB N) := λ f s,
  mkAcceptorState (f (ac_acceptor s)) (ac_loop s).
#[global] Arguments set_ac_acceptor {K O T P U CB N} _ !_ /.
#[export] Instance set_ac_loop {K O T P U CB N} : Setter (@ac_loop K O T P U CB N) := λ f s,
  mkAcceptorState (ac_acceptor s) (f (ac_loop s)).
#[global] Arguments set_ac_loop {K O T P U CB N} _ !_ /.

(** [InetAddress addr;]: port 0 and 127.0.0.1. *)
Definition no_address : InetAddress := make_InetAddress (λ _, addr_of 127 0 0 1) 0 "127.0.0.1".

Section acceptor.
Context {K O T P U CB N : Type} `{!Kernel K} `{!Poller K (Handler O) T P}.
Abbreviation S := (AcceptorState K O T P U CB N).
(** The name of [[this](Timestamp){ handleRead(); }] among the handlers. *)
Variable read_handler : O.

Definition acceptor : M S (Acceptor N) := gets ac_acceptor.
Definition in_base_loop {A} (m : M (LoopState K O T P U CB) A) : M S A := λ s,
  match m (ac_loop s) with
  | Ok (a, l) => Ok (a, s <| ac_loop := l |>)
  | Fault f => Fault f
  end.
(** A call of [Socket] on the kernel. *)
Definition on_socket {A} (m : M K A) : M S A := λ s,
  match m (ls_kernel (ac_loop s)) with
  | Ok (a, k) => Ok (a, s <| ac_loop ::= λ l, l <| ls_kernel := k |> |>)
  | Fault f => Fault f
  end.

(** [fd] is what [socket(...)] returned. *)
Definition createNonBlocking (fd : Z) : M S Z := if fd <? 0 then throw FatalExit else mret fd.

Definition make_Acceptor (sock : Z) (p : positive) (addr : InetAddress) (reuse : bool) : M S unit :=
  fd ← createNonBlocking sock;
  modify (λ s, s <| ac_acceptor := mkAcceptor fd p false None |>) ;;
  in_base_loop (new_channel p (make_Channel fd)) ;;
  on_socket (setReuseAddr fd true) ;;
  on_socket (setReusePort fd reuse) ;;
  on_socket (bindAddress fd addr) ;;
  in_base_loop (c ← the_channel p; new_channel p (setCallbacks (Some (Owned read_handler)) None None None c)).

Definition setConnetionCallback (cb : N) : M S unit :=
  modify (λ s, s <| ac_acceptor ::= λ a, a <| connection_callback_ := Some cb |> |>).

Definition listen : M S unit :=
  modify (λ s, s <| ac_acceptor ::= λ a, a <| listening_ := true |> |>) ;;
  a ← acceptor;
  on_socket (InetAddress.listen (accept_socket_ a)) ;;
  in_base_loop (change_events (accept_channel_ a) enable_reading).

(** The body of the destructor, and then that of the socket. *)
Definition destroy_Acceptor : M S unit :=
  a ← acceptor;
  in_base_loop (change_events (accept_channel_ a) disable_all) ;;
  in_base_loop (removeChannel (accept_channel_ a)) ;;
  on_socket (destroy_Socket (accept_socket_ a)).

(** ** The handler *)

Section handler.
Context {W : Type} `{L : !Lens W S}.
Variable call : N → Z → sockaddr_in → M W unit.

Definition handleRead : M W unit :=
  a ← zoom (X := S) acceptor;
  r ← zoom (X := S) (on_socket (accept (accept_socket_ a) no_address));
  let '(connfd, errno, addr) := r in
  if 0 <? connfd then
    a ← zoom (X := S) acceptor;
    match connection_callback_ a with
    | Some cb => call cb connfd addr
    | None => zoom (X := S) (on_socket (destroy_Socket connfd))      (* ::close(connfd) *)
    end
  else mret tt.                                                     (* logged *)
End handler.
End acceptor.

(** ** Lemmas *)

Section lemmas.
Context {K O T P U CB N : Type} `{!Kernel K, !KernelLaws K} `{!Poller K (Handler O) T P}
  `{!PollerLaws K (Handler O) T P}.
Abbreviation S := (AcceptorState K O T P U CB N).
Implicit Types s : S.

Lemma on_socket_ok {A} (m : M K A) s a k :
  m (ls_kernel (ac_loop s)) = Ok (a, k) →
  on_socket m s = Ok (a, s <| ac_loop ::= λ l, l <| ls_kernel := k |> |>).
Proof. unfold on_socket. by intros ->. Qed.

Lemma in_base_loop_ok {A} (m : M _ A) s a l :
  m (ac_loop s) = Ok (a, l) → in_base_loop m s = Ok (a, s <| ac_loop := l |>).
Proof. unfold in_base_loop. by intros ->. Qed.

(** The constructor leaves a bound socket whose channel watches nothing. *)
Record accepting (read_handler : O) (fd : Z) (p : positive) s s' : Prop := Accepting {
  acc_acceptor : ac_acceptor s' = mkAcceptor fd p false None;
  acc_polls : polls (ac_loop s');
  acc_channel : ls_channels (ac_loop s') !! p =
                Some (setCallbacks (Some (Owned read_handler)) None None None (make_Channel fd));
  acc_watched : loop_watched (ac_loop s') = loop_watched (ac_loop s);
  acc_view : kview_of (ls_kernel (ac_loop s')) = kview_of (ls_kernel (ac_loop s));
  acc_others q : q ≠ p → ls_channels (ac_loop s') !! q = ls_channels (ac_loop s) !! q;
  acc_loop : ls_loop (ac_loop s') = ls_loop (ac_loop s) ∧ ls_tid (ac_loop s') = ls_tid (ac_loop s)
}.

Lemma polls_same_view k (l : LoopState K O T P U CB) :
  polls l → kview_of k = kview_of (ls_kernel l) →
  polls (l <| ls_kernel := k |>) ∧ loop_watched (l <| ls_kernel := k |>) = loop_watched l.
Proof. intros Hp Hk. apply polls_kernel; [done|by rewrite Hk]. Qed.

Lemma make_Acceptor_ok read_handler fd p addr reuse s :
  polls (ac_loop s) → ls_channels (ac_loop s) !! p = None →
  (∀ q c, ls_channels (ac_loop s) !! q = Some c → fd_ c ≠ fd) → 0 ≤ fd →
  (∀ k, 0 ≤ (sys_bind fd addr k).1) →
  ∃ s', make_Acceptor read_handler fd p addr reuse s = Ok (tt, s') ∧ accepting read_handler fd p s s'.
Proof.
  intros Hp Hn Hfd H0 Hb.
  set (k1 := sys_setsockopt fd SO_REUSEADDR 1 (ls_kernel (ac_loop s))).
  set (k2 := sys_setsockopt fd SO_REUSEPORT (optval reuse) k1).
  destruct (sys_bind fd addr k2) as [r k3] eqn:Eb.
  assert ((r <? 0) = false) as Hr by (apply Z.ltb_ge; specialize (Hb k2); by rewrite Eb in Hb).
  assert (kview_of k3 = kview_of (ls_kernel (ac_loop s))) as Hk3.
  { rewrite (bind_law _ _ _ _ _ Eb). unfold k2, k1. by rewrite !setsockopt_law. }
  destruct (new_channel_fresh p fd (ac_loop s) Hp Hn Hfd) as (_ & Hp1 & Hw1).
  set (l1 := (ac_loop s) <| ls_channels ::= <[p := make_Channel fd]> |>) in *.
  destruct (polls_same_view k3 l1 Hp1 Hk3) as [Hp2 Hw2].
  set (l2 := l1 <| ls_kernel := k3 |>) in *.
  assert (ls_channels l2 !! p = Some (make_Channel fd)) as Hc by apply lookup_insert_eq.
  set (c := setCallbacks (Some (Owned read_handler)) None None None (make_Channel fd) : Channel (Handler O) T).
  destruct (set_callbacks_ok p (make_Channel fd) c l2 Hp2 Hc) as [Hp3 Hw3]; [done..|].
  exists (mkAcceptorState (mkAcceptor fd p false None) (l2 <| ls_channels ::= <[p := c]> |>)). split.
  - destruct s as [a l]. unfold make_Acceptor, createNonBlocking.
    rewrite (proj2 (Z.ltb_ge _ _) H0). unfold modify, on_socket, in_base_loop, new_channel, setReuseAddr,
      setReusePort, bindAddress, getSockAddr. mcbn. simpl in *.
    destruct l as [k0 ch ti sq tid th lp]; simpl in *. fold k1. fold k2. rewrite Eb, Hr. 
    unfold the_channel, get. mcbn. simpl. rewrite lookup_insert_eq. done.
  - split; [done|exact Hp3|apply lookup_insert_eq| |exact Hk3| |done].
    + etrans; [exact Hw3|]. by rewrite Hw2, Hw1.
    + intros q Hq. simpl. by rewrite !lookup_insert_ne by congruence.
Qed.

(** Listening.  The constructor makes a socket that is bound and a channel
    that watches nothing yet; [listen()] then sets the flag, and the kernel
    watches the socket for reading and reports to that channel, whose callback is
    [handleRead]; the other descriptors are watched as before.  A failing
    [socket], [bind] or [listen] ends the process. *)
Theorem acceptor_listens read_handler fd p addr reuse s :
  polls (ac_loop s) → ls_channels (ac_loop s) !! p = None →
  (∀ q c, ls_channels (ac_loop s) !! q = Some c → fd_ c ≠ fd) →
  (fd < 0 → make_Acceptor read_handler fd p addr reuse s = Fault FatalExit) ∧
  (0 ≤ fd → (∀ k, 0 ≤ (sys_bind fd addr k).1) →
   ∃ s1, make_Acceptor read_handler fd p addr reuse s = Ok (tt, s1) ∧
     loop_watched (ac_loop s1) = loop_watched (ac_loop s) ∧
     ((sys_listen fd (1024 * 16) (ls_kernel (ac_loop s1))).1 ≠ 0 → listen s1 = Fault FatalExit) ∧
     ((sys_listen fd (1024 * 16) (ls_kernel (ac_loop s1))).1 = 0 →
      ∃ s2, listen s1 = Ok (tt, s2) ∧ polls (ac_loop s2) ∧ listening_ (ac_acceptor s2) = true ∧
        loop_watched (ac_loop s2) = <[fd := EpollEvent kReadEvent p]> (loop_watched (ac_loop s)) ∧
        read_callback_ <$> ls_channels (ac_loop s2) !! p = Some (Some (Owned read_handler)))).
Proof.
  intros Hp Hn Hfd. split.
  { intros Hneg. unfold make_Acceptor, createNonBlocking. by rewrite (proj2 (Z.ltb_lt _ _) Hneg). }
  intros H0 Hb. destruct (make_Acceptor_ok read_handler fd p addr reuse s) as (s1 & E & []); [done..|].
  exists s1. split; [done|]. split; [done|].
  destruct (sys_listen fd (1024 * 16) (ls_kernel (ac_loop s1))) as [r k] eqn:El.
  destruct s1 as [a l]. simpl in *. subst a.
  set (s1 := mkAcceptorState (mkAcceptor fd p true None) l : S).
  assert (∀ x, listen (mkAcceptorState (mkAcceptor fd p false None) l) = x ↔
    (on_socket (InetAddress.listen fd) ;; in_base_loop (change_events p enable_reading)) s1 = x) as Hl by done.
  split; intros Hr.
  - apply Hl. unfold on_socket, InetAddress.listen. mcbn. simpl. rewrite El.
    by rewrite (proj2 (Z.eqb_neq _ _) Hr).
  - simpl in Hr. subst r.
    destruct (polls_same_view k l acc_polls0) as [Hp2 Hw2]; [by rewrite (listen_law _ _ _ _ _ El)|].
    destruct (change_events_ok p (setCallbacks (Some (Owned read_handler)) None None None (make_Channel fd))
      enable_reading (l <| ls_kernel := k |>)) as (l' & i & Ec & Hp' & _ & Hch & _ & Hw); [done..|].
    exists (s1 <| ac_loop := l' |>). split; [apply Hl|].
    { rewrite (M_bind_ok _ _ _ _ _ (on_socket_ok (InetAddress.listen fd) s1 tt k
        ltac:(unfold InetAddress.listen; simpl; by rewrite El))).
      exact (in_base_loop_ok (change_events p enable_reading) (s1 <| ac_loop ::= λ l, l <| ls_kernel := k |> |>) tt l' Ec). }
    split; [done|]. split; [done|]. split; [etrans; [exact Hw|]|by simpl; rewrite Hch, lookup_insert_eq].
    simpl. f_equal. etrans; [exact Hw2|exact acc_watched0].
Qed.

Section handler.
Context {W : Type} `{L : !Lens W S, !LensLaws W S}.
Variable call : N → Z → sockaddr_in → M W unit.

(** The program after [accept] answered, with the kernel's new state. *)
Definition accepted (k : K) (w : W) : W :=
  replace_view ((view w : S) <| ac_loop ::= λ l, l <| ls_kernel := k |> |>) w.

(** What one call of the handler comes to. *)
Lemma handleRead_cases w :
  let fd := accept_socket_ (ac_acceptor (view w : S)) in
  match sys_accept4 fd (ls_kernel (ac_loop (view w : S))) with
  | ((connfd, errno, peer), k) =>
      handleRead call w =
        if 0 <? connfd then
          match connection_callback_ (ac_acceptor (view w : S)) with
          | Some cb => call cb connfd peer (accepted k w)
          | None => Ok (tt, accepted (sys_close connfd k) w)
          end
        else Ok (tt, accepted k w)
  end.
Proof.
  intros fd. destruct (sys_accept4 fd (ls_kernel (ac_loop (view w : S)))) as [[[connfd errno] peer] k] eqn:E.
  unfold handleRead, zoom, acceptor, gets. mcbn. rewrite replace_same.
  unfold on_socket, accept, getSockAddr. fold fd. rewrite E. mcbn. fold (accepted k w).
  destruct (Z.ltb_spec 0 connfd) as [Hc|Hc]; [|done].
  assert (view (accepted k w) = (view w : S) <| ac_loop ::= λ l, l <| ls_kernel := k |> |>) as Hv
    by apply view_replace.
  rewrite Hv. simpl. rewrite (proj2 (Z.leb_le 0 connfd)) by lia.
  assert (replace_view (view (accepted k w) : S) (accepted k w) = accepted k w) as Hsame by apply replace_same.
  rewrite Hv in Hsame. simpl in Hsame. rewrite Hsame.
  destruct (connection_callback_ _); [done|]. rewrite Hv. simpl. unfold accepted. rewrite replace_replace. 
  done.
Qed.

(** Accepting.  [handleRead] calls [accept4] once.  A new connection, on a
    descriptor above 0, is handed to the callback, once, with the address of the
    peer; without a callback its descriptor is closed.  When [accept4] fails
    nothing else happens.  (A connection on descriptor 0 is treated as a
    failure too: it is neither handed on nor closed.) *)
Theorem acceptor_handleRead w :
  let fd := accept_socket_ (ac_acceptor (view w : S)) in
  match sys_accept4 fd (ls_kernel (ac_loop (view w : S))) with
  | ((connfd, errno, peer), k) =>
      handleRead call w =
        if 0 <? connfd then
          match connection_callback_ (ac_acceptor (view w : S)) with
          | Some cb => call cb connfd peer (accepted k w)
          | None => Ok (tt, accepted (sys_close connfd k) w)
          end
        else Ok (tt, accepted k w)
  end.
Proof. apply handleRead_cases. Qed.
End handler.
End lemmas.

(** ** Witnesses *)

Abbreviation DemoAcceptor := (AcceptorState scripted unit unit EPollPoller nat nat nat).
Definition demo_base : DemoAcceptor := mkAcceptorState (mkAcceptor 0 3 false None) demo_loop.
Definition peer_address : InetAddress := SockaddrIn AF_INET (htons 5000) (addr_of 10 0 0 1).

Lemma acceptor_listens_witness :
  ∃ s1 s2, make_Acceptor tt 9 3 no_address true demo_base = Ok (tt, s1) ∧ listen s1 = Ok (tt, s2) ∧
    loop_watched (ac_loop s2) = <[9 := EpollEvent kReadEvent 3]> (loop_watched demo_loop).
Proof.
  destruct (acceptor_listens (N := nat) tt 9 3 no_address true demo_base) as [_ H].
  - apply (co_polls _ _ _ _ _ _ demo_loop_constructed).
  - vm_compute. reflexivity.
  - intros q c Hc%elem_of_map_to_list.
    assert (Forall (λ x, fd_ x.2 ≠ 9) (map_to_list (ls_channels demo_loop))) as HF
      by (vm_compute; repeat (constructor; [discriminate|]); constructor).
    rewrite Forall_forall in HF. exact (HF (q, c) Hc).
  - destruct H as (s1 & E1 & _ & _ & H); [lia|intros k; simpl; lia|].
    destruct H as (s2 & E2 & _ & _ & Hw & _); [reflexivity|].
    exists s1, s2. split; [exact E1|]. split; [exact E2|exact Hw].
Defined.

(** The program is the acceptor and the connections handed on. *)
Abbreviation DemoProgram := (DemoAcceptor * list (Z * sockaddr_in))%type.
#[local] Instance acceptor_program_lens : Lens DemoProgram DemoAcceptor := {|
  view := fst; replace_view s w := (s, w.2) |}.
#[local] Instance acceptor_program_laws : LensLaws DemoProgram DemoAcceptor.
Proof. by split; [|intros ? ? []|intros []]. Qed.
Definition note_connection (cb : nat) (connfd : Z) (peer : sockaddr_in) : M DemoProgram unit :=
  λ w, Ok (tt, (w.1, w.2 ++ [(connfd, peer)])).
Definition demo_accepting : DemoProgram :=
  (demo_base <| ac_acceptor ::= λ a, a <| connection_callback_ := Some 1%nat |> |>
     <| ac_loop ::= λ l, l <| ls_kernel ::= λ k, k <| sk_accepts := [(12, 0, peer_address)] |> |> |>, []).

Lemma acceptor_handleRead_witness :
  ∃ w', handleRead note_connection demo_accepting = Ok (tt, w') ∧ w'.2 = [(12, peer_address)].
Proof.
  assert (H := acceptor_handleRead note_connection demo_accepting). cbv zeta in H.
  destruct (sys_accept4 _ _) as [[[connfd errno] peer] k] eqn:E.
  vm_compute in E. injection E as <- <- <- <-.
  eexists. split; [exact H|reflexivity].
Defined.
