(* ===== verification/EventLoopThreadPool.v ===== *)
(** * The pool of loops (EventLoopThreadPool.h/.cc)

    The pool hands out its loops in turn.  [L] is what a pointer to an
    [EventLoop] points to; building an [EventLoopThread] of a given name and
    calling its [startLoop()] is a parameter, which may answer a null pointer
    (EventLoopThread.v says when). *)

From S2P Require Import Prelude Text.

Record Pool (L : Type) : Type := mkPool {
  base_loop_ : L;
  name_ : string;
  started_ : bool;
  next_ : Z;
  num_threads_ : Z;
  threads_ : list string;          (* the EventLoopThread objects, by name *)
  loops_ : list (option L)
}.
Arguments mkPool {L} _ _ _ _ _ _ _. Arguments base_loop_ {L} _. Arguments name_ {L} _.
Arguments started_ {L} _. Arguments next_ {L} _. Arguments num_threads_ {L} _.
Arguments threads_ {L} _. Arguments loops_ {L} _.
#[export] Instance set_started_ {L} : Setter (@started_ L) := λ f p,
  mkPool (base_loop_ p) (name_ p) (f (started_ p)) (next_ p) (num_threads_ p) (threads_ p) (loops_ p).
#[global] Arguments set_started_ {L} _ !_ /.
#[export] Instance set_next_ {L} : Setter (@next_ L) := λ f p,
  mkPool (base_loop_ p) (name_ p) (started_ p) (f (next_ p)) (num_threads_ p) (threads_ p) (loops_ p).
#[global] Arguments set_next_ {L} _ !_ /.
#[export] Instance set_num_threads_ {L} : Setter (@num_threads_ L) := λ f p,
  mkPool (base_loop_ p) (name_ p) (started_ p) (next_ p) (f (num_threads_ p)) (threads_ p) (loops_ p).
#[global] Arguments set_num_threads_ {L} _ !_ /.
#[export] Instance set_threads_ {L} : Setter (@threads_ L) := λ f p,
  mkPool (base_loop_ p) (name_ p) (started_ p) (next_ p) (num_threads_ p) (f (threads_ p)) (loops_ p).
#[global] Arguments set_threads_ {L} _ !_ /.
#[export] Instance set_loops_ {L} : Setter (@loops_ L) := λ f p,
  mkPool (base_loop_ p) (name_ p) (started_ p) (next_ p) (num_threads_ p) (threads_ p) (f (loops_ p)).
#[global] Arguments set_loops_ {L} _ !_ /.

Section pool.
Context {L : Type}.

Definition make_EventLoopThreadPool (base_loop : L) (name : string) : Pool L :=
  mkPool base_loop name false 0 0 [] [].

Definition setNumThreads (num_threads : Z) : M (Pool L) unit :=
  p ← get;
  assert_ (negb (started_ p)) ;;
  put (p <| num_threads_ := num_threads |>).

(** [loops_[next_]] is undefined out of range. *)
Definition getNextLoop : M (Pool L) (option L) :=
  p ← get;
  match loops_ p with
  | [] => mret (Some (base_loop_ p))
  | _ :: _ =>
      loop ← from_option_or OutOfBounds (if next_ p <? 0 then None else loops_ p !! Z.to_nat (next_ p));
      when (num_threads_ p =? 0) (throw DivisionByZero) ;;
      put (p <| next_ := Z.rem (next_ p + 1) (num_threads_ p) |>) ;;
      mret loop
  end.

Definition getAllLoops : M (Pool L) (list (option L)) :=
  p ← get; mret (match loops_ p with [] => [Some (base_loop_ p)] | l => l end).

(** ** start

    [W] is the whole program, of which the pool is a part. *)

Section start.
Context {W C : Type} `{!Lens W (Pool L)}.
(** [std::make_unique<EventLoopThread>(cb,buf)] and its [startLoop()]. *)
Variable startLoop : option C → string → M W (option L).
Variable call : C → L → M W unit.

Definition start_one (cb : option C) (i : nat) : M W unit :=
  p ← zoom (X := Pool L) get;
  let buf := (name_ p +:+ printf_d (Z.of_nat i))%string in
  zoom (X := Pool L) (modify (λ p : Pool L, p <| threads_ ::= λ l, l ++ [buf] |>)) ;;
  loop ← startLoop cb buf;
  zoom (X := Pool L) (modify (λ p : Pool L, p <| loops_ ::= λ l, l ++ [loop] |>)).

Definition start (cb : option C) : M W unit :=
  zoom (X := Pool L) (modify (λ p : Pool L, p <| started_ := true |>)) ;;
  p ← zoom (X := Pool L) get;
  for_each (start_one cb) (seq 0 (Z.to_nat (num_threads_ p))) ;;
  p ← zoom (X := Pool L) get;
  match cb with
  | Some c => if num_threads_ p =? 0 then call c (base_loop_ p) else mret tt
  | None => mret tt
  end.
End start.

(** ** In turn *)

(** The loops several calls hand out. *)
Fixpoint next_loops (k : nat) : M (Pool L) (list (option L)) :=
  match k with
  | O => mret []
  | S k => l ← getNextLoop; ls ← next_loops k; mret (l :: ls)
  end.

(** A pool that was started once with as many threads as it has loops. *)
Record pool_ok (p : Pool L) : Prop := PoolOk {
  po_threads : num_threads_ p = zlen (loops_ p);
  po_next : 0 ≤ next_ p < Z.max 1 (zlen (loops_ p))
}.

(** The [k]-th next loop. *)
Definition turn (p : Pool L) (k : nat) : option L :=
  match loops_ p with
  | [] => Some (base_loop_ p)
  | _ :: _ => default None (loops_ p !! ((Z.to_nat (next_ p) + k) mod length (loops_ p))%nat)
  end.

Lemma turn_some p k :
  0 < zlen (loops_ p) →
  turn p k = default None (loops_ p !! ((Z.to_nat (next_ p) + k) mod length (loops_ p))%nat).
Proof. unfold turn. by destruct (loops_ p). Qed.

(** Taking a loop turns the pool by one. *)
Lemma turn_next p k :
  0 < zlen (loops_ p) → 0 ≤ next_ p →
  turn (p <| next_ := (next_ p + 1) mod zlen (loops_ p) |>) k = turn p (S k).
Proof.
  intros Hpos Hn. rewrite !turn_some by done.
  change (loops_ (p <| next_ := (next_ p + 1) mod zlen (loops_ p) |>)) with (loops_ p).
  change (next_ (p <| next_ := (next_ p + 1) mod zlen (loops_ p) |>)) with ((next_ p + 1) mod zlen (loops_ p)).
  assert (Hm := Z.mod_pos_bound (next_ p + 1) (zlen (loops_ p)) Hpos).
  do 2 f_equal. apply Nat2Z.inj. rewrite !Nat2Z.inj_mod, !Nat2Z.inj_add, !Z2Nat.id by lia.
  fold (zlen (loops_ p)). rewrite Zplus_mod_idemp_l. f_equal. lia.
Qed.

(** The pool after [k] calls. *)
Definition turned (k : nat) (p : Pool L) : Pool L :=
  p <| next_ := (next_ p + Z.of_nat k) mod Z.max 1 (zlen (loops_ p)) |>.

Lemma getNextLoop_ok p : pool_ok p →
  getNextLoop p = Ok (turn p 0, turned 1 p) ∧ pool_ok (turned 1 p) ∧
  ∀ k, turn (turned 1 p) k = turn p (S k).
Proof.
  intros [Ht Hn]. unfold getNextLoop, get. mcbn.
  assert (Hm := Z.mod_pos_bound (next_ p + 1) (Z.max 1 (zlen (loops_ p))) ltac:(lia)).
  destruct (decide (0 < zlen (loops_ p))) as [Hpos|Hnil].
  - destruct (lookup_lt_is_Some_2 (loops_ p) (Z.to_nat (next_ p))) as [x Hx]; [unfold zlen in *; lia|].
    rewrite Z.max_r in Hm by lia. unfold turned. rewrite Z.max_r by lia.
    split; [|split; [by split; [|simpl; lia]|intros k; apply turn_next; lia]].
    rewrite (turn_some p 0 Hpos), Nat.add_0_r, Nat.mod_small, Hx by (unfold zlen in *; lia).
    rewrite (proj2 (Z.ltb_ge _ _)) by lia. unfold when, put. mcbn.
    rewrite (proj2 (Z.eqb_neq _ _)) by lia. mcbn. rewrite Z.rem_mod_nonneg, Ht by lia.
    by destruct (loops_ p).
  - assert (loops_ p = []) as El by (apply zlen_zero_inv; assert (H := zlen_nonneg (loops_ p)); lia).
    assert (turned 1 p = p) as ->.
    { unfold turned. rewrite El, zlen_nil in *. assert (next_ p = 0) as Hz by lia.
      destruct p. simpl in *. by subst. }
    split; [|split; [by split|]]; unfold turn; by rewrite El.
Qed.

Lemma turned_turned j k p : turned j (turned k p) = turned (k + j) p.
Proof.
  unfold turned. destruct p as [b nm st nx nt th ls]. simpl. f_equal.
  rewrite Zplus_mod_idemp_l. f_equal. lia.
Qed.

Lemma next_loops_ok k p : pool_ok p →
  next_loops k p = Ok (map (turn p) (seq 0 k), turned k p) ∧ pool_ok (turned k p).
Proof.
  revert p. induction k as [|k IH]; intros p Hok.
  - assert (turned 0 p = p) as ->; [|done]. unfold turned. destruct p, Hok. simpl in *.
    f_equal. rewrite Z.add_0_r. apply Z.mod_small. lia.
  - destruct (getNextLoop_ok p Hok) as (E1 & Hok1 & Ht1). destruct (IH _ Hok1) as (E2 & Hok2).
    rewrite turned_turned in *. split; [|done].
    cbn [next_loops]. mstep E1. mstep E2.
    assert (map (turn (turned 1 p)) (seq 0 k) = map (turn p) (seq 1 k)) as ->; [|done].
    rewrite <- seq_shift, map_map. by apply map_ext.
Qed.

Lemma rotation p :
  0 < zlen (loops_ p) → (Z.to_nat (next_ p) < length (loops_ p))%nat →
  map (turn p) (seq 0 (length (loops_ p))) =
    drop (Z.to_nat (next_ p)) (loops_ p) ++ take (Z.to_nat (next_ p)) (loops_ p).
Proof.
  intros Hpos Hn. set (m := Z.to_nat (next_ p)) in *. set (l := loops_ p) in *.
  apply list_eq. intros i. destruct (decide (i < length l)%nat) as [Hi|Hi].
  - change (map (turn p) (seq 0 (length l))) with (turn p <$> seq 0 (length l)).
    rewrite list_lookup_fmap, lookup_seq_lt by done. simpl.
    rewrite turn_some by done. fold l m.
    destruct (lookup_lt_is_Some_2 l ((m + i) mod length l)%nat) as [x Hx]; [apply Nat.mod_upper_bound; lia|].
    rewrite Hx. simpl. rewrite lookup_app. 
    destruct (decide (m + i < length l)%nat) as [Hlt|Hge].
    + rewrite Nat.mod_small in Hx by done. by rewrite lookup_drop, Hx.
    + rewrite lookup_ge_None_2 by (rewrite length_drop; lia).
      rewrite length_drop, lookup_take_lt by lia. rewrite <- Hx. f_equal.
      symmetry. apply (Nat.mod_unique _ _ 1); lia.
  - rewrite !lookup_ge_None_2; [done|rewrite length_app, length_drop, length_take; lia|].
    rewrite length_map, length_seq. lia.
Qed.

(** The loops are handed out in turn.  In a pool started with [n] threads
    every call returns, the [k]-th one gives the loop [k] places further on,
    modulo [n] - the base loop if there are none -, the index stays in range, and
    after [n] calls every loop was handed out exactly once and the turn is where
    it was. *)
Theorem getNextLoop_in_turn p k :
  pool_ok p →
  next_loops k p = Ok (map (turn p) (seq 0 k), turned k p) ∧ pool_ok (turned k p) ∧
  (0 < zlen (loops_ p) → k = length (loops_ p) →
   map (turn p) (seq 0 k) = drop (Z.to_nat (next_ p)) (loops_ p) ++ take (Z.to_nat (next_ p)) (loops_ p) ∧
   turned k p = p).
Proof.
  intros Hok. destruct (next_loops_ok k p Hok) as [E Hok']. split; [done|]. split; [done|].
  intros Hpos ->. assert (Hn := po_next p Hok). rewrite Z.max_r in Hn by lia.
  split; [apply rotation; [done|unfold zlen in *; lia]|].
  unfold turned. fold (zlen (loops_ p)). rewrite Z.max_r by lia.
  destruct p as [b nm st nx nt th ls]. simpl in *. f_equal.
  rewrite <- (Z.mul_1_l (zlen ls)) at 1. rewrite Z.mod_add by lia. by apply Z.mod_small.
Qed.
End pool.

(** ** Starting *)

Section starting.
Context {L W C : Type} `{!Lens W (Pool L), !LensLaws W (Pool L)}.
Variable startLoop : option C → string → M W (option L).
Variable call : C → L → M W unit.
Implicit Types w : W.
Abbreviation pool w := (view w : Pool L).

(** What [startLoop()] answers for the thread of a name, and that it leaves the
    pool alone. *)
Variable answer : string → option L.
Hypothesis startLoop_ok : ∀ cb name w, ∃ w', startLoop cb name w = Ok (answer name, w') ∧ pool w' = pool w.

Definition thread_name (p : Pool L) (i : nat) : string := (name_ p +:+ printf_d (Z.of_nat i))%string.

Definition with_threads (idx : list nat) (p : Pool L) : Pool L :=
  p <| threads_ ::= λ l, l ++ map (thread_name p) idx |>
    <| loops_ ::= λ l, l ++ map (λ i, answer (thread_name p i)) idx |>.

Lemma start_one_ok cb i w :
  ∃ w', start_one startLoop cb i w = Ok (tt, w') ∧ pool w' = with_threads [i] (pool w).
Proof.
  unfold start_one, get, modify, zoom. mcbn. rewrite replace_same.
  set (w1 := replace_view _ w).
  destruct (startLoop_ok cb (name_ (pool w) +:+ printf_d (Z.of_nat i))%string w1) as (w2 & -> & Hv).
  eexists. split; [done|]. rewrite view_replace, Hv. unfold w1. by rewrite view_replace.
Qed.

Lemma start_all_ok cb idx w :
  ∃ w', for_each (start_one startLoop cb) idx w = Ok (tt, w') ∧ pool w' = with_threads idx (pool w).
Proof.
  revert w. induction idx as [|i idx IH]; intros w.
  - exists w. split; [done|]. unfold with_threads. destruct (pool w). simpl. by rewrite !app_nil_r.
  - destruct (start_one_ok cb i w) as (w1 & E1 & H1). destruct (IH w1) as (w2 & E2 & H2).
    exists w2. split; [cbn [for_each]; by mstep E1|]. rewrite H2, H1. destruct (pool w).
    unfold with_threads. simpl. by rewrite <- !app_assoc.
Qed.

(** Starting a new pool of [n] threads.  [start] makes [n] threads, named
    after the pool and numbered from 0, and keeps what their [startLoop()]
    answered, in order; the thread-init callback is called here, for the base
    loop, only if [n] is 0 (the threads call it otherwise).  The pool is then in
    turn, and setting the number of threads is refused. *)
Theorem start_pool cb w :
  loops_ (pool w) = [] → next_ (pool w) = 0 → 0 ≤ num_threads_ (pool w) →
  let idx := seq 0 (Z.to_nat (num_threads_ (pool w))) in
  let started := with_threads idx ((pool w) <| started_ := true |>) in
  ∃ w1 : W, pool w1 = started ∧ pool_ok started ∧
    loops_ started = map (λ i, answer (thread_name (pool w) i)) idx ∧
    (∀ n, setNumThreads n started = Fault AssertFailed) ∧
    start startLoop call cb w =
      match cb with
      | Some c => if num_threads_ (pool w) =? 0 then call c (base_loop_ (pool w)) w1 else Ok (tt, w1)
      | None => Ok (tt, w1)
      end.
Proof.
  intros Hl Hn H0 idx started.
  set (w0 := replace_view ((pool w) <| started_ := true |>) w).
  assert (pool w0 = (pool w) <| started_ := true |>) as Hv0 by apply view_replace.
  destruct (start_all_ok cb idx w0) as (w1 & E1 & H1). rewrite Hv0 in H1. fold started in H1.
  exists w1. split; [done|].
  assert (loops_ started = map (λ i, answer (thread_name (pool w) i)) idx) as Hls.
  { unfold started, with_threads. simpl. destruct (pool w). simpl in *. by rewrite Hl. }
  split; [|split; [done|split]].
  - split; rewrite Hls; unfold zlen; rewrite length_map; unfold idx; rewrite length_seq;
      unfold started, with_threads; simpl; destruct (pool w); simpl in *; lia.
  - intros n. unfold setNumThreads, get, assert_, lift, check. mcbn.
    unfold started, with_threads. by destruct (pool w).
  - unfold start. mstep (zoom_modify (λ p : Pool L, p <| started_ := true |>) w). fold w0.
    mstep (zoom_get (X := Pool L) w0). rewrite Hv0.
    change (num_threads_ ((pool w) <| started_ := true |>)) with (num_threads_ (pool w)). fold idx.
    mstep E1. mstep (zoom_get (X := Pool L) w1). rewrite H1.
    assert (num_threads_ started = num_threads_ (pool w) ∧ base_loop_ started = base_loop_ (pool w)) as [-> ->]
      by (unfold started, with_threads; by destruct (pool w)).
    destruct cb; [by destruct (_ =? 0)|done].
Qed.
End starting.

(** ** Witnesses *)

#[local] Instance pool_lens {X : Type} : Lens X X := {| view x := x; replace_view x _ := x |}.
#[local] Instance pool_lens_laws {X : Type} : LensLaws X X.
Proof. by split. Qed.

Definition three_threads : Pool nat :=
  (make_EventLoopThreadPool 7%nat "io") <| num_threads_ := 3 |>.
(** The loop of a thread is the length of the thread's name; "io1" fails. *)
Definition demo_answer (name : string) : option nat :=
  if bool_decide (name = "io1"%string) then None else Some (String.length name).
Definition demo_startLoop (cb : option nat) (name : string) : M (Pool nat) (option nat) :=
  mret (demo_answer name).
Definition demo_init (c l : nat) : M (Pool nat) unit := mret tt.

Lemma getNextLoop_in_turn_witness :
  next_loops 4 (mkPool 7%nat "io" true 1 3 [] [Some 10; None; Some 12]%nat) =
    Ok ([None; Some 12; Some 10; None]%nat, mkPool 7%nat "io" true 2 3 [] [Some 10; None; Some 12]%nat).
Proof.
  destruct (getNextLoop_in_turn (mkPool 7%nat "io" true 1 3 [] [Some 10; None; Some 12]%nat) 4) as (E & _ & _).
  - split; [reflexivity|]. vm_compute. by split.
  - rewrite E. vm_compute. reflexivity.
Defined.

Lemma start_pool_witness :
  ∃ p, start demo_startLoop demo_init None three_threads = Ok (tt, p) ∧
    threads_ p = ["io0"; "io1"; "io2"]%string ∧ loops_ p = [Some 3; None; Some 3]%nat.
Proof.
  destruct (start_pool demo_startLoop demo_init demo_answer) with (cb := @None nat) (w := three_threads)
    as (w1 & H1 & _ & _ & _ & E); [|reflexivity|reflexivity|vm_compute; discriminate|].
  - intros cb name w. exists w. by split.
  - exists w1. split; [exact E|]. assert (w1 = _) as -> by exact H1. vm_compute. by split.
Defined.
