(* ===== verification/TcpServer.v ===== *)
(** * TcpServer (TcpServer.h/.cc)

    The server: its acceptor, its pool of loops, and the map of its connections.
    The connections are objects of a heap, by address; the map and the functors
    hold [shared_ptr]s, that is addresses.  Of the loops the server uses a few
    operations, the interface [Loops]; the event loops of EventLoop.v implement
    it (ServerLoops.v), and the theorems here are proved against [LoopsLaws]
    alone.  A name of a loop is an [L]; a pointer to a loop is an [option L].

    The application's callbacks are named by values of [U], the thread-init
    callback by a [C]. *)

From S2P Require Import Prelude Kernel Buffer Text InetAddress TcpConnection Acceptor EventLoopThreadPool.

(** The functors the server gives to loops; they hold a connection. *)
Inductive ServerFunctor : Type :=
| Listen                                  (* start() *)
| ConnectionEstablished (conn : positive) (* newConnection() *)
| ConnectionDestroyed (conn : positive)   (* removeConnectionInLoop(), ~TcpServer() *)
| RemoveConnectionInLoop (conn : positive).
#[export] Instance ServerFunctor_eq_dec : EqDecision ServerFunctor.
Proof. solve_decision. Defined.

(** The callbacks a connection of the server has: [[this](conn){removeConnection(conn);}]
    and those of the application.  The acceptor's callback is [newConnection]. *)
Inductive ServerCallback (U : Type) : Type := ServerClose | App (u : U).
Arguments ServerClose {U}. Arguments App {U} u.
Inductive AcceptCallback : Type := NewConnection.

(** ** What the server uses of its loops *)

Class Loops (K LS L : Type) : Type := {
  lo_kernel :: Lens LS K;
  loop_here : L → LS → bool;                                   (* isInLoopThread() *)
  loop_queue : L → ServerFunctor → M LS unit;                  (* queueInLoop(...) *)
  (* [Acceptor(loop,addr,reuse)], with the descriptor of [socket(...)] and the
     address of the channel; [acceptor_->listen()] *)
  loop_acceptor : L → Z → positive → InetAddress → bool → M LS (Acceptor AcceptCallback);
  loop_listen : L → Acceptor AcceptCallback → M LS (Acceptor AcceptCallback);
  (* [new Channel(loop,fd)] with the four handlers of the connection at an
     address, as the constructor of [TcpConnection] makes it; its address *)
  loop_channel : L → positive → Z → M LS positive
}.

(** The functor [f] for the loop [l], in the view of the loop [m]. *)
Definition only_for {L} `{!EqDecision L} (l m : L) (f : ServerFunctor) : list ServerFunctor :=
  if decide (m = l) then [f] else [].

(** What the loops promise: [loops_ok] is their invariant, [waiting] the functors
    of the server in the queue of a loop; a functor queued by another thread than
    the loop's wakes the loop. *)
Class LoopsLaws (K LS L : Type) `{!Kernel K, !Loops K LS L, !EqDecision L} : Type := {
  lo_lens :: LensLaws LS K;
  loops_ok : LS → Prop;
  loop_alive : L → LS → Prop;
  loop_woken : L → LS → Prop;                     (* its eventfd is readable *)
  waiting : L → LS → list ServerFunctor;
  fd_used : Z → LS → Prop;                        (* a channel of the loops has it *)
  loops_kernel k ls : loops_ok ls →
    kv_interest (kview_of k) = kv_interest (kview_of (view ls : K)) →
    kv_eventfd (kview_of k) = kv_eventfd (kview_of (view ls : K)) →
    loops_ok (replace_view k ls) ∧
    ∀ m, waiting m (replace_view k ls) = waiting m ls ∧
         loop_here m (replace_view k ls) = loop_here m ls ∧
         (loop_alive m ls → loop_alive m (replace_view k ls)) ∧
         ∀ fd, fd_used fd (replace_view k ls) ↔ fd_used fd ls;
  loop_channel_law l c fd ls : loops_ok ls → loop_alive l ls → ¬ fd_used fd ls →
    ∃ p ls', loop_channel l c fd ls = Ok (p, ls') ∧ loops_ok ls' ∧
      ∀ m, waiting m ls' = waiting m ls ∧ loop_here m ls' = loop_here m ls ∧
           (loop_alive m ls → loop_alive m ls');
  loop_queue_law l f ls : loops_ok ls → loop_alive l ls →
    ∃ ls', loop_queue l f ls = Ok (tt, ls') ∧ loops_ok ls' ∧
      ∀ m, waiting m ls' = waiting m ls ++ only_for l m f ∧ loop_here m ls' = loop_here m ls ∧
           (loop_alive m ls → loop_alive m ls') ∧ (m = l → loop_here m ls = false → loop_woken m ls')
}.

(** ** The class *)

Record TcpServer (L C U : Type) : Type := mkTcpServer {
  loop_ : L;
  ip_port : string;
  name_ : string;
  acceptor_ : Acceptor AcceptCallback;
  pool_ : Pool L;
  connection_map_ : gmap string (option positive);
  connection_callback_ : option U;
  write_complete_callback_ : option U;
  message_callback_ : option U;
  thread_init_callback_ : option C;
  num_threads_ : Z;
  started_ : Z;                          (* std::atomic_int *)
  next_conn_id_ : Z
}.
Arguments mkTcpServer {L C U} _ _ _ _ _ _ _ _ _ _ _ _ _. Arguments loop_ {L C U} _.
Arguments ip_port {L C U} _. Arguments name_ {L C U} _. Arguments acceptor_ {L C U} _.
Arguments pool_ {L C U} _. Arguments connection_map_ {L C U} _.
Arguments connection_callback_ {L C U} _. Arguments write_complete_callback_ {L C U} _.
Arguments message_callback_ {L C U} _. Arguments thread_init_callback_ {L C U} _.
Arguments num_threads_ {L C U} _. Arguments started_ {L C U} _. Arguments next_conn_id_ {L C U} _.
#[export] Instance set_acceptor_ {L C U} : Setter (@acceptor_ L C U) := λ f v,
  mkTcpServer (loop_ v) (ip_port v) (name_ v) (f (acceptor_ v)) (pool_ v) (connection_map_ v)
    (connection_callback_ v) (write_complete_callback_ v) (message_callback_ v)
    (thread_init_callback_ v) (num_threads_ v) (started_ v) (next_conn_id_ v).
#[global] Arguments set_acceptor_ {L C U} _ !_ /.
#[export] Instance set_pool_ {L C U} : Setter (@pool_ L C U) := λ f v,
  mkTcpServer (loop_ v) (ip_port v) (name_ v) (acceptor_ v) (f (pool_ v)) (connection_map_ v)
    (connection_callback_ v) (write_complete_callback_ v) (message_callback_ v)
    (thread_init_callback_ v) (num_threads_ v) (started_ v) (next_conn_id_ v).
#[global] Arguments set_pool_ {L C U} _ !_ /.
#[export] Instance set_connection_map_ {L C U} : Setter (@connection_map_ L C U) := λ f v,
  mkTcpServer (loop_ v) (ip_port v) (name_ v) (acceptor_ v) (pool_ v) (f (connection_map_ v))
    (connection_callback_ v) (write_complete_callback_ v) (message_callback_ v)
    (thread_init_callback_ v) (num_threads_ v) (started_ v) (next_conn_id_ v).
#[global] Arguments set_connection_map_ {L C U} _ !_ /.
#[export] Instance set_connection_callback_ {L C U} : Setter (@connection_callback_ L C U) := λ f v,
  mkTcpServer (loop_ v) (ip_port v) (name_ v) (acceptor_ v) (pool_ v) (connection_map_ v)
    (f (connection_callback_ v)) (write_complete_callback_ v) (message_callback_ v)
    (thread_init_callback_ v) (num_threads_ v) (started_ v) (next_conn_id_ v).
#[global] Arguments set_connection_callback_ {L C U} _ !_ /.
#[export] Instance set_write_complete_callback_ {L C U} : Setter (@write_complete_callback_ L C U) := λ f v,
  mkTcpServer (loop_ v) (ip_port v) (name_ v) (acceptor_ v) (pool_ v) (connection_map_ v)
    (connection_callback_ v) (f (write_complete_callback_ v)) (message_callback_ v)
    (thread_init_callback_ v) (num_threads_ v) (started_ v) (next_conn_id_ v).
#[global] Arguments set_write_complete_callback_ {L C U} _ !_ /.
#[export] Instance set_message_callback_ {L C U} : Setter (@message_callback_ L C U) := λ f v,
  mkTcpServer (loop_ v) (ip_port v) (name_ v) (acceptor_ v) (pool_ v) (connection_map_ v)
    (connection_callback_ v) (write_complete_callback_ v) (f (message_callback_ v))
    (thread_init_callback_ v) (num_threads_ v) (started_ v) (next_conn_id_ v).
#[global] Arguments set_message_callback_ {L C U} _ !_ /.
#[export] Instance set_thread_init_callback_ {L C U} : Setter (@thread_init_callback_ L C U) := λ f v,
  mkTcpServer (loop_ v) (ip_port v) (name_ v) (acceptor_ v) (pool_ v) (connection_map_ v)
    (connection_callback_ v) (write_complete_callback_ v) (message_callback_ v)
    (f (thread_init_callback_ v)) (num_threads_ v) (started_ v) (next_conn_id_ v).
#[global] Arguments set_thread_init_callback_ {L C U} _ !_ /.
#[export] Instance set_num_threads_ {L C U} : Setter (@num_threads_ L C U) := λ f v,
  mkTcpServer (loop_ v) (ip_port v) (name_ v) (acceptor_ v) (pool_ v) (connection_map_ v)
    (connection_callback_ v) (write_complete_callback_ v) (message_callback_ v)
    (thread_init_callback_ v) (f (num_threads_ v)) (started_ v) (next_conn_id_ v).
#[global] Arguments set_num_threads_ {L C U} _ !_ /.
#[export] Instance set_started_ {L C U} : Setter (@started_ L C U) := λ f v,
  mkTcpServer (loop_ v) (ip_port v) (name_ v) (acceptor_ v) (pool_ v) (connection_map_ v)
    (connection_callback_ v) (write_complete_callback_ v) (message_callback_ v)
    (thread_init_callback_ v) (num_threads_ v) (f (started_ v)) (next_conn_id_ v).
#[global] Arguments set_started_ {L C U} _ !_ /.
#[export] Instance set_next_conn_id_ {L C U} : Setter (@next_conn_id_ L C U) := λ f v,
  mkTcpServer (loop_ v) (ip_port v) (name_ v) (acceptor_ v) (pool_ v) (connection_map_ v)
    (connection_callback_ v) (write_complete_callback_ v) (message_callback_ v)
    (thread_init_callback_ v) (num_threads_ v) (started_ v) (f (next_conn_id_ v)).
#[global] Arguments set_next_conn_id_ {L C U} _ !_ /.

(** A connection object, the loop it runs in, and the address of its channel. *)
Record ServerConn (L U : Type) : Type := mkServerConn {
  sc_conn : TcpConnection (ServerCallback U);
  getLoop : option L;
  channel_ : positive
}.
Arguments mkServerConn {L U} _ _ _. Arguments sc_conn {L U} _. Arguments getLoop {L U} _.
Arguments channel_ {L U} _.
#[export] Instance set_sc_conn {L U} : Setter (@sc_conn L U) := λ f x,
  mkServerConn (f (sc_conn x)) (getLoop x) (channel_ x).
#[global] Arguments set_sc_conn {L U} _ !_ /.

(** The server, the connection objects, and the loops. *)
Record ServerState (LS L C U : Type) : Type := mkServerState {
  sv_server : TcpServer L C U;
  sv_conns : gmap positive (ServerConn L U);
  sv_loops : LS
}.
Arguments mkServerState {LS L C U} _ _ _. Arguments sv_server {LS L C U} _.
Arguments sv_conns {LS L C U} _. Arguments sv_loops {LS L C U} _.
#[export] Instance set_sv_server {LS L C U} : Setter (@sv_server LS L C U) := λ f s,
  mkServerState (f (sv_server s)) (sv_conns s) (sv_loops s).
#[global] Arguments set_sv_server {LS L C U} _ !_ /.
#[export] Instance set_sv_conns {LS L C U} : Setter (@sv_conns LS L C U) := λ f s,
  mkServerState (sv_server s) (f (sv_conns s)) (sv_loops s).
#[global] Arguments set_sv_conns {LS L C U} _ !_ /.
#[export] Instance set_sv_loops {LS L C U} : Setter (@sv_loops LS L C U) := λ f s,
  mkServerState (sv_server s) (sv_conns s) (f (sv_loops s)).
#[global] Arguments set_sv_loops {LS L C U} _ !_ /.

#[export] Instance pool_in_server {LS L C U} : Lens (ServerState LS L C U) (Pool L) := {|
  view s := pool_ (sv_server s);
  replace_view p s := s <| sv_server ::= λ v, v <| pool_ := p |> |>
|}.
#[export] Instance pool_in_server_laws {LS L C U} : LensLaws (ServerState LS L C U) (Pool L).
Proof. by split; [intros ? [[]]|intros ? ? [[]]|intros [[]]]. Qed.

Section server.
Context {K LS L C U : Type} `{!Kernel K, !Loops K LS L}.
Abbreviation S := (ServerState LS L C U).

Definition server : M S (TcpServer L C U) := gets sv_server.
Definition set_server (f : TcpServer L C U → TcpServer L C U) : M S unit :=
  modify (λ s, s <| sv_server ::= f |>).
(** Code of the loops, and of the kernel. *)
Definition in_loops {A} (m : M LS A) : M S A := λ s,
  '(a, ls) ← m (sv_loops s); Ok (a, s <| sv_loops := ls |>).
Definition server_kernel {A} (m : M K A) : M S A := in_loops (zoom m).
Definition the_connection (c : positive) : M S (ServerConn L U) :=
  s ← get; from_option_or DanglingPointer (sv_conns s !! c).
(** [loop->queueInLoop(f)] *)
Definition queue_in (loop : option L) (f : ServerFunctor) : M S unit :=
  l ← from_option_or NullPointer loop; in_loops (loop_queue l f).

(** ** Construction and setting *)

(** The members in the order of the class; [sock] and [p] as for [Acceptor]. *)
Definition make_TcpServer (sock : Z) (p : positive) (base_loop : L) (bind_addr : InetAddress)
    (name : string) (reuse : bool) (ls : LS) : outcome S :=
  '(a, ls) ← loop_acceptor base_loop sock p bind_addr reuse ls;
  Ok (mkServerState
    (mkTcpServer base_loop (toIpPort bind_addr) name (a <| Acceptor.connection_callback_ := Some NewConnection |>)
       (make_EventLoopThreadPool base_loop name) ∅ None None None None 0 0 1) ∅ ls).

Definition setConnecitonCallback (cb : option U) : M S unit := set_server (λ v, v <| connection_callback_ := cb |>).
Definition setWriteCompleteCallback (cb : option U) : M S unit :=
  set_server (λ v, v <| write_complete_callback_ := cb |>).
Definition setMessageCallback (cb : option U) : M S unit := set_server (λ v, v <| message_callback_ := cb |>).
Definition setThreadInitCallback (cb : option C) : M S unit :=
  set_server (λ v, v <| thread_init_callback_ := cb |>).

Definition setThreadNum (thread_num : Z) : M S unit :=
  v ← server;
  assert_ (started_ v =? 0) ;;
  set_server (λ v, v <| num_threads_ := thread_num |>) ;;
  zoom (setNumThreads thread_num).

(** [std::atomic_int] arithmetic. *)
Definition wrap_int32 (z : Z) : Z := (z + 2 ^ 31) mod 2 ^ 32 - 2 ^ 31.

Definition acceptor_listen : M S unit :=
  v ← server;
  a ← in_loops (loop_listen (loop_ v) (acceptor_ v));
  set_server (λ v, v <| acceptor_ := a |>).

(** [startLoop] and [call] as for the pool. *)
Definition start (startLoop : option C → string → M S (option L)) (call : C → L → M S unit) : M S unit :=
  v ← server;
  set_server (λ v, v <| started_ ::= λ n, wrap_int32 (n + 1) |>) ;;
  if started_ v =? 0 then
    EventLoopThreadPool.start startLoop call (thread_init_callback_ v) ;;
    v ← server;
    here ← gets (λ s : S, loop_here (loop_ v) (sv_loops s));
    if (here : bool) then acceptor_listen else queue_in (Some (loop_ v)) Listen
  else mret tt.

(** ** Connections *)

(** [std::make_shared<TcpConnection>(...)] at a fresh address: the channel, which
    holds the object's address, and then the rest.  (The constructor of [Channel]
    only stores a null loop, whose first use is [queueInLoop]; here that fault
    comes before the object is made.) *)
Definition make_shared (loop : option L) (name : string) (fd : Z) (local peer : InetAddress) : M S positive :=
  c ← gets (λ s : S, fresh (dom (sv_conns s)));
  l ← from_option_or NullPointer loop;
  ch ← in_loops (loop_channel l c fd);
  t ← server_kernel (make_TcpConnection name fd local peer DefaultWaterMark);
  modify (λ s : S, s <| sv_conns ::= <[c := mkServerConn t loop ch]> |>) ;;
  mret c.

(** The callbacks the server gives to a connection. *)
Definition set_callbacks (v : TcpServer L C U) (t : TcpConnection (ServerCallback U)) :
    TcpConnection (ServerCallback U) :=
  let t := TcpConnection.setCloseCallback (Some ServerClose) t in
  let t := TcpConnection.setConnecitonCallback (App <$> connection_callback_ v) t in
  let t := TcpConnection.setMessageCallback (App <$> message_callback_ v) t in
  TcpConnection.setWriteCompleteCallback (App <$> write_complete_callback_ v) t.

(** The setters called on the new connection. *)
Definition give_callbacks (c : positive) : M S unit :=
  v ← server;
  modify (λ s : S, s <| sv_conns ::= alter (set_field sc_conn (set_callbacks v)) c |>).

Definition newConnection (sock_fd : Z) (peer_addr : InetAddress) : M S unit :=
  ioloop ← zoom (X := Pool L) getNextLoop;
  v ← server;
  let buf := snprintf 64 ("-" +:+ ip_port v +:+ "#" +:+ printf_d (next_conn_id_ v))%string in
  when (negb (in_int32 (next_conn_id_ v + 1))) (throw SignedOverflow) ;;
  set_server (λ v, v <| next_conn_id_ ::= λ n, n + 1 |>) ;;
  let conn_name := (name_ v +:+ buf)%string in
  r ← server_kernel (λ k, let '(r, k) := sys_getsockname sock_fd k in Ok (r, k));
  (* a failure is logged; [local_addr] is then all zero *)
  let local_a := if r.1 <? 0 then SockaddrIn 0 0 0 else r.2 in
  new_conn ← make_shared ioloop conn_name sock_fd local_a peer_addr;
  give_callbacks new_conn ;;
  set_server (λ v, v <| connection_map_ ::= <[conn_name := Some new_conn]> |>) ;;
  queue_in ioloop (ConnectionEstablished new_conn).

Definition removeConnectionInLoop (c : positive) : M S unit :=
  x ← the_connection c;
  set_server (λ v, v <| connection_map_ ::= delete (TcpConnection.name_ (sc_conn x)) |>) ;;
  queue_in (getLoop x) (ConnectionDestroyed c).

Definition removeConnection (c : positive) : M S unit :=
  v ← server;
  here ← gets (λ s : S, loop_here (loop_ v) (sv_loops s));
  if (here : bool) then removeConnectionInLoop c
  else queue_in (Some (loop_ v)) (RemoveConnectionInLoop c).

(** One round of the destructor's loop, for the entry [name] of the map. *)
Definition destroy_entry (entry : string * option positive) : M S unit :=
  tem_conn ← from_option_or NullPointer entry.2;
  set_server (λ v, v <| connection_map_ ::= <[entry.1 := None]> |>) ;;
  x ← the_connection tem_conn;
  queue_in (getLoop x) (ConnectionDestroyed tem_conn).

(** The body of [~TcpServer()]; an [unordered_map] has no order to speak of. *)
Definition destroy_TcpServer : M S unit :=
  v ← server; for_each destroy_entry (map_to_list (connection_map_ v)).
End server.

(** ** The names of connections *)

Definition conn_name {L C U} (v : TcpServer L C U) (i : Z) : string :=
  (name_ v +:+ "-" +:+ ip_port v +:+ "#" +:+ printf_u i)%string.

Lemma string_app_inj (a b c : string) : (a +:+ b)%string = (a +:+ c)%string → b = c.
Proof. induction a as [|x a IH]; [done|]. rewrite !string_app_cons. intros [= H]. by apply IH. Qed.

(** Nothing is cut off, and different numbers give different names. *)
Lemma conn_name_whole {L C U} (v : TcpServer L C U) i :
  (String.length (ip_port v) ≤ 21)%nat → 0 ≤ i ≤ int32_max →
  (name_ v +:+ snprintf 64 ("-" +:+ ip_port v +:+ "#" +:+ printf_d i))%string = conn_name v i.
Proof.
  intros Hip Hi. unfold conn_name. rewrite printf_u_nonneg by lia. f_equal. apply snprintf_fits.
  rewrite !string_app_length. change (String.length "-") with 1%nat. change (String.length "#") with 1%nat.
  assert (String.length (printf_u i) ≤ 10)%nat; [|lia].
  apply printf_u_length; [|done]. unfold int32_max in Hi. lia.
Qed.

Lemma conn_name_inj {L C U} (v : TcpServer L C U) i j :
  0 ≤ i ≤ int32_max → 0 ≤ j ≤ int32_max → conn_name v i = conn_name v j → i = j.
Proof.
  intros Hi Hj H. unfold int32_max in *. unfold conn_name in H.
  do 4 apply string_app_inj in H.
  assert (Some i = Some j) as [=]; [|done].
  rewrite <- (read_printf_u i), <- (read_printf_u j) by lia. by rewrite H.
Qed.

(** ** The invariant *)

Section invariant.
Context {K LS L C U : Type} `{!EqDecision L, !Kernel K, !KernelLaws K, !Loops K LS L, !LoopsLaws K LS L}.
Abbreviation S := (ServerState LS L C U).
Implicit Types s : S.

Abbreviation base s := (loop_ (sv_server s)).
Abbreviation queue_of l s := (waiting l (sv_loops s)).
Abbreviation name_of x := (TcpConnection.name_ (sc_conn x)).
Definition in_map s (c : positive) : Prop := ∃ n, connection_map_ (sv_server s) !! n = Some (Some c).
(** The connection's close callback ran in another thread than the base loop's. *)
Definition removing s (c : positive) : Prop := RemoveConnectionInLoop c ∈ queue_of (base s) s.

Record server_ok s : Prop := ServerOk {
  so_loops : loops_ok (sv_loops s);
  so_base : loop_alive (base s) (sv_loops s);
  so_pool : pool_ok (pool_ (sv_server s));
  so_alive l : Some l ∈ EventLoopThreadPool.loops_ (pool_ (sv_server s)) → loop_alive l (sv_loops s);
  so_pool_base : EventLoopThreadPool.base_loop_ (pool_ (sv_server s)) = base s;
  so_ip_port : (String.length (ip_port (sv_server s)) ≤ 21)%nat;
  so_id : 1 ≤ next_conn_id_ (sv_server s) ≤ int32_max;
  (* the map: live connections, by name *)
  so_map n o : connection_map_ (sv_server s) !! n = Some o →
    ∃ c x, o = Some c ∧ sv_conns s !! c = Some x ∧ name_of x = n;
  (* the objects: named by number, in a loop that exists *)
  so_conns c x : sv_conns s !! c = Some x →
    (∃ i, 1 ≤ i < next_conn_id_ (sv_server s) ∧ name_of x = conn_name (sv_server s) i) ∧
    ∃ l, getLoop x = Some l ∧ loop_alive l (sv_loops s);
  so_distinct c d x y : sv_conns s !! c = Some x → sv_conns s !! d = Some y → name_of x = name_of y → c = d;
  (* the functors *)
  so_nodup l : NoDup (queue_of l s);
  so_removing c : removing s c → in_map s c;
  so_elsewhere l c : RemoveConnectionInLoop c ∈ queue_of l s → l = base s;
  so_queued l c : ConnectionEstablished c ∈ queue_of l s ∨ ConnectionDestroyed c ∈ queue_of l s →
    getLoop <$> sv_conns s !! c = Some (Some l);
  so_destroyed l c : ConnectionDestroyed c ∈ queue_of l s → ¬ in_map s c;
  so_order l c i j : queue_of l s !! i = Some (ConnectionEstablished c) →
    queue_of l s !! j = Some (ConnectionDestroyed c) → (i < j)%nat
}.

(** ** What the loops' state went through *)

Definition queued (l : L) (f : ServerFunctor) (ls ls' : LS) : Prop :=
  loops_ok ls' ∧ ∀ m, waiting m ls' = waiting m ls ++ only_for l m f ∧
    loop_here m ls' = loop_here m ls ∧ (loop_alive m ls → loop_alive m ls') ∧
    (m = l → loop_here m ls = false → loop_woken m ls').
(** The loop [l] took the functor [f] from the front of its queue; another thread
    may be the current one then. *)
Definition took (l : L) (f : ServerFunctor) (ls ls' : LS) : Prop :=
  loops_ok ls' ∧ ∀ m, waiting m ls = only_for l m f ++ waiting m ls' ∧ (loop_alive m ls → loop_alive m ls').

Lemma elem_of_only_for (l m : L) f g : g ∈ only_for l m f ↔ g = f ∧ m = l.
Proof. unfold only_for. case_decide; set_solver. Qed.

Lemma queue_in_ok l f s :
  loops_ok (sv_loops s) → loop_alive l (sv_loops s) →
  ∃ ls, queue_in (Some l) f s = Ok (tt, s <| sv_loops := ls |>) ∧ queued l f (sv_loops s) ls.
Proof.
  intros Hok Ha. destruct (loop_queue_law l f (sv_loops s) Hok Ha) as (ls & E & Hls).
  exists ls. split; [|exact Hls]. unfold queue_in, in_loops. mcbn. simpl. mcbn. by rewrite E.
Qed.

(** ** Keeping the invariant *)

(** A functor that waits at the end of a queue in order. *)
Lemma nodup_queued (q : list ServerFunctor) (l m : L) f : NoDup q → (m = l → f ∉ q) → NoDup (q ++ only_for l m f).
Proof.
  intros Hn Hf. unfold only_for. case_decide; [|by rewrite app_nil_r].
  apply NoDup_app. split; [done|]. split; [|apply NoDup_singleton]. set_solver.
Qed.

Lemma order_queued (q : list ServerFunctor) (l m : L) f c :
  (∀ i j, q !! i = Some (ConnectionEstablished c) → q !! j = Some (ConnectionDestroyed c) → (i < j)%nat) →
  (f = ConnectionEstablished c → ConnectionDestroyed c ∉ q) →
  ∀ i j, (q ++ only_for l m f) !! i = Some (ConnectionEstablished c) →
    (q ++ only_for l m f) !! j = Some (ConnectionDestroyed c) → (i < j)%nat.
Proof.
  intros Hq Hf i j. unfold only_for. case_decide; [|rewrite app_nil_r; apply Hq].
  rewrite !lookup_app. destruct (q !! i) as [x|] eqn:Ei, (q !! j) as [y|] eqn:Ej.
  - intros [= ->] [= ->]. by apply Hq.
  - intros _ _. apply lookup_lt_Some in Ei. apply lookup_ge_None in Ej. lia.
  - intros (Hx & ->)%list_lookup_singleton_Some [= ->].
    exfalso. apply (Hf eq_refl). by apply list_elem_of_lookup_2 with j.
  - intros (Hi & ->)%list_lookup_singleton_Some (Hj & [=])%list_lookup_singleton_Some.
Qed.

(** The entry of a connection that is in the map. *)
Lemma in_map_entry s c : server_ok s → in_map s c →
  ∃ x, sv_conns s !! c = Some x ∧ connection_map_ (sv_server s) !! name_of x = Some (Some c).
Proof. intros Hok [n Hn]. destruct (so_map s Hok n _ Hn) as (d & x & [= <-] & Hx & <-). eauto. Qed.

(** [removeConnection] from another thread. *)
Lemma server_ok_closing s c ls :
  server_ok s → in_map s c → ¬ removing s c →
  queued (base s) (RemoveConnectionInLoop c) (sv_loops s) ls → server_ok (s <| sv_loops := ls |>).
Proof.
  intros Hok Hc Hn [Hls Hq].
  assert (∀ m g, g ∈ waiting m ls ↔ g ∈ queue_of m s ∨ g = RemoveConnectionInLoop c ∧ m = base s) as Hin.
  { intros m g. rewrite (proj1 (Hq m)), elem_of_app, elem_of_only_for. done. }
  destruct s as [v conns ls0]. destruct Hok. unfold removing in *. simpl in *. split; simpl; try done.
  - by apply Hq.
  - intros l Hl. by apply Hq, so_alive0.
  - intros d x Hx. destruct (so_conns0 d x Hx) as (Hi & l & Hl & Ha). split; [done|]. exists l.
    split; [done|]. by apply Hq.
  - intros l. rewrite (proj1 (Hq l)). apply nodup_queued; [apply so_nodup0|]. intros ->. exact Hn.
  - unfold removing. simpl. intros d [Hd|[[= ->] _]]%Hin; [by apply so_removing0|exact Hc].
  - intros l d [Hd|[_ ->]]%Hin; [by apply so_elsewhere0 with d|done].
  - intros l d. rewrite !Hin. intros [[?|[? _]]|[?|[? _]]]; [|done| |done]; apply so_queued0; tauto.
  - intros l d [Hd|[? _]]%Hin; [by apply (so_destroyed0 l)|done].
  - intros l d. rewrite (proj1 (Hq l)). apply order_queued; [by apply so_order0|done].
Qed.

(** [removeConnectionInLoop]. *)
Lemma server_ok_removed s c x l ls :
  server_ok s → in_map s c → ¬ removing s c → sv_conns s !! c = Some x → getLoop x = Some l →
  queued l (ConnectionDestroyed c) (sv_loops s) ls →
  let s' := s <| sv_server ::= λ v, v <| connection_map_ ::= delete (name_of x) |> |> <| sv_loops := ls |> in
  server_ok s' ∧ ∀ d, in_map s' d ↔ in_map s d ∧ d ≠ c.
Proof.
  intros Hok Hc Hn Hx Hl [Hls Hq] s'.
  destruct (in_map_entry s c Hok Hc) as (x' & Hx' & He). assert (x' = x) as -> by congruence.
  assert (∀ d, in_map s' d ↔ in_map s d ∧ d ≠ c) as Hmap.
  { intros d. unfold in_map. simpl. split.
    - intros [n [Hne Hd]%lookup_delete_Some]. split; [by exists n|]. intros ->.
      destruct (so_map s Hok n _ Hd) as (d & y & [= <-] & Hy & <-). congruence.
    - intros [[n Hd] Hdc]. exists n. apply lookup_delete_Some. split; [|done]. intros <-. congruence. }
  split; [|exact Hmap].
  assert (∀ m g, g ∈ waiting m ls ↔ g ∈ queue_of m s ∨ g = ConnectionDestroyed c ∧ m = l) as Hin.
  { intros m g. rewrite (proj1 (Hq m)), elem_of_app, elem_of_only_for. done. }
  split; simpl; try apply Hok; try done.
  - by apply Hq, Hok.
  - intros m Hm. by apply Hq, (so_alive s Hok).
  - intros n o [Hne Ho]%lookup_delete_Some. by apply (so_map s Hok).
  - intros d y Hy. destruct (so_conns s Hok d y Hy) as (Hi & m & Hm & Ha). split; [exact Hi|]. exists m.
    split; [done|]. by apply Hq.
  - intros m. rewrite (proj1 (Hq m)). apply nodup_queued; [apply Hok|].
    intros _ Hd. by apply (so_destroyed s Hok _ _ Hd).
  - unfold removing. simpl. intros d [Hd|[? _]]%Hin; [|done]. apply Hmap.
    split; [by apply (so_removing s Hok)|]. intros ->. by apply Hn.
  - intros m d [Hd|[? _]]%Hin; [by apply (so_elsewhere s Hok m d)|done].
  - intros m d. rewrite !Hin. intros [[?|[? _]]|[?|[[= ->] ->]]]; [|done| |by rewrite Hx; simpl; rewrite Hl];
      apply (so_queued s Hok); tauto.
  - intros m d [Hd|[[= ->] _]]%Hin; rewrite Hmap; [|tauto].
    intros [Hd' _]. by apply (so_destroyed s Hok _ _ Hd).
  - intros m d. rewrite (proj1 (Hq m)). apply order_queued; [by apply (so_order s Hok)|done].
Qed.

(** The loops took functors from the front of their queues, or none. *)
Lemma server_ok_less s ls :
  server_ok s → loops_ok ls →
  (∀ m, (∃ taken, queue_of m s = taken ++ waiting m ls) ∧ (loop_alive m (sv_loops s) → loop_alive m ls)) →
  server_ok (s <| sv_loops := ls |>).
Proof.
  intros Hok Hls Hq.
  assert (∀ m g, g ∈ waiting m ls → g ∈ queue_of m s) as Hin.
  { intros m g Hg. destruct (Hq m) as [[taken ->] _]. set_solver. }
  split; simpl; try apply Hok; try done.
  - by apply Hq, Hok.
  - intros m Hm. by apply Hq, (so_alive s Hok).
  - intros d y Hy. destruct (so_conns s Hok d y Hy) as (Hi & m & Hm & Ha). split; [exact Hi|]. exists m.
    split; [done|]. by apply Hq.
  - intros m. assert (H := so_nodup s Hok m). destruct (Hq m) as [[taken E] _]. rewrite E in H.
    by apply NoDup_app in H as (_ & _ & H).
  - intros c Hc. apply (so_removing s Hok). by apply Hin.
  - intros m c Hc. by apply (so_elsewhere s Hok m c), Hin.
  - intros m c [Hc|Hc]; apply (so_queued s Hok); auto.
  - intros m c Hc. by apply (so_destroyed s Hok m), Hin.
  - intros m c i j Hi Hj. assert (H := so_order s Hok m c). destruct (Hq m) as [[taken E] _]. rewrite E in H.
    specialize (H (length taken + i)%nat (length taken + j)%nat). rewrite !lookup_app_r in H by lia.
    rewrite !(Nat.add_comm (length _)), !Nat.add_sub in H. specialize (H Hi Hj). lia.
Qed.

Lemma server_ok_took s l f ls :
  server_ok s → took l f (sv_loops s) ls → server_ok (s <| sv_loops := ls |>) ∧ f ∉ waiting l ls.
Proof.
  intros Hok [Hls Hq]. split.
  - apply server_ok_less; [done..|]. intros m. split; [eexists|]; apply Hq.
  - assert (H := so_nodup s Hok l). rewrite (proj1 (Hq l)) in H. unfold only_for in H.
    rewrite decide_True in H by done. by apply NoDup_cons in H as [H _].
Qed.

(** ** A new connection *)

(** The record of a new connection, with the buffers of its constructor. *)
Record new_object_ok (v : TcpServer L C U) (fd : Z) (peer : InetAddress)
    (t : TcpConnection (ServerCallback U)) : Prop := NewObjectOk {
  no_name : TcpConnection.name_ t = conn_name v (next_conn_id_ v);
  no_socket : sockfd_ t = fd ∧ peer_addr_ t = peer;
  no_state : state_ t = kConnecting;
  no_close : TcpConnection.close_callback_ t = Some ServerClose;
  no_callbacks : TcpConnection.connection_callback_ t = App <$> connection_callback_ v ∧
    TcpConnection.message_callback_ t = App <$> message_callback_ v ∧
    TcpConnection.write_complete_callback_ t = App <$> write_complete_callback_ v;
  no_others : high_water_mark_callback_ t = None ∧ sending_file t = false;
  no_buffers : buffer_wf (input_buffer_ t) ∧ content (input_buffer_ t) = [] ∧
    buffer_wf (output_buffer_ t) ∧ content (output_buffer_ t) = []
}.

(** The object before and after it got its callbacks. *)
Lemma make_TcpConnection_ok v fd local peer mark (k : K) :
  ∃ t, make_TcpConnection (conn_name v (next_conn_id_ v)) fd local peer mark k =
         Ok (t, sys_setsockopt fd SO_KEEPALIVE 1 k) ∧
    ∀ v' : TcpServer L C U, connection_callback_ v' = connection_callback_ v →
      message_callback_ v' = message_callback_ v → write_complete_callback_ v' = write_complete_callback_ v →
      new_object_ok v fd peer (set_callbacks v' t).
Proof.
  destruct (make_Buffer_wf kInitialSize) as (b & Eb & Hwf & Hc & _); [by vm_compute..|].
  eexists. split; [unfold make_TcpConnection; by rewrite Eb|].
  intros v' H1 H2 H3. split; simpl; by rewrite ?H1, ?H2, ?H3.
Qed.

(** A call of the kernel that keeps the interest lists and the counters. *)
Lemma server_kernel_ok {A} (m : M K A) s a k :
  m (view (sv_loops s)) = Ok (a, k) → loops_ok (sv_loops s) →
  kview_of k = kview_of (view (sv_loops s) : K) →
  server_kernel m s = Ok (a, s <| sv_loops := replace_view k (sv_loops s) |>) ∧
  loops_ok (replace_view k (sv_loops s)) ∧
  ∀ l, waiting l (replace_view k (sv_loops s)) = waiting l (sv_loops s) ∧
       loop_here l (replace_view k (sv_loops s)) = loop_here l (sv_loops s) ∧
       (loop_alive l (sv_loops s) → loop_alive l (replace_view k (sv_loops s))) ∧
       ∀ fd, fd_used fd (replace_view k (sv_loops s)) ↔ fd_used fd (sv_loops s).
Proof.
  intros E Hok Hk. split; [unfold server_kernel, in_loops, zoom; mcbn; by rewrite E|].
  by apply loops_kernel; [|rewrite Hk..].
Qed.

Lemma turn_alive s l : server_ok s → turn (pool_ (sv_server s)) 0 = Some l → loop_alive l (sv_loops s).
Proof.
  intros Hok. unfold turn. destruct (EventLoopThreadPool.loops_ _) as [|o os] eqn:El.
  - intros [= <-]. rewrite (so_pool_base s Hok). apply Hok.
  - destruct (_ !! _) as [o'|] eqn:E; [|done]. simpl. intros ->. apply (so_alive s Hok).
    rewrite El. by apply list_elem_of_lookup_2 in E.
Qed.

(** The pool hands out its next loop. *)
Lemma take_loop_ok s : server_ok s →
  zoom (X := Pool L) getNextLoop s =
    Ok (turn (pool_ (sv_server s)) 0, s <| sv_server ::= λ v, v <| pool_ ::= turned 1 |> |>).
Proof.
  intros Hok. destruct (getNextLoop_ok _ (so_pool s Hok)) as (E & _). exact (zoom_ok getNextLoop s _ _ E).
Qed.

(** The server with one more connection. *)
Definition added (c : positive) (name : string) (v : TcpServer L C U) : TcpServer L C U :=
  v <| pool_ ::= turned 1 |> <| next_conn_id_ ::= λ n, n + 1 |>
    <| connection_map_ ::= <[name := Some c]> |>.

(** What the loops went through for a new connection: its channel was made, then
    [connectionEstablished] was queued; the kernel answered in between. *)
Record connecting (l : L) (c : positive) (fd : Z) (ch : positive) (ls ls' : LS) : Prop := Connecting {
  cn_queued : queued l (ConnectionEstablished c) ls ls';
  cn_path : ∃ k1 k2 ls1,
    kview_of k1 = kview_of (view ls : K) ∧ loop_channel l c fd (replace_view k1 ls) = Ok (ch, ls1) ∧
    kview_of k2 = kview_of (view ls1 : K) ∧
    loop_queue l (ConnectionEstablished c) (replace_view k2 ls1) = Ok (tt, ls')
}.

Lemma make_shared_ok v fd local peer l s :
  loops_ok (sv_loops s) → loop_alive l (sv_loops s) → ¬ fd_used fd (sv_loops s) →
  let c := fresh (dom (sv_conns s)) in
  ∃ ch t k ls1,
    make_shared (Some l) (conn_name v (next_conn_id_ v)) fd local peer s =
      Ok (c, s <| sv_conns ::= <[c := mkServerConn t (Some l) ch]> |> <| sv_loops := replace_view k ls1 |>) ∧
    loop_channel l c fd (sv_loops s) = Ok (ch, ls1) ∧ kview_of k = kview_of (view ls1 : K) ∧
    loops_ok (replace_view k ls1) ∧
    (∀ m, waiting m (replace_view k ls1) = waiting m (sv_loops s) ∧
          loop_here m (replace_view k ls1) = loop_here m (sv_loops s) ∧
          (loop_alive m (sv_loops s) → loop_alive m (replace_view k ls1))) ∧
    ∀ v' : TcpServer L C U, connection_callback_ v' = connection_callback_ v →
      message_callback_ v' = message_callback_ v → write_complete_callback_ v' = write_complete_callback_ v →
      new_object_ok v fd peer (set_callbacks v' t).
Proof.
  intros Hok Ha Hfd c.
  destruct (loop_channel_law l c fd (sv_loops s) Hok Ha Hfd) as (ch & ls1 & E1 & Hok1 & Hm1).
  destruct (make_TcpConnection_ok v fd local peer DefaultWaterMark (view ls1)) as (t & Et & Ht).
  set (s1 := s <| sv_loops := ls1 |>).
  destruct (server_kernel_ok _ s1 t (sys_setsockopt fd SO_KEEPALIVE 1 (view ls1)) Et Hok1)
    as (E2 & Hok2 & Hm2); [by rewrite setsockopt_law|].
  exists ch, t, (sys_setsockopt fd SO_KEEPALIVE 1 (view ls1)), ls1. split; [|split; [exact E1|split]].
  - unfold make_shared, gets. mcbn. fold c. unfold from_option_or, in_loops at 1. mcbn. rewrite E1. mcbn.
    change (s <| sv_loops := ls1 |>) with s1. rewrite E2. by destruct s.
  - by rewrite setsockopt_law.
  - split; [exact Hok2|]. split; [|exact Ht]. intros m. destruct (Hm1 m) as (Hw & Hh & A), (Hm2 m) as (Hw2 & Hh2 & A2).
    split; [by etrans; [exact Hw2|]|]. split; [by etrans; [exact Hh2|]|]. intros Hm. by apply A2, A.
Qed.

(** Up to [make_shared]: the pool's turn, the counter, the name and [getsockname]. *)
Lemma newConnection_starts fd peer s r k1 :
  server_ok s → next_conn_id_ (sv_server s) < int32_max → sys_getsockname fd (view (sv_loops s)) = (r, k1) →
  kview_of k1 = kview_of (view (sv_loops s) : K) →
  let v := sv_server s in
  let name := conn_name v (next_conn_id_ v) in
  newConnection fd peer s =
    (c ← make_shared (turn (pool_ v) 0) name fd (if r.1 <? 0 then SockaddrIn 0 0 0 else r.2) peer;
     give_callbacks c ;;
     set_server (λ v, v <| connection_map_ ::= <[name := Some c]> |>) ;;
     queue_in (turn (pool_ v) 0) (ConnectionEstablished c))
    (s <| sv_server ::= λ v, v <| pool_ ::= turned 1 |> |> <| sv_server ::= λ v, v <| next_conn_id_ ::= λ n, n + 1 |> |>
       <| sv_loops := replace_view k1 (sv_loops s) |>).
Proof.
  intros Hok Hid Eg Hk1 v name.
  set (s1 := s <| sv_server ::= λ v, v <| pool_ ::= turned 1 |> |>).
  assert (zoom getNextLoop s = Ok (turn (pool_ v) 0, s1)) as E1 by exact (take_loop_ok s Hok).
  set (s2 := s1 <| sv_server ::= λ v, v <| next_conn_id_ ::= λ n, n + 1 |> |>).
  destruct (server_kernel_ok (λ k, let '(r, k) := sys_getsockname fd k in Ok (r, k)) s2 r k1)
    as (E2 & _); [by simpl; rewrite Eg|apply Hok|exact Hk1|].
  unfold newConnection. rewrite (M_bind_ok _ _ _ _ _ E1). unfold server at 1, gets. mcbn.
  change (next_conn_id_ (sv_server s1)) with (next_conn_id_ v).
  assert (H := so_id s Hok). fold v in H, Hid.
  assert (negb (in_int32 (next_conn_id_ v + 1)) = false) as ->.
  { unfold in_int32, int32_min, int32_max in *. apply negb_false_iff, andb_true_iff. rewrite !Z.leb_le. lia. }
  unfold when. mcbn. change (name_ (sv_server s1)) with (name_ v). change (ip_port (sv_server s1)) with (ip_port v).
  rewrite conn_name_whole by (apply Hok || lia).
  unfold set_server at 1, modify. mcbn.
  change (s1 <| sv_server ::= λ v, v <| next_conn_id_ ::= λ n, n + 1 |> |>) with s2.
  by rewrite E2.
Qed.

Lemma newConnection_ok fd peer s :
  server_ok s → next_conn_id_ (sv_server s) < int32_max → ¬ fd_used fd (sv_loops s) →
  let v := sv_server s in
  match turn (pool_ v) 0 with
  | None => newConnection fd peer s = Fault NullPointer
  | Some l => ∃ c t ch ls,
      newConnection fd peer s =
        Ok (tt, mkServerState (added c (conn_name v (next_conn_id_ v)) v)
                  (<[c := mkServerConn t (Some l) ch]> (sv_conns s)) ls) ∧
      sv_conns s !! c = None ∧ new_object_ok v fd peer t ∧
      connecting l c fd ch (sv_loops s) ls
  end.
Proof.
  intros Hok Hid Hfd v.
  destruct (sys_getsockname fd (view (sv_loops s))) as [r k1] eqn:Eg.
  assert (kview_of k1 = kview_of (view (sv_loops s) : K)) as Hk1 by by apply getsockname_law in Eg.
  rewrite (newConnection_starts fd peer s r k1 Hok Hid Eg Hk1). fold v.
  set (local := if r.1 <? 0 then SockaddrIn 0 0 0 else r.2). set (name := conn_name v (next_conn_id_ v)).
  set (s2 := s <| sv_server ::= λ v, v <| pool_ ::= turned 1 |> |> <| sv_server ::= λ v, v <| next_conn_id_ ::= λ n, n + 1 |> |>).
  destruct (server_kernel_ok (λ k, let '(r, k) := sys_getsockname fd k in Ok (r, k)) s2 r k1)
    as (_ & Hl2 & Hq2); [by simpl; rewrite Eg|apply Hok|exact Hk1|].
  set (s3 := s2 <| sv_loops := replace_view k1 (sv_loops s2) |>) in *.
  destruct (turn (pool_ v) 0) as [l|] eqn:El; [|done].
  assert (Ha := turn_alive s l Hok El).
  destruct (make_shared_ok v fd local peer l s3 Hl2) as (ch & t0 & k2 & ls1 & E3 & Ech & Hk2 & Hl3 & Hq3 & Ht);
    [by apply Hq2|by intros Hu%(proj2 (proj2 (proj2 (Hq2 l))))|].
  rewrite (M_bind_ok _ _ _ _ _ E3). set (c := fresh (dom (sv_conns s3))) in *.
  set (t := set_callbacks (sv_server s3) t0).
  set (s4 := mkServerState (added c name v) (<[c := mkServerConn t (Some l) ch]> (sv_conns s)) (replace_view k2 ls1)).
  destruct (queue_in_ok l (ConnectionEstablished c) s4 Hl3) as (ls & Eq & Hls);
    [by apply Hq3, Hq2|].
  exists c, t, ch, ls. split; [|split; [apply not_elem_of_dom, is_fresh|split; [by apply Ht|]]].
  - etrans; [|exact Eq]. unfold give_callbacks, server, gets, set_server, modify. mcbn. simpl.
    unfold set_field. simpl. rewrite alter_insert_eq. done.
  - destruct Hls as [Hls Hq]. split; [split; [exact Hls|]|].
    + intros m. destruct (Hq m) as (Wq & Hh & A & Hwk), (Hq3 m) as (W3 & H3 & A3), (Hq2 m) as (W2 & H2 & A2 & _).
      split; [etrans; [exact Wq|]; f_equal; etrans; [exact W3|exact W2]|].
      split; [etrans; [exact Hh|]; etrans; [exact H3|exact H2]|].
      split; [intros Hm; by apply A, A3, A2|]. intros Hm Hh0. apply Hwk; [done|]. etrans; [exact H3|]. by etrans.
    + exists k1, k2, ls1. split; [exact Hk1|]. split; [exact Ech|]. split; [exact Hk2|].
      unfold queue_in, in_loops in Eq. revert Eq. mcbn. simpl. mcbn.
      destruct (loop_queue _ _ _) as [[[] ls']|]; [|done]. by intros [= ->].
Qed.

(** The invariant holds of the server with one more connection. *)
Section added.
Context {c : positive} {t : TcpConnection (ServerCallback U)} {ch : positive} {l : L} {ls : LS} {s : S} {fd : Z} {peer : InetAddress}.
Abbreviation v := (sv_server s).
Context (Hok : server_ok s) (Hid : next_conn_id_ v < int32_max) (Hl : turn (pool_ v) 0 = Some l).
Context (Hc : sv_conns s !! c = None) (Ht : new_object_ok v fd peer t).
Context (Hqd : queued l (ConnectionEstablished c) (sv_loops s) ls).
Abbreviation entered := (mkServerState (added c (conn_name v (next_conn_id_ v)) v) (<[c := mkServerConn t (Some l) ch]> (sv_conns s)) ls).

Lemma added_new_name d x : sv_conns s !! d = Some x → name_of x ≠ conn_name v (next_conn_id_ v).
Proof.
  intros Hx Hn. assert (Hid0 := so_id s Hok). destruct (so_conns s Hok d x Hx) as [(i & Hi & Hni) _].
  rewrite Hni in Hn. apply conn_name_inj in Hn; lia.
Qed.
Lemma added_no_entry : connection_map_ v !! conn_name v (next_conn_id_ v) = None.
Proof.
  apply eq_None_not_Some. intros [o E]. destruct (so_map s Hok _ _ E) as (d & x & -> & Hx & Hn).
  by destruct (added_new_name d x Hx).
Qed.
Lemma added_waiting m g : g ∈ waiting m ls ↔ g ∈ queue_of m s ∨ g = ConnectionEstablished c ∧ m = l.
Proof. by rewrite (proj1 (proj2 Hqd m)), elem_of_app, elem_of_only_for. Qed.
Lemma added_not_queued m f : f = ConnectionEstablished c ∨ f = ConnectionDestroyed c → f ∉ queue_of m s.
Proof.
  intros Hf Hfm. assert (getLoop <$> sv_conns s !! c = Some (Some m)) as H; [|by rewrite Hc in H].
  apply (so_queued s Hok). destruct Hf as [-> | ->]; tauto.
Qed.
Lemma added_in_map d : in_map entered d ↔ in_map s d ∨ d = c.
Proof.
  unfold in_map. simpl. split.
  - intros [n [[<- [= ->]]|[Hn Hd]]%lookup_insert_Some]; [by right|left; by exists n].
  - intros [[n Hn]| ->]; [|eexists; by apply lookup_insert_eq]. exists n.
    rewrite lookup_insert_ne; [done|]. intros <-. rewrite added_no_entry in Hn. done.
Qed.
Lemma added_map n o : connection_map_ (sv_server entered) !! n = Some o →
  ∃ d x, o = Some d ∧ sv_conns entered !! d = Some x ∧ name_of x = n.
Proof.
  simpl. intros [[<- <-]|[Hn Ho]]%lookup_insert_Some.
  - exists c, (mkServerConn t (Some l) ch). split; [done|]. rewrite lookup_insert_eq. split; [done|]. apply Ht.
  - destruct (so_map s Hok n o Ho) as (d & x & -> & Hx & Hxn). exists d, x. split; [done|].
    split; [|done]. rewrite lookup_insert_ne; [done|]. intros ->. congruence.
Qed.
Lemma added_distinct d e x y : sv_conns entered !! d = Some x → sv_conns entered !! e = Some y →
  name_of x = name_of y → d = e.
Proof.
  assert (∀ d x, sv_conns s !! d = Some x → name_of x ≠ TcpConnection.name_ t) as Hne.
  { intros d' x' Hx. rewrite (no_name _ _ _ _ Ht). by apply added_new_name with d'. }
  simpl. intros [[<- <-]|[Hd Hx]]%lookup_insert_Some [[<- <-]|[He Hy]]%lookup_insert_Some Hn; simpl in Hn; try done.
  + by destruct (Hne _ _ Hy).
  + by destruct (Hne _ _ Hx).
  + by apply (so_distinct s Hok d e x y).
Qed.
Lemma added_queued m d :
  ConnectionEstablished d ∈ waiting m ls ∨ ConnectionDestroyed d ∈ waiting m ls →
  getLoop <$> sv_conns entered !! d = Some (Some m).
Proof.
  rewrite !added_waiting. simpl. assert (ConnectionEstablished d ∈ queue_of m s ∨ ConnectionDestroyed d ∈ queue_of m s →
    getLoop <$> <[c := mkServerConn t (Some l) ch]> (sv_conns s) !! d = Some (Some m)) as H.
  { intros H%(so_queued s Hok). rewrite lookup_insert_ne; [done|]. intros <-. by rewrite Hc in H. }
  intros [[?|[[= ->] ->]]|[?|[? _]]]; [apply H; tauto|by rewrite lookup_insert_eq|apply H; tauto|done].
Qed.

Lemma server_ok_added : server_ok entered.
Proof.
  assert (Hid0 := so_id s Hok). destruct Hqd as [Hls Hq].
  destruct (getNextLoop_ok (pool_ v) (so_pool s Hok)) as (_ & Hpool & _).
  split; try exact added_map; try exact added_distinct; try exact added_queued; simpl; try apply Hok; try done.
  - by apply Hq, Hok.
  - intros m Hm. by apply Hq, (so_alive s Hok), Hm.
  - lia.
  - intros d x [[<- <-]|[Hd Hx]]%lookup_insert_Some.
    + split; [exists (next_conn_id_ v); split; [lia|apply Ht]|]. exists l. split; [done|]. apply Hq. by apply turn_alive.
    + destruct (so_conns s Hok d x Hx) as ((i & Hi & Hn) & m & Hm & Hma).
      split; [exists i; split; [lia|done]|]. exists m. split; [done|]. by apply Hq.
  - intros m. rewrite (proj1 (Hq m)). apply nodup_queued; [apply Hok|]. intros _. apply added_not_queued. by left.
  - unfold removing. simpl. intros d [Hd|[? _]]%added_waiting; [|done]. apply added_in_map. left. by apply (so_removing s Hok).
  - intros m d [Hd|[? _]]%added_waiting; [by apply (so_elsewhere s Hok m d)|done].
  - intros m d [Hd|[? _]]%added_waiting; [|done]. rewrite added_in_map. intros [Hdm| ->]; [by apply (so_destroyed s Hok m d)|].
    apply (added_not_queued m _ (or_intror eq_refl) Hd).
  - intros m d. rewrite (proj1 (Hq m)). apply order_queued; [by apply (so_order s Hok)|].
    intros [= <-]. apply added_not_queued. by right.
Qed.
End added.

(** ** Removing *)

Lemma the_connection_ok s c x : sv_conns s !! c = Some x → the_connection c s = Ok (x, s).
Proof. intros Hx. unfold the_connection, get. mcbn. by rewrite Hx. Qed.

(** The connection is out of the map, and its loop is told. *)
Record removed (c : positive) s s' : Prop := Removed {
  rm_ok : server_ok s';
  rm_objects : sv_conns s' = sv_conns s;
  rm_map d : in_map s' d ↔ in_map s d ∧ d ≠ c;
  rm_told : ∃ l, getLoop <$> sv_conns s !! c = Some (Some l) ∧
                 queued l (ConnectionDestroyed c) (sv_loops s) (sv_loops s')
}.

Lemma removeConnectionInLoop_ok c s :
  server_ok s → in_map s c → ¬ removing s c →
  ∃ s', removeConnectionInLoop c s = Ok (tt, s') ∧ removed c s s'.
Proof.
  intros Hok Hc Hn. destruct (in_map_entry s c Hok Hc) as (x & Hx & _).
  destruct (so_conns s Hok c x Hx) as (_ & l & Hl & Ha).
  set (s1 := s <| sv_server ::= λ v, v <| connection_map_ ::= delete (name_of x) |> |>).
  destruct (queue_in_ok l (ConnectionDestroyed c) s1 (so_loops s Hok) Ha) as (ls & E & Hq).
  destruct (server_ok_removed s c x l ls Hok Hc Hn Hx Hl Hq) as [Hok' Hmap].
  exists (s1 <| sv_loops := ls |>). split.
  - unfold removeConnectionInLoop. mstep (the_connection_ok s c x Hx). rewrite Hl. exact E.
  - split; [exact Hok'|done|exact Hmap|]. exists l. rewrite Hx. simpl. by rewrite Hl.
Qed.

Lemma removeConnection_cases c s :
  server_ok s → in_map s c → ¬ removing s c →
  ∃ s', removeConnection c s = Ok (tt, s') ∧
    (if loop_here (base s) (sv_loops s) then removed c s s'
     else server_ok s' ∧ s' = s <| sv_loops := sv_loops s' |> ∧
          queued (base s) (RemoveConnectionInLoop c) (sv_loops s) (sv_loops s')).
Proof.
  intros Hok Hc Hn. unfold removeConnection, server, gets. mcbn. destruct (loop_here _ _).
  - by apply removeConnectionInLoop_ok.
  - destruct (queue_in_ok (base s) (RemoveConnectionInLoop c) s) as (ls & -> & Hq); [apply Hok..|].
    eexists. split; [done|]. split; [|done]. by apply (server_ok_closing s c).
Qed.

(** What the two did to the loops. *)
Lemma queue_in_inv o f s s' :
  queue_in o f s = Ok (tt, s') →
  ∃ l ls, o = Some l ∧ loop_queue l f (sv_loops s) = Ok (tt, ls) ∧ s' = s <| sv_loops := ls |>.
Proof.
  unfold queue_in, in_loops. destruct o as [l|]; [|done]. mcbn. simpl. mcbn.
  destruct (loop_queue l f (sv_loops s)) as [[[] ls]|] eqn:Eq; [|done]. intros [= <-]. by exists l, ls.
Qed.

Lemma removeConnectionInLoop_inv c s s' :
  removeConnectionInLoop c s = Ok (tt, s') →
  ∃ x l ls, sv_conns s !! c = Some x ∧ getLoop x = Some l ∧
    loop_queue l (ConnectionDestroyed c) (sv_loops s) = Ok (tt, ls) ∧
    s' = s <| sv_server ::= λ v, v <| connection_map_ ::= delete (name_of x) |> |> <| sv_loops := ls |>.
Proof.
  unfold removeConnectionInLoop, the_connection, get. mcbn.
  destruct (sv_conns s !! c) as [x|] eqn:Ex; [|done]. mcbn. unfold set_server, modify. mcbn.
  intros (l & ls & El & Eq & ->)%queue_in_inv. by exists x, l, ls.
Qed.

Lemma removeConnection_inv c s s' :
  removeConnection c s = Ok (tt, s') →
  if loop_here (base s) (sv_loops s) then removeConnectionInLoop c s = Ok (tt, s')
  else ∃ ls, loop_queue (base s) (RemoveConnectionInLoop c) (sv_loops s) = Ok (tt, ls) ∧
             s' = s <| sv_loops := ls |>.
Proof.
  unfold removeConnection, server, gets. mcbn. destruct (loop_here _ _); [done|].
  intros (l & ls & [= <-] & Eq & ->)%queue_in_inv. by exists ls.
Qed.

(** The objects change, but not their names and loops. *)
Lemma server_ok_objects s conns :
  server_ok s →
  (∀ c, (λ x, (name_of x, getLoop x)) <$> conns !! c = (λ x, (name_of x, getLoop x)) <$> sv_conns s !! c) →
  server_ok (s <| sv_conns := conns |>).
Proof.
  intros Hok Hc.
  assert (∀ c x, conns !! c = Some x → ∃ y, sv_conns s !! c = Some y ∧ name_of y = name_of x ∧ getLoop y = getLoop x) as H1.
  { intros c x Hx. specialize (Hc c). rewrite Hx in Hc. destruct (sv_conns s !! c) as [y|]; [|done].
    exists y. simpl in Hc. by injection Hc. }
  assert (∀ c y, sv_conns s !! c = Some y → ∃ x, conns !! c = Some x ∧ name_of y = name_of x ∧ getLoop y = getLoop x) as H2.
  { intros c y Hy. specialize (Hc c). rewrite Hy in Hc. destruct (conns !! c) as [x|]; [|done].
    exists x. simpl in Hc. by injection Hc. }
  split; simpl; try apply Hok; try done.
  - intros n o Ho. destruct (so_map s Hok n o Ho) as (c & y & -> & Hy & Hn).
    destruct (H2 c y Hy) as (x & Hx & Hn' & _). exists c, x. split; [done|]. split; [done|congruence].
  - intros c x Hx. destruct (H1 c x Hx) as (y & Hy & Hn & Hl). destruct (so_conns s Hok c y Hy) as (Hi & Hl').
    by rewrite Hn, Hl in *.
  - intros c d x y Hx Hy Hn. destruct (H1 c x Hx) as (x' & Hx' & Hnx & _), (H1 d y Hy) as (y' & Hy' & Hny & _).
    apply (so_distinct s Hok c d x' y'); [done..|congruence].
  - intros l c Hq. assert (Hq' := so_queued s Hok l c Hq). destruct (sv_conns s !! c) as [y|] eqn:Ey; [|done].
    destruct (H2 c y Ey) as (x & -> & _ & Hl). simpl in *. congruence.
Qed.

(** An object that nothing of the server names goes. *)
Lemma server_ok_dropped s c :
  server_ok s → ¬ in_map s c →
  (∀ l, (ConnectionEstablished c ∉ queue_of l s) ∧ (ConnectionDestroyed c ∉ queue_of l s)) →
  server_ok (s <| sv_conns ::= delete c |>).
Proof.
  intros Hok Hm Hq. split; simpl; try apply Hok; try done.
  - intros n o Ho. destruct (so_map s Hok n o Ho) as (d & y & -> & Hy & Hn). exists d, y. split; [done|].
    split; [|done]. rewrite lookup_delete_ne; [done|]. intros <-. apply Hm. by exists n.
  - intros d y [_ Hy]%lookup_delete_Some. by apply (so_conns s Hok d y).
  - intros d1 d2 x y [_ Hx]%lookup_delete_Some [_ Hy]%lookup_delete_Some. by apply (so_distinct s Hok).
  - intros l d Hd. assert (Hq' := so_queued s Hok l d Hd). rewrite lookup_delete_ne; [done|].
    intros <-. destruct (Hq l) as [H1 H2]. tauto.
Qed.

(** ** Runs of the server

    New connections; closed connections, of which each calls its close callback
    once (TcpConnection.v says when [handleClose] runs); and functors taken from
    the queues of the loops. *)

Inductive server_step : relation S :=
| step_new fd peer s s' : ¬ fd_used fd (sv_loops s) → newConnection fd peer s = Ok (tt, s') → server_step s s'
| step_close c s s' :
    in_map s c → ¬ removing s c → removeConnection c s = Ok (tt, s') → server_step s s'
| step_remove c s ls s' :
    took (base s) (RemoveConnectionInLoop c) (sv_loops s) ls →
    removeConnectionInLoop c (s <| sv_loops := ls |>) = Ok (tt, s') → server_step s s'
| step_take l f s ls :
    (∀ c, f ≠ RemoveConnectionInLoop c) → took l f (sv_loops s) ls →
    server_step s (s <| sv_loops := ls |>).

(** The numbers are used up. *)
Lemma newConnection_full fd peer s :
  server_ok s → next_conn_id_ (sv_server s) = int32_max → newConnection fd peer s = Fault SignedOverflow.
Proof.
  intros Hok Hid. unfold newConnection. rewrite (M_bind_ok _ _ _ _ _ (take_loop_ok s Hok)).
  unfold server, gets. mcbn. set (v := sv_server (_ : S)).
  assert (next_conn_id_ v = int32_max) as -> by exact Hid. done.
Qed.

Lemma took_removal s c ls :
  server_ok s → took (base s) (RemoveConnectionInLoop c) (sv_loops s) ls →
  let s' := s <| sv_loops := ls |> in server_ok s' ∧ in_map s' c ∧ ¬ removing s' c.
Proof.
  intros Hok Ht. destruct (server_ok_took s _ _ ls Hok Ht) as [Hok' Hn]. split; [done|].
  split; [|done]. change (in_map s c). apply (so_removing s Hok). unfold removing.
  destruct Ht as [_ Ht]. rewrite (proj1 (Ht (base s))). apply elem_of_app. left. by apply elem_of_only_for.
Qed.

(** What a connection object that left the map, or never was in it, stays. *)
Definition gone s (c : positive) : Prop := is_Some (sv_conns s !! c) ∧ ¬ in_map s c.

Lemma server_step_ok s s' : server_ok s → server_step s s' → server_ok s' ∧ ∀ c, gone s c → gone s' c.
Proof.
  assert (∀ c s s', removed c s s' → ∀ d, gone s d → gone s' d) as Hrm.
  { intros c t t' [_ Ho Hm _] d [Hd Hnd]. split; [by rewrite Ho|]. rewrite Hm. tauto. }
  intros Hok Hstep. destruct Hstep as [fd peer s s' Hfd E|c s s' Hc Hn E|c s ls s' Ht E|l f s ls Hf Ht].
  - destruct (decide (next_conn_id_ (sv_server s) < int32_max)) as [Hid|Hid].
    2: { rewrite newConnection_full in E; [done..|]. assert (H := so_id s Hok). lia. }
    assert (H := newConnection_ok fd peer s Hok Hid Hfd). simpl in H.
    destruct (turn (pool_ (sv_server s)) 0) as [l|] eqn:El; [|congruence].
    destruct H as (c & t & ch & ls & E' & Hc & Ht & [Hq _]). rewrite E' in E. injection E as <-.
    assert (Hmap := added_no_entry Hok Hid). assert (Hok' := server_ok_added (ch := ch) Hok Hid El Hc Ht Hq). split; [exact Hok'|].
    intros d [[x Hx] Hd]. split; simpl.
    + rewrite lookup_insert_ne; [by eexists|]. intros <-. congruence.
    + intros [n Hn]. apply Hd. simpl in Hn. apply lookup_insert_Some in Hn as [[_ [= ->]]|[_ Hn]]; [congruence|by exists n].
  - destruct (removeConnection_cases c s Hok Hc Hn) as (s1 & E1 & H). rewrite E1 in E. injection E as <-.
    destruct (loop_here _ _); [split; [apply H|by apply Hrm with c]|].
    destruct H as (Hok' & Es & _). split; [exact Hok'|]. intros d Hd. rewrite Es. exact Hd.
  - destruct (took_removal s c ls Hok Ht) as (Hok1 & Hc & Hn).
    destruct (removeConnectionInLoop_ok c _ Hok1 Hc Hn) as (s1 & E1 & H). rewrite E1 in E. injection E as <-.
    split; [apply H|]. intros d Hd. by apply (Hrm c (s <| sv_loops := ls |>)).
  - destruct (server_ok_took s l f ls Hok Ht) as [Hok' _]. by split.
Qed.

(** C18: A new connection.  While numbers are left, [newConnection] takes the
    pool's next loop and makes one object: connecting, on the accepted
    descriptor, with a channel of its own in that loop, empty buffers, the application's callbacks and the server's
    close callback.  Its name is the server's, then [-ip:port#number], never cut
    off, and is not in the map yet; it is entered there, its
    [connectionEstablished] is queued once, in its loop, and nothing else is
    queued; the invariant holds again.  A null loop of the pool is dereferenced,
    and with the last number used up the counter overflows. *)
Theorem newConnection_adds fd peer s :
  server_ok s → ¬ fd_used fd (sv_loops s) →
  let v := sv_server s in
  let name := conn_name v (next_conn_id_ v) in
  (next_conn_id_ v = int32_max → newConnection fd peer s = Fault SignedOverflow) ∧
  (next_conn_id_ v < int32_max →
   match turn (pool_ v) 0 with
   | None => newConnection fd peer s = Fault NullPointer
   | Some l => ∃ c t ch s', newConnection fd peer s = Ok (tt, s') ∧ server_ok s' ∧
       new_object_ok v fd peer t ∧ connection_map_ v !! name = None ∧ sv_conns s !! c = None ∧
       sv_server s' = added c name v ∧ sv_conns s' = <[c := mkServerConn t (Some l) ch]> (sv_conns s) ∧
       connecting l c fd ch (sv_loops s) (sv_loops s')
   end).
Proof.
  intros Hok Hfd v name. split; [by apply newConnection_full|]. intros Hid.
  assert (H := newConnection_ok fd peer s Hok Hid Hfd). simpl in H. fold v in H.
  destruct (turn (pool_ v) 0) as [l|] eqn:El; [|done].
  destruct H as (c & t & ch & ls & E & Hc & Ht & Hq).
  assert (Hmap := added_no_entry Hok Hid). assert (Hok' := server_ok_added (ch := ch) Hok Hid El Hc Ht (cn_queued _ _ _ _ _ _ Hq)).
  by exists c, t, ch, (mkServerState (added c name v) (<[c := mkServerConn t (Some l) ch]> (sv_conns s)) ls).
Qed.

(** C12: The map of connections.  In every run of new connections, closed
    connections and functors taken from the loops, the map holds exactly live
    objects, each under its own name; names are distinct; every object's functors
    are in its own loop, [connectionEstablished] before [connectionDestroyed],
    each at most once; a removal waits at most once, in the base loop, and only
    for a connection in the map; [connectionDestroyed] waits only for connections
    that have left it.  A connection that left the map is never entered again. *)
Theorem server_invariant s s' :
  server_ok s → rtc server_step s s' → server_ok s' ∧ ∀ c, gone s c → gone s' c.
Proof.
  intros Hok Hr. revert Hok. induction Hr as [s|s s1 s' Hs Hr IH]; intros Hok; [done|].
  destruct (server_step_ok s s1 Hok Hs) as [Hok1 Hg1]. destruct (IH Hok1) as [Hok' Hg'].
  split; [done|]. intros c Hc. by apply Hg', Hg1.
Qed.

(** C19: Removing a connection.  For a connection in the map,
    [removeConnection] in the base loop's thread takes it out and queues its
    [connectionDestroyed], once, in its own loop; in another thread it only
    queues the removal in the base loop, and when that loop takes the functor
    exactly the same happens, whatever ran in between.  No other connection is
    touched, the object outlives the call, and nothing faults. *)
Theorem removeConnection_removes c s :
  server_ok s → in_map s c → ¬ removing s c →
  (∃ s1, removeConnection c s = Ok (tt, s1) ∧
     if loop_here (base s) (sv_loops s) then removed c s s1
     else sv_server s1 = sv_server s ∧ sv_conns s1 = sv_conns s ∧
          queued (base s) (RemoveConnectionInLoop c) (sv_loops s) (sv_loops s1)) ∧
  (∀ s1 s2 ls, removeConnection c s = Ok (tt, s1) → rtc server_step s1 s2 →
     took (base s2) (RemoveConnectionInLoop c) (sv_loops s2) ls →
     ∃ s3, removeConnectionInLoop c (s2 <| sv_loops := ls |>) = Ok (tt, s3) ∧
       removed c (s2 <| sv_loops := ls |>) s3).
Proof.
  intros Hok Hc Hn. destruct (removeConnection_cases c s Hok Hc Hn) as (s1 & E & H). split.
  - exists s1. split; [done|]. destruct (loop_here _ _); [done|]. destruct H as (_ & Es & H).
    split; [by rewrite Es|]. split; [by rewrite Es|exact H].
  - intros s1' s2 ls E' Hr Ht. rewrite E in E'. injection E' as <-.
    assert (server_ok s1) as Hok1 by (destruct (loop_here _ _); apply H).
    assert (server_ok s2) as Hok2.
    { apply (rtc_invariant server_step server_ok s1); [|done..]. intros t t' Ht' Hs. by eapply server_step_ok. }
    destruct (took_removal s2 c ls Hok2 Ht) as (Hok3 & Hc3 & Hn3). by apply removeConnectionInLoop_ok.
Qed.

(** ** The destructor *)

(** The functors the destructor has for the loop [l], entry by entry. *)
Definition told_entry (conns : gmap positive (ServerConn L U)) (l : L) (e : string * option positive) :
    option ServerFunctor :=
  c ← e.2; x ← conns !! c; if decide (getLoop x = Some l) then Some (ConnectionDestroyed c) else None.

(** The loops during the destructor. *)
Definition all_alive s : Prop :=
  loops_ok (sv_loops s) ∧ ∀ c x, sv_conns s !! c = Some x → ∃ l, getLoop x = Some l ∧ loop_alive l (sv_loops s).

Lemma destroy_entry_ok n c x s :
  all_alive s → sv_conns s !! c = Some x →
  ∃ s', destroy_entry (n, Some c) s = Ok (tt, s') ∧ all_alive s' ∧ sv_conns s' = sv_conns s ∧
    connection_map_ (sv_server s') = <[n := None]> (connection_map_ (sv_server s)) ∧
    ∀ m, queue_of m s' = queue_of m s ++ option_list (told_entry (sv_conns s) m (n, Some c)).
Proof.
  intros [Hok Ha] Hx. destruct (Ha c x Hx) as (l & Hl & Hla).
  set (s1 := s <| sv_server ::= λ v, v <| connection_map_ ::= <[n := None]> |> |>).
  destruct (queue_in_ok l (ConnectionDestroyed c) s1 Hok Hla) as (ls & E & Hls & Hq).
  exists (s1 <| sv_loops := ls |>). split.
  { transitivity ((x ← the_connection c; queue_in (getLoop x) (ConnectionDestroyed c)) s1); [done|].
    mstep (the_connection_ok s1 c x Hx). rewrite Hl. exact E. }
  split; [|split; [done|split; [done|]]].
  - split; [exact Hls|]. intros d y Hy. destruct (Ha d y Hy) as (m & Hm & Hma). exists m.
    split; [done|]. by apply Hq.
  - intros m. unfold told_entry. simpl. rewrite Hx. simpl. rewrite (proj1 (Hq m)). unfold only_for. simpl.
    rewrite Hl. f_equal. repeat case_decide; naive_solver.
Qed.

Lemma destroy_entries_ok es s :
  all_alive s → (∀ e, e ∈ es → ∃ c, e.2 = Some c ∧ is_Some (sv_conns s !! c)) →
  ∃ s', for_each destroy_entry es s = Ok (tt, s') ∧ sv_conns s' = sv_conns s ∧
    (∀ n, connection_map_ (sv_server s') !! n =
            if decide (n ∈ es.*1) then Some None else connection_map_ (sv_server s) !! n) ∧
    ∀ m, queue_of m s' = queue_of m s ++ omap (told_entry (sv_conns s) m) es.
Proof.
  revert s. induction es as [|[n o] es IH]; intros s Ha Hes.
  { exists s. split; [done|]. split; [done|]. split; [done|]. intros m. by rewrite app_nil_r. }
  destruct (Hes (n, o)) as (c & Ho & x & Hx); [set_solver|]. simpl in Ho. subst o.
  destruct (destroy_entry_ok n c x s Ha Hx) as (s1 & E1 & Ha1 & Hc1 & Hm1 & Hq1).
  destruct (IH s1 Ha1) as (s' & E & Hc & Hm & Hq); [rewrite Hc1; set_solver|].
  exists s'. split; [cbn [for_each]; by mstep E1|]. split; [by rewrite Hc|]. split.
  - intros k. rewrite Hm, Hm1, fmap_cons. destruct (decide (k = n)) as [->|Hk].
    + rewrite lookup_insert_eq. repeat case_decide; set_solver.
    + rewrite lookup_insert_ne by done. repeat case_decide; set_solver.
  - intros m. rewrite Hq, Hq1, Hc1, <- app_assoc. f_equal. cbn [omap list_omap].
    by destruct (told_entry _ _ _).
Qed.

(** C32: The destructor.  Every entry of the map is set to null, and for every
    connection that was in it exactly one [connectionDestroyed] is queued, in the
    connection's own loop; nothing else is queued and nothing faults.  (The loops
    of the pool still run then: the pool's destructor ends them afterwards.) *)
Theorem destroy_TcpServer_tells s :
  server_ok s →
  ∃ s', destroy_TcpServer s = Ok (tt, s') ∧ sv_conns s' = sv_conns s ∧ (∀ c, ¬ in_map s' c) ∧
    ∀ l, ∃ fs, queue_of l s' = queue_of l s ++ fs ∧ NoDup fs ∧
      ∀ f, f ∈ fs ↔ ∃ c, f = ConnectionDestroyed c ∧ in_map s c ∧ getLoop <$> sv_conns s !! c = Some (Some l).
Proof.
  intros Hok. set (es := map_to_list (connection_map_ (sv_server s))).
  assert (∀ e, e ∈ es → ∃ c x, e.2 = Some c ∧ sv_conns s !! c = Some x ∧ name_of x = e.1) as Hes.
  { intros [n o] He%elem_of_map_to_list. by apply (so_map s Hok). }
  destruct (destroy_entries_ok es s) as (s' & E & Hc & Hm & Hq).
  { split; [apply Hok|]. intros c x Hx. by apply (so_conns s Hok c x). }
  { intros e He. destruct (Hes e He) as (c & x & ? & ? & _). eauto. }
  exists s'. split; [exact E|]. split; [exact Hc|]. split.
  { intros c [n Hn]. rewrite Hm in Hn. case_decide as Hin; [done|]. apply Hin.
    apply list_elem_of_fmap. exists (n, Some c). split; [done|]. by apply elem_of_map_to_list. }
  intros l. exists (omap (told_entry (sv_conns s) l) es). split; [apply Hq|].
  assert (∀ e c x, e ∈ es → e.2 = Some c → sv_conns s !! c = Some x →
    told_entry (sv_conns s) l e = if decide (getLoop x = Some l) then Some (ConnectionDestroyed c) else None) as Ht.
  { intros [n o] c x _ Ho Hx. simpl in Ho. subst o. unfold told_entry. simpl. by rewrite Hx. }
  split.
  - assert (NoDup es) as Hnd by apply NoDup_map_to_list. clearbody es. clear E Hm Hq.
    induction es as [|e es IH]; [constructor|]. apply NoDup_cons in Hnd as [He Hnd].
    cbn [omap list_omap]. destruct (told_entry _ _ e) as [f|] eqn:Ef; [|apply IH; set_solver].
    constructor; [|apply IH; set_solver]. intros (e' & He' & Ef')%list_elem_of_omap. apply He.
    destruct (Hes e) as (c & x & Hc1 & Hx & Hn); [set_solver|].
    destruct (Hes e') as (c' & x' & Hc2 & Hx' & Hn'); [set_solver|].
    rewrite (Ht e c x) in Ef by (set_solver || done). rewrite (Ht e' c' x') in Ef' by (set_solver || done).
    repeat case_decide; simplify_eq. destruct e as [n o], e' as [n' o']. simpl in *. by subst.
  - intros f. rewrite list_elem_of_omap. split.
    + intros (e & He & Hf). destruct (Hes e He) as (c & x & Hc1 & Hx & Hn). rewrite (Ht e c x) in Hf by done.
      case_decide as Hl; simplify_eq. exists c. split; [done|]. split; [|rewrite Hx; simpl; by rewrite Hl].
      exists e.1. apply elem_of_map_to_list. destruct e as [n o]. simpl in *. by subst.
    + intros (c & -> & [n Hn] & Hl). exists (n, Some c). split; [by apply elem_of_map_to_list|].
      destruct (so_map s Hok n _ Hn) as (d & x & [= <-] & Hx & _). rewrite Hx in Hl. simpl in Hl.
      unfold told_entry. simpl. rewrite Hx. simpl. apply decide_True. congruence.
Qed.
End invariant.

(** ** Starting *)

Section starting.
Context {K LS L C U : Type} `{!EqDecision L, !Kernel K, !KernelLaws K, !Loops K LS L, !LoopsLaws K LS L}.
Abbreviation S := (ServerState LS L C U).
Implicit Types s : S.
Variable startLoop : option C → string → M S (option L).
Variable call : C → L → M S unit.

(** What happens to the other loops when one is made. *)
Definition loops_kept (ls ls' : LS) : Prop :=
  loops_ok ls' ∧ ∀ m, waiting m ls' = waiting m ls ∧ loop_here m ls' = loop_here m ls ∧
    (loop_alive m ls → loop_alive m ls').

(** [startLoop()] of the thread of a name answers [answer]: a loop that exists
    then, or null. *)
Variable answer : string → option L.
Hypothesis startLoop_ok : ∀ cb name s, loops_ok (sv_loops s) →
  ∃ ls, startLoop cb name s = Ok (answer name, s <| sv_loops := ls |>) ∧ loops_kept (sv_loops s) ls ∧
    ∀ l, answer name = Some l → loop_alive l ls.

Lemma loops_kept_trans ls1 ls2 ls3 : loops_kept ls1 ls2 → loops_kept ls2 ls3 → loops_kept ls1 ls3.
Proof.
  intros [_ H1] [Hok H2]. split; [done|]. intros m. destruct (H1 m) as (Hw & Hh & Ha), (H2 m) as (-> & -> & H).
  auto.
Qed.

Definition with_loops (idx : list nat) (ls : LS) s : S :=
  s <| sv_server ::= λ v, v <| pool_ ::= with_threads answer idx |> |> <| sv_loops := ls |>.

Lemma start_loop_ok cb i s :
  loops_ok (sv_loops s) →
  ∃ ls, start_one startLoop cb i s = Ok (tt, with_loops [i] ls s) ∧ loops_kept (sv_loops s) ls ∧
    ∀ l, answer (thread_name (pool_ (sv_server s)) i) = Some l → loop_alive l ls.
Proof.
  intros Hok. set (buf := thread_name (pool_ (sv_server s)) i).
  set (s1 := s <| sv_server ::= λ v, v <| pool_ ::= λ p : Pool L, p <| threads_ ::= λ l, l ++ [buf] |> |> |>).
  destruct (startLoop_ok cb buf s1 Hok) as (ls & E & Hk & Ha). exists ls. split; [|by split].
  transitivity ((zoom (X := Pool L) (modify (λ p : Pool L, p <| threads_ ::= λ l, l ++ [buf] |>)) ;;
    loop ← startLoop cb buf;
    zoom (X := Pool L) (modify (λ p : Pool L, p <| loops_ ::= λ l, l ++ [loop] |>))) s).
  { unfold start_one. by rewrite (M_bind_ok _ _ _ _ _ (zoom_get (X := Pool L) s)). }
  mstep (zoom_modify (λ p : Pool L, p <| threads_ ::= λ l, l ++ [buf] |>) s).
  assert (replace_view (set_field threads_ (λ l, l ++ [buf]) (view s : Pool L)) s = s1) as ->
    by by destruct s as [[] ? ?].
  mstep E. by destruct s as [[? ? ? ? []] ? ?].
Qed.

Lemma start_loops_ok cb idx s :
  loops_ok (sv_loops s) →
  ∃ ls, for_each (start_one startLoop cb) idx s = Ok (tt, with_loops idx ls s) ∧ loops_kept (sv_loops s) ls ∧
    ∀ i l, i ∈ idx → answer (thread_name (pool_ (sv_server s)) i) = Some l → loop_alive l ls.
Proof.
  revert s. induction idx as [|i idx IH]; intros s Hok.
  { exists (sv_loops s). split; [|split; [by split|set_solver]]. unfold with_loops, with_threads.
    destruct s as [[? ? ? ? []] ? ?]. simpl. by rewrite !app_nil_r. }
  destruct (start_loop_ok cb i s Hok) as (ls1 & E1 & Hk1 & Ha1).
  destruct (IH (with_loops [i] ls1 s)) as (ls & E & Hk & Ha); [apply Hk1|].
  assert (∀ j, thread_name (pool_ (sv_server (with_loops [i] ls1 s))) j = thread_name (pool_ (sv_server s)) j) as Hn
    by (intros j; by destruct s as [[? ? ? ? []] ? ?]).
  exists ls. split; [|split].
  - cbn [for_each]. mstep E1. rewrite E. do 2 f_equal. unfold with_loops, with_threads.
    destruct s as [[? ? ? ? []] ? ?]. simpl. by rewrite <- !app_assoc.
  - by apply loops_kept_trans with ls1.
  - intros j l [->|Hj]%elem_of_cons Hl; [by apply Hk, Ha1|]. apply Ha with j; [done|]. by rewrite Hn.
Qed.

(** A server whose constructor has just returned, and whose number of threads was set. *)
Record new_server (n : Z) s : Prop := NewServer {
  ns_loops : loops_ok (sv_loops s);
  ns_base : loop_alive (loop_ (sv_server s)) (sv_loops s);
  ns_idle l : waiting l (sv_loops s) = [];
  ns_pool : pool_ (sv_server s) =
    (make_EventLoopThreadPool (loop_ (sv_server s)) (name_ (sv_server s)))
      <| EventLoopThreadPool.num_threads_ := n |>;
  ns_empty : connection_map_ (sv_server s) = ∅ ∧ sv_conns s = ∅;
  ns_counters : started_ (sv_server s) = 0 ∧ next_conn_id_ (sv_server s) = 1;
  ns_ip_port : (String.length (ip_port (sv_server s)) ≤ 21)%nat
}.

Lemma new_server_made sock p base_loop addr name reuse n ls a ls' :
  inet_ok addr → loop_acceptor base_loop sock p addr reuse ls = Ok (a, ls') →
  loops_ok ls' → loop_alive base_loop ls' → (∀ l, waiting l ls' = []) →
  ∃ s s', make_TcpServer sock p base_loop addr name reuse ls = Ok s ∧
    setThreadNum n s = Ok (tt, s') ∧ new_server n s'.
Proof.
  intros Haddr E Hok Ha Hw. eexists _, _. split; [unfold make_TcpServer; by rewrite E|].
  split; [done|]. split; try done. by apply toIpPort_whole.
Qed.

(** The pool has as many loops as threads were asked for. *)
Lemma server_ok_started n s ls :
  0 ≤ n → new_server n s → loops_kept (sv_loops s) ls →
  (∀ i l, i ∈ seq 0 (Z.to_nat n) → answer (thread_name (pool_ (sv_server s)) i) = Some l → loop_alive l ls) →
  let v' := (sv_server s) <| started_ := 1 |> <| pool_ ::= λ p : Pool L,
    with_threads answer (seq 0 (Z.to_nat n)) (p <| EventLoopThreadPool.started_ := true |>) |> in
  server_ok (mkServerState v' ∅ ls).
Proof.
  clear startLoop_ok. intros H0 [Hl Hb Hi Hp [Hm Hc] [Hs Hid] Hip] [Hok Hk] Ha v'.
  assert (EventLoopThreadPool.loops_ (pool_ v') =
    map (λ i, answer (thread_name (pool_ (sv_server s)) i)) (seq 0 (Z.to_nat n))) as Els
    by (unfold v'; simpl; by rewrite Hp).
  assert (∀ m, waiting m ls = []) as Hw by (intros m; rewrite (proj1 (Hk m)); apply Hi).
  split; simpl; try done.
  - by apply Hk.
  - split.
    + unfold v'. simpl. rewrite Hp. unfold with_threads. simpl. unfold zlen. rewrite length_map, length_seq. lia.
    + unfold v'. simpl. rewrite Hp. simpl. assert (H := zlen_nonneg (map (λ i, answer (thread_name
        (make_EventLoopThreadPool (loop_ (sv_server s)) (name_ (sv_server s))) i)) (seq 0 (Z.to_nat n)))). lia.
  - intros l Hin. change (Some l ∈ EventLoopThreadPool.loops_ (pool_ v')) in Hin. rewrite Els in Hin. apply list_elem_of_In, in_map_iff in Hin as (i & Hi' & Hin).
    apply Ha with i; [by apply list_elem_of_In|done].
  - by rewrite Hp.
  - rewrite Hid. done.
  - intros m o. by rewrite Hm, lookup_empty.
  - intros l. rewrite Hw. constructor.
  - unfold removing. simpl. intros c. rewrite Hw. set_solver.
  - intros l c. rewrite Hw. set_solver.
  - intros l c. rewrite Hw. set_solver.
  - intros l c. rewrite Hw. set_solver.
  - intros l c i j. by rewrite Hw, lookup_nil.
Qed.

(** The body of the first [start()], when the threads have given the loops [ls]. *)
Lemma start_runs n s ls :
  0 ≤ n → new_server n s → thread_init_callback_ (sv_server s) = None ∨ 0 < n →
  let idx := seq 0 (Z.to_nat n) in
  let s0 := s <| sv_server ::= λ v, v <| started_ := 1 |>
              <| pool_ ::= λ p : Pool L, p <| EventLoopThreadPool.started_ := true |> |> |> in
  for_each (start_one startLoop (thread_init_callback_ (sv_server s))) idx s0 = Ok (tt, with_loops idx ls s0) →
  start startLoop call s =
    if loop_here (loop_ (sv_server s)) ls then acceptor_listen (with_loops idx ls s0)
    else queue_in (Some (loop_ (sv_server s))) Listen (with_loops idx ls s0).
Proof.
  clear startLoop_ok. intros H0 [Hl Hb Hi Hp [Hm Hc] [Hs Hid] Hip] Hcb idx s0 E.
  destruct s as [[lp ip nm ac pl mp cc wc mc ti nt st nx] conns ls0]. simpl in *. subst.
  unfold start, server, gets, set_server, modify. mcbn. simpl.
  change (wrap_int32 (0 + 1)) with 1. unfold EventLoopThreadPool.start.
  unfold zoom at 1, modify. mcbn. unfold zoom at 1, get. mcbn. simpl. fold idx.
  change (mkServerState _ _ _) with s0. rewrite E. unfold zoom, get. mcbn. simpl.
  set (s1 := with_loops idx ls s0) in *.
  assert (∀ (X : outcome (unit * S)) f, match (match ti with Some c => if n =? 0 then call c lp else mret tt
    | None => mret tt end) s1 with Ok (_, s') => f s' | Fault e => Fault e end = X ↔ f s1 = X) as Hskip.
  { intros X f. destruct ti as [c|]; [|done]. destruct Hcb as [?|?]; [done|].
    by rewrite (proj2 (Z.eqb_neq n 0)) by lia. }
  apply Hskip. simpl. by destruct (loop_here _ _).
Qed.

(** Starting.  The first [start()] of a new server makes its [n] loops and
    then lets the acceptor listen - here in the base loop's thread, or by a
    functor in the base loop's queue; the invariant of the connections holds from
    then on.  Every later [start()] only counts, and the number of threads cannot
    be set any more. *)
Theorem start_once n s :
  0 ≤ n → new_server n s → thread_init_callback_ (sv_server s) = None ∨ 0 < n →
  (∃ s1, server_ok s1 ∧ started_ (sv_server s1) = 1 ∧
     zlen (EventLoopThreadPool.loops_ (pool_ (sv_server s1))) = n ∧
     start startLoop call s =
       if loop_here (loop_ (sv_server s)) (sv_loops s) then acceptor_listen s1
       else queue_in (Some (loop_ (sv_server s))) Listen s1) ∧
  (∀ s', started_ (sv_server s') ≠ 0 →
     start startLoop call s' = Ok (tt, s' <| sv_server ::= λ v, v <| started_ ::= λ k, wrap_int32 (k + 1) |> |>) ∧
     ∀ m, setThreadNum m s' = Fault AssertFailed).
Proof.
  intros H0 Hnew Hcb. split.
  - set (idx := seq 0 (Z.to_nat n)).
    set (s0 := s <| sv_server ::= λ v, v <| started_ := 1 |>
                   <| pool_ ::= λ p : Pool L, p <| EventLoopThreadPool.started_ := true |> |> |>).
    destruct (start_loops_ok (thread_init_callback_ (sv_server s)) idx s0) as (ls & E & Hk & Ha); [apply Hnew|].
    assert (Hok := server_ok_started n s ls H0 Hnew Hk Ha). simpl in Hok.
    set (s1 := with_loops idx ls s0) in *.
    assert (server_ok s1) as Hok1 by (unfold s1, with_loops, s0; simpl; by rewrite (proj2 (ns_empty n s Hnew))).
    exists s1. split; [exact Hok1|]. split; [done|]. split.
    { unfold s1. simpl. rewrite (ns_pool n s Hnew). unfold zlen. simpl. rewrite length_map. unfold idx. rewrite length_seq. lia. }
    rewrite (start_runs n s ls H0 Hnew Hcb E). by rewrite (proj1 (proj2 (proj2 Hk _))).
  - intros s' Hs. split.
    + unfold start, server, gets, set_server, modify. mcbn. by rewrite (proj2 (Z.eqb_neq _ _) Hs).
    + intros m. unfold setThreadNum, server, gets, assert_, lift, check. mcbn.
      by rewrite (proj2 (Z.eqb_neq _ _) Hs).
Qed.
End starting.

(** ** Witnesses: loops that are queues *)

(** The current loop, the queue of each loop, and the descriptors of the channels. *)
Record ListLoops : Type := mkListLoops {
  ll_kernel : scripted;
  ll_current : nat;
  ll_queues : gmap nat (list ServerFunctor);
  ll_channels : gmap positive Z
}.
Definition ll_queue (l : nat) (ls : ListLoops) : list ServerFunctor := default [] (ll_queues ls !! l).
Definition ll_push (l : nat) (f : ServerFunctor) (ls : ListLoops) : ListLoops :=
  mkListLoops (ll_kernel ls) (ll_current ls) (<[l := ll_queue l ls ++ [f]]> (ll_queues ls)) (ll_channels ls).
Definition ll_channel (fd : Z) (ls : ListLoops) : positive * ListLoops :=
  let p := fresh (dom (ll_channels ls)) in
  (p, mkListLoops (ll_kernel ls) (ll_current ls) (ll_queues ls) (<[p := fd]> (ll_channels ls))).

#[local] Instance list_loops : Loops scripted ListLoops nat := {|
  lo_kernel := {| view := ll_kernel; replace_view k ls := mkListLoops k (ll_current ls) (ll_queues ls) (ll_channels ls) |};
  loop_here l ls := bool_decide (l = ll_current ls);
  loop_queue l f := modify (ll_push l f);
  loop_acceptor l sock p addr reuse := mret (mkAcceptor sock p false None);
  loop_listen l a := mret (a <| listening_ := true |>);
  loop_channel l c fd := λ ls, Ok (ll_channel fd ls)
|}.

Lemma ll_push_queue l f m ls : ll_queue m (ll_push l f ls) = ll_queue m ls ++ only_for l m f.
Proof.
  unfold ll_queue, ll_push, only_for. simpl. case_decide as H.
  - subst. by rewrite lookup_insert_eq.
  - by rewrite lookup_insert_ne, app_nil_r.
Qed.

#[local] Instance list_loops_laws : LoopsLaws scripted ListLoops nat.
Proof.
  refine {| loops_ok _ := True; loop_alive _ _ := True; loop_woken _ _ := True; waiting := ll_queue;
    fd_used fd ls := ∃ p, ll_channels ls !! p = Some fd |}.
  - split; [done|done|by intros []].
  - done.
  - intros l c fd ls _ _ _. eexists _, _. by repeat split.
  - intros l f ls _ _. exists (ll_push l f ls). split; [done|]. split; [done|].
    intros m. split; [apply ll_push_queue|done].
Defined.

(** Two threads, of the loops 1 and 2; the base loop 0 runs. *)
Definition demo_addr : InetAddress := SockaddrIn AF_INET (htons 8000) (addr_of 127 0 0 1).
Definition demo_server : ServerState ListLoops nat nat nat :=
  mkServerState (mkTcpServer 0%nat (toIpPort demo_addr) "echo" (mkAcceptor 9 1 false (Some NewConnection))
    ((make_EventLoopThreadPool 0%nat "echo") <| EventLoopThreadPool.num_threads_ := 2 |>)
    ∅ (Some 1%nat) None (Some 2%nat) None 2 0 1) ∅ (mkListLoops idle_kernel 0 ∅ ∅).
Definition demo_loop_of (name : string) : option nat :=
  if bool_decide (name = "echo0"%string) then Some 1%nat else Some 2%nat.
Definition demo_startLoop (cb : option nat) (name : string) : M (ServerState ListLoops nat nat nat) (option nat) :=
  mret (demo_loop_of name).
Definition demo_call (cb l : nat) : M (ServerState ListLoops nat nat nat) unit := mret tt.
Definition from_outcome {A} (d : A) (o : outcome (unit * A)) : A :=
  match o with Ok (_, s) => s | Fault _ => d end.
Definition demo_listening : ServerState ListLoops nat nat nat :=
  from_outcome demo_server (start demo_startLoop demo_call demo_server).

Lemma demo_server_new : new_server 2 demo_server.
Proof. split; vm_compute; try done. lia. Qed.

Lemma demo_startLoop_ok cb name (s : ServerState ListLoops nat nat nat) : loops_ok (sv_loops s) →
  ∃ ls, demo_startLoop cb name s = Ok (demo_loop_of name, s <| sv_loops := ls |>) ∧
    loops_kept (sv_loops s) ls ∧ ∀ l, demo_loop_of name = Some l → loop_alive l ls.
Proof. intros _. exists (sv_loops s). split; [by destruct s|]. by split. Qed.

Lemma start_once_witness :
  ∃ s1, server_ok s1 ∧ start demo_startLoop demo_call demo_server = acceptor_listen s1.
Proof.
  destruct (start_once demo_startLoop demo_call demo_loop_of demo_startLoop_ok 2 demo_server)
    as ((s1 & Hok & _ & _ & E) & _); [lia|exact demo_server_new|by left|].
  exists s1. split; [exact Hok|exact E].
Defined.

Lemma demo_listening_ok : server_ok demo_listening.
Proof.
  assert (server_ok (mkServerState ((sv_server demo_server) <| started_ := 1 |>
    <| pool_ ::= λ p, with_threads demo_loop_of (seq 0 2) (p <| EventLoopThreadPool.started_ := true |>) |>)
    ∅ (sv_loops demo_server))) as [].
  { apply (server_ok_started demo_loop_of 2 demo_server); [done|apply demo_server_new|by split|done]. }
  split; assumption.
Qed.

Lemma demo_fd_unused : ¬ fd_used 12 (sv_loops demo_listening).
Proof. by intros [p Hp]. Qed.

Definition demo_connected : ServerState ListLoops nat nat nat :=
  from_outcome demo_server (newConnection 12 demo_addr demo_listening).

Lemma newConnection_adds_witness :
  ∃ c t ch s', newConnection 12 demo_addr demo_listening = Ok (tt, s') ∧
    connection_map_ (sv_server s') !! "echo-127.0.0.1:8000#1"%string = Some (Some c) ∧
    sv_conns s' !! c = Some (mkServerConn t (Some 1%nat) ch) ∧ ll_channels (sv_loops s') !! ch = Some 12 ∧
    ll_queue 1 (sv_loops s') = [ConnectionEstablished c].
Proof.
  destruct (newConnection_adds 12 demo_addr demo_listening demo_listening_ok demo_fd_unused) as [_ H].
  destruct H as (c & t & ch & s' & E & _ & _ & _ & _ & Hs & Hc & [[_ Hq] (k1 & k2 & ls1 & _ & Ech & _ & Eq)]); [reflexivity|].
  exists c, t, ch, s'. split; [exact E|]. split; [rewrite Hs; apply lookup_insert_eq|].
  split; [rewrite Hc; apply lookup_insert_eq|]. split; [|etrans; [apply (Hq 1%nat)|reflexivity]].
  injection Eq as <-. injection Ech as <- <-. apply lookup_insert_eq.
Defined.

Lemma demo_connected_step : server_step demo_listening demo_connected.
Proof. apply (step_new 12 demo_addr); [exact demo_fd_unused|]. vm_compute. reflexivity. Qed.
Lemma demo_connected_ok : server_ok demo_connected.
Proof. apply (server_step_ok _ _ demo_listening_ok demo_connected_step). Qed.

Lemma server_invariant_witness : server_ok demo_connected ∧ ¬ gone demo_connected 1.
Proof.
  split.
  - apply (server_invariant demo_listening); [exact demo_listening_ok|].
    apply rtc_once. exact demo_connected_step.
  - intros [_ H]. apply H. exists "echo-127.0.0.1:8000#1"%string. vm_compute. reflexivity.
Defined.

Lemma demo_connected_in_map : in_map demo_connected 1 ∧ ¬ removing demo_connected 1.
Proof.
  split; [exists "echo-127.0.0.1:8000#1"%string; vm_compute; reflexivity|].
  unfold removing. vm_compute. by intros H%elem_of_nil.
Qed.

Lemma removeConnection_removes_witness :
  ∃ s, removeConnection 1 demo_connected = Ok (tt, s) ∧ ¬ in_map s 1 ∧
    ll_queue 1 (sv_loops s) = [ConnectionEstablished 1; ConnectionDestroyed 1].
Proof.
  destruct (removeConnection_removes 1 demo_connected demo_connected_ok) as [(s & E & H) _];
    [apply demo_connected_in_map..|].
  exists s. split; [exact E|]. destruct H as [_ _ Hm (l & Hl & Hq)]. split; [rewrite Hm; tauto|].
  assert (l = 1%nat) as -> by (vm_compute in Hl; congruence).
  etrans; [apply (Hq)|reflexivity].
Defined.

Lemma destroy_TcpServer_tells_witness :
  ∃ s, destroy_TcpServer demo_connected = Ok (tt, s) ∧ (∀ c, ¬ in_map s c) ∧
    ConnectionDestroyed 1 ∈ ll_queue 1 (sv_loops s).
Proof.
  destruct (destroy_TcpServer_tells demo_connected demo_connected_ok) as (s & E & _ & Hm & Hq).
  exists s. split; [exact E|]. split; [exact Hm|].
  destruct (Hq 1%nat) as (fs & Hfs & _ & Hin). change (waiting 1%nat (sv_loops s)) with (ll_queue 1 (sv_loops s)) in Hfs.
  rewrite Hfs. apply elem_of_app. right. apply Hin. exists 1%positive.
  split; [reflexivity|]. split; [apply demo_connected_in_map|vm_compute; reflexivity].
Defined.
