(* ===== verification/ConnLoops.v ===== *)
(** * What the connections of a server use of their loops

    TcpServer.v gives functors to its loops through the interface [Loops]; its
    connections use more of them: their channels, the queue for their own
    functors, and the thread that runs.  [ConnLoops] is that interface, with the
    laws [ConnLoopsLaws]; the event loops implement it (ServerLoops.v), and the
    runs of the whole server are proved against it (ServerRun.v). *)

From S2P Require Import Prelude Kernel Channel TcpConnection TcpServer.

(** A functor in the queue of a loop: one of the server, or one of the connection
    at an address, which captures the raw [this]. *)
Inductive LoopTask : Type :=
| ServerTask (f : ServerFunctor)
| ConnTask (conn : positive) (f : ConnFunctor).

Definition server_task (t : LoopTask) : option ServerFunctor :=
  match t with ServerTask f => Some f | ConnTask _ _ => None end.
Definition conn_task (c : positive) (t : LoopTask) : option ConnFunctor :=
  match t with ServerTask _ => None | ConnTask d f => if decide (d = c) then Some f else None end.

(** What is seen of a channel: its descriptor and the events it wants. *)
Record ChanView : Type := mkChanView { cv_fd : Z; cv_events : Z }.

Class ConnLoops (K LS L : Type) `{!Kernel K, !Loops K LS L} : Type := {
  (** The thread of a loop runs now, or another thread. *)
  run_as : option L → LS → LS;
  conn_events : L → positive → LS → Z;                   (* channel_->events() *)
  conn_update : L → positive → (Z → Z) → M LS unit;      (* channel_->enableX(), disableX() *)
  conn_tie : L → positive → positive → M LS unit;        (* channel_->tie(...), the object *)
  conn_remove : L → positive → M LS unit;                (* channel_->remove() *)
  conn_delete : L → positive → M LS unit;                (* ~Channel() *)
  (** [loop_->queueInLoop(...)] of the connection at an address. *)
  conn_queue : L → positive → ConnFunctor → M LS unit;
  (** The loop takes the functor at the head of its queue; [None] when there is
      none, or when it is not one of the server or its connections. *)
  loop_take : L → M LS (option LoopTask)
}.

(** The task [t] for the loop [l], in the view of the loop [m]. *)
Definition task_for {L} `{!EqDecision L} (l m : L) (t : LoopTask) : list LoopTask :=
  if decide (m = l) then [t] else [].

Class ConnViews (K LS L : Type) : Type := {
  chan : L → positive → LS → option ChanView;
  (** The loop's poller keeps a pointer to the channel. *)
  attached : L → positive → LS → Prop;
  pending : L → LS → list LoopTask
}.

Section frames.
Context {K LS L : Type} `{!EqDecision L, !Kernel K, !Loops K LS L, !LoopsLaws K LS L, !ConnViews K LS L}.

(** What a step of a loop or of a connection leaves alone: every channel but those
    of [touched], and the threads; and, when it does not write to a socket, the
    bytes sent and the half-closed sockets. *)
Record loops_agree (touched : L → positive → Prop) (ls ls' : LS) : Prop := LoopsAgree {
  la_ok : loops_ok ls';
  la_alive m : loop_alive m ls → loop_alive m ls';
  la_here m : loop_here m ls' = loop_here m ls;
  la_chan m q : ¬ touched m q → chan m q ls' = chan m q ls ∧ (attached m q ls' ↔ attached m q ls)
}.
Record loops_frame (touched : L → positive → Prop) (ls ls' : LS) : Prop := LoopsFrame {
  lf_agree : loops_agree touched ls ls';
  lf_sent : kv_sent (kview_of (view ls' : K)) = kv_sent (kview_of (view ls : K));
  lf_shut : kv_shut (kview_of (view ls' : K)) = kv_shut (kview_of (view ls : K))
}.
Definition nothing : L → positive → Prop := λ _ _, False.
Definition only (l : L) (p : positive) : L → positive → Prop := λ m q, m = l ∧ q = p.

(** The same channels and tasks, whatever the kernel did. *)
Definition same_views (ls ls' : LS) : Prop :=
  (∀ m q, chan m q ls' = chan m q ls ∧ (attached m q ls' ↔ attached m q ls)) ∧
  (∀ m, pending m ls' = pending m ls).
End frames.

Class ConnLoopsLaws (K LS L : Type) `{!EqDecision L, !Kernel K, !Loops K LS L, !LoopsLaws K LS L,
    !ConnLoops K LS L, !ConnViews K LS L} : Prop := {
  waiting_pending l ls : waiting l ls = omap server_task (pending l ls);
  fd_used_chan fd ls : fd_used fd ls ↔ ∃ l p v, chan l p ls = Some v ∧ cv_fd v = fd;
  conn_events_chan l p ls : conn_events l p ls = from_option cv_events 0 (chan l p ls);
  (** Pointers of a poller lead to channels, and no two channels share a descriptor. *)
  attached_chan l p ls : loops_ok ls → attached l p ls → is_Some (chan l p ls);
  chan_fd_inj l m p q v w ls : loops_ok ls → chan l p ls = Some v → chan m q ls = Some w →
    cv_fd v = cv_fd w → l = m ∧ p = q;
  (** The steps of the kernel, of the scheduler, and of the server. *)
  views_kernel k ls : loops_ok ls →
    kv_interest (kview_of k) = kv_interest (kview_of (view ls : K)) →
    kv_eventfd (kview_of k) = kv_eventfd (kview_of (view ls : K)) → same_views ls (replace_view k ls);
  views_close k fd ls : loops_ok ls → ¬ fd_used fd ls →
    kview_of k = kv_close fd (kview_of (view ls : K)) →
    loops_ok (replace_view k ls) ∧ same_views ls (replace_view k ls) ∧
    ∀ m, loop_alive m ls → loop_alive m (replace_view k ls);
  run_as_law o ls : loops_ok ls →
    loops_ok (run_as o ls) ∧ same_views ls (run_as o ls) ∧ view (run_as o ls) = (view ls : K) ∧
    (∀ m, loop_alive m ls → loop_alive m (run_as o ls)) ∧
    ∀ l, o = Some l → loop_alive l ls → loop_here l (run_as o ls) = true;
  queue_views l f ls ls' : loops_ok ls → loop_queue l f ls = Ok (tt, ls') →
    loops_frame nothing ls ls' ∧ ∀ m, pending m ls' = pending m ls ++ task_for l m (ServerTask f);
  channel_views l c fd p ls ls' : loops_ok ls → ¬ fd_used fd ls → loop_channel l c fd ls = Ok (p, ls') →
    loops_frame (only l p) ls ls' ∧ (∀ m, pending m ls' = pending m ls) ∧
    chan l p ls = None ∧ chan l p ls' = Some (mkChanView fd 0) ∧ ¬ attached l p ls';
  loop_take_law l ls : loops_ok ls → loop_alive l ls → ∃ o ls', loop_take l ls = Ok (o, ls') ∧
    loops_frame nothing ls ls' ∧
    ∀ m, pending m ls = (if decide (m = l) then option_list o else []) ++ pending m ls';
  (** The steps of a connection. *)
  conn_queue_law l c f ls : loops_ok ls → loop_alive l ls → ∃ ls', conn_queue l c f ls = Ok (tt, ls') ∧
    loops_frame nothing ls ls' ∧ ∀ m, pending m ls' = pending m ls ++ task_for l m (ConnTask c f);
  conn_update_law l p v f ls : loops_ok ls → chan l p ls = Some v →
    ∃ ls', conn_update l p f ls = Ok (tt, ls') ∧ loops_frame (only l p) ls ls' ∧
      (∀ m, pending m ls' = pending m ls) ∧ chan l p ls' = Some (mkChanView (cv_fd v) (f (cv_events v)));
  conn_tie_law l p c v ls : loops_ok ls → chan l p ls = Some v →
    ∃ ls', conn_tie l p c ls = Ok (tt, ls') ∧ loops_frame nothing ls ls' ∧
      ∀ m, pending m ls' = pending m ls;
  conn_remove_law l p v ls : loops_ok ls → chan l p ls = Some v →
    ∃ ls', conn_remove l p ls = Ok (tt, ls') ∧ loops_frame (only l p) ls ls' ∧
      (∀ m, pending m ls' = pending m ls) ∧ chan l p ls' = Some v ∧ ¬ attached l p ls';
  (** A channel no poller points to can be freed. *)
  conn_delete_law l p v ls : loops_ok ls → chan l p ls = Some v → ¬ attached l p ls →
    ∃ ls', conn_delete l p ls = Ok (tt, ls') ∧ loops_frame (only l p) ls ls' ∧
      (∀ m, pending m ls' = pending m ls) ∧ chan l p ls' = None
}.

Section frame_lemmas.
Context {K LS L : Type} `{!EqDecision L, !Kernel K, !Loops K LS L, !LoopsLaws K LS L, !ConnViews K LS L}.

Lemma loops_agree_refl touched ls : loops_ok ls → loops_agree touched ls ls.
Proof. by split. Qed.
Lemma loops_agree_trans touched ls1 ls2 ls3 :
  loops_agree touched ls1 ls2 → loops_agree touched ls2 ls3 → loops_agree touched ls1 ls3.
Proof.
  intros [O1 A1 H1 C1] [O2 A2 H2 C2]. split; [done|auto|intros m; by rewrite H2|].
  intros m q Ht. destruct (C1 m q Ht) as [E1 I1], (C2 m q Ht) as [E2 I2]. split; [congruence|]. by rewrite I2.
Qed.
Lemma loops_agree_weaken touched ls ls' : loops_agree nothing ls ls' → loops_agree touched ls ls'.
Proof. intros [O A H C]. split; [done..|]. intros m q _. apply C. by intros []. Qed.
End frame_lemmas.
