(* ===== verification/ServerRun.v ===== *)
(** * The whole server running: server, connections and loops together

    The connections of TcpServer.v are the connections of TcpConnection.v, in the
    loops of the server: [conn_reactor] makes the loops, with the server and the
    application around them, the surroundings of one connection, so that every
    theorem of TcpConnection.v holds of it.  [perform] are the steps of a run -
    a connection is accepted, a loop runs the functor at the head of its queue, the
    poller reports an event of a connection, the application calls a method of a
    connection from any thread, the last pointer to a connection goes and its
    destructor runs, the kernel changes on its own.  The application keeps its
    pointers as long as it likes: it is free when the destructor runs, once the
    server has no pointer left.  A loop runs the functors of a batch one after the
    other; here other steps may come between them.  What a callback itself calls are
    the steps after it: a callback is the last thing its handler does, but for the
    connection callback on closing, when [send] and [shutdown] do nothing.  [sendFile] is not among the
    calls.  ServerSafety.v has the theorems on runs. *)

From Stdlib Require Import Init.Byte.
From S2P Require Import Prelude Kernel Buffer Channel Text InetAddress TcpConnection EventLoopThreadPool TcpServer ConnLoops.

(** What the application sees of a connection: a callback was called, with the
    state the connection has then. *)
Inductive Note (U : Type) : Type := Called (u : U) (st : StateE) | Message (u : U).
Arguments Called {U} u st. Arguments Message {U} u.

(** The server with its objects and loops; what the application was told, by the
    names of the connections. *)
Record System (LS L C U : Type) : Type := mkSystem {
  sy_server : ServerState LS L C U;
  sy_log : list (string * Note U)
}.
Arguments mkSystem {LS L C U} _ _. Arguments sy_server {LS L C U} _. Arguments sy_log {LS L C U} _.
#[export] Instance set_sy_server {LS L C U} : Setter (@sy_server LS L C U) := λ f e,
  mkSystem (f (sy_server e)) (sy_log e).
#[global] Arguments set_sy_server {LS L C U} _ !_ /.
#[export] Instance set_sy_log {LS L C U} : Setter (@sy_log LS L C U) := λ f e,
  mkSystem (sy_server e) (f (sy_log e)).
#[global] Arguments set_sy_log {LS L C U} _ !_ /.

Section system.
Context {K LS L C U : Type} `{!EqDecision L, !Kernel K, !Loops K LS L, !ConnLoops K LS L}.
Abbreviation S := (System LS L C U).
Abbreviation Conn := (ConnState S (ServerCallback U)).

Definition in_server {A} (m : M (ServerState LS L C U) A) : M S A := λ e,
  '(a, s) ← m (sy_server e); Ok (a, e <| sy_server := s |>).
Definition loops_of (e : S) : LS := sv_loops (sy_server e).
Definition objects (e : S) : gmap positive (ServerConn L U) := sv_conns (sy_server e).
Definition with_loops_of (ls : LS) (e : S) : S := e <| sy_server ::= λ s, s <| sv_loops := ls |> |>.
Definition in_loop_code {A} (m : M LS A) : M S A := in_server (in_loops m).

#[export] Instance kernel_in_system : Lens S K := {|
  view e := view (loops_of e);
  replace_view k e := with_loops_of (replace_view k (loops_of e)) e
|}.

(** The surroundings of the connection at [c], with its loop and its channel. *)
Definition conn_reactor (c : positive) (l : L) (p : positive) : Reactor K S := {|
  re_kernel := kernel_in_system;
  channel_events e := conn_events l p (loops_of e);
  channel_update f := in_loop_code (conn_update l p f);
  channel_tie := in_loop_code (conn_tie l p c);
  channel_remove := in_loop_code (conn_remove l p);
  loop_isInLoopThread e := loop_here l (loops_of e);
  loop_queueInLoop f := in_loop_code (conn_queue l c f)
|}.

(** ** The callbacks *)

Definition log_note (n : Note U) : M Conn unit := modify (λ s : Conn,
  s <| cs_env ::= λ e, e <| sy_log ::= λ l, l ++ [(TcpConnection.name_ (cs_conn s), n)] |> |>).

(** [[this](conn){ removeConnection(conn); }], or the application's. *)
Definition run_callback (c : positive) (cb : ServerCallback U) : M Conn unit :=
  match cb with
  | ServerClose => in_env (in_server (removeConnection c))
  | App u => s ← get; log_note (Called u (state_ (cs_conn s)))
  end.
Definition run_message (c : positive) (cb : ServerCallback U) (receive_time : Z) : M Conn unit :=
  match cb with
  | ServerClose => in_env (in_server (removeConnection c))
  | App u => log_note (Message u)
  end.

(** Code of the connection at [c]: the object [x] is taken out, and written back. *)
Definition write_back (c : positive) (t : TcpConnection (ServerCallback U)) (e : S) : S :=
  e <| sy_server ::= λ s, s <| sv_conns ::= alter (set_field sc_conn (λ _, t)) c |> |>.
Definition run_conn (c : positive) (x : ServerConn L U) (m : M Conn unit) : M S unit := λ e,
  '(_, s) ← m (mkConnState (sc_conn x) e); Ok (tt, write_back c (cs_conn s) (cs_env s)).
Definition with_conn (c : positive) (m : Reactor K S → M Conn unit) : M S unit :=
  x ← in_server (the_connection c);
  l ← from_option_or NullPointer (getLoop x);
  run_conn c x (m (conn_reactor c l (channel_ x))).

(** ** The functors *)

Definition run_task (t : LoopTask) : M S unit :=
  match t with
  | ServerTask Listen => in_server acceptor_listen
  | ServerTask (ConnectionEstablished c) =>
      with_conn c (λ R, connectionEstablished (Reactor0 := R) (run_callback c))
  | ServerTask (ConnectionDestroyed c) =>
      with_conn c (λ R, connectionDestroyed (Reactor0 := R) (run_callback c))
  | ServerTask (RemoveConnectionInLoop c) => in_server (removeConnectionInLoop c)
  | ConnTask c f => with_conn c (λ R, run_conn_functor (Reactor0 := R) (run_callback c) f)
  end.

(** ** The destructor of a connection

    Its body only logs; then the members go, the channel before the socket, which
    closes the descriptor. *)
Definition destroy_TcpConnection (c : positive) : M S unit :=
  x ← in_server (the_connection c);
  l ← from_option_or NullPointer (getLoop x);
  in_loop_code (conn_delete l (channel_ x)) ;;
  in_server (server_kernel (destroy_Socket (sockfd_ (sc_conn x)))) ;;
  modify (λ e : S, e <| sy_server ::= λ s, s <| sv_conns ::= delete c |> |>).

(** ** The steps *)

Inductive action : Type :=
| Accept (fd : Z) (peer : InetAddress)          (* the acceptor calls newConnection *)
| RunTask (l : L)                               (* the loop runs the functor at the head *)
| Event (c : positive) (revents receive_time : Z)   (* the poller reports a connection's channel *)
| Send (o : option L) (c : positive) (data : list byte)   (* calls, in a thread *)
| Shutdown (o : option L) (c : positive)
| SetHighWaterMark (o : option L) (c : positive) (u : U)
| Destroy (c : positive)                        (* the last pointer goes *)
| KernelStep (k : K).

Definition as_thread (o : option L) : M S unit :=
  modify (λ e : S, with_loops_of (run_as o (loops_of e)) e).

(** The channel of the connection at [c] as it is reported: with the handlers the
    constructor gave it and the events of the poller, tied to the object. *)
Definition reported (c : positive) (fd revents : Z) : Channel ConnHandler positive :=
  tie c (set_revent revents
    (setCallbacks (Some ConnRead) (Some ConnWrite) (Some ConnClose) (Some ConnError) (make_Channel fd))).
Definition lock_connection (c : positive) : M S bool := gets (λ e : S, bool_decide (is_Some (objects e !! c))).
Definition run_handler (c : positive) (h : ConnHandler) (receive_time : Z) : M S unit :=
  with_conn c (λ R,
    match h with
    | ConnRead => TcpConnection.handleRead (Reactor0 := R) (run_callback c) (run_message c) receive_time
    | ConnWrite => handleWrite (Reactor0 := R)
    | ConnClose => handleClose (Reactor0 := R) (run_callback c)
    | ConnError => handleError (Reactor0 := R) (run_callback c)
    end).
(** [channel->handleEvent(receive_time)], in the thread of the connection's loop. *)
Definition on_event (c : positive) (revents receive_time : Z) : M S unit :=
  x ← in_server (the_connection c); as_thread (getLoop x) ;;
  handleEvent (mret (reported c (sockfd_ (sc_conn x)) revents)) lock_connection
    (run_handler c) (λ h, run_handler c h receive_time) receive_time.

Definition perform (a : action) : M S unit :=
  match a with
  | Accept fd peer =>
      v ← in_server server; as_thread (Some (loop_ v)) ;; in_server (newConnection fd peer)
  | RunTask l =>
      as_thread (Some l) ;;
      t ← in_loop_code (loop_take l);
      match t with Some t => run_task t | None => mret tt end
  | Event c revents t => on_event c revents t
  | Send o c data => as_thread o ;; with_conn c (λ R, send (Reactor0 := R) data)
  | Shutdown o c => as_thread o ;; with_conn c (λ R, shutdown (Reactor0 := R))
  | SetHighWaterMark o c u =>
      as_thread o ;; with_conn c (λ _, set_conn (TcpConnection.setHighWaterMarkCallback (Some (App u))))
  | Destroy c => destroy_TcpConnection c
  | KernelStep k => modify (replace_view k)
  end.
End system.

(** ** The surroundings of a connection keep their promises

    [conn_frame] is the invariant of [ReactorLaws] here: what the code of one
    connection, apart from its callbacks, leaves of the system it started in. *)

Section reactor.
Context {K LS L C U : Type} `{!EqDecision L, !Kernel K, !KernelLaws K, !Loops K LS L, !LoopsLaws K LS L}
  `{!ConnLoops K LS L, !ConnViews K LS L, !ConnLoopsLaws K LS L}.
Abbreviation S := (System LS L C U).
Implicit Types e : S.

#[export] Instance kernel_in_system_laws : LensLaws S K.
Proof.
  split.
  - intros k e. exact (view_replace (W := LS) k (loops_of e)).
  - intros k k' e. unfold replace_view, kernel_in_system, with_loops_of, loops_of. simpl.
    by rewrite (replace_replace (W := LS)).
  - intros e. unfold replace_view, view, kernel_in_system, with_loops_of, loops_of.
    rewrite (replace_same (W := LS)). by destruct e as [[] ?].
Qed.

Lemma in_loop_code_ok {A} (m : M LS A) e a ls :
  m (loops_of e) = Ok (a, ls) → in_loop_code m e = Ok (a, with_loops_of ls e).
Proof. intros E. unfold in_loop_code, in_server, in_loops. mcbn. unfold loops_of in E. by rewrite E. Qed.

(** A call of the kernel that leaves interest lists and eventfds alone. *)
Lemma kernel_agree k ls :
  loops_ok ls → kv_interest (kview_of k) = kv_interest (kview_of (view ls : K)) →
  kv_eventfd (kview_of k) = kv_eventfd (kview_of (view ls : K)) →
  loops_agree nothing ls (replace_view k ls) ∧ ∀ m, pending m (replace_view k ls) = pending m ls.
Proof.
  intros Hok Hi He. destruct (loops_kernel k ls Hok Hi He) as [Hok' Hm].
  destruct (views_kernel k ls Hok Hi He) as [Hc Hp]. split; [|exact Hp].
  split; [done|apply Hm|apply Hm|]. intros m q _. apply Hc.
Qed.

(** The data of a [sendInLoop] functor of the connection [c]. *)
Definition send_data (f : ConnFunctor) : option (list byte) :=
  match f with SendInLoop data => Some data | _ => None end.
Definition queued_data (c : positive) (t : LoopTask) : option (list byte) :=
  match t with ConnTask d f => if decide (d = c) then send_data f else None | _ => None end.

Section conn_frame.
Variables (c : positive) (l : L) (p : positive) (e0 : S).

Definition queued_tasks (fs : list ConnFunctor) (m : L) : list LoopTask :=
  if decide (m = l) then ConnTask c <$> fs else [].

Record conn_frame e : Prop := ConnFrame {
  cf_rest : e = with_loops_of (loops_of e) e0;
  cf_alive : loop_alive l (loops_of e);
  cf_agree : loops_agree (only l p) (loops_of e0) (loops_of e);
  cf_chan : ∃ v v0, chan l p (loops_of e) = Some v ∧ chan l p (loops_of e0) = Some v0 ∧ cv_fd v = cv_fd v0;
  cf_pending : ∃ fs, ∀ m, pending m (loops_of e) = pending m (loops_of e0) ++ queued_tasks fs m
}.

Lemma conn_frame_start v :
  loops_ok (loops_of e0) → loop_alive l (loops_of e0) → chan l p (loops_of e0) = Some v → conn_frame e0.
Proof.
  intros Hok Ha Hv. split; [by destruct e0 as [[] ?]|done|by apply loops_agree_refl|by exists v, v|].
  exists []. intros m. unfold queued_tasks. case_decide; by rewrite app_nil_r.
Qed.

Lemma elem_of_queued_tasks fs m t : t ∈ queued_tasks fs m ↔ m = l ∧ ∃ f, t = ConnTask c f ∧ f ∈ fs.
Proof.
  unfold queued_tasks. case_decide; [rewrite list_elem_of_fmap; naive_solver|].
  split; [by intros ?%elem_of_nil|naive_solver].
Qed.
Lemma queued_tasks_waiting fs m : omap server_task (queued_tasks fs m) = [].
Proof. unfold queued_tasks. case_decide; [|done]. by induction fs as [|f fs IH]. Qed.
Lemma queued_tasks_data d fs m : omap (queued_data d) (queued_tasks fs m) =
  if decide (m = l ∧ c = d) then omap send_data fs else [].
Proof.
  unfold queued_tasks. case_decide as Hm; [|by rewrite decide_False by tauto]. subst m.
  assert (∀ gs, omap (queued_data d) (ConnTask c <$> gs) = if decide (c = d) then omap send_data gs else []) as Hg.
  { intros gs. induction gs as [|f gs IH]; [by case_decide|]. cbn [fmap list_fmap omap list_omap queued_data].
    rewrite IH. by case_decide. }
  rewrite Hg. repeat case_decide; tauto.
Qed.
Lemma queued_tasks_app fs gs m : queued_tasks (fs ++ gs) m = queued_tasks fs m ++ queued_tasks gs m.
Proof. unfold queued_tasks. case_decide; [apply fmap_app|done]. Qed.

Lemma conn_frame_step e ls' fs :
  conn_frame e → loops_agree (only l p) (loops_of e) ls' →
  (∃ v v', chan l p (loops_of e) = Some v ∧ chan l p ls' = Some v' ∧ cv_fd v' = cv_fd v) →
  (∀ m, pending m ls' = pending m (loops_of e) ++ queued_tasks fs m) →
  conn_frame (with_loops_of ls' e).
Proof.
  intros [Hr Ha Hag (v & v0 & Hv & Hv0 & Hf) [gs Hp]] Hag' (w & w' & Hw & Hw' & Hf') Hp'. split.
  - rewrite Hr. by destruct e0 as [[] ?].
  - by apply Hag'.
  - exact (loops_agree_trans _ _ _ _ Hag Hag').
  - exists w', v0. split; [exact Hw'|]. split; [done|]. congruence.
  - exists (gs ++ fs). intros m. change (loops_of (with_loops_of ls' e)) with ls'.
    by rewrite Hp', Hp, queued_tasks_app, app_assoc.
Qed.

(** The functors of the connection in the queue of its loop. *)
Definition posted_now e : list ConnFunctor := omap (conn_task c) (pending l (loops_of e)).

Lemma posted_queued fs : omap (conn_task c) (queued_tasks fs l) = fs.
Proof.
  unfold queued_tasks. rewrite decide_True by done. induction fs as [|f fs IH]; [done|].
  cbn [fmap list_fmap omap list_omap conn_task]. rewrite decide_True by done. by rewrite IH.
Qed.

Lemma posted_step e ls' fs :
  (∀ m, pending m ls' = pending m (loops_of e) ++ queued_tasks fs m) →
  posted_now (with_loops_of ls' e) = posted_now e ++ fs.
Proof.
  intros Hp. unfold posted_now. change (loops_of (with_loops_of ls' e)) with ls'.
  by rewrite Hp, omap_app, posted_queued.
Qed.

Lemma queued_none m : queued_tasks [] m = [].
Proof. unfold queued_tasks. by case_decide. Qed.

#[local] Instance the_reactor : Reactor K S := conn_reactor c l p.

(** A step of the channel that queues nothing. *)
Lemma channel_law (m : M LS unit) e ls' v w :
  conn_frame e → m (loops_of e) = Ok (tt, ls') → loops_frame (only l p) (loops_of e) ls' →
  (∀ n, pending n ls' = pending n (loops_of e)) →
  chan l p (loops_of e) = Some v → chan l p ls' = Some w → cv_fd w = cv_fd v →
  in_loop_code m e = Ok (tt, with_loops_of ls' e) ∧ conn_frame (with_loops_of ls' e) ∧
  same_wire e (with_loops_of ls' e) ∧ channel_events (with_loops_of ls' e) = cv_events w ∧
  posted_now (with_loops_of ls' e) = posted_now e.
Proof.
  intros Hf E [Hag Hs Hu] Hp Hv Hw Hfd.
  assert (∀ n, pending n ls' = pending n (loops_of e) ++ queued_tasks [] n) as Hp'
    by (intros n; by rewrite queued_none, app_nil_r).
  split; [by apply in_loop_code_ok|]. split; [|split; [|split]].
  - apply (conn_frame_step e ls' []); [done|done| |done]. by exists v, w.
  - split; [exact Hs|exact Hu|]. simpl. apply Hag.
  - simpl. rewrite conn_events_chan. change (loops_of (with_loops_of ls' e)) with ls'. by rewrite Hw.
  - by rewrite (posted_step e ls' []), app_nil_r.
Qed.

Definition conn_reactor_laws : ReactorLaws K S.
Proof.
  refine {| reactor_ok := conn_frame; posted := posted_now |}.
  - intros e k Hf Hi He. destruct (cf_chan e Hf) as (v & _ & Hv & _).
    destruct (kernel_agree k (loops_of e)) as [Hag Hp]; [apply Hf|exact Hi|exact He|].
    set (ls' := replace_view k (loops_of e)) in *.
    assert (∀ n, pending n ls' = pending n (loops_of e) ++ queued_tasks [] n) as Hp'
      by (intros n; by rewrite queued_none, app_nil_r).
    assert (chan l p ls' = chan l p (loops_of e)) as Hc by (apply Hag; by intros []).
    split; [|split; [|split; [|apply Hag]]].
    + apply (conn_frame_step e ls' []); [done|by apply loops_agree_weaken| |done]. exists v, v. by rewrite Hc.
    + simpl. rewrite !conn_events_chan. by rewrite <- Hc.
    + etrans; [apply (posted_step e ls' [] Hp')|apply app_nil_r].
  - intros f e Hf. destruct (cf_chan e Hf) as (v & _ & Hv & _).
    destruct (conn_update_law l p v f (loops_of e)) as (ls' & E & Hfr & Hp & Hc); [apply Hf|done|].
    exists (with_loops_of ls' e).
    destruct (channel_law _ e ls' v _ Hf E Hfr Hp Hv Hc eq_refl) as (H1 & H2 & H3 & H4 & H5).
    split; [exact H1|]. split; [exact H2|]. split; [exact H3|]. split; [|exact H5]. rewrite H4. simpl.
    by rewrite conn_events_chan, Hv.
  - intros e Hf. destruct (cf_chan e Hf) as (v & _ & Hv & _).
    destruct (conn_tie_law l p c v (loops_of e)) as (ls' & E & [Hag Hs Hu] & Hp); [apply Hf|done|].
    assert (chan l p ls' = Some v) as Hc by (rewrite <- Hv; apply Hag; by intros []).
    exists (with_loops_of ls' e).
    destruct (channel_law _ e ls' v v Hf E) as (H1 & H2 & H3 & H4 & H5); [split; [by apply loops_agree_weaken|done..]|done..|].
    split; [exact H1|]. split; [exact H2|]. split; [exact H3|]. split; [|exact H5]. rewrite H4. simpl.
    by rewrite conn_events_chan, Hv.
  - intros e Hf. destruct (cf_chan e Hf) as (v & _ & Hv & _).
    destruct (conn_remove_law l p v (loops_of e)) as (ls' & E & Hfr & Hp & Hc & _); [apply Hf|done|].
    exists (with_loops_of ls' e).
    destruct (channel_law _ e ls' v v Hf E Hfr Hp Hv Hc eq_refl) as (H1 & H2 & H3 & H4 & H5).
    split; [exact H1|]. split; [exact H2|]. split; [exact H3|]. split; [|exact H5]. rewrite H4. simpl.
    by rewrite conn_events_chan, Hv.
  - intros f e Hf. destruct (cf_chan e Hf) as (v & _ & Hv & _).
    destruct (conn_queue_law l c f (loops_of e)) as (ls' & E & [Hag Hs Hu] & Hp); [apply Hf..|].
    assert (∀ m, pending m ls' = pending m (loops_of e) ++ queued_tasks [f] m) as Hp' by exact Hp.
    assert (chan l p ls' = chan l p (loops_of e)) as Hc by (apply Hag; by intros []).
    exists (with_loops_of ls' e). split; [by apply in_loop_code_ok|]. split; [|split; [|split]].
    + apply (conn_frame_step e ls' [f]); [done|by apply loops_agree_weaken| |done]. exists v, v. by rewrite Hc.
    + split; [exact Hs|exact Hu|]. simpl. apply Hag.
    + simpl. rewrite !conn_events_chan. by rewrite <- Hc.
    + by apply posted_step.
Defined.
End conn_frame.
End reactor.

(** ** The invariant of a run *)

Section invariant.
Context {K LS L C U : Type} `{!EqDecision L, !EqDecision U, !Kernel K, !KernelLaws K, !Loops K LS L, !LoopsLaws K LS L}
  `{!ConnLoops K LS L, !ConnViews K LS L, !ConnLoopsLaws K LS L}.
Abbreviation S := (System LS L C U).
Abbreviation Conn := (ConnState S (ServerCallback U)).
Implicit Types (e : S) (x : ServerConn L U).
Abbreviation name_of x := (TcpConnection.name_ (sc_conn x)).
Abbreviation server_of e := (sv_server (sy_server e)).
Abbreviation tasks l e := (pending l (loops_of e)).
Abbreviation is_in_map e c := (in_map (sy_server e) c).
Abbreviation is_removing e c := (removing (sy_server e) c).

(** What the application was told of one connection by its connection callback
    and its message callback, in order. *)
Definition told (v : TcpServer L C U) (name : string) (n : string * Note U) : option (Note U) :=
  if decide (n.1 = name) then
    match n.2 with
    | Message u => Some (Message u)
    | Called u st => if decide (connection_callback_ v = Some u) then Some (Called u st) else None
    end
  else None.
Definition history e (name : string) : list (Note U) := omap (told (server_of e) name) (sy_log e).

Definition told_state (v : TcpServer L C U) (st : StateE) : list (Note U) :=
  match connection_callback_ v with Some u => [Called u st] | None => [] end.
Abbreviation up v := (told_state v kConnected).
Abbreviation down v := (told_state v kDisConnected).
Definition messages (ns : list (Note U)) : Prop := Forall (λ n, ∃ u, n = Message u) ns.

(** What was told of a connection, by its state. *)
Definition told_so_far (v : TcpServer L C U) (st : StateE) (ns : list (Note U)) : Prop :=
  match st with
  | kConnecting => ns = []
  | kConnected | kDisConnecting => ∃ ms, ns = up v ++ ms ∧ messages ms
  | kDisConnected => ∃ ms, ns = up v ++ ms ++ down v ∧ messages ms
  end.

Definition is_up (st : StateE) : Prop := st = kConnected ∨ st = kDisConnecting.

(** The functor can run on the connection. *)
Definition functor_fits x (f : ConnFunctor) : Prop :=
  match f with
  | SendFileInLoop => False
  | WriteComplete => is_Some (TcpConnection.write_complete_callback_ (sc_conn x))
  | HighWaterMark => is_Some (high_water_mark_callback_ (sc_conn x))
  | ShutDownInLoop | SendInLoop _ => True
  end.

(** The members of a connection object that do not change, and its buffers. *)
Record made_by (v : TcpServer L C U) x : Prop := MadeBy {
  mb_close : TcpConnection.close_callback_ (sc_conn x) = Some ServerClose;
  mb_connection : TcpConnection.connection_callback_ (sc_conn x) = App <$> connection_callback_ v;
  mb_message : TcpConnection.message_callback_ (sc_conn x) = App <$> message_callback_ v;
  mb_write : TcpConnection.write_complete_callback_ (sc_conn x) = App <$> write_complete_callback_ v;
  mb_high cb : high_water_mark_callback_ (sc_conn x) = Some cb →
    ∃ u, cb = App u ∧ connection_callback_ v ≠ Some u;
  mb_file : sending_file (sc_conn x) = false;
  mb_input : buffer_wf (input_buffer_ (sc_conn x));
  mb_output : buffer_wf (output_buffer_ (sc_conn x))
}.

(** The channel of the object in its loop: on the object's descriptor, wanting
    events only while the connection is up, and registered only while the object
    is sure to see [connectionDestroyed] - or sees it now. *)
Record channel_fits (cur : option ServerFunctor) e (c : positive) x (l : L) (w : ChanView) : Prop := ChannelFits {
  cf_at : chan l (channel_ x) (loops_of e) = Some w;
  cf_fd : cv_fd w = sockfd_ (sc_conn x);
  cf_writing : state_ (sc_conn x) ≠ kDisConnected → content (output_buffer_ (sc_conn x)) ≠ [] →
    isWriting (cv_events w) = true;
  cf_quiet : is_up (state_ (sc_conn x)) ∨ cv_events w = kNoneEvent;
  cf_attached : attached l (channel_ x) (loops_of e) →
    is_in_map e c ∨ ServerTask (ConnectionDestroyed c) ∈ tasks l e ∨ cur = Some (ConnectionDestroyed c)
}.

(** Where the connection is in its life. *)
Record phase_fits (cur : option ServerFunctor) e (c : positive) x : Prop := PhaseFits {
  pf_waiting l : ServerTask (ConnectionEstablished c) ∈ tasks l e → state_ (sc_conn x) = kConnecting;
  pf_new : state_ (sc_conn x) = kConnecting → ∀ l f, ConnTask c f ∉ tasks l e;
  pf_in_map : state_ (sc_conn x) ≠ kDisConnected → is_in_map e c ∧ ¬ is_removing e c;
  pf_closed : state_ (sc_conn x) = kDisConnected → is_in_map e c →
    is_removing e c ∨ cur = Some (RemoveConnectionInLoop c);
  pf_told : told_so_far (server_of e) (state_ (sc_conn x)) (history e (name_of x))
}.

Record object_ok (cur : option ServerFunctor) e (c : positive) x : Prop := ObjectOk {
  ob_made : made_by (server_of e) x;
  ob_channel : ∃ l w, getLoop x = Some l ∧ channel_fits cur e c x l w;
  ob_phase : phase_fits cur e c x
}.

(** A functor of a connection holds a raw pointer: the object is there, and will
    be until the functor has run. *)
Definition task_fits e (l : L) (i : nat) (c : positive) (f : ConnFunctor) : Prop :=
  ∃ x, objects e !! c = Some x ∧ getLoop x = Some l ∧ functor_fits x f ∧
    (is_in_map e c ∨ ∃ j, (i < j)%nat ∧ tasks l e !! j = Some (ServerTask (ConnectionDestroyed c))).

(** [cur] is the functor of the server that runs now. *)
Record system_ok (cur : option ServerFunctor) e : Prop := SystemOk {
  sk_server : server_ok (sy_server e);
  sk_callbacks u : connection_callback_ (server_of e) = Some u → write_complete_callback_ (server_of e) ≠ Some u;
  sk_pool o : o ∈ EventLoopThreadPool.loops_ (pool_ (server_of e)) → is_Some o;
  sk_listen l : ServerTask Listen ∉ tasks l e;
  sk_objects c x : objects e !! c = Some x → object_ok cur e c x;
  sk_distinct c d x y : objects e !! c = Some x → objects e !! d = Some y →
    getLoop x = getLoop y → channel_ x = channel_ y → c = d;
  sk_tasks l i c f : tasks l e !! i = Some (ConnTask c f) → task_fits e l i c f;
  sk_log name n : (name, n) ∈ sy_log e →
    ∃ i, 1 ≤ i < next_conn_id_ (server_of e) ∧ name = conn_name (server_of e) i;
  sk_past name : (∀ c x, objects e !! c = Some x → name_of x ≠ name) →
    history e name = [] ∨ told_so_far (server_of e) kDisConnected (history e name)
}.

(** ** What the loops can do on their own *)

Lemma elem_of_waiting l f ls : f ∈ waiting l ls ↔ ServerTask f ∈ pending l ls.
Proof.
  rewrite waiting_pending, list_elem_of_omap. split; [|intros Hf; by exists (ServerTask f)].
  intros ([g|c g] & Hin & [= ->]). done.
Qed.

(** The loops [ls] have the same channels and queues as those of [e]; the thread
    and the kernel may differ. *)
Record calm e (ls : LS) : Prop := Calm {
  ca_ok : loops_ok ls;
  ca_alive m : loop_alive m (loops_of e) → loop_alive m ls;
  ca_views : same_views (loops_of e) ls
}.

Lemma server_ok_calm e ls : server_ok (sy_server e) → calm e ls → server_ok (sy_server (with_loops_of ls e)).
Proof.
  intros Hok [Hls Ha [_ Hp]]. apply server_ok_less; [done..|]. intros m. split; [|apply Ha].
  exists []. simpl. rewrite !waiting_pending. by rewrite Hp.
Qed.

Lemma system_ok_calm cur e ls : system_ok cur e → calm e ls → system_ok cur (with_loops_of ls e).
Proof.
  intros [H1 H2 H3 H4 H5 H6 H7 H8 H9] Hc. assert (Hs := server_ok_calm e ls H1 Hc). destruct Hc as [Hls Ha [Hch Hp]].
  assert (∀ c, is_removing (with_loops_of ls e) c ↔ is_removing e c) as Hr.
  { intros c. unfold removing. rewrite !elem_of_waiting. simpl. by rewrite Hp. }
  split; try done.
  - intros l. change (loops_of (with_loops_of ls e)) with ls. rewrite Hp. apply H4.
  - intros c x Hx. destruct (H5 c x Hx) as [Hm (l & w & Hl & [A1 A2 A3 A4 A5]) [B1 B2 B3 B4 B5]]. split; [done| |].
    + exists l, w. split; [done|]. split; try done; change (loops_of (with_loops_of ls e)) with ls.
      * by rewrite (proj1 (Hch l (channel_ x))).
      * rewrite (proj2 (Hch l (channel_ x))). by rewrite Hp.
    + split; try done; change (loops_of (with_loops_of ls e)) with ls.
      * intros m. rewrite Hp. apply B1.
      * intros Hst m f. rewrite Hp. by apply B2.
      * rewrite Hr. exact B3.
      * rewrite Hr. exact B4.
  - intros l i c f. unfold task_fits. change (loops_of (with_loops_of ls e)) with ls. rewrite Hp. apply H7.
Qed.

Lemma calm_thread o e : loops_ok (loops_of e) → calm e (run_as o (loops_of e)).
Proof. intros Hok. destruct (run_as_law o (loops_of e) Hok) as (H1 & H2 & _ & H3 & _). by split. Qed.
Lemma calm_kernel k e :
  loops_ok (loops_of e) → kv_interest (kview_of k) = kv_interest (kview_of (view (loops_of e) : K)) →
  kv_eventfd (kview_of k) = kv_eventfd (kview_of (view (loops_of e) : K)) → calm e (replace_view k (loops_of e)).
Proof.
  intros Hok Hi He. destruct (kernel_agree k _ Hok Hi He) as [[H1 H2 H3 H4] H5]. split; [done..|].
  split; [|done]. intros m q. apply H4. by intros [].
Qed.

(** ** A step of one connection *)

(** Of the system, only the object [c], its channel, its functors, the map's entry
    for it and what was told of it differ. *)
Record object_step (cur : option ServerFunctor) e e' (c : positive) x x' (ns : list (Note U)) : Prop := ObjectStep {
  os_server : server_ok (sy_server e');
  os_config : ∃ m, server_of e' = (server_of e) <| connection_map_ := m |>;
  os_objects : objects e !! c = Some x ∧ objects e' = <[c := x']> (objects e);
  os_same : getLoop x' = getLoop x ∧ channel_ x' = channel_ x ∧ name_of x' = name_of x;
  os_map d : d ≠ c → is_in_map e' d ↔ is_in_map e d;
  os_tasks : ∃ ts, (∀ m, tasks m e' = tasks m e ++ ts m) ∧
    ∀ m t, t ∈ ts m → t = ServerTask (ConnectionDestroyed c) ∨
      t = ServerTask (RemoveConnectionInLoop c) ∨ ∃ f, t = ConnTask c f;
  os_chan m q : ¬ (getLoop x = Some m ∧ q = channel_ x) →
    chan m q (loops_of e') = chan m q (loops_of e) ∧ (attached m q (loops_of e') ↔ attached m q (loops_of e));
  os_log : sy_log e' = sy_log e ++ ((λ n, (name_of x, n)) <$> ns);
  os_cur d : d ≠ c → cur ≠ Some (RemoveConnectionInLoop d) ∧ cur ≠ Some (ConnectionDestroyed d)
}.

Lemma history_log e e' name ns nm :
  connection_callback_ (server_of e') = connection_callback_ (server_of e) →
  sy_log e' = sy_log e ++ ((λ n, (nm, n)) <$> ns) →
  history e' name = history e name ++ omap (told (server_of e) name) ((λ n, (nm, n)) <$> ns).
Proof.
  intros Hc Hl. unfold history. rewrite Hl, omap_app.
  assert (∀ k : list (string * Note U), omap (told (server_of e') name) k = omap (told (server_of e) name) k) as Hk; [|by rewrite !Hk].
  induction k as [|n k IH]; [done|]. cbn [omap list_omap]. rewrite IH. unfold told at 1 3. by rewrite Hc.
Qed.

Lemma told_other v nm name ns : nm ≠ name → omap (told v name) ((λ n, (nm, n)) <$> ns) = [].
Proof.
  intros Hn. induction ns as [|n ns IH]; [done|]. cbn [fmap list_fmap omap list_omap].
  unfold told at 1. simpl. by rewrite decide_False.
Qed.

Section object_step.
Context {cur : option ServerFunctor} {e e' : S} {c : positive} {x x' : ServerConn L U} {ns : list (Note U)}.
Context (Hok : system_ok cur e) (Hs : object_step cur e e' c x x' ns).

Lemma step_keeps_task l t : t ∈ tasks l e → t ∈ tasks l e'.
Proof. destruct (os_tasks _ _ _ _ _ _ _ Hs) as (ts & -> & _). intros Ht. apply elem_of_app. by left. Qed.
Lemma step_task l t : (∀ f, t ≠ ConnTask c f) → t ≠ ServerTask (ConnectionDestroyed c) →
  t ≠ ServerTask (RemoveConnectionInLoop c) → t ∈ tasks l e' → t ∈ tasks l e.
Proof.
  destruct (os_tasks _ _ _ _ _ _ _ Hs) as (ts & -> & Hts). intros N1 N2 N3 [?|Ht]%elem_of_app; [done|].
  destruct (Hts l t Ht) as [?|[?|[f ?]]]; [done|done|]. by destruct (N1 f).
Qed.
Lemma step_removing d : d ≠ c → is_removing e' d ↔ is_removing e d.
Proof.
  intros Hd. destruct (os_config _ _ _ _ _ _ _ Hs) as [mp Hm]. unfold removing. rewrite !elem_of_waiting, Hm. simpl.
  split; [|apply step_keeps_task]. apply step_task; [done|done|congruence].
Qed.
Lemma step_object d y : d ≠ c → objects e' !! d = Some y ↔ objects e !! d = Some y.
Proof. intros Hd. rewrite (proj2 (os_objects _ _ _ _ _ _ _ Hs)). by rewrite lookup_insert_ne. Qed.
Lemma step_itself : objects e' !! c = Some x'.
Proof. rewrite (proj2 (os_objects _ _ _ _ _ _ _ Hs)). apply lookup_insert_eq. Qed.
Lemma step_callback : connection_callback_ (server_of e') = connection_callback_ (server_of e).
Proof. by destruct (os_config _ _ _ _ _ _ _ Hs) as [mp ->]. Qed.
Lemma step_history name : name ≠ name_of x → history e' name = history e name.
Proof.
  intros Hn. rewrite (history_log e e' name ns (name_of x) step_callback (os_log _ _ _ _ _ _ _ Hs)), told_other by done.
  by rewrite app_nil_r.
Qed.
Lemma step_told st h : told_so_far (server_of e') st h ↔ told_so_far (server_of e) st h.
Proof. unfold told_so_far, told_state. by rewrite step_callback. Qed.

(** The other connections. *)
Lemma step_other cur' d y : d ≠ c → objects e !! d = Some y → object_ok cur' e' d y.
Proof.
  intros Hd Hy. destruct (os_objects _ _ _ _ _ _ _ Hs) as [Hx _], (os_config _ _ _ _ _ _ _ Hs) as [mp Hm].
  destruct (sk_objects _ _ Hok d y Hy) as [[M1 M2 M3 M4 M5 M6 M7 M8] (l & w & Hl & [A1 A2 A3 A4 A5]) [B1 B2 B3 B4 B5]].
  destruct (os_cur _ _ _ _ _ _ _ Hs d Hd) as [Hc1 Hc2].
  destruct (os_chan _ _ _ _ _ _ _ Hs l (channel_ y)) as [C1 C2].
  { intros [Hlx Hch]. apply Hd. apply (sk_distinct _ _ Hok d c y x); congruence. }
  split.
  - rewrite Hm. by split.
  - exists l, w. split; [done|]. split; [by rewrite C1|done|done|done|].
    rewrite C2, (os_map _ _ _ _ _ _ _ Hs d Hd).
    intros [?|[?|?]]%A5; [by left|right; left; by apply step_keeps_task|done].
  - split; rewrite ?(os_map _ _ _ _ _ _ _ Hs d Hd), ?(step_removing d Hd); [| |done| |].
    + intros m Hm'. apply (B1 m). by apply step_task.
    + intros Hst m f Hm'. apply (B2 Hst m f). apply step_task; [congruence|done..].
    + intros Hst Hin. destruct (B4 Hst Hin) as [?|?]; [by left|done].
    + rewrite step_told, step_history; [exact B5|]. intros Hn. apply Hd.
      by apply (so_distinct (sy_server e) (sk_server _ _ Hok) d c y x).
Qed.

Lemma step_distinct d1 d2 y z : objects e' !! d1 = Some y → objects e' !! d2 = Some z →
  getLoop y = getLoop z → channel_ y = channel_ z → d1 = d2.
Proof.
  destruct (os_objects _ _ _ _ _ _ _ Hs) as [Hx _], (os_same _ _ _ _ _ _ _ Hs) as (El & Ec & _).
  assert (∀ d u, objects e' !! d = Some u →
    ∃ u0, objects e !! d = Some u0 ∧ getLoop u0 = getLoop u ∧ channel_ u0 = channel_ u) as Hback.
  { intros d u. destruct (decide (d = c)) as [->|Hd]; [rewrite step_itself; intros [= <-]; by exists x|].
    rewrite (step_object d u Hd). by exists u. }
  intros (y0 & Hy & Ly & Cy)%Hback (z0 & Hz & Lz & Cz)%Hback Hl Hch.
  apply (sk_distinct _ _ Hok d1 d2 y0 z0); congruence.
Qed.

Lemma step_task_fits l i d f :
  d ≠ c → tasks l e' !! i = Some (ConnTask d f) → task_fits e' l i d f.
Proof.
  destruct (os_tasks _ _ _ _ _ _ _ Hs) as (ts & Ht & Hts). intros Hd Hi.
  rewrite Ht, lookup_app_Some in Hi. destruct Hi as [Hi|[_ Hi]].
  2: { apply list_elem_of_lookup_2, Hts in Hi as [?|[?|[g ?]]]; [done|done|congruence]. }
  destruct (sk_tasks _ _ Hok l i d f Hi) as (y & Hy & Hly & Hfit & Hlife).
  exists y. rewrite (step_object d y Hd), (os_map _ _ _ _ _ _ _ Hs d Hd).
  do 3 (split; [done|]). destruct Hlife as [?|(j & Hj & Hdj)]; [by left|]. right. exists j. split; [done|].
  rewrite Ht. by apply lookup_app_l_Some.
Qed.

Lemma step_log name n : (name, n) ∈ sy_log e' →
  ∃ i, 1 ≤ i < next_conn_id_ (server_of e') ∧ name = conn_name (server_of e') i.
Proof.
  destruct (os_config _ _ _ _ _ _ _ Hs) as [mp Hm]. rewrite (os_log _ _ _ _ _ _ _ Hs), elem_of_app, Hm.
  intros [Hn|(k & [= -> ->] & _)%list_elem_of_fmap]; [by apply (sk_log _ _ Hok name n)|].
  apply (so_conns (sy_server e) (sk_server _ _ Hok) c x (proj1 (os_objects _ _ _ _ _ _ _ Hs))).
Qed.

Lemma step_past name : (∀ d y, objects e' !! d = Some y → name_of y ≠ name) →
  history e' name = [] ∨ told_so_far (server_of e') kDisConnected (history e' name).
Proof.
  destruct (os_same _ _ _ _ _ _ _ Hs) as (_ & _ & Hn). intros Hno.
  assert (name ≠ name_of x) as Hne by (intros ->; by apply (Hno c x' step_itself)).
  rewrite (step_history name Hne), step_told. apply (sk_past _ _ Hok). intros d y Hy.
  destruct (decide (d = c)) as [->|Hd]; [|by apply (Hno d y), step_object].
  destruct (os_objects _ _ _ _ _ _ _ Hs) as [Hx _]. congruence.
Qed.

Lemma system_ok_update cur' :
  object_ok cur' e' c x' →
  (∀ m i f, tasks m e' !! i = Some (ConnTask c f) → task_fits e' m i c f) →
  system_ok cur' e'.
Proof.
  intros Hob Htk. assert (Hcfg := os_config _ _ _ _ _ _ _ Hs). destruct Hcfg as [mp Hm]. split.
  - apply Hs.
  - rewrite Hm. apply Hok.
  - rewrite Hm. apply Hok.
  - intros l Hl. apply (sk_listen _ _ Hok l). by apply step_task.
  - intros d y Hy. destruct (decide (d = c)) as [->|Hd]; [|by apply step_other, step_object].
    rewrite step_itself in Hy. by injection Hy as <-.
  - exact step_distinct.
  - intros l i d f. destruct (decide (d = c)) as [->|Hd]; [apply Htk|by apply step_task_fits].
  - exact step_log.
  - exact step_past.
Qed.
End object_step.

(** ** The bytes of a connection

    Its stream is what its socket took and what waits in the output buffer; the
    data of [sendInLoop] functors waits in the queue of its loop. *)
Definition stream_of e x : list byte :=
  sent_on (kview_of (view (loops_of e) : K)) (sockfd_ (sc_conn x)) ++ content (output_buffer_ (sc_conn x)).
Definition queued_sends (l : L) e (c : positive) : list (list byte) := omap (queued_data c) (tasks l e).
Definition may_send (st : StateE) : Prop := st = kConnecting ∨ st = kConnected.

(** What code gave to the stream of a connection, or to the queue of its loop. *)
Inductive gift : Type :=
| Streamed (c : positive) (bs : list byte)
| Posted (c : positive) (data : list byte).
Definition streamed (g : option gift) (c : positive) : list byte :=
  match g with Some (Streamed d bs) => if decide (d = c) then bs else [] | _ => [] end.
Definition posted_by (g : option gift) (c : positive) : list (list byte) :=
  match g with Some (Posted d data) => if decide (d = c) then [data] else [] | _ => [] end.

(** The connection at [c], before and after. *)
Record flow (g : option gift) e e' (c : positive) x x' : Prop := Flow {
  fl_object : objects e' !! c = Some x';
  fl_loop : getLoop x' = getLoop x;
  fl_socket : sockfd_ (sc_conn x') = sockfd_ (sc_conn x);
  fl_stream : stream_of e' x' = stream_of e x ++ streamed g c;
  fl_queued l : getLoop x = Some l → queued_sends l e' c = queued_sends l e c ++ posted_by g c;
  fl_open : may_send (state_ (sc_conn x')) → may_send (state_ (sc_conn x))
}.

(** ** What a step does to the queues and the map

    Functors are added behind; [connectionDestroyed] only for connections that are
    in the map; no connection is entered there; and no stream gets more than the
    gift [g]. *)
Record grown_by (g : option gift) e e' : Prop := Grown {
  gr_tasks m : ∃ ts, tasks m e' = tasks m e ++ ts ∧
    ∀ d, ServerTask (ConnectionDestroyed d) ∈ ts → is_in_map e d;
  gr_map d : is_in_map e' d → is_in_map e d;
  gr_flow d y : objects e !! d = Some y → ∃ y', flow g e e' d y y'
}.
Record moved_by (g : option gift) cur e e' : Prop := Moved { mv_ok : system_ok cur e'; mv_grown : grown_by g e e' }.
Abbreviation grown := (grown_by None).
Abbreviation moved := (moved_by None).

Lemma gr_objects g e e' d : grown_by g e e' → is_Some (objects e !! d) → is_Some (objects e' !! d).
Proof. intros Hg [y Hy]. destruct (gr_flow _ _ _ Hg d y Hy) as [y' Hf]. exists y'. apply Hf. Qed.

(** The same objects and functors, and the same bytes sent. *)
Lemma flow_same e e' c x :
  objects e !! c = Some x → objects e' = objects e →
  kv_sent (kview_of (view (loops_of e') : K)) = kv_sent (kview_of (view (loops_of e) : K)) →
  (∀ m, queued_sends m e' c = queued_sends m e c) → flow None e e' c x x.
Proof.
  intros Hx Ho Hk Hq. split; try done.
  - by rewrite Ho.
  - unfold stream_of, sent_on. by rewrite Hk, app_nil_r.
  - intros l _. by rewrite Hq, app_nil_r.
Qed.
Lemma flow_trans g e1 e2 e3 c x1 x2 x3 :
  flow None e1 e2 c x1 x2 → flow g e2 e3 c x2 x3 → flow g e1 e3 c x1 x3.
Proof.
  intros [O1 L1 F1 S1 Q1 P1] [O2 L2 F2 S2 Q2 P2]. split; [done|congruence|congruence| | |auto].
  - by rewrite S2, S1, app_nil_r.
  - intros l Hl. rewrite (Q2 l), (Q1 l), app_nil_r by congruence. done.
Qed.

Lemma grown_calm e e' :
  (∀ m, tasks m e' = tasks m e) → (∀ d, is_in_map e' d → is_in_map e d) → objects e' = objects e →
  kv_sent (kview_of (view (loops_of e') : K)) = kv_sent (kview_of (view (loops_of e) : K)) → grown e e'.
Proof.
  intros Ht Hm Ho Hk. split; [|done|].
  - intros m. exists []. rewrite Ht, app_nil_r. split; [done|]. by intros d ?%elem_of_nil.
  - intros d y Hy. exists y. apply flow_same; [done..|]. intros m. unfold queued_sends. by rewrite Ht.
Qed.
Lemma grown_refl e : grown e e.
Proof. by apply grown_calm. Qed.
Lemma grown_trans g e1 e2 e3 : grown e1 e2 → grown_by g e2 e3 → grown_by g e1 e3.
Proof.
  intros [T1 M1 F1] [T2 M2 F2]. split; [|auto|].
  - intros m. destruct (T1 m) as (ts1 & E1 & D1), (T2 m) as (ts2 & E2 & D2).
    exists (ts1 ++ ts2). rewrite E2, E1, <- app_assoc. split; [done|]. intros d [Hd|Hd]%elem_of_app; auto.
  - intros d y Hy. destruct (F1 d y Hy) as (y1 & H1). destruct (F2 d y1 (fl_object _ _ _ _ _ _ H1)) as (y2 & H2).
    exists y2. by apply (flow_trans g e1 e2 e3 d y y1).
Qed.

(** No two objects have the same socket. *)
Lemma sockets_distinct cur e c d x y :
  system_ok cur e → objects e !! c = Some x → objects e !! d = Some y →
  sockfd_ (sc_conn x) = sockfd_ (sc_conn y) → c = d.
Proof.
  intros Hok Hx Hy Hfd.
  destruct (ob_channel _ _ _ _ (sk_objects _ _ Hok c x Hx)) as (l & w & Hl & [A1 A2 _ _ _]).
  destruct (ob_channel _ _ _ _ (sk_objects _ _ Hok d y Hy)) as (m & v & Hm & [B1 B2 _ _ _]).
  destruct (chan_fd_inj l m (channel_ x) (channel_ y) w v _ (so_loops _ (sk_server _ _ Hok)) A1 B1) as [-> Ec]; [congruence|].
  apply (sk_distinct _ _ Hok c d x y); [done..|congruence|done].
Qed.

(** ** Code of one connection *)

Section one_conn.
Variables (c : positive) (l : L) (x : ServerConn L U).
#[local] Instance its_reactor : Reactor K S := conn_reactor c l (channel_ x).
#[local] Instance its_laws e0 : ReactorLaws K S := conn_reactor_laws c l (channel_ x) e0.
Abbreviation good_conn e0 := (conn_ok (RL := its_laws e0)).

Lemma with_conn_ok (m : Reactor K S → M Conn unit) e :
  objects e !! c = Some x → getLoop x = Some l →
  with_conn c m e = run_conn c x (m its_reactor) e.
Proof.
  intros Hx Hl. unfold with_conn.
  assert (in_server (the_connection c) e = Ok (x, e)) as E.
  { unfold in_server. mcbn. rewrite (the_connection_ok (sy_server e) c x Hx). by destruct e. }
  rewrite (M_bind_ok _ _ _ _ _ E), Hl. done.
Qed.

Lemma object_loop cur e : system_ok cur e → objects e !! c = Some x → getLoop x = Some l →
  loop_alive l (loops_of e) ∧ ∃ w, channel_fits cur e c x l w.
Proof.
  intros Hok Hx Hl. destruct (ob_channel _ _ _ _ (sk_objects _ _ Hok c x Hx)) as (l' & w & Hl' & Hw).
  assert (l' = l) as -> by congruence. split; [|by exists w].
  destruct (so_conns _ (sk_server _ _ Hok) c x Hx) as (_ & l' & Hl'' & Ha). by assert (l' = l) as -> by congruence.
Qed.

Lemma frame_start cur e :
  system_ok cur e → objects e !! c = Some x → getLoop x = Some l → conn_frame c l (channel_ x) e e.
Proof.
  intros Hok Hx Hl. destruct (object_loop cur e Hok Hx Hl) as (Ha & w & Hw).
  apply (conn_frame_start c l (channel_ x) e w); [apply (so_loops _ (sk_server _ _ Hok))|done|apply Hw].
Qed.
Lemma conn_start cur e :
  system_ok cur e → objects e !! c = Some x → getLoop x = Some l → state_ (sc_conn x) ≠ kDisConnected →
  good_conn e (mkConnState (sc_conn x) e).
Proof.
  intros Hok Hx Hl Hst. destruct (object_loop cur e Hok Hx Hl) as (Ha & w & Hw).
  assert (Hm := ob_made _ _ _ _ (sk_objects _ _ Hok c x Hx)). split; simpl; try apply Hm.
  - by apply (frame_start cur).
  - intros Ho. unfold channel_isWriting. simpl. rewrite conn_events_chan, (cf_at _ _ _ _ _ _ Hw). by apply Hw.
Qed.

(** The system after the code of the connection came to [s'], and the application
    was told [ns]. *)
Definition after_code (s' : Conn) (ns : list (Note U)) : S :=
  write_back c (cs_conn s') ((cs_env s') <| sy_log ::= λ log, log ++ ((λ n, (name_of x, n)) <$> ns) |>).
Abbreviation object_after s' := (x <| sc_conn := cs_conn s' |>).

(** What such code leaves of the system: [t'] is the connection, [fs] are the
    functors it queued. *)
Record conn_ran e e' (t' : TcpConnection (ServerCallback U)) (fs : list ConnFunctor) (ns : list (Note U)) : Prop := ConnRan {
  cr_ok : server_ok (sy_server e');
  cr_server : server_of e' = server_of e;
  cr_objects : objects e' = <[c := x <| sc_conn := t' |>]> (objects e);
  cr_tasks m : tasks m e' = tasks m e ++ queued_tasks c l fs m;
  cr_agree : loops_agree (only l (channel_ x)) (loops_of e) (loops_of e');
  cr_chan : ∃ v v0, chan l (channel_ x) (loops_of e') = Some v ∧ chan l (channel_ x) (loops_of e) = Some v0 ∧
    cv_fd v = cv_fd v0;
  cr_log : sy_log e' = sy_log e ++ ((λ n, (name_of x, n)) <$> ns)
}.

Lemma after_code_ran cur e s' fs ns :
  system_ok cur e → objects e !! c = Some x → conn_frame c l (channel_ x) e (cs_env s') →
  posted_now c l (cs_env s') = posted_now c l e ++ fs → name_of (object_after s') = name_of x →
  conn_ran e (after_code s' ns) (cs_conn s') fs ns.
Proof.
  intros Hok Hx [Hr _ Hag Hv [gs Hgs]] Hp Hn.
  assert (gs = fs) as ->.
  { unfold posted_now in Hp. rewrite Hgs, omap_app, posted_queued in Hp. by apply app_inv_head in Hp. }
  assert (objects (after_code s' ns) = <[c := object_after s']> (objects e)) as Eo.
  { unfold after_code, write_back, objects. simpl. rewrite Hr. simpl. unfold objects in Hx.
    apply map_eq. intros d.
    destruct (decide (d = c)) as [->|Hd]; [by rewrite lookup_insert_eq, lookup_alter_eq, Hx|by rewrite lookup_insert_ne, lookup_alter_ne by congruence]. }
  split; try done.
  - assert (sy_server (after_code s' ns) =
      ((sy_server e) <| sv_loops := loops_of (cs_env s') |>) <| sv_conns := objects (after_code s' ns) |>) as ->.
    { unfold after_code, write_back, objects. simpl. rewrite Hr. done. }
    apply server_ok_objects.
    + apply server_ok_less; [apply Hok|apply Hag|]. intros m. split; [|apply Hag]. exists [].
      simpl. by rewrite !waiting_pending, Hgs, omap_app, queued_tasks_waiting, app_nil_r.
    + intros d. rewrite Eo. simpl. destruct (decide (d = c)) as [->|Hd]; [|by rewrite lookup_insert_ne].
      rewrite lookup_insert_eq. unfold objects in Hx. rewrite Hx. simpl in *. by rewrite Hn.
  - unfold after_code. rewrite Hr. done.
  - unfold after_code. simpl. rewrite Hr. done.
Qed.

(** What the code gave to its connection, and that it used no other socket. *)
Record gives (g : option gift) e s' (fs : list ConnFunctor) : Prop := Gives {
  gv_apart : apart (mkConnState (sc_conn x) e) s';
  gv_socket : sockfd_ (cs_conn s') = sockfd_ (sc_conn x);
  gv_stream : stream s' = stream (mkConnState (sc_conn x) e) ++ streamed g c;
  gv_posted : omap send_data fs = posted_by g c;
  gv_only d : d ≠ c → streamed g d = [] ∧ posted_by g d = [];
  gv_open : may_send (state_ (cs_conn s')) → may_send (state_ (sc_conn x))
}.

(** Nothing sent, nothing buffered, no data queued. *)
Lemma gives_nothing e s' fs :
  kv_sent (kview_of (view (cs_env s') : K)) = kv_sent (kview_of (view e : K)) →
  sockfd_ (cs_conn s') = sockfd_ (sc_conn x) →
  content (output_buffer_ (cs_conn s')) = content (output_buffer_ (sc_conn x)) →
  omap send_data fs = [] → (may_send (state_ (cs_conn s')) → may_send (state_ (sc_conn x))) →
  gives None e s' fs.
Proof.
  intros Hk Hf Ho Hp Hst. split; try done; [exact (apart_kept (mkConnState (sc_conn x) e) s' Hk)|].
  unfold stream. rewrite (sent_kept (Reactor0 := its_reactor) (mkConnState (sc_conn x) e) s' Hk Hf), Ho. by rewrite app_nil_r.
Qed.

Section conn_ran.
Context {e e' t' fs ns} (Hx : objects e !! c = Some x) (Hran : conn_ran e e' t' fs ns).
Abbreviation x' := (x <| sc_conn := t' |>).

Lemma ran_map d : is_in_map e' d ↔ is_in_map e d.
Proof. unfold in_map. by rewrite (cr_server _ _ _ _ _ Hran). Qed.
Lemma ran_removing d : is_removing e' d ↔ is_removing e d.
Proof.
  unfold removing. rewrite (cr_server _ _ _ _ _ Hran).
  rewrite !waiting_pending. by rewrite (cr_tasks _ _ _ _ _ Hran), omap_app, queued_tasks_waiting, app_nil_r.
Qed.
Lemma ran_server_task f m : ServerTask f ∈ tasks m e' → ServerTask f ∈ tasks m e.
Proof. rewrite (cr_tasks _ _ _ _ _ Hran). by intros [?|(_ & ? & ? & _)%elem_of_queued_tasks]%elem_of_app. Qed.

Lemma ran_sends m d : queued_sends m e' d = queued_sends m e d ++
  if decide (m = l ∧ c = d) then omap send_data fs else [].
Proof. unfold queued_sends. by rewrite (cr_tasks _ _ _ _ _ Hran), omap_app, queued_tasks_data. Qed.

Lemma ran_grown cur g s' : system_ok cur e → getLoop x = Some l →
  t' = cs_conn s' → loops_of e' = loops_of (cs_env s') → gives g e s' fs → grown_by g e e'.
Proof.
  intros Hok Hl Et El [G1 G2 G3 G4 G5 G6]. split; [|intros d; apply ran_map|].
  - intros m. exists (queued_tasks c l fs m). split; [apply Hran|]. by intros d (_ & ? & ? & _)%elem_of_queued_tasks.
  - intros d y Hy. destruct (decide (d = c)) as [->|Hd].
    + assert (y = x) as -> by congruence. exists (x <| sc_conn := cs_conn s' |>).
      split; [by rewrite (cr_objects _ _ _ _ _ Hran), Et, lookup_insert_eq|done|done| | |done].
      * unfold stream_of. rewrite El. exact G3.
      * intros m Hm. rewrite ran_sends, <- G4, decide_True; [done|]. split; congruence.
    + destruct (G5 d Hd) as [N1 N2]. exists y.
      split; [by rewrite (cr_objects _ _ _ _ _ Hran), lookup_insert_ne|done|done| | |done].
      * unfold stream_of. rewrite El, N1, app_nil_r. f_equal. apply G1. simpl. intros Hfd.
        apply Hd. by apply (sockets_distinct cur e d c y x).
      * intros m Hm. rewrite ran_sends, N2, decide_False; [done|]. by intros [_ ->].
Qed.

Lemma ran_step cur :
  getLoop x = Some l → name_of x' = name_of x →
  (∀ d, d ≠ c → cur ≠ Some (RemoveConnectionInLoop d) ∧ cur ≠ Some (ConnectionDestroyed d)) →
  object_step cur e e' c x x' ns.
Proof.
  intros Hl Hn Hcur. split; try done; try apply Hran.
  - exists (connection_map_ (server_of e)). rewrite (cr_server _ _ _ _ _ Hran). by destruct (server_of e).
  - split; [done|apply Hran].
  - intros d _. apply ran_map.
  - exists (queued_tasks c l fs). split; [apply Hran|]. intros m t (_ & f & -> & _)%elem_of_queued_tasks. right. right. by exists f.
  - intros m q Hne. apply (cr_agree _ _ _ _ _ Hran). intros [-> ->]. by apply Hne.
Qed.

Lemma ran_tasks_fit cur m i f :
  system_ok cur e → getLoop x = Some l →
  TcpConnection.write_complete_callback_ t' = TcpConnection.write_complete_callback_ (sc_conn x) →
  (is_Some (high_water_mark_callback_ (sc_conn x)) → is_Some (high_water_mark_callback_ t')) →
  (∀ g, g ∈ fs → functor_fits x' g ∧ is_in_map e c) →
  tasks m e' !! i = Some (ConnTask c f) → task_fits e' m i c f.
Proof.
  intros Hok Hl Hw Hhigh Hfits Hi. rewrite (cr_tasks _ _ _ _ _ Hran), lookup_app_Some in Hi.
  exists x'. rewrite (cr_objects _ _ _ _ _ Hran), lookup_insert_eq, ran_map. split; [done|].
  destruct Hi as [Hi|[_ Hi]].
  - destruct (sk_tasks _ _ Hok m i c f Hi) as (y & Hy & Hly & Hf & Hlife). assert (y = x) as -> by congruence.
    split; [done|]. split; [destruct f; simpl in *; by rewrite ?Hw; auto|].
    destruct Hlife as [?|(j & Hj & Hdj)]; [by left|right].
    exists j. split; [done|]. rewrite (cr_tasks _ _ _ _ _ Hran). by apply lookup_app_l_Some.
  - apply list_elem_of_lookup_2, elem_of_queued_tasks in Hi as (-> & g & [= <-] & Hg).
    destruct (Hfits f Hg). split; [done|]. split; [done|]. by left.
Qed.

Lemma ran_history :
  history e' (name_of x) = history e (name_of x) ++ omap (told (server_of e) (name_of x)) ((λ n, (name_of x, n)) <$> ns).
Proof. apply history_log; [by rewrite (cr_server _ _ _ _ _ Hran)|apply Hran]. Qed.
End conn_ran.

Lemma conn_step g cur cur' e s' fs ns :
  system_ok cur e → objects e !! c = Some x → getLoop x = Some l →
  conn_frame c l (channel_ x) e (cs_env s') → posted_now c l (cs_env s') = posted_now c l e ++ fs →
  (state_ (cs_conn s') ≠ kDisConnected → content (output_buffer_ (cs_conn s')) ≠ [] →
     isWriting (channel_events (cs_env s')) = true) →
  name_of (object_after s') = name_of x → sockfd_ (cs_conn s') = sockfd_ (sc_conn x) →
  made_by (server_of e) (object_after s') →
  is_up (state_ (cs_conn s')) ∨ channel_events (cs_env s') = kNoneEvent →
  (fs ≠ [] → is_up (state_ (cs_conn s'))) → (∀ f, f ∈ fs → functor_fits (object_after s') f) →
  (is_Some (high_water_mark_callback_ (sc_conn x)) → is_Some (high_water_mark_callback_ (cs_conn s'))) →
  (∀ d, d ≠ c → cur ≠ Some (RemoveConnectionInLoop d) ∧ cur ≠ Some (ConnectionDestroyed d)) →
  (attached l (channel_ x) (loops_of (cs_env s')) →
     is_in_map e c ∨ ServerTask (ConnectionDestroyed c) ∈ tasks l e ∨ cur' = Some (ConnectionDestroyed c)) →
  (∀ m, ServerTask (ConnectionEstablished c) ∈ tasks m e → state_ (cs_conn s') = kConnecting) →
  (state_ (cs_conn s') = kConnecting → state_ (sc_conn x) = kConnecting) →
  (state_ (cs_conn s') ≠ kDisConnected → is_in_map e c ∧ ¬ is_removing e c) →
  (state_ (cs_conn s') = kDisConnected → is_in_map e c →
     is_removing e c ∨ cur' = Some (RemoveConnectionInLoop c)) →
  told_so_far (server_of e) (state_ (cs_conn s'))
    (history e (name_of x) ++ omap (told (server_of e) (name_of x)) ((λ n, (name_of x, n)) <$> ns)) →
  gives g e s' fs →
  moved_by g cur' e (after_code s' ns).
Proof.
  intros Hok Hx Hl Hs Hp Hwr Hn Hfd Hm Hq Hup Hfits Hhigh Hcur Hatt Hest Hnew Hin Hclosed Htold Hgv.
  assert (grown_by g e (after_code s' ns)) as Hgrown.
  { by apply (ran_grown Hx (after_code_ran cur e s' fs ns Hok Hx Hs Hp Hn) cur g s'). }
  assert (Hran := after_code_ran cur e s' fs ns Hok Hx Hs Hp Hn).
  destruct (object_loop cur e Hok Hx Hl) as (_ & w & Hw).
  destruct s' as [t' e1]. simpl in Hwr, Hq. rewrite !conn_events_chan in Hwr, Hq.
  simpl in Hn, Hfd, Hm, Hup, Hfits, Hhigh, Hest, Hnew, Hin, Hclosed, Htold, Hran, Hatt.
  set (e' := after_code (mkConnState t' e1) ns) in *.
  assert (loops_of e1 = loops_of e') as El by done. rewrite El in Hwr, Hq, Hatt. clearbody e'.
  assert (fs ≠ [] → state_ t' ≠ kDisConnected ∧ state_ t' ≠ kConnecting) as Hnc.
  { intros Hf. destruct (Hup Hf) as [->| ->]; done. }
  destruct (cr_chan _ _ _ _ _ Hran) as (v & v0 & Hv & Hv0 & Hvf). rewrite Hv in Hwr, Hq.
  assert (Hob := sk_objects _ _ Hok c x Hx). split; [|exact Hgrown].
  apply (system_ok_update Hok (ran_step Hx Hran cur Hl Hn Hcur)).
  - split; [by rewrite (cr_server _ _ _ _ _ Hran)| |].
    + exists l, v. split; [done|]. split; try done.
      * simpl. rewrite Hfd, <- (cf_fd _ _ _ _ _ _ Hw). rewrite (cf_at _ _ _ _ _ _ Hw) in Hv0. congruence.
      * rewrite (ran_map Hran), (cr_tasks _ _ _ _ _ Hran). intros [?|[?|?]]%Hatt; [by left|right; left; set_solver|by right; right].
    + split; simpl; rewrite ?(ran_map Hran), ?(ran_removing Hran); try done.
      * intros m Hm'. by apply (Hest m), (ran_server_task Hran).
      * intros Hst m f. rewrite (cr_tasks _ _ _ _ _ Hran). intros [Hm'|(_ & h & _ & Hg)%elem_of_queued_tasks]%elem_of_app.
        -- by apply (pf_new _ _ _ _ (ob_phase _ _ _ _ Hob) (Hnew Hst) m f).
        -- destruct Hnc as [_ Hc]; [|done]. by intros ->; apply elem_of_nil in Hg.
      * by rewrite (cr_server _ _ _ _ _ Hran), Hn, (ran_history Hran).
  - intros m i f. apply (ran_tasks_fit Hx Hran cur); try done.
    + rewrite (mb_write _ _ (ob_made _ _ _ _ Hob)). apply (mb_write _ _ Hm).
    + intros h Hg. split; [by apply Hfits|]. apply Hin, Hnc. by intros ->; apply elem_of_nil in Hg.
Qed.

Lemma after_code_nil s' : after_code s' [] = write_back c (cs_conn s') (cs_env s').
Proof. unfold after_code. destruct s' as [t' [sv log]]. simpl. by rewrite app_nil_r. Qed.

Lemma run_conn_ok (m : M Conn unit) e s' :
  m (mkConnState (sc_conn x) e) = Ok (tt, s') → run_conn c x m e = Ok (tt, after_code s' []).
Proof. intros E. unfold run_conn. mcbn. by rewrite E, after_code_nil. Qed.

Lemma after_code_same e : objects e !! c = Some x → after_code (mkConnState (sc_conn x) e) [] = e.
Proof.
  intros Hx. rewrite after_code_nil. unfold write_back. simpl. unfold objects in Hx.
  assert (alter (set_field sc_conn (λ _, sc_conn x)) c (sv_conns (sy_server e)) = sv_conns (sy_server e)) as E.
  { apply map_eq. intros d. destruct (decide (d = c)) as [->|Hd]; [|by rewrite lookup_alter_ne].
    rewrite lookup_alter_eq, Hx. simpl. by destruct x. }
  destruct e as [[v conns ls] log]. simpl in *. by rewrite E.
Qed.

Lemma post_if_fits b cb f g : g ∈ post_if b cb f → g = f ∧ is_Some (A := ServerCallback U) cb.
Proof.
  unfold post_if. destruct b; simpl; [|by intros ?%elem_of_nil].
  case_bool_decide; [|by intros ?%elem_of_nil]. by intros ->%list_elem_of_singleton.
Qed.

Lemma told_messages v nm ns : messages ns → omap (told v nm) ((λ n, (nm, n)) <$> ns) = ns.
Proof.
  induction 1 as [|n ns [u ->] _ IH]; [done|]. cbn [fmap list_fmap omap list_omap]. rewrite IH.
  unfold told. simpl. by rewrite decide_True.
Qed.

(** Code that runs while the connection is up, and leaves it up. *)
Lemma conn_up_told g cur e s' fs ns :
  system_ok cur e → objects e !! c = Some x → getLoop x = Some l → is_up (state_ (sc_conn x)) →
  (∀ d, d ≠ c → cur ≠ Some (RemoveConnectionInLoop d) ∧ cur ≠ Some (ConnectionDestroyed d)) →
  good_conn e s' → posted_now c l (cs_env s') = posted_now c l e ++ fs →
  (∀ f, f ∈ fs → functor_fits (object_after s') f) →
  (∃ st i o, cs_conn s' = (sc_conn x) <| state_ := st |> <| input_buffer_ := i |> <| output_buffer_ := o |> ∧ is_up st) →
  messages ns → gives g e s' fs → moved_by g cur e (after_code s' ns).
Proof.
  intros Hok Hx Hl Hup Hcur Hs Hp Hf (st & i & o & Et & Hst) Hns Hgv.
  assert (Hob := sk_objects _ _ Hok c x Hx). assert (Hm := ob_made _ _ _ _ Hob).
  assert (Hph := ob_phase _ _ _ _ Hob).
  assert (state_ (sc_conn x) ≠ kDisConnected ∧ state_ (sc_conn x) ≠ kConnecting) as [N1 N2] by by destruct Hup as [-> | ->].
  assert (state_ (cs_conn s') = st) as Est by by rewrite Et.
  apply (conn_step g cur cur e s' fs ns); rewrite ?Est; try done.
  - apply Hs.
  - intros _. apply Hs.
  - simpl. by rewrite Et.
  - by rewrite Et.
  - assert (Ho := ck_output _ Hs). assert (Hi := ck_input _ Hs). destruct Hm as [M1 M2 M3 M4 M5 M6 M7 M8].
    split; simpl; rewrite Et; try done; [by rewrite Et in Hi|by rewrite Et in Ho].
  - by left.
  - by rewrite Et.
  - intros _. left. by apply (pf_in_map _ _ _ _ Hph).
  - intros m Hw. by destruct N2; apply (pf_waiting _ _ _ _ Hph m).
  - by destruct Hst as [-> | ->].
  - intros _. by apply (pf_in_map _ _ _ _ Hph).
  - by destruct Hst as [-> | ->].
  - rewrite told_messages by done. assert (Ht := pf_told _ _ _ _ Hph).
    destruct Hup as [E1|E1], Hst as [-> | ->]; rewrite E1 in Ht; destruct Ht as (ms & -> & Hms); exists (ms ++ ns);
      (split; [by rewrite app_assoc|by apply Forall_app]).
Qed.

Lemma conn_up g cur e s' fs :
  system_ok cur e → objects e !! c = Some x → getLoop x = Some l → is_up (state_ (sc_conn x)) →
  (∀ d, d ≠ c → cur ≠ Some (RemoveConnectionInLoop d) ∧ cur ≠ Some (ConnectionDestroyed d)) →
  good_conn e s' → posted_now c l (cs_env s') = posted_now c l e ++ fs →
  (∀ f, f ∈ fs → functor_fits (object_after s') f) →
  (∃ st o, cs_conn s' = (sc_conn x) <| state_ := st |> <| output_buffer_ := o |> ∧ is_up st) →
  gives g e s' fs → moved_by g cur e (after_code s' []).
Proof.
  intros Hok Hx Hl Hup Hcur Hs Hp Hf (st & o & Et & Hst) Hgv. apply (conn_up_told g cur e s' fs []); try done; [|constructor].
  exists st, (input_buffer_ (sc_conn x)), o. split; [|done]. rewrite Et. by destruct (sc_conn x).
Qed.

(** All of [data], or nothing of it because the kernel said that the connection is
    broken. *)
Definition sent_whole (fd : Z) (data bs : list byte) : Prop :=
  bs = data ∨ bs = [] ∧ ∃ k : K, broken (sys_write fd data k).1 = true.
Lemma post_if_no_data b (cb : option (ServerCallback U)) f : send_data f = None → omap send_data (post_if b cb f) = [].
Proof. intros Hf. unfold post_if. case_match; [|done]. cbn. by rewrite Hf. Qed.

Lemma sendInLoop_runs cur e data :
  system_ok cur e → objects e !! c = Some x → getLoop x = Some l → state_ (sc_conn x) = kConnected →
  (∀ d, d ≠ c → cur ≠ Some (RemoveConnectionInLoop d) ∧ cur ≠ Some (ConnectionDestroyed d)) →
  room_for (output_buffer_ (sc_conn x)) (zlen data) →
  ∃ e' bs, run_conn c x (sendInLoop data) e = Ok (tt, e') ∧ moved_by (Some (Streamed c bs)) cur e e' ∧
    sent_whole (sockfd_ (sc_conn x)) data bs.
Proof.
  intros Hok Hx Hl Hst Hcur Hroom. assert (Hs := conn_start cur e Hok Hx Hl ltac:(by rewrite ?Hst)).
  destruct (sendInLoop_ok (RL := its_laws e) data (mkConnState (sc_conn x) e) Hs) as (s' & E & Hsl).
  { unfold giving_up. simpl. by rewrite Hst. } { exact Hroom. }
  destruct (sent_stream data _ s' Hs Hsl) as (bs & Hbs & Hwhole).
  exists (after_code s' []), bs. split; [by apply run_conn_ok|]. split.
  2: { destruct Hwhole as [?|[? Hb%broken_write]]; [by left|right]. split; [done|]. by eexists. }
  assert (Hc := st_conn _ _ (sl_steady _ _ _ Hsl)). simpl in Hc.
  eapply conn_up; [exact Hok|done|done|by left|done|exact (sl_ok _ _ _ Hsl)|exact (sl_posted _ _ _ Hsl)| | |].
  - assert (Hm := ob_made _ _ _ _ (sk_objects _ _ Hok c x Hx)).
    intros f [[-> Hs1]%post_if_fits|[-> Hs1]%post_if_fits]%elem_of_app; simpl; rewrite Hc; exact Hs1.
  - eexists kConnected, _. split; [|by left]. rewrite Hc. destruct (sc_conn x). simpl in *. by subst.
  - split; [exact (st_apart _ _ (sl_steady _ _ _ Hsl))|by rewrite Hc| | | |by rewrite Hc].
    + simpl. by rewrite decide_True.
    + by rewrite omap_app, !post_if_no_data.
    + intros d Hd. simpl. by rewrite decide_False.
Qed.

(** [cur] is not about another connection. *)
Definition mine (cur : option ServerFunctor) : Prop :=
  ∀ d, d ≠ c → cur ≠ Some (RemoveConnectionInLoop d) ∧ cur ≠ Some (ConnectionDestroyed d).
(** The object is sure to see [connectionDestroyed]. *)
Definition owned e : Prop := is_in_map e c ∨ ServerTask (ConnectionDestroyed c) ∈ tasks l e.

(** Code that leaves the object as it is, and its events. *)
Lemma conn_kept cur e s' ns :
  system_ok cur e → objects e !! c = Some x → getLoop x = Some l → mine cur → owned e →
  conn_frame c l (channel_ x) e (cs_env s') → posted_now c l (cs_env s') = posted_now c l e →
  cs_conn s' = sc_conn x → channel_events (cs_env s') = channel_events e →
  omap (told (server_of e) (name_of x)) ((λ n, (name_of x, n)) <$> ns) = [] →
  kv_sent (kview_of (view (cs_env s') : K)) = kv_sent (kview_of (view e : K)) → moved cur e (after_code s' ns).
Proof.
  intros Hok Hx Hl Hcur Hown Hs Hp Et Hev Hns Hk. assert (Hob := sk_objects _ _ Hok c x Hx).
  assert (Hph := ob_phase _ _ _ _ Hob). destruct (object_loop cur e Hok Hx Hl) as (_ & w & Hw).
  apply (conn_step None cur cur e s' [] ns); rewrite ?Et; try done.
  - by rewrite app_nil_r.
  - rewrite Hev. simpl. rewrite conn_events_chan, (cf_at _ _ _ _ _ _ Hw). apply Hw.
  - assert (x <| sc_conn := sc_conn x |> = x) as -> by by destruct x. apply Hob.
  - rewrite Hev. simpl. rewrite conn_events_chan, (cf_at _ _ _ _ _ _ Hw). apply Hw.
  - intros f Hf. by apply elem_of_nil in Hf.
  - intros _. destruct Hown; tauto.
  - apply Hph.
  - apply Hph.
  - apply Hph.
  - rewrite Hns, app_nil_r. apply Hph.
  - apply gives_nothing; by rewrite ?Et.
Qed.

Lemma shutDownInLoop_runs cur e :
  system_ok cur e → objects e !! c = Some x → getLoop x = Some l → mine cur → owned e →
  ∃ e', run_conn c x shutDownInLoop e = Ok (tt, e') ∧ moved cur e e'.
Proof.
  intros Hok Hx Hl Hcur Hown. set (s0 := mkConnState (sc_conn x) e).
  destruct (shutDownInLoop_any (RL := its_laws e) s0) as (e1 & E & H1 & H2 & H3 & H4); [by apply (frame_start cur)|].
  exists (after_code (s0 <| cs_env := e1 |>) []). split; [by apply run_conn_ok|]. by apply (conn_kept cur e _ []).
Qed.

Lemma nothing_runs cur e : system_ok cur e → objects e !! c = Some x →
  ∃ e', run_conn c x (mret tt) e = Ok (tt, e') ∧ moved cur e e'.
Proof.
  intros Hok Hx. exists (after_code (mkConnState (sc_conn x) e) []). split; [by apply run_conn_ok|].
  rewrite after_code_same by done. by split; [|apply grown_refl].
Qed.

(** What [send] gives: in the thread of the connection's loop to the stream, in
    another to the queue; nothing when the connection is not connected. *)
Definition sending e : bool :=
  if objects e !! c is Some y then bool_decide (state_ (sc_conn y) = kConnected) else false.
Definition send_gift (data : list byte) e (g : option gift) : Prop :=
  if sending e then
    if loop_here l (loops_of e) then ∃ bs, g = Some (Streamed c bs) ∧ sent_whole (sockfd_ (sc_conn x)) data bs
    else g = Some (Posted c data)
  else g = None.

Lemma send_runs cur e data :
  system_ok cur e → objects e !! c = Some x → getLoop x = Some l → mine cur →
  (state_ (sc_conn x) = kConnected → room_for (output_buffer_ (sc_conn x)) (zlen data)) →
  ∃ e' g, run_conn c x (send data) e = Ok (tt, e') ∧ moved_by g cur e e' ∧ send_gift data e g.
Proof.
  intros Hok Hx Hl Hcur Hroom.
  assert (run_conn c x (send data) e = run_conn c x
    (if bool_decide (state_ (sc_conn x) = kConnected) then
       if loop_here l (loops_of e) then sendInLoop data else queueInLoop (SendInLoop data)
     else mret tt) e) as ->.
  { unfold run_conn, send, conn, gets, runInLoop, connected. mcbn. unfold gets. mcbn.
    cbn [cs_conn]. case_bool_decide; [|done]. unfold when. cbn [cs_env].
    change (loop_isInLoopThread e) with (loop_here l (loops_of e)).
    destruct (loop_here l (loops_of e)) eqn:Eh; [done|]. cbn [cs_env].
    change (loop_isInLoopThread e) with (loop_here l (loops_of e)). by rewrite Eh. }
  unfold send_gift, sending. rewrite Hx. case_bool_decide as Hst.
  2: { destruct (nothing_runs cur e Hok Hx) as (e' & E & H). by exists e', None. }
  destruct (loop_here l (loops_of e)).
  { destruct (sendInLoop_runs cur e data) as (e' & bs & E & H & Hw); auto. exists e', (Some (Streamed c bs)).
    split; [done|]. split; [done|]. by exists bs. }
  assert (Hs := conn_start cur e Hok Hx Hl ltac:(by rewrite ?Hst)).
  destruct (queue_ok (RL := its_laws e) (SendInLoop data) _ Hs) as (e1 & E & H1 & Hsw & _ & Hp).
  exists (after_code (mkConnState (sc_conn x) e1) []), (Some (Posted c data)). split; [by apply run_conn_ok|]. split; [|done].
  eapply conn_up; [exact Hok|done|done|by left|done|exact H1|exact Hp| | |].
  - by intros f ->%list_elem_of_singleton.
  - exists kConnected, (output_buffer_ (sc_conn x)). split; [|by left]. simpl. destruct (sc_conn x). simpl in *. by subst.
  - split; [exact (apart_kept (mkConnState (sc_conn x) e) (mkConnState (sc_conn x) e1) (sw_sent _ _ Hsw))|done| | | |done].
    + simpl. rewrite app_nil_r. unfold stream. f_equal. exact (sent_same (mkConnState (sc_conn x) e) (mkConnState (sc_conn x) e1) eq_refl Hsw).
    + simpl. by rewrite decide_True.
    + intros d Hd. simpl. by rewrite decide_False.
Qed.

Lemma shutdown_runs cur e :
  system_ok cur e → objects e !! c = Some x → getLoop x = Some l → mine cur →
  ∃ e', run_conn c x shutdown e = Ok (tt, e') ∧ moved cur e e'.
Proof.
  intros Hok Hx Hl Hcur. set (t1 := (sc_conn x) <| state_ := kDisConnecting |>).
  assert (run_conn c x shutdown e =
    if bool_decide (state_ (sc_conn x) = kConnected) then
      '(_, s) ← (if loop_here l (loops_of e) then shutDownInLoop else queueInLoop ShutDownInLoop) (mkConnState t1 e);
      Ok (tt, write_back c (cs_conn s) (cs_env s))
    else run_conn c x (mret tt) e) as ->.
  { unfold run_conn, shutdown, conn, gets, runInLoop, connected. mcbn. simpl. case_bool_decide; [|done].
    simpl. unfold setState, set_conn, modify, gets. mcbn. simpl. by destruct (loop_here l (loops_of e)). }
  case_bool_decide as Hst; [|by apply nothing_runs].
  assert (Hs := conn_start cur e Hok Hx Hl ltac:(by rewrite ?Hst)).
  assert (good_conn e (mkConnState t1 e)) as Hs1 by (destruct Hs; by split).
  assert (∀ s' fs, good_conn e s' → posted_now c l (cs_env s') = posted_now c l e ++ fs →
    (∀ f, f ∈ fs → f = ShutDownInLoop) → cs_conn s' = t1 →
    kv_sent (kview_of (view (cs_env s') : K)) = kv_sent (kview_of (view e : K)) → moved cur e (after_code s' [])) as Hdone.
  { intros s' fs H1 Hp Hf Et Hk. eapply conn_up; [exact Hok|done|done|by left|done|exact H1|exact Hp| | |].
    - by intros f ->%Hf.
    - exists kDisConnecting, (output_buffer_ (sc_conn x)). split; [|by right]. rewrite Et. by destruct (sc_conn x).
    - apply gives_nothing; rewrite ?Et; try done; [|by right].
      clear -Hf. induction fs as [|f fs IH]; [done|]. cbn. rewrite (Hf f) by set_solver. apply IH. set_solver. }
  destruct (loop_here l (loops_of e)).
  - destruct (shutDownInLoop_ok (RL := its_laws e) _ Hs1) as (s' & E & H1 & H2 & Hk & H3 & H4 & _).
    exists (after_code s' []). split; [mcbn; by rewrite E, after_code_nil|]. apply (Hdone s' []); [done| |set_solver|done|exact Hk].
    by rewrite app_nil_r.
  - destruct (queue_ok (RL := its_laws e) ShutDownInLoop _ Hs1) as (e1 & E & H1 & Hsw & _ & Hp).
    exists (after_code (mkConnState t1 e1) []). split; [mcbn; by rewrite E, after_code_nil|].
    apply (Hdone _ [ShutDownInLoop]); [exact H1|exact Hp|set_solver|done|exact (sw_sent _ _ Hsw)].
Qed.

Lemma setHighWaterMark_runs e u :
  system_ok None e → objects e !! c = Some x → getLoop x = Some l → connection_callback_ (server_of e) ≠ Some u →
  ∃ e', run_conn c x (set_conn (TcpConnection.setHighWaterMarkCallback (Some (App u)))) e = Ok (tt, e') ∧ moved None e e'.
Proof.
  intros Hok Hx Hl Hu. assert (Hob := sk_objects _ _ Hok c x Hx). assert (Hm := ob_made _ _ _ _ Hob).
  assert (Hph := ob_phase _ _ _ _ Hob). destruct (object_loop None e Hok Hx Hl) as (_ & w & Hw).
  set (t1 := TcpConnection.setHighWaterMarkCallback (Some (App u)) (sc_conn x)).
  exists (after_code (mkConnState t1 e) []). split; [by apply run_conn_ok|].
  apply (conn_step None None None e _ [] []); try done.
  - by apply (frame_start None).
  - by rewrite app_nil_r.
  - intros Hst Ho. simpl. rewrite conn_events_chan, (cf_at _ _ _ _ _ _ Hw). by apply Hw.
  - split; try apply Hm. simpl. intros cb [= <-]. by exists u.
  - simpl. rewrite conn_events_chan, (cf_at _ _ _ _ _ _ Hw). apply Hw.
  - intros f Hf. by apply elem_of_nil in Hf.
  - apply Hw.
  - apply Hph.
  - apply Hph.
  - apply Hph.
  - rewrite app_nil_r. apply Hph.
  - by apply gives_nothing.
Qed.

Lemma after_code_object e s' ns :
  objects e !! c = Some x → conn_frame c l (channel_ x) e (cs_env s') →
  objects (after_code s' ns) !! c = Some (object_after s').
Proof.
  intros Hx Hf. unfold after_code, write_back, objects. simpl. rewrite (cf_rest _ _ _ _ _ Hf). simpl.
  rewrite lookup_alter_eq. unfold objects in Hx. by rewrite Hx.
Qed.

(** Writing leaves the connection up. *)
Lemma handleWrite_runs cur e :
  system_ok cur e → objects e !! c = Some x → getLoop x = Some l → mine cur → is_up (state_ (sc_conn x)) →
  ∃ e', run_conn c x handleWrite e = Ok (tt, e') ∧ moved cur e e' ∧
    ∃ x', objects e' !! c = Some x' ∧ getLoop x' = Some l ∧ is_up (state_ (sc_conn x')).
Proof.
  intros Hok Hx Hl Hcur Hup. assert (Hs := conn_start cur e Hok Hx Hl ltac:(by destruct Hup as [-> | ->])).
  assert (Hm := ob_made _ _ _ _ (sk_objects _ _ Hok c x Hx)).
  set (s0 := mkConnState (sc_conn x) e) in *.
  destruct (decide (channel_isWriting s0 = true ∧ content (output_buffer_ (sc_conn x)) ≠ [])) as [[Hw Ho]|Hno].
  - destruct (handleWrite_ok (RL := its_laws e) s0 Hs Hw Ho) as (s' & E & Hwr).
    exists (after_code s' []). split; [by apply run_conn_ok|]. assert (Hc := wr_conn _ _ _ Hwr).
    split.
    2: { exists (object_after s'). split; [apply (after_code_object e); [done|apply (wr_ok _ _ _ Hwr)]|].
      split; [done|]. simpl. by rewrite Hc. }
    eapply conn_up; [exact Hok|done|done|done|done|exact (wr_ok _ _ _ Hwr)|exact (wr_posted _ _ _ Hwr)| | |].
    + intros f [-> Hs1]%post_if_fits. simpl. rewrite Hc. exact Hs1.
    + exists (state_ (sc_conn x)), (output_buffer_ (cs_conn s')). split; [|done]. rewrite Hc. by destruct (sc_conn x).
    + split; [exact (wr_apart _ _ _ Hwr)|by rewrite Hc| | |done|by rewrite Hc].
      * by rewrite (wrote_stream _ _ _ Hwr), app_nil_r.
      * by apply post_if_no_data.
  - assert (handleWrite s0 = Ok (tt, s0)) as E.
    { unfold handleWrite, conn, gets. mcbn. rewrite readable_content by apply Hm.
      change (cs_conn s0) with (sc_conn x). rewrite (mb_file _ _ Hm), andb_false_r.
      destruct (channel_isWriting s0); [|done]. simpl. case_bool_decide; [done|]. by destruct Hno. }
    exists (after_code s0 []). split; [by apply run_conn_ok|]. unfold s0. rewrite after_code_same by done.
    split; [by split; [|apply grown_refl]|]. by exists x.
Qed.

(** The connection callback, if there is one: the application is told the state. *)
Definition noted (s : Conn) (ns : list (Note U)) : Conn :=
  s <| cs_env ::= λ e, e <| sy_log ::= λ log, log ++ ((λ n, (TcpConnection.name_ (cs_conn s), n)) <$> ns) |> |>.

Lemma connection_callback_runs v s :
  TcpConnection.connection_callback_ (cs_conn s) = App <$> connection_callback_ v →
  callback_opt (run_callback c) TcpConnection.connection_callback_ s =
    Ok (tt, noted s (told_state v (state_ (cs_conn s)))).
Proof.
  intros E. unfold callback_opt, conn, gets, told_state. mcbn. rewrite E.
  destruct (connection_callback_ v) as [u|]; [done|]. simpl. unfold noted. simpl.
  destruct s as [t [sv log]]. simpl. by rewrite app_nil_r.
Qed.

Lemma told_own v nm st : omap (told v nm) ((λ n, (nm, n)) <$> told_state v st) = told_state v st.
Proof.
  unfold told_state. destruct (connection_callback_ v) as [u|] eqn:E; [|done].
  cbn [fmap list_fmap omap list_omap]. unfold told. simpl. by rewrite decide_True, E, decide_True.
Qed.

Lemma established_runs e :
  system_ok None e → objects e !! c = Some x → getLoop x = Some l → state_ (sc_conn x) = kConnecting →
  (∀ m, ServerTask (ConnectionEstablished c) ∉ tasks m e) →
  ∃ e', run_conn c x (connectionEstablished (run_callback c)) e = Ok (tt, e') ∧ moved None e e'.
Proof.
  intros Hok Hx Hl Hst Hno. assert (Hob := sk_objects _ _ Hok c x Hx). assert (Hm := ob_made _ _ _ _ Hob).
  assert (Hph := ob_phase _ _ _ _ Hob). destruct (object_loop None e Hok Hx Hl) as (_ & w & Hw).
  destruct (connectionEstablished_ok (RL := its_laws e) (run_callback c) (mkConnState (sc_conn x) e))
    as (e1 & E & H1 & Hsw & H3 & H4); [by apply (frame_start None)|].
  set (t1 := (sc_conn x) <| state_ := kConnected |>) in *.
  exists (after_code (mkConnState t1 e1) (up (server_of e))). split.
  { unfold run_conn. mcbn. change (cs_conn (mkConnState (sc_conn x) e)) with (sc_conn x) in E. fold t1 in E.
    rewrite E, (connection_callback_runs (server_of e)); [done|]. apply Hm. }
  apply (conn_step None None None e _ [] (up (server_of e))); try done.
  - by rewrite app_nil_r.
  - intros _ Ho. simpl in *. rewrite H3, isWriting_enable_reading, conn_events_chan, (cf_at _ _ _ _ _ _ Hw).
    apply (cf_writing _ _ _ _ _ _ Hw); [by rewrite Hst|done].
  - by split; apply Hm.
  - left. by left.
  - intros f Hf. by apply elem_of_nil in Hf.
  - intros _. left. apply (pf_in_map _ _ _ _ Hph). by rewrite Hst.
  - intros m Hm'. by apply Hno in Hm'.
  - intros _. apply (pf_in_map _ _ _ _ Hph). by rewrite Hst.
  - assert (Ht := pf_told _ _ _ _ Hph). rewrite Hst in Ht. simpl in Ht. rewrite Ht, told_own. simpl.
    exists []. split; [by rewrite app_nil_r|constructor].
  - apply gives_nothing; try done; [exact (sw_sent _ _ Hsw)|]. intros _. by left.
Qed.

Lemma destroyed_runs e :
  system_ok (Some (ConnectionDestroyed c)) e → objects e !! c = Some x → getLoop x = Some l →
  state_ (sc_conn x) = kDisConnected →
  ∃ e', run_conn c x (connectionDestroyed (run_callback c)) e = Ok (tt, e') ∧ moved None e e'.
Proof.
  intros Hok Hx Hl Hst. assert (Hob := sk_objects _ _ Hok c x Hx). assert (Hm := ob_made _ _ _ _ Hob).
  assert (Hph := ob_phase _ _ _ _ Hob). destruct (object_loop _ e Hok Hx Hl) as (_ & w & Hw).
  assert (Hf := frame_start _ e Hok Hx Hl).
  destruct (conn_remove_law l (channel_ x) w (loops_of e)) as (ls & E & Hfr & Hp & Hc & Hna);
    [apply (so_loops _ (sk_server _ _ Hok))|apply Hw|].
  destruct (channel_law c l (channel_ x) e _ e ls w w Hf E Hfr Hp (cf_at _ _ _ _ _ _ Hw) Hc eq_refl)
    as (E1 & Hf1 & Hsw & Hev & Hpo).
  set (s1 := mkConnState (sc_conn x) (with_loops_of ls e)).
  exists (after_code s1 []). split.
  { apply run_conn_ok. unfold connectionDestroyed, conn, gets. mcbn. cbn [cs_conn]. rewrite Hst. simpl when. mcbn.
    exact (in_env_ok channel_remove (mkConnState (sc_conn x) e) tt _ E1). }
  apply (conn_step None (Some (ConnectionDestroyed c)) None e s1 [] []); try done; simpl.
  - by rewrite app_nil_r.
  - assert (set_sc_conn (λ _, sc_conn x) x = x) as -> by by destruct x. exact Hm.
  - right. change (channel_events (with_loops_of ls e) = kNoneEvent). etrans; [exact Hev|]. destruct (cf_quiet _ _ _ _ _ _ Hw) as [Hu|Hq]; [|done].
    exfalso. rewrite Hst in Hu. by destruct Hu.
  - intros f Hfi. by apply elem_of_nil in Hfi.
  - split; [done|congruence].
  - apply Hph.
  - intros Hd Him. destruct (pf_closed _ _ _ _ Hph Hd Him) as [?|?]; [by left|done].
  - rewrite app_nil_r. apply Hph.
  - apply gives_nothing; try done. exact (sw_sent _ _ Hsw).
Qed.

(** ** The removal of a closed connection *)

(** The server told the loop [l'] the functor [f] about the closed connection. *)
Record told_loop (f : ServerFunctor) (l' : L) (m : gmap string (option positive)) e e' : Prop := ToldLoop {
  tl_server : server_ok (sy_server e');
  tl_objects : objects e' = objects e;
  tl_log : sy_log e' = sy_log e;
  tl_config : server_of e' = (server_of e) <| connection_map_ := m |>;
  tl_queue : loop_queue l' f (loops_of e) = Ok (tt, loops_of e');
  tl_map d : d ≠ c → is_in_map e' d ↔ is_in_map e d;
  tl_what : f = RemoveConnectionInLoop c ∧ l' = loop_ (server_of e) ∧ m = connection_map_ (server_of e) ∨
    f = ConnectionDestroyed c ∧ l' = l ∧ ¬ is_in_map e' c
}.

Section told_loop.
Context {f : ServerFunctor} {l' : L} {m : gmap string (option positive)} {e e' : S}.
Context (Hok : system_ok (Some (RemoveConnectionInLoop c)) e) (Hx : objects e !! c = Some x) (Hl : getLoop x = Some l).
Context (Him : is_in_map e c) (Ht : told_loop f l' m e e').

Lemma told_views :
  (∀ k q, chan k q (loops_of e') = chan k q (loops_of e) ∧ (attached k q (loops_of e') ↔ attached k q (loops_of e))) ∧
  (∀ k, tasks k e' = tasks k e ++ task_for l' k (ServerTask f)) ∧
  kv_sent (kview_of (view (loops_of e') : K)) = kv_sent (kview_of (view (loops_of e) : K)).
Proof.
  destruct (queue_views l' f (loops_of e) (loops_of e')) as [[Hag Hk _] Hp];
    [apply (so_loops _ (sk_server _ _ Hok))|apply Ht|]. split; [|by split]. intros k q. apply Hag. by intros [].
Qed.
Lemma told_task k t : t ∈ tasks k e' ↔ t ∈ tasks k e ∨ t = ServerTask f ∧ k = l'.
Proof. rewrite (proj1 (proj2 told_views)), elem_of_app. unfold task_for. case_decide; set_solver. Qed.

Lemma told_removing : is_in_map e' c → is_removing e' c.
Proof.
  intros Hc. destruct (tl_what _ _ _ _ _ Ht) as [(Ef & El & _)|(_ & _ & Hn)]; [|done].
  unfold removing. rewrite elem_of_waiting, (tl_config _ _ _ _ _ Ht). apply told_task. right. by rewrite Ef.
Qed.
Lemma told_life : is_in_map e' c ∨ ServerTask (ConnectionDestroyed c) ∈ tasks l e'.
Proof.
  destruct (tl_what _ _ _ _ _ Ht) as [(_ & _ & Em)|(Ef & El & _)]; [left|right].
  - unfold in_map in *. by rewrite (tl_config _ _ _ _ _ Ht), Em.
  - apply told_task. right. by rewrite Ef.
Qed.

Lemma told_grown : grown e e'.
Proof.
  split.
  - intros k. exists (task_for l' k (ServerTask f)). split; [apply told_views|]. intros d. unfold task_for.
    case_decide; [|by intros ?%elem_of_nil]. intros [= E]%list_elem_of_singleton.
    destruct (tl_what _ _ _ _ _ Ht) as [(-> & _)|(-> & _)]; [done|]. by injection E as ->.
  - intros d Hd. destruct (decide (d = c)) as [->|Hne]; [done|by apply (tl_map _ _ _ _ _ Ht)].
  - intros d y Hy. exists y. apply flow_same; [done|apply Ht|apply told_views|]. intros k. unfold queued_sends.
    rewrite (proj1 (proj2 told_views)), omap_app. unfold task_for. case_decide; simpl; by rewrite app_nil_r.
Qed.

Lemma told_step : object_step (Some (RemoveConnectionInLoop c)) e e' c x x [].
Proof.
  split; try done; try apply Ht.
  - exists m. apply Ht.
  - split; [done|]. rewrite (tl_objects _ _ _ _ _ Ht). symmetry. by apply insert_id.
  - exists (λ k, task_for l' k (ServerTask f)). split; [apply told_views|]. intros k t. unfold task_for.
    case_decide; [|by intros ?%elem_of_nil]. intros ->%list_elem_of_singleton.
    destruct (tl_what _ _ _ _ _ Ht) as [(-> & _)|(-> & _)]; tauto.
  - intros k q _. apply told_views.
  - by rewrite app_nil_r, (tl_log _ _ _ _ _ Ht).
  - split; [congruence|done].
Qed.

Lemma told_object : state_ (sc_conn x) = kDisConnected → object_ok None e' c x.
Proof.
  intros Hst. assert (Hob := sk_objects _ _ Hok c x Hx). assert (Hph := ob_phase _ _ _ _ Hob).
  assert (Hm := ob_made _ _ _ _ Hob). destruct (object_loop _ e Hok Hx Hl) as (_ & w & Hw).
  split.
  - rewrite (tl_config _ _ _ _ _ Ht). by split; apply Hm.
  - exists l, w. split; [done|]. split; try apply Hw.
    + rewrite (proj1 (proj1 told_views l (channel_ x))). apply Hw.
    + intros _. destruct told_life; tauto.
  - split; try (by rewrite Hst).
    + intros k [Hk|[Hk _]]%told_task; [by apply (pf_waiting _ _ _ _ Hph k)|].
      destruct (tl_what _ _ _ _ _ Ht) as [(-> & _)|(-> & _)]; done.
    + intros _ Hc. left. by apply told_removing.
    + unfold history, told. rewrite (tl_log _ _ _ _ _ Ht). unfold told_so_far, told_state.
      rewrite (tl_config _ _ _ _ _ Ht). apply (pf_told _ _ _ _ Hph).
Qed.

Lemma told_tasks_fit k i g : tasks k e' !! i = Some (ConnTask c g) → task_fits e' k i c g.
Proof.
  destruct told_views as (_ & Hp & _). rewrite Hp, lookup_app_Some. intros [Hi|[_ Hi]].
  2: { unfold task_for in Hi. case_decide; [|done]. by apply list_lookup_singleton_Some in Hi as [_ ?]. }
  destruct (sk_tasks _ _ Hok k i c g Hi) as (y & Hy & Hly & Hfit & Hlf).
  exists y. rewrite (tl_objects _ _ _ _ _ Ht). do 3 (split; [done|]). assert (k = l) as -> by congruence.
  destruct (tl_what _ _ _ _ _ Ht) as [(_ & _ & Em)|(Ef & El & _)].
  - left. unfold in_map in *. by rewrite (tl_config _ _ _ _ _ Ht), Em.
  - right. exists (length (tasks l e)). split; [by apply lookup_lt_Some in Hi|]. rewrite Hp, Ef, El.
    rewrite lookup_app_r, Nat.sub_diag by lia. unfold task_for. by rewrite decide_True.
Qed.

Lemma system_ok_told : state_ (sc_conn x) = kDisConnected → moved None e e'.
Proof.
  intros Hst. split; [|apply told_grown].
  apply (system_ok_update Hok told_step); [by apply told_object|apply told_tasks_fit].
Qed.
End told_loop.

Lemma removal_in_loop_runs e :
  system_ok (Some (RemoveConnectionInLoop c)) e → objects e !! c = Some x → getLoop x = Some l →
  state_ (sc_conn x) = kDisConnected → is_in_map e c → ¬ is_removing e c →
  ∃ e', in_server (removeConnectionInLoop c) e = Ok (tt, e') ∧ moved None e e' ∧ ¬ is_in_map e' c.
Proof.
  intros Hok Hx Hl Hst Him Hrm.
  destruct (removeConnectionInLoop_ok c (sy_server e) (sk_server _ _ Hok) Him Hrm) as (s' & E & [R1 R2 R3 R4]).
  destruct (removeConnectionInLoop_inv c (sy_server e) s' E) as (y & l' & ls & Hy & Hl' & Eq & Es).
  assert (y = x) as -> by (unfold objects in Hx; congruence). assert (l' = l) as -> by congruence.
  exists (e <| sy_server := s' |>). split; [unfold in_server; mcbn; by rewrite E|].
  split; [|intros Hc; apply R3 in Hc; tauto]. 
  apply (system_ok_told (f := ConnectionDestroyed c) (l' := l) (m := delete (name_of x) (connection_map_ (server_of e))) Hok Hx Hl Him);
    [split; try done|done].
  - by rewrite Es.
  - by rewrite Es.
  - intros d Hd. etrans; [apply R3|]. tauto.
  - right. split; [done|]. split; [done|]. intros Hc. apply R3 in Hc. tauto.
Qed.

Lemma removal_runs e :
  system_ok (Some (RemoveConnectionInLoop c)) e → objects e !! c = Some x → getLoop x = Some l →
  state_ (sc_conn x) = kDisConnected → is_in_map e c → ¬ is_removing e c →
  ∃ e', in_server (removeConnection c) e = Ok (tt, e') ∧ moved None e e'.
Proof.
  intros Hok Hx Hl Hst Him Hrm.
  destruct (removeConnection_cases c (sy_server e) (sk_server _ _ Hok) Him Hrm) as (s' & E & Hc).
  assert (Hinv := removeConnection_inv c (sy_server e) s' E).
  destruct (loop_here (loop_ (server_of e)) (sv_loops (sy_server e))).
  - destruct (removal_in_loop_runs e Hok Hx Hl Hst Him Hrm) as (e' & E' & Hok' & _). exists e'. split; [|done].
    unfold in_server in *. revert E'. mcbn. by rewrite E, Hinv.
  - destruct Hinv as (ls & Eq & Es). destruct Hc as (Hs' & _).
    exists (e <| sy_server := s' |>). split; [unfold in_server; mcbn; by rewrite E|].
    apply (system_ok_told (f := RemoveConnectionInLoop c) (l' := loop_ (server_of e)) (m := connection_map_ (server_of e)) Hok Hx Hl Him);
      [split; try done|done].
    + by rewrite Es.
    + rewrite Es. simpl. by destruct (server_of e).
    + by rewrite Es.
    + intros d _. by rewrite Es.
    + by left.
Qed.
End one_conn.

(** The removal reads of the object only what does not change. *)
Lemma queue_in_conns o f (v : TcpServer L C U) (conns conns' : gmap positive (ServerConn L U)) (ls : LS) :
  queue_in o f (mkServerState v conns' ls) =
    ('(_, s) ← queue_in o f (mkServerState v conns ls); Ok (tt, mkServerState (sv_server s) conns' (sv_loops s))).
Proof.
  unfold queue_in, in_loops. destruct o as [l|]; [|done]. mcbn. simpl. mcbn.
  by destruct (loop_queue l f ls) as [[[] ls']|].
Qed.

Lemma removal_write_back c x t e e' :
  objects e !! c = Some x → TcpConnection.name_ t = name_of x →
  in_server (removeConnection c) (write_back c t e) = Ok (tt, e') →
  ∃ e3, in_server (removeConnection c) e = Ok (tt, e3) ∧ write_back c t e3 = e'.
Proof.
  intros Hx Hn. destruct e as [[v conns ls] log]. unfold objects in Hx. simpl in Hx.
  set (conns' := alter (set_field sc_conn (λ _, t)) c conns).
  assert (conns' !! c = Some (x <| sc_conn := t |>)) as Hx' by (unfold conns'; rewrite lookup_alter_eq, Hx; done).
  assert (removeConnection c (mkServerState v conns' ls) =
    '(_, s) ← removeConnection c (mkServerState v conns ls); Ok (tt, mkServerState (sv_server s) conns' (sv_loops s))) as E.
  { assert (removeConnectionInLoop c (mkServerState v conns' ls) =
      '(_, s) ← removeConnectionInLoop c (mkServerState v conns ls); Ok (tt, mkServerState (sv_server s) conns' (sv_loops s))) as E1.
    { unfold removeConnectionInLoop.
      rewrite (M_bind_ok _ _ _ _ _ (the_connection_ok (mkServerState v conns' ls) c _ Hx')).
      rewrite (M_bind_ok _ _ _ _ _ (the_connection_ok (mkServerState v conns ls) c _ Hx)).
      assert (name_of (x <| sc_conn := t |>) = name_of x) as -> by done. apply queue_in_conns. }
    unfold removeConnection, server, gets. mcbn. cbn [sv_server sv_loops].
    destruct (loop_here (loop_ v) ls); [exact E1|apply queue_in_conns]. }
  assert (∀ s, removeConnection c (mkServerState v conns ls) = Ok (tt, s) → sv_conns s = conns) as Hc.
  { intros s Hs. apply removeConnection_inv in Hs. simpl in Hs. destruct (loop_here _ _).
    - by apply removeConnectionInLoop_inv in Hs as (y & l & ls' & _ & _ & _ & ->).
    - by destruct Hs as (ls' & _ & ->). }
  unfold write_back, in_server. mcbn. simpl. fold conns'. rewrite E.
  destruct (removeConnection c (mkServerState v conns ls)) as [[[] s]|]; [|done]. intros [= <-].
  eexists. split; [done|]. specialize (Hc s eq_refl). destruct s. simpl in *. by subst.
Qed.

(** [handleClose] of a connection that is up, after a read perhaps: down once, then
    the removal. *)
Definition finish_code (c : positive) (o : outcome (unit * Conn)) : outcome (unit * S) :=
  '(_, s) ← o; Ok (tt, write_back c (cs_conn s) (cs_env s)).

Lemma closed_told c l x e s2 i :
  system_ok None e → objects e !! c = Some x → getLoop x = Some l → is_up (state_ (sc_conn x)) →
  conn_frame c l (channel_ x) e (cs_env s2) → posted_now c l (cs_env s2) = posted_now c l e →
  channel_events (Reactor := conn_reactor c l (channel_ x)) (cs_env s2) = kNoneEvent →
  cs_conn s2 = (sc_conn x) <| input_buffer_ := i |> <| state_ := kDisConnected |> → buffer_wf i →
  kv_sent (kview_of (view (cs_env s2) : K)) = kv_sent (kview_of (view e : K)) →
  moved (Some (RemoveConnectionInLoop c)) e (after_code c x s2 (down (server_of e))).
Proof.
  intros Hok Hx Hl Hup Hf Hp Hev Et Hi Hk. assert (Hob := sk_objects _ _ Hok c x Hx). assert (Hph := ob_phase _ _ _ _ Hob).
  assert (state_ (sc_conn x) ≠ kConnecting) as Hnew by by destruct Hup as [-> | ->].
  apply (conn_step c l x None None (Some (RemoveConnectionInLoop c)) e s2 [] (down (server_of e)));
    rewrite ?Et; try done; simpl.
  - by rewrite app_nil_r.
  - destruct (ob_made _ _ _ _ Hob). by split.
  - by right.
  - intros f Hfi. by apply elem_of_nil in Hfi.
  - intros _. left. apply (pf_in_map _ _ _ _ Hph). by destruct Hup as [-> | ->].
  - intros m Hw. by destruct Hnew; apply (pf_waiting _ _ _ _ Hph m).
  - intros _ _. by right.
  - rewrite told_own. assert (Ht := pf_told _ _ _ _ Hph). destruct Hup as [E1|E1]; rewrite E1 in Ht;
      destruct Ht as (ms & -> & Hms); exists ms; by rewrite <- app_assoc.
  - apply gives_nothing; rewrite ?Et; try done. by intros [|].
Qed.

Lemma close_runs c l x e s1 i :
  system_ok None e → objects e !! c = Some x → getLoop x = Some l → is_up (state_ (sc_conn x)) →
  conn_frame c l (channel_ x) e (cs_env s1) → posted_now c l (cs_env s1) = posted_now c l e →
  cs_conn s1 = (sc_conn x) <| input_buffer_ := i |> → buffer_wf i →
  kv_sent (kview_of (view (cs_env s1) : K)) = kv_sent (kview_of (view e : K)) →
  ∃ e', finish_code c (handleClose (Reactor0 := conn_reactor c l (channel_ x)) (run_callback c) s1) = Ok (tt, e') ∧
    moved None e e'.
Proof.
  intros Hok Hx Hl Hup Hf Hp Et Hi Hk. assert (Hob := sk_objects _ _ Hok c x Hx). assert (Hm := ob_made _ _ _ _ Hob).
  destruct (pf_in_map _ _ _ _ (ob_phase _ _ _ _ Hob)) as [Him Hrm]; [by destruct Hup as [-> | ->]|].
  destruct (handleClose_ok (RL := conn_reactor_laws c l (channel_ x) e) (run_callback c) s1 Hf)
    as (e2 & E & Hf2 & Hsw & Hev & Hp2).
  set (t2 := (cs_conn s1) <| state_ := kDisConnected |>) in *. set (s2 := mkConnState t2 e2) in *.
  assert (cs_conn s2 = (sc_conn x) <| input_buffer_ := i |> <| state_ := kDisConnected |>) as Et2
    by (unfold s2, t2; simpl; by rewrite Et).
  assert (posted_now c l (cs_env s2) = posted_now c l e) as Hps by by rewrite <- Hp.
  assert (name_of (x <| sc_conn := t2 |>) = name_of x) as Hn by (change (TcpConnection.name_ (cs_conn s2) = name_of x); by rewrite Et2).
  destruct (closed_told c l x e s2 i) as [Hmid Hgr]; try done; [by rewrite <- Hk; exact (sw_sent _ _ Hsw)|].
  assert (conn_ran c l x e (after_code c x s2 (down (server_of e))) t2 [] (down (server_of e))) as Hran.
  { apply (after_code_ran c l x None); try done. by rewrite app_nil_r. }
  destruct (removal_runs c l (x <| sc_conn := t2 |>) (after_code c x s2 (down (server_of e))))
    as (e' & Er & Hok'); try done.
  { by rewrite (cr_objects _ _ _ _ _ _ _ _ Hran), lookup_insert_eq. }
  { by apply (ran_map _ _ _ Hran). }
  { by rewrite (ran_removing _ _ _ Hran). }
  assert (after_code c x s2 (down (server_of e)) = write_back c t2 (cs_env (noted s2 (down (server_of e))))) as Eem.
  { assert (TcpConnection.name_ t2 = name_of x) as Hn2 by exact Hn.
    unfold after_code, noted. cbn [cs_conn cs_env s2]. by rewrite Hn2. }
  rewrite Eem in Er.
  assert (objects (cs_env (noted s2 (down (server_of e)))) !! c = Some x) as Hx3.
  { unfold objects, noted. simpl. by rewrite (cf_rest _ _ _ _ _ Hf2). }
  destruct (removal_write_back c x t2 _ e' Hx3 Hn Er) as (e3 & E3 & Ew).
  exists e'. split; [|split; [apply Hok'|exact (grown_trans _ _ _ _ Hgr (mv_grown _ _ _ _ Hok'))]]. unfold finish_code.
  rewrite (E : handleClose (Reactor0 := conn_reactor c l (channel_ x)) (run_callback c) s1 = _).
  rewrite (M_bind_ok _ _ _ _ _ (connection_callback_runs c (server_of e) s2 ltac:(rewrite Et2; apply Hm))).
  unfold callback_opt, conn, gets. mcbn. change (cs_conn (noted s2 _)) with t2.
  assert (TcpConnection.close_callback_ t2 = Some ServerClose) as ->
    by (change t2 with (cs_conn s2); rewrite Et2; apply Hm).
  simpl. unfold in_env. mcbn. change (state_ (cs_conn s2)) with kDisConnected. rewrite E3. mcbn.
  do 2 f_equal. exact Ew.
Qed.

(** Wanted events are those of a connection that is up. *)
Lemma wanted_up cur c x l e :
  system_ok cur e → objects e !! c = Some x → getLoop x = Some l →
  conn_events l (channel_ x) (loops_of e) ≠ kNoneEvent → is_up (state_ (sc_conn x)).
Proof.
  intros Hok Hx Hl Hev. destruct (object_loop c l x cur e Hok Hx Hl) as (_ & w & Hw).
  destruct (cf_quiet _ _ _ _ _ _ Hw) as [|Hq]; [done|]. destruct Hev.
  by rewrite conn_events_chan, (cf_at _ _ _ _ _ _ Hw).
Qed.

Section event_handlers.
Variables (c : positive) (l : L) (x : ServerConn L U) (e : S).
Hypothesis Hok : system_ok None e.
Hypothesis Hx : objects e !! c = Some x.
Hypothesis Hl : getLoop x = Some l.
Hypothesis Hup : is_up (state_ (sc_conn x)).
#[local] Instance handler_reactor : Reactor K S := conn_reactor c l (channel_ x).

Lemma handleClose_runs :
  ∃ e', run_conn c x (handleClose (run_callback c)) e = Ok (tt, e') ∧ moved None e e'.
Proof.
  apply (close_runs c l x e (mkConnState (sc_conn x) e) (input_buffer_ (sc_conn x))); try done.
  - by apply (frame_start c l x None).
  - by destruct (sc_conn x).
  - apply (ob_made _ _ _ _ (sk_objects _ _ Hok c x Hx)).
Qed.

Lemma handleError_runs :
  ∃ e', run_conn c x (handleError (run_callback c)) e = Ok (tt, e') ∧ moved None e e'.
Proof.
  assert (Hf := frame_start c l x None e Hok Hx Hl).
  destruct (handleError_ok (RL := conn_reactor_laws c l (channel_ x) e) (run_callback c) (mkConnState (sc_conn x) e) Hf)
    as (k & E & Hk & Hf1).
  set (s1 := set_field cs_env (replace_view k) (mkConnState (sc_conn x) e)) in *.
  destruct (close_runs c l x e s1 (input_buffer_ (sc_conn x)) Hok Hx Hl Hup Hf1) as (e' & E' & Hok').
  - destruct (reactor_kernel (ReactorLaws := conn_reactor_laws c l (channel_ x) e) e k Hf) as (_ & _ & Hp & _);
      [by rewrite Hk..|exact Hp].
  - by destruct (sc_conn x).
  - apply (ob_made _ _ _ _ (sk_objects _ _ Hok c x Hx)).
  - etrans; [|exact (f_equal kv_sent Hk)]. exact (f_equal (λ k, kv_sent (kview_of k)) (view_replace k e)).
  - exists e'. split; [|done]. exact (eq_trans (f_equal (finish_code c) E) E').
Qed.

Lemma handleRead_runs receive_time :
  room_for (input_buffer_ (sc_conn x)) extra_buffer_size →
  ∃ e', run_conn c x (TcpConnection.handleRead (run_callback c) (run_message c) receive_time) e = Ok (tt, e') ∧
    moved None e e'.
Proof.
  intros Hroom. assert (Hm := ob_made _ _ _ _ (sk_objects _ _ Hok c x Hx)).
  assert (Hs := conn_start c l x None e Hok Hx Hl ltac:(by destruct Hup as [-> | ->])).
  destruct (conn_read_ok (RL := conn_reactor_laws c l (channel_ x) e) (run_callback c) (run_message c) receive_time _ Hs Hroom)
    as (s1 & E & Hs1 & _ & Hin & _ & _ & Hp & Hk).
  set (a := (sys_readv _ _ _).1) in E.
  assert (finish_code c ((if a is RdOk (_ :: _) then
      match TcpConnection.message_callback_ (sc_conn x) with Some cb => run_message c cb receive_time | None => mret tt end
    else handleClose (run_callback c)) s1) =
    run_conn c x (TcpConnection.handleRead (run_callback c) (run_message c) receive_time) e) as <-.
  { symmetry. exact (f_equal (finish_code c) E). }
  unfold only_input in Hin. cbn [cs_conn] in Hin. set (i := input_buffer_ (cs_conn s1)) in Hin.
  assert (∃ e', finish_code c (handleClose (run_callback c) s1) = Ok (tt, e') ∧ moved None e e') as Hclose.
  { apply (close_runs c l x e s1 i Hok Hx Hl Hup (ck_env _ Hs1) Hp Hin (ck_input _ Hs1)). exact (f_equal kv_sent Hk). }
  destruct a as [[|b bs]|errno]; [exact Hclose| |exact Hclose].
  set (ns := match message_callback_ (server_of e) with Some u => [Message u] | None => [] end).
  exists (after_code c x s1 ns). split.
  - rewrite (mb_message _ _ Hm). unfold ns, finish_code. destruct (message_callback_ (server_of e)) as [u|].
    + simpl. unfold log_note, modify. mcbn. unfold after_code.
      assert (TcpConnection.name_ (cs_conn s1) = name_of x) as <- by by rewrite Hin. done.
    + simpl. by rewrite after_code_nil.
  - apply (conn_up_told c l x None None e s1 []); try done.
    + by rewrite app_nil_r.
    + intros f Hf. by apply elem_of_nil in Hf.
    + exists (state_ (sc_conn x)), i, (output_buffer_ (sc_conn x)). split; [|done]. rewrite Hin. by destruct (sc_conn x).
    + unfold ns. destruct (message_callback_ _) as [u|]; [|constructor]. constructor; [by exists u|constructor].
    + apply gives_nothing; rewrite ?Hin; try done. exact (f_equal kv_sent Hk).
Qed.
End event_handlers.
End invariant.
