(* ===== verification/ServerSteps.v ===== *)
(** * The steps of the server keep its invariant

    The steps of ServerRun.v, one by one: a functor that a loop takes, a report of
    the poller, a call of the application, a new connection, the end of an object.
    [enabled] says when each can happen; [perform_runs] is that it then succeeds and
    keeps the invariant, and what it does to the queues and the map. *)

From Stdlib Require Import Init.Byte.
From S2P Require Import Prelude Kernel Buffer Channel Text InetAddress TcpConnection EventLoopThreadPool TcpServer ConnLoops ServerRun.

Section steps.
Context {K LS L C U : Type} `{!EqDecision L, !EqDecision U, !Kernel K, !KernelLaws K, !Loops K LS L, !LoopsLaws K LS L}
  `{!ConnLoops K LS L, !ConnViews K LS L, !ConnLoopsLaws K LS L}.
Abbreviation S := (System LS L C U).
Implicit Types (e : S) (x : ServerConn L U) (l m : L).
Abbreviation name_of x := (TcpConnection.name_ (sc_conn x)).
Abbreviation server_of e := (sv_server (sy_server e)).
Abbreviation tasks l e := (pending l (loops_of e)).
Abbreviation is_in_map e c := (in_map (sy_server e) c).
Abbreviation is_removing e c := (removing (sy_server e) c).

Abbreviation grown := (grown_by None).
Abbreviation moved := (moved_by None).
Abbreviation up v := (told_state v kConnected).
Abbreviation down v := (told_state v kDisConnected).

(** ** Taking a functor *)

Definition task_cur (o : option LoopTask) : option ServerFunctor :=
  match o with
  | Some (ServerTask (ConnectionDestroyed c)) => Some (ConnectionDestroyed c)
  | Some (ServerTask (RemoveConnectionInLoop c)) => Some (RemoveConnectionInLoop c)
  | _ => None
  end.

(** The loop [l] took [o] from its queue. *)
Record taken (l : L) (o : option LoopTask) e (ls : LS) : Prop := Taken {
  tk_agree : loops_agree nothing (loops_of e) ls;
  tk_tasks m : tasks m e = (if decide (m = l) then option_list o else []) ++ pending m ls
}.

Lemma system_ok_taken l o e ls :
  system_ok None e → taken l o e ls → system_ok (task_cur o) (with_loops_of ls e).
Proof.
  intros [H1 H2 H3 H4 H5 H6 H7 H8 H9] [Hag Ht].
  assert (∀ m t, t ∈ pending m ls → t ∈ tasks m e) as Hin.
  { intros m t Hm. rewrite Ht. apply elem_of_app. by right. }
  assert (∀ m t, t ∈ tasks m e → t ∈ pending m ls ∨ o = Some t) as Hout.
  { intros m t. rewrite Ht. intros [Hm|Hm]%elem_of_app; [|by left]. right. case_decide; [|by apply elem_of_nil in Hm].
    destruct o as [u|]; [|by apply elem_of_nil in Hm]. apply list_elem_of_singleton in Hm. by subst. }
  assert (∀ c, is_removing (with_loops_of ls e) c → is_removing e c) as Hr.
  { intros c. unfold removing. rewrite !elem_of_waiting. apply Hin. }
  split; try done.
  - apply server_ok_less; [done|apply Hag|]. intros m. split; [|apply Hag].
    exists (omap server_task (if decide (m = l) then option_list o else [])).
    rewrite !waiting_pending, <- omap_app. by rewrite <- Ht.
  - intros m Hm. by apply (H4 m), Hin.
  - intros c x Hx. destruct (H5 c x Hx) as [Hm (k & w & Hl & [A1 A2 A3 A4 A5]) [B1 B2 B3 B4 B5]]. split; [done| |].
    + exists k, w. split; [done|]. destruct (la_chan _ _ _ Hag k (channel_ x)) as [Ec Ea]; [by intros []|].
      split; try done; change (loops_of (with_loops_of ls e)) with ls.
      * by rewrite Ec.
      * rewrite Ea. intros [?|[[?|Ho]%Hout|?]]%A5; [by left|right; by left| |done]. right. right. by rewrite Ho.
    + split; try done; change (loops_of (with_loops_of ls e)) with ls.
      * intros m Hm'. by apply (B1 m), Hin.
      * intros Hst m f Hm'. by apply (B2 Hst m f), Hin.
      * intros Hst. destruct (B3 Hst) as [? Hn]. split; [done|]. by intros ?%Hr.
      * intros Hst Him. destruct (B4 Hst Him) as [Hrm|?]; [|done]. unfold removing in *. rewrite elem_of_waiting in *.
        destruct (Hout _ _ Hrm) as [?| ->]; [by left|by right].
  - intros m i c f Hi. change (pending m ls !! i = Some (ConnTask c f)) in Hi.
    set (pre := if decide (m = l) then option_list o else []) in *.
    assert (tasks m e !! (length pre + i)%nat = Some (ConnTask c f)) as Hi'.
    { rewrite Ht. fold pre. rewrite lookup_app_r by lia. by replace (length pre + i - length pre)%nat with i by lia. }
    destruct (H7 m _ c f Hi') as (x & Hx & Hl & Hf & Hlife). exists x. do 3 (split; [done|]).
    destruct Hlife as [?|(j & Hj & Hd)]; [by left|right]. exists (j - length pre)%nat. split; [lia|].
    change (pending m ls !! (j - length pre)%nat = Some (ServerTask (ConnectionDestroyed c))).
    rewrite Ht in Hd. fold pre in Hd. rewrite lookup_app_r in Hd by lia. exact Hd.
Qed.

(** What is known of the functor that was taken. *)
Definition task_ready (o : option LoopTask) e : Prop :=
  match o with
  | None => True
  | Some (ServerTask Listen) => False
  | Some (ServerTask (ConnectionEstablished c)) => ∃ x l, objects e !! c = Some x ∧ getLoop x = Some l ∧
      state_ (sc_conn x) = kConnecting ∧ ∀ m, ServerTask (ConnectionEstablished c) ∉ tasks m e
  | Some (ServerTask (ConnectionDestroyed c)) => ∃ x l, objects e !! c = Some x ∧ getLoop x = Some l ∧
      state_ (sc_conn x) = kDisConnected
  | Some (ServerTask (RemoveConnectionInLoop c)) => ∃ x l, objects e !! c = Some x ∧ getLoop x = Some l ∧
      state_ (sc_conn x) = kDisConnected ∧ is_in_map e c ∧ ¬ is_removing e c
  | Some (ConnTask c f) => ∃ x l, objects e !! c = Some x ∧ getLoop x = Some l ∧ functor_fits x f ∧
      state_ (sc_conn x) ≠ kConnecting ∧ owned c l e
  end.

Lemma object_loop_some e c x : system_ok None e → objects e !! c = Some x → ∃ l, getLoop x = Some l.
Proof. intros Hok Hx. destruct (ob_channel _ _ _ _ (sk_objects _ _ Hok c x Hx)) as (l & _ & Hl & _). by exists l. Qed.

(** A functor of the server is in one queue, once. *)
Lemma taken_nodup l f e ls : system_ok None e → taken l (Some (ServerTask f)) e ls → ServerTask f ∉ pending l ls.
Proof.
  intros Hok [Hag Ht] Hin. assert (Hnd := so_nodup _ (sk_server _ _ Hok) l). rewrite waiting_pending in Hnd.
  specialize (Ht l). rewrite decide_True in Ht by done. unfold loops_of in Ht. rewrite Ht in Hnd. cbn in Hnd.
  apply NoDup_cons in Hnd as [Hn _]. apply Hn. rewrite <- elem_of_waiting in Hin. by rewrite <- waiting_pending.
Qed.

Lemma task_ready_taken l o e ls :
  system_ok None e → taken l o e ls → task_ready o (with_loops_of ls e).
Proof.
  intros Hok Htk. destruct o as [t|]; [|done].
  assert (tasks l e !! 0%nat = Some t) as H0.
  { rewrite (tk_tasks _ _ _ _ Htk l), decide_True by done. done. }
  assert (t ∈ tasks l e) as Hin by by apply list_elem_of_lookup_2 in H0.
  assert (∀ m u, u ∈ pending m ls → u ∈ tasks m e) as Hmono.
  { intros m u Hm. rewrite (tk_tasks _ _ _ _ Htk m). apply elem_of_app. by right. }
  assert (∀ f, t = ServerTask f → f ∈ waiting l (loops_of e)) as Hw.
  { intros f ->. by apply elem_of_waiting. }
  assert (∀ c, t = ServerTask (ConnectionEstablished c) ∨ t = ServerTask (ConnectionDestroyed c) →
    ∃ x, objects e !! c = Some x ∧ getLoop x = Some l) as Hobj.
  { intros c Hc. assert (getLoop <$> objects e !! c = Some (Some l)) as Hq.
    { apply (so_queued _ (sk_server _ _ Hok)). destruct Hc as [Hc|Hc]; apply Hw in Hc; tauto. }
    destruct (objects e !! c) as [x|]; [|done]. exists x. simpl in Hq. split; congruence. }
  destruct t as [[|c|c|c]|c f]; simpl.
  - by apply (sk_listen _ _ Hok l).
  - destruct (Hobj c) as (x & Hx & Hl); [by left|]. exists x, l. split; [done|]. split; [done|].
    assert (Hph := ob_phase _ _ _ _ (sk_objects _ _ Hok c x Hx)). split; [by apply (pf_waiting _ _ _ _ Hph l)|].
    intros m Hm. change (ServerTask (ConnectionEstablished c) ∈ pending m ls) in Hm.
    assert (m = l) as ->; [|by apply (taken_nodup l (ConnectionEstablished c) e ls)].
    assert (getLoop <$> objects e !! c = Some (Some m)) as Hq.
    { apply (so_queued _ (sk_server _ _ Hok)). left. by apply elem_of_waiting, Hmono. }
    rewrite Hx in Hq. simpl in Hq. congruence.
  - destruct (Hobj c) as (x & Hx & Hl); [by right|]. exists x, l. split; [done|]. split; [done|].
    assert (Hph := ob_phase _ _ _ _ (sk_objects _ _ Hok c x Hx)).
    destruct (decide (state_ (sc_conn x) = kDisConnected)) as [|Hst]; [done|].
    exfalso. by apply (so_destroyed _ (sk_server _ _ Hok) l c (Hw _ eq_refl)), (pf_in_map _ _ _ _ Hph).
  - assert (l = loop_ (server_of e)) as El by exact (so_elsewhere _ (sk_server _ _ Hok) l c (Hw _ eq_refl)).
    assert (is_removing e c) as Hrm by (unfold removing; rewrite <- El; by apply Hw).
    assert (is_in_map e c) as Him by exact (so_removing _ (sk_server _ _ Hok) c Hrm).
    destruct (in_map_entry _ c (sk_server _ _ Hok) Him) as (x & Hx & _).
    destruct (object_loop_some e c x Hok Hx) as (m & Hm).
    assert (Hph := ob_phase _ _ _ _ (sk_objects _ _ Hok c x Hx)). exists x, m. do 2 (split; [done|]).
    split; [|split; [done|]].
    + destruct (decide (state_ (sc_conn x) = kDisConnected)) as [|Hst]; [done|].
      by destruct (proj2 (pf_in_map _ _ _ _ Hph Hst)).
    + unfold removing. rewrite elem_of_waiting. simpl. rewrite <- El. by apply (taken_nodup l _ e).
  - destruct (sk_tasks _ _ Hok l 0 c f H0) as (x & Hx & Hl & Hf & Hlife). exists x, l. do 3 (split; [done|]).
    assert (Hph := ob_phase _ _ _ _ (sk_objects _ _ Hok c x Hx)). split.
    + intros Hst. by apply (pf_new _ _ _ _ Hph Hst l f).
    + destruct Hlife as [?|(j & Hj & Hd)]; [by left|right].
      assert (Hl' := tk_tasks _ _ _ _ Htk l). rewrite decide_True in Hl' by done. rewrite Hl' in Hd.
      destruct j as [|j]; [lia|]. exact (list_elem_of_lookup_2 (pending l ls) j _ Hd).
Qed.

(** ** Running it *)

(** Memory for what a waiting [sendInLoop] may have to buffer. *)
Definition task_room (o : option LoopTask) e : Prop :=
  match o with
  | Some (ConnTask c (SendInLoop data)) => ∀ x, objects e !! c = Some x → state_ (sc_conn x) = kConnected →
      room_for (output_buffer_ (sc_conn x)) (zlen data)
  | _ => True
  end.

Lemma mine_none c : mine c None.
Proof. by split. Qed.

(** Another callback than the one for the connection. *)
Lemma note_runs c l x e u :
  system_ok None e → objects e !! c = Some x → getLoop x = Some l → owned c l e →
  connection_callback_ (server_of e) ≠ Some u →
  ∃ e', run_conn c x (run_callback c (App u)) e = Ok (tt, e') ∧ moved None e e'.
Proof.
  intros Hok Hx Hl Hown Hu. set (ns := [Called u (state_ (sc_conn x))]).
  exists (after_code c x (mkConnState (sc_conn x) e) ns). split; [done|].
  apply (conn_kept c l x None e _ ns); try done; [by apply (frame_start c l x None)|].
  unfold ns. cbn [fmap list_fmap omap list_omap]. unfold told. simpl. rewrite decide_True by done.
  by rewrite decide_False.
Qed.

(** What a functor gives: [sendInLoop] its data, while the connection is connected. *)
Definition data_gift (c : positive) (data : list byte) e (g : option gift) : Prop :=
  if sending c e then ∃ x bs, objects e !! c = Some x ∧ g = Some (Streamed c bs) ∧ sent_whole (sockfd_ (sc_conn x)) data bs
  else g = None.
Definition task_gift (o : option LoopTask) e (g : option gift) : Prop :=
  match o with Some (ConnTask c (SendInLoop data)) => data_gift c data e g | _ => g = None end.

Lemma conn_functor_runs c l x e f :
  system_ok None e → objects e !! c = Some x → getLoop x = Some l → functor_fits x f →
  state_ (sc_conn x) ≠ kConnecting → owned c l e → task_room (Some (ConnTask c f)) e →
  ∃ e' g, run_conn c x (run_conn_functor (Reactor0 := conn_reactor c l (channel_ x)) (run_callback c) f) e = Ok (tt, e') ∧
    moved_by g None e e' ∧ task_gift (Some (ConnTask c f)) e g.
Proof.
  intros Hok Hx Hl Hf Hst Hown Hroom. assert (Hm := ob_made _ _ _ _ (sk_objects _ _ Hok c x Hx)).
  destruct f as [|data| | |]; simpl in Hf; [| |done| |].
  - destruct (shutDownInLoop_runs c l x None e) as (e' & E & H); auto using mine_none. by exists e', None.
  - unfold task_gift, data_gift, sending. rewrite Hx. case_bool_decide as Hc.
    + destruct (sendInLoop_runs c l x None e data) as (e' & bs & E & H & Hw); auto using mine_none.
      exists e', (Some (Streamed c bs)). split; [done|]. split; [done|]. by exists x, bs.
    + assert (run_conn c x (run_conn_functor (Reactor0 := conn_reactor c l (channel_ x)) (run_callback c) (SendInLoop data)) e =
        run_conn c x (mret tt) e) as ->.
      { unfold run_conn, run_conn_functor, sendInLoop, conn, gets. mcbn. cbn [cs_conn].
        assert (giving_up (sc_conn x) = true) as E; [|by rewrite E].
        unfold giving_up. revert Hc Hst. by destruct (state_ (sc_conn x)). }
      destruct (nothing_runs c x None e Hok Hx) as (e' & E & H). by exists e', None.
  - destruct Hf as [cb Hcb]. assert (Hw := mb_write _ _ Hm). rewrite Hcb in Hw.
    destruct (write_complete_callback_ (server_of e)) as [u|] eqn:Eu; [|done]. injection Hw as ->.
    destruct (note_runs c l x e u Hok Hx Hl Hown) as (e' & E & Hok').
    { intros Hc. by apply (sk_callbacks _ _ Hok u Hc). }
    exists e', None. split; [|done]. rewrite <- E. unfold run_conn, run_conn_functor, conn, gets. mcbn. cbn [cs_conn]. by rewrite Hcb.
  - destruct Hf as [cb Hcb]. destruct (mb_high _ _ Hm cb Hcb) as (u & -> & Hu).
    destruct (note_runs c l x e u Hok Hx Hl Hown Hu) as (e' & E & Hok').
    exists e', None. split; [|done]. rewrite <- E. unfold run_conn, run_conn_functor, conn, gets. mcbn. cbn [cs_conn]. by rewrite Hcb.
Qed.

Lemma run_task_runs t e :
  system_ok (task_cur (Some t)) e → task_ready (Some t) e → task_room (Some t) e →
  ∃ e' g, run_task t e = Ok (tt, e') ∧ moved_by g None e e' ∧ task_gift (Some t) e g ∧
    ∀ c, t = ServerTask (RemoveConnectionInLoop c) → ¬ is_in_map e' c.
Proof.
  destruct t as [[|c|c|c]|c f]; simpl; [done|..].
  - intros Hok (x & l & Hx & Hl & Hst & Hn) _. rewrite (with_conn_ok c l x) by done.
    destruct (established_runs c l x e) as (e' & E & H); [done..|]. by exists e', None.
  - intros Hok (x & l & Hx & Hl & Hst) _. rewrite (with_conn_ok c l x) by done.
    destruct (destroyed_runs c l x e) as (e' & E & H); [done..|]. by exists e', None.
  - intros Hok (x & l & Hx & Hl & Hst & Him & Hr) _.
    destruct (removal_in_loop_runs c l x e) as (e' & E & H & Hn); [done..|]. exists e', None.
    do 3 (split; [done|]). by intros d [= <-].
  - intros Hok (x & l & Hx & Hl & Hf & Hst & Hown) Hroom. rewrite (with_conn_ok c l x) by done.
    destruct (conn_functor_runs c l x e f) as (e' & g & E & H & Hg); [done..|]. by exists e', g.
Qed.

(** ** What the surroundings can do *)

(** The handlers that close a connection; a report closes it once at most. *)
Definition closes_by_hup (revents : Z) : bool := has revents EPOLLHUP && negb (has revents EPOLLIN).
Definition reads_by (revents : Z) : bool := has revents (Z.lor EPOLLIN EPOLLPRI).
Definition closes_once (revents : Z) : bool :=
  negb (closes_by_hup revents && reads_by revents) &&
  negb (has revents EPOLLERR && (closes_by_hup revents || reads_by revents)).

(** The connection at [c] exists, and its channel wants events. *)
Definition watched c revents e : Prop :=
  ∃ x l, objects e !! c = Some x ∧ getLoop x = Some l ∧ conn_events l (channel_ x) (loops_of e) ≠ kNoneEvent ∧
    (reads_by revents = true → room_for (input_buffer_ (sc_conn x)) extra_buffer_size).

(** When a step can happen.  A descriptor that is accepted is one the kernel has
    just handed out; only channels that want events are reported, and never an error
    together with data or a hang-up; only pointers to objects that exist are called; memory suffices for what is buffered; an object is
    destroyed when no pointer of the server is left to it. *)
Definition enabled (a : action (K := K) (L := L) (U := U)) e : Prop :=
  match a with
  | Accept fd peer => ¬ fd_used fd (loops_of e) ∧ next_conn_id_ (server_of e) < int32_max
  | RunTask l => loop_alive l (loops_of e) ∧ task_room (head (tasks l e)) e
  | Event c revents _ => watched c revents e ∧ closes_once revents = true
  | Send _ c data => ∃ x, objects e !! c = Some x ∧
      (state_ (sc_conn x) = kConnected → room_for (output_buffer_ (sc_conn x)) (zlen data))
  | Shutdown _ c => is_Some (objects e !! c)
  | SetHighWaterMark _ c u => is_Some (objects e !! c) ∧ connection_callback_ (server_of e) ≠ Some u
  | Destroy c => is_Some (objects e !! c) ∧ ¬ is_in_map e c ∧
      ∀ l, (ServerTask (ConnectionEstablished c) ∉ tasks l e) ∧ (ServerTask (ConnectionDestroyed c) ∉ tasks l e)
  | KernelStep k => kv_sent (kview_of k) = kv_sent (kview_of (view (loops_of e) : K)) ∧
      kv_interest (kview_of k) = kv_interest (kview_of (view (loops_of e) : K)) ∧
      kv_eventfd (kview_of k) = kv_eventfd (kview_of (view (loops_of e) : K))
  end.

Definition run_step e e' : Prop := ∃ a, enabled a e ∧ perform a e = Ok (tt, e').

(** ** Every step keeps the invariant *)

Definition in_thread o e : S := with_loops_of (run_as o (loops_of e)) e.

Lemma in_thread_ok o e : system_ok None e →
  as_thread o e = Ok (tt, in_thread o e) ∧ system_ok None (in_thread o e) ∧
  (∀ l p, conn_events l p (loops_of (in_thread o e)) = conn_events l p (loops_of e)) ∧
  (∀ l, tasks l (in_thread o e) = tasks l e).
Proof.
  intros Hok. assert (Hc := calm_thread o e (so_loops _ (sk_server _ _ Hok))).
  split; [done|]. split; [by apply system_ok_calm|]. split; [|apply Hc].
  intros l p. rewrite !conn_events_chan. change (loops_of (in_thread o e)) with (run_as o (loops_of e)).
  by rewrite (proj1 (proj1 (ca_views _ _ Hc) l p)).
Qed.

Lemma in_thread_grown o e : system_ok None e → grown e (in_thread o e).
Proof.
  intros Hok. destruct (in_thread_ok o e Hok) as (_ & _ & _ & Ht). apply grown_calm; [done..|].
  destruct (run_as_law o (loops_of e) (so_loops _ (sk_server _ _ Hok))) as (_ & _ & Hv & _).
  exact (f_equal (λ k : K, kv_sent (kview_of k)) Hv).
Qed.

(** The functor that the step takes from the queue of the loop [m]. *)
Definition taking (a : action (K := K) (L := L) (U := U)) (m : L) e : option LoopTask :=
  match a with
  | RunTask l => if decide (m = l) then
      match loop_take l (run_as (Some l) (loops_of e)) with Ok (o, _) => o | Fault _ => None end else None
  | _ => None
  end.

(** What a step gives to the streams and the queues: the calls of [send], and the
    functors of [sendInLoop] that run. *)
Definition gift_of (a : action (K := K) (L := L) (U := U)) e (g : option gift) : Prop :=
  match a with
  | Send o c data => ∃ x l, objects e !! c = Some x ∧ getLoop x = Some l ∧ send_gift c l x data (in_thread o e) g
  | RunTask l => task_gift (taking a l e) e g
  | _ => g = None
  end.
(** One connection: its data in the queue of its loop, the one that was taken
    included. *)
Record flowed (a : action (K := K) (L := L) (U := U)) g e e' (c : positive) x x' : Prop := Flowed {
  fd_object : objects e' !! c = Some x';
  fd_loop : getLoop x' = getLoop x;
  fd_socket : sockfd_ (sc_conn x') = sockfd_ (sc_conn x);
  fd_stream : stream_of e' x' = stream_of e x ++ streamed g c;
  fd_queued l : getLoop x = Some l →
    queued_sends l e c ++ posted_by g c = omap (queued_data c) (option_list (taking a l e)) ++ queued_sends l e' c;
  fd_open : may_send (state_ (sc_conn x')) → may_send (state_ (sc_conn x))
}.

(** What a step does to the queues, the map and the objects. *)
Record advanced (a : action (K := K) (L := L) (U := U)) e e' : Prop := Advanced {
  ad_ok : system_ok None e';
  ad_tasks m : ∃ rest ts, tasks m e = option_list (taking a m e) ++ rest ∧ tasks m e' = rest ++ ts ∧
    ∀ d, ServerTask (ConnectionDestroyed d) ∈ ts → is_in_map e d;
  ad_map d : is_Some (objects e !! d) → is_in_map e' d → is_in_map e d;
  ad_flow : ∃ g, gift_of a e g ∧
    ∀ d y, a ≠ Destroy d → objects e !! d = Some y → ∃ y', flowed a g e e' d y y';
  ad_removed m d : taking a m e = Some (ServerTask (RemoveConnectionInLoop d)) → ¬ is_in_map e' d
}.

Lemma ad_objects a e e' d : advanced a e e' → a ≠ Destroy d → is_Some (objects e !! d) → is_Some (objects e' !! d).
Proof.
  intros Had Ha [y Hy]. destruct (ad_flow _ _ _ Had) as (g & _ & Hf). destruct (Hf d y Ha Hy) as [y' H]. exists y'. apply H.
Qed.

Lemma flow_flowed a g e e' c x x' :
  (∀ m, taking a m e = None) → flow g e e' c x x' → flowed a g e e' c x x'.
Proof. intros Ha [H1 H2 H3 H4 H5 H6]. split; try done. intros l Hl. by rewrite Ha, (H5 l Hl). Qed.

Lemma advanced_moved a g e e' :
  (∀ m, taking a m e = None) → gift_of a e g → moved_by g None e e' → advanced a e e'.
Proof.
  intros Ha Hg [Hok [Ht Hm Ho]]. split; [done| |auto| |].
  3: { intros m d. by rewrite Ha. }
  2: { exists g. split; [done|]. intros d y _ Hy. destruct (Ho d y Hy) as (y' & Hf). exists y'. by apply flow_flowed. }
  - intros m. destruct (Ht m) as (ts & E & Hd). exists (tasks m e), ts. by rewrite Ha.
Qed.

(** A functor was taken, then the code ran. *)
Lemma taken_flow l o e e0 ls g e' d y y' :
  (∀ m, taking (RunTask l) m e = if decide (m = l) then o else None) → (∀ m, tasks m e0 = tasks m e) →
  kv_sent (kview_of (view (loops_of e0) : K)) = kv_sent (kview_of (view (loops_of e) : K)) →
  taken l o e0 ls → kv_sent (kview_of (view ls : K)) = kv_sent (kview_of (view (loops_of e0) : K)) →
  flow g (with_loops_of ls e0) e' d y y' → flowed (RunTask l) g e e' d y y'.
Proof.
  intros Htk Ht Hk0 [_ Hp] Hk [H1 H2 H3 H4 H5 H6]. split; try done.
  - rewrite H4. unfold stream_of, sent_on. do 2 f_equal.
    change (kv_sent (kview_of (view (loops_of (with_loops_of ls e0)) : K))) with (kv_sent (kview_of (view ls : K))).
    by rewrite Hk, Hk0.
  - intros m Hm. rewrite (H5 m Hm), Htk. unfold queued_sends at 1. rewrite <- Ht, Hp, omap_app, <- app_assoc.
    by case_decide.
Qed.

Lemma run_functor_step l e :
  system_ok None e → enabled (RunTask l) e →
  ∃ e', perform (RunTask l) e = Ok (tt, e') ∧ advanced (RunTask l) e e'.
Proof.
  intros Hok [Ha Hroom]. destruct (in_thread_ok (Some l) e Hok) as (E0 & Hok0 & _ & Ht).
  assert (Hc := calm_thread (Some l) e (so_loops _ (sk_server _ _ Hok))).
  set (e0 := in_thread (Some l) e) in *.
  destruct (loop_take_law l (loops_of e0)) as (o & ls & E1 & Hfr & Hp);
    [apply (so_loops _ (sk_server _ _ Hok0))|by apply Hc|].
  assert (taken l o e0 ls) as Htk by (split; [apply Hfr|exact Hp]).
  assert (Hok1 := system_ok_taken l o e0 ls Hok0 Htk). assert (Hr := task_ready_taken l o e0 ls Hok0 Htk).
  assert (∀ m, taking (RunTask l) m e = if decide (m = l) then o else None) as Htaking.
  { intros m. unfold taking. change (run_as (Some l) (loops_of e)) with (loops_of e0). by rewrite E1. }
  assert (∀ e' g, moved_by g None (with_loops_of ls e0) e' → task_gift o e g →
    (∀ c, o = Some (ServerTask (RemoveConnectionInLoop c)) → ¬ is_in_map e' c) → advanced (RunTask l) e e') as Hadv.
  { intros e' g [Hok' [Gt Gm Go]] Hg Hrm. split; [done| |by intros d _ ?%Gm| |].
    2: { exists g. split; [unfold gift_of; by rewrite Htaking, decide_True|]. intros d y _ Hy.
         destruct (Go d y Hy) as (y' & Hf). exists y'.
         destruct (run_as_law (Some l) (loops_of e) (so_loops _ (sk_server _ _ Hok))) as (_ & _ & Hv0 & _).
         apply (taken_flow l o e e0 ls); [exact Htaking|exact Ht| |exact Htk|apply Hfr|exact Hf].
         exact (f_equal (λ k : K, kv_sent (kview_of k)) Hv0). }
    - intros m. destruct (Gt m) as (ts & E & Hd). exists (pending m ls), ts. rewrite Htaking, <- Ht, Hp.
      split; [by case_decide|]. by split.
    - intros m d. rewrite Htaking. case_decide; [|done]. apply Hrm. }
  assert (perform (RunTask l) e = match o with Some t => run_task t | None => mret tt end (with_loops_of ls e0)) as ->.
  { unfold perform. rewrite (M_bind_ok _ _ _ _ _ E0). by rewrite (M_bind_ok _ _ _ _ _ (in_loop_code_ok _ _ _ _ E1)). }
  destruct o as [t|].
  2: { exists (with_loops_of ls e0). split; [done|]. apply (Hadv _ None); [|done..]. by split; [|apply grown_refl]. }
  specialize (Hp l). rewrite decide_True in Hp by done. rewrite <- Ht, Hp in Hroom.
  destruct (run_task_runs t (with_loops_of ls e0) Hok1 Hr) as (e' & g & E & Hm & Hg & Hn);
    [by destruct t as [f|c [|data| | |]]|]. exists e'. split; [done|]. apply (Hadv _ g); [done|exact Hg|]. by intros c [= ->]; apply Hn.
Qed.

(** A handler of a connection that is up. *)
Lemma handler_runs c h t e x l :
  system_ok None e → objects e !! c = Some x → getLoop x = Some l → is_up (state_ (sc_conn x)) →
  (h = ConnRead → room_for (input_buffer_ (sc_conn x)) extra_buffer_size) →
  ∃ e', run_handler c h t e = Ok (tt, e') ∧ moved None e e' ∧
    (h = ConnWrite → ∃ x', objects e' !! c = Some x' ∧ getLoop x' = Some l ∧ is_up (state_ (sc_conn x'))).
Proof.
  intros Hok Hx Hl Hup Hroom. unfold run_handler. rewrite (with_conn_ok c l x) by done. destruct h.
  - destruct (handleRead_runs c l x e Hok Hx Hl Hup t (Hroom eq_refl)) as (e' & E & H). by exists e'.
  - destruct (handleWrite_runs c l x None e Hok Hx Hl (mine_none c) Hup) as (e' & E & H & Hx'). by exists e'.
  - destruct (handleClose_runs c l x e Hok Hx Hl Hup) as (e' & E & H). by exists e'.
  - destruct (handleError_runs c l x e Hok Hx Hl Hup) as (e' & E & H). by exists e'.
Qed.

(** [handleWrite], whatever the state. *)
Lemma write_handler_runs c t e :
  system_ok None e → is_Some (objects e !! c) → ∃ e', run_handler c ConnWrite t e = Ok (tt, e') ∧ moved None e e'.
Proof.
  intros Hok [x Hx]. destruct (object_loop_some e c x Hok Hx) as (l & Hl).
  destruct (decide (state_ (sc_conn x) = kConnected ∨ state_ (sc_conn x) = kDisConnecting)) as [Hup|Hup].
  - destruct (handler_runs c ConnWrite t e x l Hok Hx Hl Hup) as (e' & E & H & _); [done|]. by exists e'.
  - unfold run_handler. rewrite (with_conn_ok c l x) by done.
    destruct (object_loop c l x None e Hok Hx Hl) as (_ & w & Hw).
    destruct (nothing_runs c x None e Hok Hx) as (e' & E & H). exists e'. split; [|done]. rewrite <- E.
    unfold run_conn, handleWrite, gets, channel_isWriting. mcbn. cbn [cs_env].
    change (channel_events e) with (conn_events l (channel_ x) (loops_of e)).
    rewrite conn_events_chan, (cf_at _ _ _ _ _ _ Hw). simpl.
    destruct (cf_quiet _ _ _ _ _ _ Hw) as [Hu|Hq]; [destruct Hup; exact Hu|]. by rewrite Hq.
Qed.

Lemma moved_refl e : system_ok None e → moved None e e.
Proof. by split; [|apply grown_refl]. Qed.

Lemma when_runs (b : bool) (m : M S unit) e :
  system_ok None e → (b = true → ∃ e', m e = Ok (tt, e') ∧ moved None e e') →
  ∃ e', when b m e = Ok (tt, e') ∧ moved None e e'.
Proof. intros Hok Hm. destruct b; [by apply Hm|]. exists e. split; [done|]. by split; [|apply grown_refl]. Qed.

Lemma then_runs (m1 m2 : M S unit) e e1 :
  m1 e = Ok (tt, e1) → moved None e e1 →
  (∃ e', m2 e1 = Ok (tt, e') ∧ moved None e1 e') → ∃ e', (m1 ;; m2) e = Ok (tt, e') ∧ moved None e e'.
Proof.
  intros E [H1 G1] (e' & E' & [H2 G2]). exists e'. rewrite (M_bind_ok _ _ _ _ _ E).
  split; [done|]. split; [done|]. exact (grown_trans _ _ _ _ G1 G2).
Qed.

Lemma reported_runs c fd revents t e :
  is_Some (objects e !! c) →
  handleEvent (mret (reported c fd revents)) lock_connection (run_handler c) (λ h, run_handler c h t) t e =
  (when (closes_by_hup revents) (run_handler c ConnClose t) ;;
   when (reads_by revents) (run_handler c ConnRead t) ;;
   when (has revents EPOLLOUT) (run_handler c ConnWrite t) ;;
   when (has revents EPOLLERR) (run_handler c ConnError t)) e.
Proof.
  intros Hx. set (ch := reported c fd revents).
  transitivity ((guard ← lock_connection c;
    when guard (handleEventWithGuard (mret ch) (run_handler c) (λ h, run_handler c h t) t)) e); [done|].
  assert (lock_connection c e = Ok (true, e)) as E by (unfold lock_connection, gets; by rewrite bool_decide_true).
  by rewrite (M_bind_ok _ _ _ _ _ E).
Qed.

(** A report of the poller, in the thread of the connection's loop. *)
Lemma event_step c revents t e :
  system_ok None e → watched c revents e → closes_once revents = true →
  ∃ e', on_event c revents t e = Ok (tt, e') ∧ moved None e e'.
Proof.
  intros Hok (x & l & Hx & Hl & Hne & Hroom) Honce.
  assert (Hup := wanted_up None c x l e Hok Hx Hl Hne).
  destruct (in_thread_ok (getLoop x) e Hok) as (E0 & Hok0 & _).
  assert (in_server (the_connection c) e = Ok (x, e)) as E.
  { unfold in_server. mcbn. rewrite (the_connection_ok (sy_server e) c x Hx). by destruct e. }
  unfold on_event. rewrite (M_bind_ok _ _ _ _ _ E).
  apply (then_runs _ _ e _ E0); [by split; [|apply in_thread_grown]|].
  set (e0 := in_thread (getLoop x) e) in *. assert (objects e0 !! c = Some x) as Hx0 by exact Hx. clearbody e0.
  rewrite reported_runs by by eexists.
  assert (∀ h, (h = ConnRead → reads_by revents = true) → ∃ e', run_handler c h t e0 = Ok (tt, e') ∧ moved None e0 e') as Hfirst.
  { intros h Hr. destruct (handler_runs c h t e0 x l Hok0 Hx0 Hl Hup) as (e' & E' & H & _); [|by exists e'].
    intros Hh. by apply Hroom, Hr. }
  (* the write handler last, after another one *)
  assert (∀ e1, moved None e0 e1 → ∃ e', when (has revents EPOLLOUT) (run_handler c ConnWrite t) e1 = Ok (tt, e') ∧ moved None e1 e') as Hlast.
  { intros e1 [H1 G1]. apply when_runs; [done|]. intros _. apply write_handler_runs; [done|]. by apply (gr_objects _ _ _ _ G1); eexists. }
  unfold closes_once in Honce.
  destruct (closes_by_hup revents) eqn:Hc, (reads_by revents) eqn:Hr, (has revents EPOLLERR) eqn:He; try done.
  - destruct (Hfirst ConnClose) as (e1 & E1 & H1); [done|]. apply (then_runs _ _ _ e1); [exact E1|done|].
    apply (then_runs _ _ e1 e1); [done|by apply moved_refl, H1|].
    destruct (Hlast e1 H1) as (e2 & E2 & H2). apply (then_runs _ _ _ e2); [exact E2|done|].
    exists e2. split; [done|]. by apply moved_refl, H2.
  - apply (then_runs _ _ e0 e0); [done|by apply moved_refl|].
    destruct (Hfirst ConnRead) as (e1 & E1 & H1); [done|]. apply (then_runs _ _ _ e1); [exact E1|done|].
    destruct (Hlast e1 H1) as (e2 & E2 & H2). apply (then_runs _ _ _ e2); [exact E2|done|].
    exists e2. split; [done|]. by apply moved_refl, H2.
  - do 2 (apply (then_runs _ _ e0 e0); [done|by apply moved_refl|]). destruct (has revents EPOLLOUT).
    + destruct (handler_runs c ConnWrite t e0 x l Hok0 Hx0 Hl Hup) as (e1 & E1 & H1 & Hx1); [done|].
      apply (then_runs _ _ _ e1); [exact E1|done|]. destruct (Hx1 eq_refl) as (x1 & Hx1' & Hl1 & Hup1).
      destruct (handler_runs c ConnError t e1 x1 l (mv_ok _ _ _ _ H1) Hx1' Hl1 Hup1) as (e2 & E2 & H2 & _); [done|]. by exists e2.
    + apply (then_runs _ _ e0 e0); [done|by apply moved_refl|]. by apply Hfirst.
  - do 2 (apply (then_runs _ _ e0 e0); [done|by apply moved_refl|]).
    destruct (Hlast e0) as (e1 & E1 & H1); [by apply moved_refl|]. apply (then_runs _ _ _ e1); [exact E1|done|].
    exists e1. split; [done|]. by apply moved_refl, H1.
Qed.

(** A call of the application, in any thread. *)
Lemma call_step (P : S → L → option gift → Prop) o c e (m : Reactor K S → M (ConnState S (ServerCallback U)) unit) x :
  system_ok None e → objects e !! c = Some x →
  (∀ l e0, system_ok None e0 → objects e0 !! c = Some x → getLoop x = Some l → server_of e0 = server_of e →
     ∃ e' g, run_conn c x (m (conn_reactor c l (channel_ x))) e0 = Ok (tt, e') ∧ moved_by g None e0 e' ∧ P e0 l g) →
  ∃ e' g l, (as_thread o ;; with_conn c m) e = Ok (tt, e') ∧ moved_by g None e e' ∧
    getLoop x = Some l ∧ P (in_thread o e) l g.
Proof.
  intros Hok Hx Hm. destruct (object_loop_some e c x Hok Hx) as (l & Hl).
  destruct (in_thread_ok o e Hok) as (E0 & Hok0 & _). rewrite (M_bind_ok _ _ _ _ _ E0).
  rewrite (with_conn_ok c l x) by done. destruct (Hm l _ Hok0 Hx Hl eq_refl) as (e' & g & E' & [H1 H2] & HP).
  exists e', g, l. split; [done|]. split; [|done]. split; [done|]. exact (grown_trans _ _ _ _ (in_thread_grown _ e Hok) H2).
Qed.

(** ** A new connection *)

Lemma connecting_views l c fd ch ls ls' :
  loops_ok ls → ¬ fd_used fd ls → connecting l c fd ch ls ls' →
  chan l ch ls = None ∧ chan l ch ls' = Some (mkChanView fd 0) ∧ ¬ attached l ch ls' ∧
  (∀ m q, ¬ only l ch m q → chan m q ls' = chan m q ls ∧ (attached m q ls' ↔ attached m q ls)) ∧
  (∀ m, pending m ls' = pending m ls ++ task_for l m (ServerTask (ConnectionEstablished c))) ∧
  kv_sent (kview_of (view ls' : K)) = kv_sent (kview_of (view ls : K)).
Proof.
  intros Hok Hfd [_ (k1 & k2 & ls2 & Hk1 & Ech & Hk2 & Eq)].
  destruct (kernel_agree k1 ls Hok) as [Ha1 Hp1]; [by rewrite Hk1..|].
  destruct (loops_kernel k1 ls Hok) as [_ Hu]; [by rewrite Hk1..|].
  set (ls1 := replace_view k1 ls) in *.
  destruct (channel_views l c fd ch ls1 ls2 (la_ok _ _ _ Ha1)) as ([Ha2 Hs2 _] & Hp2 & Hno & Hyes & Hna); [|done|].
  { intros Hf. apply Hfd. by apply (proj2 (proj2 (proj2 (Hu l)))). }
  destruct (kernel_agree k2 ls2 (la_ok _ _ _ Ha2)) as [Ha3 Hp3]; [by rewrite Hk2..|].
  set (ls3 := replace_view k2 ls2) in *.
  destruct (queue_views l _ ls3 ls' (la_ok _ _ _ Ha3) Eq) as [[Ha4 Hs4 _] Hp4].
  assert (∀ t t' m q, loops_agree nothing t t' → chan m q t' = chan m q t ∧ (attached m q t' ↔ attached m q t)) as Hn.
  { intros t t' m q Hag. apply Hag. by intros []. }
  destruct (Hn _ _ l ch Ha1) as [E1 _], (Hn _ _ l ch Ha3) as [E3 I3], (Hn _ _ l ch Ha4) as [E4 I4].
  split; [by rewrite <- E1|]. split; [by rewrite E4, E3|]. split; [by rewrite I4, I3|]. split.
  - assert (Hag := loops_agree_trans _ _ _ _ (loops_agree_trans _ _ _ _ (loops_agree_trans _ _ _ _
      (loops_agree_weaken (only l ch) _ _ Ha1) Ha2) (loops_agree_weaken _ _ _ Ha3)) (loops_agree_weaken _ _ _ Ha4)).
    apply Hag.
  - split; [intros m; by rewrite Hp4, Hp3, Hp2, Hp1|]. rewrite Hs4. unfold ls3. rewrite view_replace, Hk2, Hs2.
    unfold ls1. by rewrite view_replace, Hk1.
Qed.

Lemma turn_there (p : Pool L) : pool_ok p → (∀ o, o ∈ EventLoopThreadPool.loops_ p → is_Some o) → is_Some (turn p 0).
Proof.
  intros [_ Hn] Hall. unfold turn. destruct (EventLoopThreadPool.loops_ p) as [|o os] eqn:El; [by eexists|].
  rewrite <- El in *. assert (0 < length (EventLoopThreadPool.loops_ p))%nat as Hl by (rewrite El; simpl; lia).
  destruct (lookup_lt_is_Some_2 (EventLoopThreadPool.loops_ p)
    ((Z.to_nat (next_ p) + 0) mod length (EventLoopThreadPool.loops_ p))%nat) as [r Er];
    [apply Nat.mod_upper_bound; lia|].
  rewrite Er. simpl. apply Hall. by apply list_elem_of_lookup_2 in Er.
Qed.

(** Nothing was told of a connection with a number to come. *)
Lemma history_new e : system_ok None e → history e (conn_name (server_of e) (next_conn_id_ (server_of e))) = [].
Proof.
  intros Hok. unfold history. assert (∀ n, n ∈ sy_log e → n.1 ≠ conn_name (server_of e) (next_conn_id_ (server_of e))) as Hn.
  { intros [nm n] Hin Hnm. destruct (sk_log _ _ Hok nm n Hin) as (i & Hi & ->). simpl in Hnm.
    assert (Hid := so_id _ (sk_server _ _ Hok)). apply conn_name_inj in Hnm; lia. }
  induction (sy_log e) as [|n ns IH]; [done|]. cbn [omap list_omap]. unfold told at 1.
  rewrite decide_False by (apply Hn; set_solver). apply IH. set_solver.
Qed.

Section accepted.
Variables (fd : Z) (peer : InetAddress) (e : S) (l : L) (c ch : positive) (t : TcpConnection (ServerCallback U)) (ls : LS).
Hypothesis Hok : system_ok None e.
Hypothesis Hid : next_conn_id_ (server_of e) < int32_max.
Hypothesis Hturn : turn (pool_ (server_of e)) 0 = Some l.
Hypothesis Hc : objects e !! c = None.
Hypothesis Ht : new_object_ok (server_of e) fd peer t.
Hypothesis Hfd : ¬ fd_used fd (loops_of e).
Hypothesis Hcn : connecting l c fd ch (loops_of e) ls.
Abbreviation new_name := (conn_name (server_of e) (next_conn_id_ (server_of e))).
Abbreviation new_conn := (mkServerConn t (Some l) ch).
Definition accepted_system : S :=
  mkSystem (mkServerState (added c new_name (server_of e)) (<[c := new_conn]> (objects e)) ls) (sy_log e).

Lemma accepted_server_ok :
  connection_map_ (server_of e) !! new_name = None ∧ server_ok (sy_server accepted_system).
Proof.
  split; [exact (added_no_entry (sk_server _ _ Hok) Hid)|].
  exact (server_ok_added (sk_server _ _ Hok) Hid Hturn Hc Ht (cn_queued _ _ _ _ _ _ Hcn)).
Qed.

Lemma accepted_map d : is_in_map accepted_system d ↔ is_in_map e d ∨ d = c.
Proof.
  destruct accepted_server_ok as [Hn _]. unfold in_map. simpl. split.
  - intros [n [[<- [= ->]]|[Hne Hd]]%lookup_insert_Some]; [by right|left; by exists n].
  - intros [[n Hd]| ->]; [|eexists; by apply lookup_insert_eq]. exists n. rewrite lookup_insert_ne; [done|]. intros <-. congruence.
Qed.

Lemma accepted_removing d : is_removing accepted_system d ↔ is_removing e d.
Proof.
  unfold removing. simpl. rewrite (proj1 (proj2 (cn_queued _ _ _ _ _ _ Hcn) _)), elem_of_app, elem_of_only_for.
  split; [|by left]. by intros [?|[? _]].
Qed.

Lemma accepted_object : object_ok None accepted_system c new_conn.
Proof.
  destruct Ht as [N1 [N2 _] N3 N4 (N5 & N6 & N7) [N8 N9] (N10 & N11 & N12 & N13)].
  destruct (connecting_views l c fd ch _ ls (so_loops _ (sk_server _ _ Hok)) Hfd Hcn) as (_ & Hyes & Hna & _ & Hp & _).
  split.
  - split; try done. intros cb Hcb. simpl in Hcb. congruence.
  - exists l, (mkChanView fd 0). split; [done|]. split; simpl; try done.
    + by right.
  - split; simpl; try done.
    + intros _ m f. change (ConnTask c f ∉ pending m ls). rewrite Hp. intros [Hin|Hin]%elem_of_app.
      * apply list_elem_of_lookup in Hin as [i Hi]. destruct (sk_tasks _ _ Hok m i c f Hi) as (x & Hx & _). congruence.
      * unfold task_for in Hin. case_decide; [|by apply elem_of_nil in Hin]. by apply list_elem_of_singleton in Hin.
    + intros _. rewrite accepted_removing. split; [apply accepted_map; by right|]. intros Hr%(so_removing _ (sk_server _ _ Hok)).
      destruct (in_map_entry _ c (sk_server _ _ Hok) Hr) as (x & Hx & _). unfold objects in Hc. congruence.
    + rewrite N3. done.
    + rewrite N1, N3. change (history accepted_system new_name) with (history e new_name). by apply history_new.
Qed.

Lemma accepted_views : chan l ch (loops_of e) = None ∧
  (∀ m q, ¬ (m = l ∧ q = ch) →
     chan m q ls = chan m q (loops_of e) ∧ (attached m q ls ↔ attached m q (loops_of e))) ∧
  ∀ m, pending m ls = tasks m e ++ task_for l m (ServerTask (ConnectionEstablished c)).
Proof.
  by destruct (connecting_views l c fd ch _ ls (so_loops _ (sk_server _ _ Hok)) Hfd Hcn) as (Hno & _ & _ & Hch & Hp & _).
Qed.
Lemma accepted_keeps_task m u : u ∈ tasks m e → u ∈ pending m ls.
Proof. rewrite (proj2 (proj2 accepted_views)). intros Hu. apply elem_of_app. by left. Qed.
Lemma accepted_task m u : u ≠ ServerTask (ConnectionEstablished c) → u ∈ pending m ls → u ∈ tasks m e.
Proof.
  intros Hne. rewrite (proj2 (proj2 accepted_views)). intros [?|Hu]%elem_of_app; [done|]. unfold task_for in Hu.
  case_decide; [|by apply elem_of_nil in Hu]. by apply list_elem_of_singleton in Hu.
Qed.
Lemma accepted_objects d x : objects accepted_system !! d = Some x → d = c ∧ x = new_conn ∨ d ≠ c ∧ objects e !! d = Some x.
Proof. unfold objects. simpl. intros [[<- <-]|[? ?]]%lookup_insert_Some; [by left|right; by split]. Qed.
Lemma accepted_keeps_object d x : objects e !! d = Some x → objects accepted_system !! d = Some x.
Proof. intros Hx. unfold objects. simpl. rewrite lookup_insert_ne; [done|]. intros <-. congruence. Qed.
Lemma accepted_other d x : objects e !! d = Some x → ¬ (getLoop x = Some l ∧ channel_ x = ch).
Proof.
  intros Hx [Hl Hch]. destruct (object_loop d l x None e Hok Hx Hl) as (_ & w & Hw).
  assert (Hat := cf_at _ _ _ _ _ _ Hw). rewrite Hch, (proj1 accepted_views) in Hat. done.
Qed.

Lemma accepted_old_object d x : objects e !! d = Some x → object_ok None accepted_system d x.
Proof.
  intros Hx. assert (Hne := accepted_other d x Hx).
  destruct (sk_objects _ _ Hok d x Hx) as [Hm (m & w & Hl & [A1 A2 A3 A4 A5]) [B1 B2 B3 B4 B5]].
  assert (d ≠ c) as Hd by (intros ->; congruence).
  split; [destruct Hm; by split| |].
  - exists m, w. split; [done|]. destruct (proj1 (proj2 accepted_views) m (channel_ x)) as [Ec Ea]; [intros [-> ?]; tauto|].
    split; try done; change (loops_of accepted_system) with ls; [by rewrite Ec|].
    rewrite Ea, accepted_map. intros [?|[?|?]]%A5; [tauto|right; left; by apply accepted_keeps_task|tauto].
  - split; try done; change (loops_of accepted_system) with ls.
    + intros k Hk. apply (B1 k). apply accepted_task; [congruence|done].
    + intros Hst k f Hk. apply (B2 Hst k f). by apply accepted_task.
    + rewrite accepted_map, accepted_removing. tauto.
    + rewrite accepted_map, accepted_removing. tauto.
Qed.

Lemma accepted_task_fits m i d f :
  tasks m accepted_system !! i = Some (ConnTask d f) → task_fits accepted_system m i d f.
Proof.
  destruct accepted_views as (_ & _ & Hp). intros Hi.
  change (pending m ls !! i = Some (ConnTask d f)) in Hi. rewrite Hp, lookup_app_Some in Hi.
  destruct Hi as [Hi|[_ Hi]].
  2: { unfold task_for in Hi. case_decide; [|done]. by apply list_lookup_singleton_Some in Hi as [_ ?]. }
  destruct (sk_tasks _ _ Hok m i d f Hi) as (x & Hx & Hl & Hf & Hlife). exists x.
  split; [by apply accepted_keeps_object|]. do 2 (split; [done|]).
  rewrite accepted_map. destruct Hlife as [?|(j & Hj & Hd)]; [tauto|right]. exists j. split; [done|].
  change (tasks m accepted_system) with (pending m ls). rewrite Hp. by apply lookup_app_l_Some.
Qed.

Lemma accepted_ok : system_ok None accepted_system.
Proof.
  split.
  - apply accepted_server_ok.
  - apply Hok.
  - apply (sk_pool _ _ Hok).
  - intros m Hm. apply (sk_listen _ _ Hok m). by apply accepted_task.
  - intros d x [[-> ->]|[_ Hx]]%accepted_objects; [apply accepted_object|by apply accepted_old_object].
  - intros d1 d2 y z [[-> ->]|[N1 Hy]]%accepted_objects [[-> ->]|[N2 Hz]]%accepted_objects El Ec; [done|..].
    + by destruct (accepted_other d2 z Hz).
    + by destruct (accepted_other d1 y Hy).
    + by apply (sk_distinct _ _ Hok d1 d2 y z).
  - exact accepted_task_fits.
  - intros nm n Hn. destruct (sk_log _ _ Hok nm n Hn) as (i & Hi & ->). exists i. simpl. split; [lia|done].
  - intros nm Hn. apply (sk_past _ _ Hok nm). intros d x Hx. by apply (Hn d x), accepted_keeps_object.
Qed.
End accepted.

Lemma accept_runs fd peer e :
  system_ok None e → ¬ fd_used fd (loops_of e) → next_conn_id_ (server_of e) < int32_max →
  ∃ e', in_server (newConnection fd peer) e = Ok (tt, e') ∧ system_ok None e' ∧
    (∀ m, ∃ ts, tasks m e' = tasks m e ++ ts ∧ ∀ d, ServerTask (ConnectionDestroyed d) ∉ ts) ∧
    (∀ d y, objects e !! d = Some y → (is_in_map e' d → is_in_map e d) ∧ flow None e e' d y y).
Proof.
  intros Hok Hfd Hid. assert (H := newConnection_ok fd peer (sy_server e) (sk_server _ _ Hok) Hid Hfd). simpl in H.
  destruct (turn_there _ (so_pool _ (sk_server _ _ Hok)) (sk_pool _ _ Hok)) as [l Hl]. rewrite Hl in H.
  destruct H as (c & t & ch & ls & E & Hc & Ht & Hcn).
  destruct (connecting_views l c fd ch _ ls (so_loops _ (sk_server _ _ Hok)) Hfd Hcn) as (_ & _ & _ & _ & Hp & Hk).
  exists (accepted_system e l c ch t ls).
  split; [unfold in_server; mcbn; by rewrite E|]. split; [by apply (accepted_ok fd peer)|]. split.
  - intros m. exists (task_for l m (ServerTask (ConnectionEstablished c))). split; [apply Hp|]. intros d. unfold task_for.
    case_decide; [|by intros ?%elem_of_nil]. by intros ?%list_elem_of_singleton.
  - intros d x Hx. assert (d ≠ c) as Hd by (unfold objects in Hx; congruence). split.
    + by intros [?|?]%(accepted_map fd peer e l c ch t ls Hok Hid Hl Hc Ht Hcn).
    + split; [|done|done| | |done].
      * unfold objects, accepted_system. simpl. by rewrite lookup_insert_ne.
      * rewrite app_nil_r. unfold stream_of, sent_on. do 2 f_equal. f_equal. exact Hk.
      * intros m _. rewrite app_nil_r. unfold queued_sends.
        change (tasks m (accepted_system e l c ch t ls)) with (pending m ls). rewrite Hp, omap_app. unfold task_for.
        case_decide; simpl; by rewrite app_nil_r.
Qed.

(** ** The end of an object *)

Section dropped.
Variables (e : S) (c : positive) (x : ServerConn L U) (l : L) (ls : LS).
Hypothesis Hok : system_ok None e.
Hypothesis Hx : objects e !! c = Some x.
Hypothesis Hl : getLoop x = Some l.
Hypothesis Hout : ¬ is_in_map e c.
Hypothesis Hq : ∀ m, (ServerTask (ConnectionEstablished c) ∉ tasks m e) ∧ (ServerTask (ConnectionDestroyed c) ∉ tasks m e).
Hypothesis Hls : loops_ok ls.
Hypothesis Halive : ∀ m, loop_alive m (loops_of e) → loop_alive m ls.
Hypothesis Hp : ∀ m, pending m ls = tasks m e.
Hypothesis Hch : ∀ m q, ¬ only l (channel_ x) m q →
  chan m q ls = chan m q (loops_of e) ∧ (attached m q ls ↔ attached m q (loops_of e)).
Definition dropped_system : S :=
  mkSystem (mkServerState (server_of e) (delete c (objects e)) ls) (sy_log e).

Lemma dropped_closed : state_ (sc_conn x) = kDisConnected.
Proof.
  destruct (decide (state_ (sc_conn x) = kDisConnected)) as [|Hst]; [done|].
  by destruct (pf_in_map _ _ _ _ (ob_phase _ _ _ _ (sk_objects _ _ Hok c x Hx)) Hst).
Qed.

Lemma dropped_server_ok : server_ok (sy_server dropped_system).
Proof.
  assert (server_ok ((sy_server e) <| sv_loops := ls |>)) as H1.
  { apply server_ok_less; [apply Hok|done|]. intros m. split; [|apply Halive]. exists []. rewrite !waiting_pending. by rewrite Hp. }
  apply (server_ok_dropped _ c H1); [done|]. intros m. simpl. rewrite !elem_of_waiting, Hp. apply Hq.
Qed.

Lemma dropped_removing d : is_removing dropped_system d ↔ is_removing e d.
Proof. unfold removing. rewrite !elem_of_waiting. simpl. by rewrite Hp. Qed.

Lemma dropped_ok : system_ok None dropped_system.
Proof.
  assert (∀ d y, objects dropped_system !! d = Some y → d ≠ c ∧ objects e !! d = Some y) as Hold.
  { intros d y Hy. unfold objects in Hy. simpl in Hy. apply lookup_delete_Some in Hy as [? ?]. by split. }
  assert (Hs := dropped_server_ok). assert (Hdead := dropped_closed).
  assert (Hpast := pf_told _ _ _ _ (ob_phase _ _ _ _ (sk_objects _ _ Hok c x Hx))). rewrite Hdead in Hpast.
  destruct Hok as [H1 H2 H3 H4 H5 H6 H7 H8 H9]. split; try done.
  - intros m. change (ServerTask Listen ∉ pending m ls). rewrite Hp. apply H4.
  - intros d y Hy. destruct (Hold d y Hy) as [Hd Hy'].
    destruct (H5 d y Hy') as [Hm (m & w & Hlm & [A1 A2 A3 A4 A5]) [B1 B2 B3 B4 B5]]. split; [exact Hm| |].
    + exists m, w. split; [done|].
      destruct (Hch m (channel_ y)) as [Ec Ea]; [intros [-> E]; by apply Hd, (H6 d c y x); [..|congruence|]|].
      split; try done; change (loops_of dropped_system) with ls; [by rewrite Ec|]. rewrite Ea, Hp. exact A5.
    + split; try done; change (loops_of dropped_system) with ls.
      * intros k. rewrite Hp. apply B1.
      * intros Hst k f. rewrite Hp. by apply B2.
      * rewrite dropped_removing. exact B3.
      * rewrite dropped_removing. exact B4.
  - intros d1 d2 y z [_ Hy]%Hold [_ Hz]%Hold. by apply H6.
  - intros m i d f Hi. change (pending m ls !! i = Some (ConnTask d f)) in Hi. rewrite Hp in Hi.
    destruct (H7 m i d f Hi) as (y & Hy & Hly & Hf & Hlife).
    assert (d ≠ c) as Hd.
    { intros ->. destruct Hlife as [?|(j & _ & Hj)]; [done|]. apply (proj2 (Hq m)). by apply list_elem_of_lookup_2 in Hj. }
    exists y. split; [unfold objects; simpl; by rewrite lookup_delete_ne|]. do 2 (split; [done|]).
    destruct Hlife as [?|(j & Hj & Hdj)]; [by left|right]. exists j. split; [done|].
    change (pending m ls !! j = Some (ServerTask (ConnectionDestroyed d))). by rewrite Hp.
  - intros nm Hn. destruct (decide (nm = name_of x)) as [->|Hne]; [by right|]. apply H9. intros d y Hy.
    destruct (decide (d = c)) as [->|Hd]; [congruence|]. apply (Hn d y). unfold objects. simpl. by rewrite lookup_delete_ne.
Qed.
End dropped.

Lemma destroy_runs c x l e :
  system_ok None e → enabled (Destroy c) e → objects e !! c = Some x → getLoop x = Some l →
  ∃ e', perform (Destroy c) e = Ok (tt, e') ∧ system_ok None e' ∧ objects e' = delete c (objects e) ∧
    chan l (channel_ x) (loops_of e') = None ∧ ¬ fd_used (sockfd_ (sc_conn x)) (loops_of e') ∧
    server_of e' = server_of e ∧ (∀ m, tasks m e' = tasks m e) ∧
    kv_sent (kview_of (view (loops_of e') : K)) = kv_sent (kview_of (view (loops_of e) : K)).
Proof.
  intros Hok (_ & Hout & Hq) Hx Hl.
  destruct (object_loop c l x None e Hok Hx Hl) as (_ & w & [A1 A2 _ _ A5]).
  assert (¬ attached l (channel_ x) (loops_of e)) as Hna.
  { intros [?|[?|?]]%A5; [done| |done]. by apply (proj2 (Hq l)). }
  destruct (conn_delete_law l (channel_ x) w _ (so_loops _ (sk_server _ _ Hok)) A1 Hna)
    as (ls1 & E1 & [Hag Hs1 _] & Hp1 & Hgone).
  assert (¬ fd_used (sockfd_ (sc_conn x)) ls1) as Hfd.
  { rewrite fd_used_chan. intros (m & q & v & Hv & Hvf). destruct (decide (m = l ∧ q = channel_ x)) as [[-> ->]|Hne]; [congruence|].
    rewrite (proj1 (la_chan _ _ _ Hag m q Hne)) in Hv. apply Hne.
    apply (chan_fd_inj m l q (channel_ x) v w _ (so_loops _ (sk_server _ _ Hok))); [done|exact A1|congruence]. }
  set (k := sys_close (sockfd_ (sc_conn x)) (view ls1) : K).
  destruct (views_close k (sockfd_ (sc_conn x)) ls1 (la_ok _ _ _ Hag) Hfd (close_law _ _)) as (Hok2 & [Hc2 Hp2] & Ha2).
  exists (dropped_system e c (replace_view k ls1)). split.
  - assert (in_server (the_connection c) e = Ok (x, e)) as E.
    { unfold in_server. mcbn. rewrite (the_connection_ok (sy_server e) c x Hx). by destruct e. }
    unfold perform, destroy_TcpConnection. rewrite (M_bind_ok _ _ _ _ _ E), Hl.
    transitivity ((in_server (server_kernel (destroy_Socket (sockfd_ (sc_conn x)))) ;;
      modify (λ e : S, e <| sy_server ::= λ s, s <| sv_conns ::= delete c |> |>)) (with_loops_of ls1 e)).
    { assert (from_option_or NullPointer (Some l) e = Ok (l, e)) as El by done.
      rewrite (M_bind_ok _ _ _ _ _ El). by rewrite (M_bind_ok _ _ _ _ _ (in_loop_code_ok _ _ _ _ E1)). }
    by destruct e as [[] ?].
  - split; [|split; [done|split; [|split; [|split; [done|split]]]]].
    + apply (dropped_ok e c x l); try done.
      * intros m Hm. by apply Ha2, Hag.
      * intros m. by rewrite Hp2, Hp1.
      * intros m q Hne. rewrite (proj1 (Hc2 m q)), (proj2 (Hc2 m q)). by apply Hag.
    + change (chan l (channel_ x) (replace_view k ls1) = None). by rewrite (proj1 (Hc2 l (channel_ x))).
    + rewrite fd_used_chan in *. intros (m & q & v & Hv & Hvf). apply Hfd. exists m, q, v. split; [|done].
      rewrite <- Hv. symmetry. apply Hc2.
    + intros m. change (pending m (replace_view k ls1) = tasks m e). by rewrite Hp2, Hp1.
    + change (kv_sent (kview_of (view (replace_view k ls1) : K)) = kv_sent (kview_of (view (loops_of e) : K))).
      rewrite view_replace. unfold k. by rewrite close_law.
Qed.

Lemma destroy_advanced c e :
  system_ok None e → enabled (Destroy c) e → ∃ e', perform (Destroy c) e = Ok (tt, e') ∧ advanced (Destroy c) e e'.
Proof.
  intros Hok Hen. destruct Hen as ([x Hx] & Hen). destruct (object_loop_some e c x Hok Hx) as (l & Hl).
  destruct (destroy_runs c x l e Hok) as (e' & E & Hok' & Ho & _ & _ & Hs & Ht & Hk); [by split; [eexists|]|done..|].
  exists e'. split; [done|]. split; [done| |by intros d _; unfold in_map; rewrite Hs| |done].
  - intros m. exists (tasks m e), []. rewrite Ht, app_nil_r. do 2 (split; [done|]). by intros d ?%elem_of_nil.
  - exists None. split; [done|]. intros d y Hd Hy. assert (d ≠ c) as Hne by (by intros ->). exists y.
    split; [by rewrite Ho, lookup_delete_ne|done|done| | |done].
    + unfold stream_of, sent_on. by rewrite Hk, app_nil_r.
    + intros m _. unfold queued_sends. by rewrite Ht, app_nil_r.
Qed.

(** A call that gives nothing. *)
Lemma quiet_call o c e (m : Reactor K S → M (ConnState S (ServerCallback U)) unit) x a :
  system_ok None e → objects e !! c = Some x → perform a e = (as_thread o ;; with_conn c m) e →
  (∀ l, taking a l e = None) → gift_of a e None →
  (∀ l e0, system_ok None e0 → objects e0 !! c = Some x → getLoop x = Some l → server_of e0 = server_of e →
     ∃ e', run_conn c x (m (conn_reactor c l (channel_ x))) e0 = Ok (tt, e') ∧ moved None e0 e') →
  ∃ e', perform a e = Ok (tt, e') ∧ advanced a e e'.
Proof.
  intros Hok Hx -> Ht Hg Hm. destruct (call_step (λ _ _ g, g = None) o c e m x Hok Hx) as (e' & g & l & E & Hmv & _ & ->).
  - intros l e0 Hok0 Hx0 Hl Hs. destruct (Hm l e0 Hok0 Hx0 Hl Hs) as (e' & E & H). by exists e', None.
  - exists e'. split; [exact E|]. by apply (advanced_moved _ None).
Qed.

Lemma perform_runs a e : system_ok None e → enabled a e → ∃ e', perform a e = Ok (tt, e') ∧ advanced a e e'.
Proof.
  intros Hok Hen. destruct a as [fd peer|l|c revents t|o c data|o c|o c u|c|k].
  - destruct Hen as [Hfd Hid]. destruct (in_thread_ok (Some (loop_ (server_of e))) e Hok) as (E0 & Hok0 & _ & Ht0).
    destruct (accept_runs fd peer _ Hok0) as (e' & E & Hok' & Ht & Hd); [|done|].
    { intros Hf. apply Hfd. rewrite fd_used_chan in *. destruct Hf as (l & p & v & Hv & Hvf). exists l, p, v.
      split; [|done]. rewrite <- Hv. symmetry.
      apply (ca_views _ _ (calm_thread (Some (loop_ (server_of e))) e (so_loops _ (sk_server _ _ Hok)))). }
    exists e'. split.
    + rewrite <- E. unfold perform. assert (in_server server e = Ok (server_of e, e)) as E1 by by destruct e as [[] ?].
      by rewrite (M_bind_ok _ _ _ _ _ E1), (M_bind_ok _ _ _ _ _ E0).
    + assert (Hg := in_thread_grown (Some (loop_ (server_of e))) e Hok). split; [done| |by intros d [y Hy]; apply (Hd d y)| |done].
      * intros m. destruct (Ht m) as (ts & Em & Hts). exists (tasks m e), ts. split; [done|]. split; [by rewrite <- Ht0|].
        by intros d ?%Hts.
      * exists None. split; [done|]. intros d y _ Hy. destruct (gr_flow _ _ _ Hg d y Hy) as (y' & Hf).
        exists y'. apply flow_flowed; [done|]. apply (flow_trans None e _ e' d y y' y' Hf).
        by apply (Hd d y'), Hf.
  - by apply run_functor_step.
  - destruct Hen as [Hw Honce]. destruct (event_step c revents t e Hok Hw Honce) as (e' & E & Hm).
    exists e'. split; [exact E|by apply (advanced_moved _ None)].
  - destruct Hen as (x & Hx & Hroom).
    destruct (call_step (λ e0 l g, send_gift c l x data e0 g) o c e (λ R, send (Reactor0 := R) data) x Hok Hx)
      as (e' & g & l & E & Hm & Hl & Hg); [|exists e'; split; [exact E|]].
    + intros l e0 Hok0 Hx0 Hl _. apply (send_runs c l x None); auto using mine_none.
    + apply (advanced_moved _ g); [done| |done]. by exists x, l.
  - destruct Hen as [x Hx]. apply (quiet_call o c e (λ R, shutdown (Reactor0 := R)) x _ Hok Hx); [done..|].
    intros l e0 Hok0 Hx0 Hl _. apply (shutdown_runs c l x None); auto using mine_none.
  - destruct Hen as [[x Hx] Hu].
    apply (quiet_call o c e (λ _, set_conn (TcpConnection.setHighWaterMarkCallback (Some (App u)))) x _ Hok Hx); [done..|].
    intros l e0 Hok0 Hx0 Hl Hs. apply (setHighWaterMark_runs c l x); [done..|]. by rewrite Hs.
  - by apply destroy_advanced.
  - destruct Hen as (Hs & Hi & He). exists (with_loops_of (replace_view k (loops_of e)) e). split; [done|].
    assert (calm e (replace_view k (loops_of e))) as Hc by (apply calm_kernel; [apply (so_loops _ (sk_server _ _ Hok))|done..]).
    apply (advanced_moved _ None); [done..|]. split; [by apply system_ok_calm|]. apply grown_calm; [|done..|].
    + intros m. apply (proj2 (ca_views _ _ Hc) m).
    + etrans; [|exact Hs]. exact (f_equal (λ k : K, kv_sent (kview_of k)) (view_replace k (loops_of e))).
Qed.
End steps.
