(* ===== verification/ServerLoops.v ===== *)
(** * The event loops as the loops of a server

    TcpServer.v is written against the interface [Loops], and its connections
    against [ConnLoops]; here the base loop and the loops of the threads, each an
    event loop of EventLoop.v over the same kernel, implement both, and the laws
    are proved from those of the event loop and of the poller.  The last part
    follows an accepted connection from the acceptor's channel in the base loop to
    the queue of the loop it will run in. *)

From S2P Require Import Prelude Kernel Buffer Text InetAddress TimerQueue Channel Poller EventLoop.
From S2P Require Import LoopChannels TcpConnection LoopReactor Acceptor EventLoopThreadPool TcpServer ConnLoops.

Inductive LoopName : Type := Base | Io (p : positive).
#[export] Instance LoopName_eq_dec : EqDecision LoopName.
Proof. solve_decision. Defined.

(** The loops; the kernel and the thread that runs are those of the base loop's
    state, the copies in the other states are not used. *)
Record EventLoops (K O T P U CB : Type) : Type := mkEventLoops {
  el_base : LoopState K O T P U CB;
  el_io : gmap positive (LoopState K O T P U CB)
}.
Arguments mkEventLoops {K O T P U CB} _ _. Arguments el_base {K O T P U CB} _.
Arguments el_io {K O T P U CB} _.

(** How the program names what it stores in the loops: the handlers of channels,
    the owners they are tied to, the functors of the queues. *)
Record Names (O T U : Type) : Type := mkNames {
  accept_handler : O;
  conn_handler : positive → ConnHandler → O;
  owner : positive → T;
  post : LoopTask → U;
  unpost : U → option LoopTask
}.
Arguments mkNames {O T U} _ _ _ _ _. Arguments accept_handler {O T U} _. Arguments conn_handler {O T U} _ _ _. Arguments owner {O T U} _ _.
Arguments post {O T U} _ _. Arguments unpost {O T U} _ _.

Section event_loops.
Context {K O T P U CB : Type} `{!Kernel K} `{!Poller K (Handler O) T P}.
Abbreviation LoopS := (LoopState K O T P U CB).
Abbreviation S := (EventLoops K O T P U CB).
Variable names : Names O T U.

(** A loop's state as the running thread sees it. *)
Definition on_kernel (b s : LoopS) : LoopS := s <| ls_kernel := ls_kernel b |> <| ls_tid := ls_tid b |>.
Definition find_loop (l : LoopName) (ls : S) : option LoopS :=
  match l with Base => Some (el_base ls) | Io p => on_kernel (el_base ls) <$> el_io ls !! p end.

Definition run_in {A} (l : LoopName) (m : M LoopS A) : M S A := λ ls,
  match find_loop l ls with
  | None => Fault DanglingPointer
  | Some s =>
      '(a, s) ← m s;
      match l with
      | Base => Ok (a, mkEventLoops s (el_io ls))
      | Io p => Ok (a, mkEventLoops ((el_base ls) <| ls_kernel := ls_kernel s |>) (<[p := s]> (el_io ls)))
      end
  end.

(** Code of the acceptor, with its loop. *)
Definition with_acceptor (a : Acceptor AcceptCallback)
    (m : M (AcceptorState K O T P U CB AcceptCallback) unit) : M LoopS (Acceptor AcceptCallback) := λ s,
  '(_, st) ← m (mkAcceptorState a s); Ok (ac_acceptor st, ac_loop st).

(** The channel of a connection, at a fresh address, with its four handlers. *)
Definition conn_channel (c : positive) (fd : Z) : M LoopS positive :=
  p ← gets (λ s : LoopS, fresh (dom (ls_channels s)));
  new_channel p (make_Channel fd) ;;
  ch ← the_channel p;
  new_channel p (setCallbacks (Some (Owned (conn_handler names c ConnRead)))
    (Some (Owned (conn_handler names c ConnWrite))) (Some (Owned (conn_handler names c ConnClose)))
    (Some (Owned (conn_handler names c ConnError))) ch) ;;
  mret p.

#[local] Instance kernel_of_loops : Lens S K := {|
  view ls := ls_kernel (el_base ls);
  replace_view k ls := mkEventLoops ((el_base ls) <| ls_kernel := k |>) (el_io ls)
|}.

Definition event_loops : Loops K S LoopName := {|
  lo_kernel := kernel_of_loops;
  loop_here l ls := match find_loop l ls with Some s => isInLoopThread s | None => false end;
  loop_queue l f := run_in l (EventLoop.queueInLoop (Task (post names (ServerTask f))));
  loop_acceptor l sock p addr reuse :=
    run_in l (with_acceptor (mkAcceptor 0 1 false None) (make_Acceptor (accept_handler names) sock p addr reuse));
  loop_listen l a := run_in l (with_acceptor a Acceptor.listen);
  loop_channel l c fd := run_in l (conn_channel c fd)
|}.

(** The head of the loop's queue, when it is a task of the server. *)
Definition task_of (f : Functor U) : option LoopTask :=
  match f with Task u => unpost names u | _ => None end.
Definition take_task : M LoopS (option LoopTask) :=
  l ← the_loop;
  match pendingFunctors_ l with
  | [] => mret None
  | f :: fs => set_loop (λ l, l <| pendingFunctors_ := fs |>) ;; mret (task_of f)
  end.

(** [CurrentThread::tid()] of the thread that runs: of a loop, or another one. *)
Definition thread_of (o : option LoopName) (ls : S) : Z :=
  match l ← o; find_loop l ls with Some s => thread_id_ (ls_loop s) | None => 0 end.
Definition thread_runs (o : option LoopName) (ls : S) : S :=
  mkEventLoops ((el_base ls) <| ls_tid := thread_of o ls |>) (el_io ls).

Definition event_conn_loops : ConnLoops (Loops0 := event_loops) K S LoopName := {|
  run_as := thread_runs;
  conn_events l p ls :=
    match s ← find_loop l ls; ls_channels s !! p with Some c => events_ c | None => 0 end;
  conn_update l p f := run_in l (change_events p f);
  conn_tie l p c := run_in l (tie_channel p (owner names c));
  conn_remove l p := run_in l (removeChannel p);
  conn_delete l p := run_in l (destroy_Channel p);
  conn_queue l c f := run_in l (EventLoop.queueInLoop (Task (post names (ConnTask c f))));
  loop_take l := run_in l take_task
|}.

Context `{!KernelLaws K} `{!PollerLaws K (Handler O) T P} `{!PollerRegistry K (Handler O) T P}.
Hypothesis unpost_post : ∀ t, unpost names (post names t) = Some t.

(** ** The invariant of the loops, and what is seen of them *)

Definition chan_of (s : LoopS) (p : positive) : option ChanView :=
  (λ c, mkChanView (fd_ c) (events_ c)) <$> ls_channels s !! p.
Definition tasks_of (s : LoopS) : list LoopTask := omap task_of (pendingFunctors_ (ls_loop s)).

Definition chan_in (l : LoopName) (p : positive) (ls : S) : option ChanView :=
  s ← find_loop l ls; chan_of s p.
Definition registered_in (l : LoopName) (p : positive) (ls : S) : Prop :=
  ∃ s, find_loop l ls = Some s ∧ loop_registered s p.
Definition tasks_in (l : LoopName) (ls : S) : list LoopTask :=
  match find_loop l ls with Some s => tasks_of s | None => [] end.
Definition queue_in_loop (l : LoopName) (ls : S) : list ServerFunctor := omap server_task (tasks_in l ls).
Definition fd_in_loops (fd : Z) (ls : S) : Prop := ∃ l p v, chan_in l p ls = Some v ∧ cv_fd v = fd.

(** A loop polls and its eventfd has a counter. *)
Definition loop_fine (s : LoopS) : Prop := polls s ∧ 0 ≤ wakeup_count s.
Definition exists_loop (l : LoopName) (ls : S) : Prop := is_Some (find_loop l ls).
Definition woken (l : LoopName) (ls : S) : Prop := ∃ s, find_loop l ls = Some s ∧ 0 < wakeup_count s.

(** Every loop is in order; no two loops share an epoll instance, no two channels
    a descriptor. *)
Record all_fine (ls : S) : Prop := AllFine {
  af_loop l s : find_loop l ls = Some s → loop_fine s;
  af_epfd l m s t epfd : find_loop l ls = Some s → find_loop m ls = Some t →
    loop_epfd s = Some epfd → loop_epfd t = Some epfd → l = m;
  af_fd l m p q v w : chan_in l p ls = Some v → chan_in m q ls = Some w → cv_fd v = cv_fd w → l = m ∧ p = q
}.

Lemma find_loop_kernel l ls s : find_loop l ls = Some s → ls_kernel s = ls_kernel (el_base ls).
Proof. destruct l; simpl; [by intros [= <-]|]. destruct (el_io ls !! _); [by intros [= <-]|done]. Qed.

(** Running code in a loop. *)
Lemma run_in_ok {A} l (m : M LoopS A) ls s a s' :
  find_loop l ls = Some s → m s = Ok (a, s') → ls_tid s' = ls_tid s →
  ∃ ls', run_in l m ls = Ok (a, ls') ∧ find_loop l ls' = Some s' ∧
    view ls' = ls_kernel s' ∧
    ∀ l', l' ≠ l → find_loop l' ls' = (λ t, t <| ls_kernel := ls_kernel s' |>) <$> find_loop l' ls.
Proof.
  intros Hs E Ht. unfold run_in. rewrite Hs. mcbn. rewrite E. destruct l as [|p].
  - eexists. split; [done|]. split; [done|]. split; [done|]. intros [|q] Hl; [done|].
    simpl in Hs. injection Hs as <-. simpl. destruct (el_io ls !! q) as [t|]; [|done]. simpl.
    unfold on_kernel. by rewrite Ht.
  - eexists. split; [done|]. simpl in Hs. destruct (el_io ls !! p) as [t|] eqn:Et; [|done].
    simpl in Hs. injection Hs as <-. split.
    { simpl. rewrite lookup_insert_eq. simpl. f_equal. unfold on_kernel. simpl in *. rewrite <- Ht. by destruct s'. }
    split; [done|]. intros [|q] Hl; [done|]. simpl. rewrite lookup_insert_ne by congruence.
    by destruct (el_io ls !! q).
Qed.


(** ** One step of one loop *)

(** What code of a loop may do: of the channels only those in [t] change, of the
    kernel's interest lists only its own; the counters do not go down. *)
Record code_step (t : positive → Prop) (s s' : LoopS) : Prop := LoopStep {
  lp_polls : polls s';
  lp_tid : ls_tid s' = ls_tid s;
  lp_thread : thread_id_ (ls_loop s') = thread_id_ (ls_loop s);
  lp_wakeup : wakeup_fd_ (ls_loop s') = wakeup_fd_ (ls_loop s);
  lp_epfd : loop_epfd s' = loop_epfd s;
  lp_counters fd : counter_of (kview_of (ls_kernel s)) fd ≤ counter_of (kview_of (ls_kernel s')) fd;
  lp_interest epfd : loop_epfd s ≠ Some epfd →
    interest_of (kview_of (ls_kernel s')) epfd = interest_of (kview_of (ls_kernel s)) epfd;
  lp_sent : kv_sent (kview_of (ls_kernel s')) = kv_sent (kview_of (ls_kernel s));
  lp_shut : kv_shut (kview_of (ls_kernel s')) = kv_shut (kview_of (ls_kernel s));
  lp_channels p : ¬ t p → chan_of s' p = chan_of s p ∧ (loop_registered s' p ↔ loop_registered s p)
}.

(** The loops after the loop [l] went on to the state [s']. *)
Record ran (t : positive → Prop) (l : LoopName) (s' : LoopS) (ls ls' : S) : Prop := Ran {
  rn_fine : all_fine ls';
  rn_loop : find_loop l ls' = Some s';
  rn_alive m : exists_loop m ls → exists_loop m ls';
  rn_here m : loop_here (Loops := event_loops) m ls' = loop_here (Loops := event_loops) m ls;
  rn_sent : kv_sent (kview_of (view ls' : K)) = kv_sent (kview_of (view ls : K));
  rn_shut : kv_shut (kview_of (view ls' : K)) = kv_shut (kview_of (view ls : K));
  rn_chan m q : ¬ (m = l ∧ t q) →
    chan_in m q ls' = chan_in m q ls ∧ (registered_in m q ls' ↔ registered_in m q ls);
  rn_tasks m : m ≠ l → tasks_in m ls' = tasks_in m ls
}.

Lemma chan_in_find l p ls s : find_loop l ls = Some s → chan_in l p ls = chan_of s p.
Proof. unfold chan_in. by intros ->. Qed.
Lemma registered_in_find l p ls s : find_loop l ls = Some s → registered_in l p ls ↔ loop_registered s p.
Proof. intros Hs. split; [intros (s' & Hs' & Hr)|intros Hr; by exists s]. by assert (s' = s) as -> by congruence. Qed.
Lemma tasks_in_find l ls s : find_loop l ls = Some s → tasks_in l ls = tasks_of s.
Proof. unfold tasks_in. by intros ->. Qed.

(** Another loop, with the kernel a step left behind. *)
Lemma other_loop_fine t s s' o :
  code_step t s s' → loop_fine o → loop_epfd o ≠ loop_epfd s → ls_kernel o = ls_kernel s →
  loop_fine (o <| ls_kernel := ls_kernel s' |>).
Proof.
  intros Hst [Hp Hw] He Hk. split.
  - destruct (loop_epfd_some o Hp) as [epfd Ho]. apply (polls_local _ o epfd Hp Ho). rewrite Hk.
    apply (lp_interest _ _ _ Hst). congruence.
  - assert (H := lp_counters _ _ _ Hst (wakeup_fd_ (ls_loop o))). unfold wakeup_count in *. simpl.
    rewrite Hk in Hw. lia.
Qed.

Section run_in.
Context {t : positive → Prop} `{!∀ p, Decision (t p)} {l : LoopName} {s s' : LoopS} {ls ls' : S}.
Context (Hok : all_fine ls) (Hs : find_loop l ls = Some s) (Hst : code_step t s s').
Context (Hs' : find_loop l ls' = Some s')
  (Ho : ∀ n, n ≠ l → find_loop n ls' = (λ o, o <| ls_kernel := ls_kernel s' |>) <$> find_loop n ls).

Lemma run_other n o' : n ≠ l → find_loop n ls' = Some o' →
  ∃ o, find_loop n ls = Some o ∧ o' = o <| ls_kernel := ls_kernel s' |> ∧ ls_kernel o = ls_kernel s.
Proof.
  intros Hn Ho'. rewrite Ho in Ho' by done. destruct (find_loop n ls) as [o|] eqn:En; [|done].
  injection Ho' as <-. exists o. split; [done|]. split; [done|].
  by rewrite (find_loop_kernel n ls o En), (find_loop_kernel l ls s Hs).
Qed.

Lemma run_channels n q : ¬ (n = l ∧ t q) →
  chan_in n q ls' = chan_in n q ls ∧ (registered_in n q ls' ↔ registered_in n q ls).
Proof.
  intros Hn. destruct (decide (n = l)) as [->|Hnl].
  - rewrite (chan_in_find l q ls' s' Hs'), (chan_in_find l q ls s Hs).
    rewrite (registered_in_find l q ls' s' Hs'), (registered_in_find l q ls s Hs).
    apply (lp_channels _ _ _ Hst). tauto.
  - unfold chan_in, registered_in. rewrite !Ho by done. destruct (find_loop n ls) as [o|]; simpl.
    + split; [done|]. split; (intros (o' & [= <-] & Hr); eexists; split; [done|exact Hr]).
    + split; [done|]. split; by intros (? & ? & _).
Qed.

(** A channel's descriptor was a channel's before, or no channel had it. *)
Lemma run_descriptor n q v :
  (∀ p w, t p → chan_of s' p = Some w →
     cv_fd <$> chan_of s p = Some (cv_fd w) ∨ ¬ fd_in_loops (cv_fd w) ls) →
  chan_in n q ls' = Some v →
  (∃ v0, chan_in n q ls = Some v0 ∧ cv_fd v0 = cv_fd v) ∨ (n = l ∧ t q ∧ ¬ fd_in_loops (cv_fd v) ls).
Proof.
  intros Hfd Hq. destruct (decide (n = l ∧ t q)) as [[-> Ht]|Hn].
  - rewrite (chan_in_find l q ls' s' Hs') in Hq. destruct (Hfd q v Ht Hq) as [Hc|Hn]; [left|by right].
    rewrite (chan_in_find l q ls s Hs). destruct (chan_of s q) as [v0|]; [|done]. exists v0.
    simpl in Hc. split; [done|congruence].
  - left. exists v. by rewrite <- (proj1 (run_channels n q Hn)).
Qed.

Lemma run_loops_fine n o : find_loop n ls' = Some o → loop_fine o.
Proof.
  intros Hn. destruct (decide (n = l)) as [->|Hnl].
  - assert (o = s') as -> by congruence. split; [apply Hst|].
    assert (Hc := lp_counters _ _ _ Hst (wakeup_fd_ (ls_loop s))). unfold wakeup_count.
    rewrite (lp_wakeup _ _ _ Hst). destruct (af_loop ls Hok l s Hs) as [_ Hw]. unfold wakeup_count in Hw. lia.
  - destruct (run_other n o Hnl Hn) as (o0 & Hn0 & -> & Hk). apply (other_loop_fine t s s'); [done| | |done].
    + by apply (af_loop ls Hok n).
    + intros He. destruct (loop_epfd_some s) as [epfd Hep]; [apply (af_loop ls Hok l s Hs)|].
      apply Hnl. by apply (af_epfd ls Hok n l o0 s epfd); [| |congruence|].
Qed.
Lemma run_epfd n o : find_loop n ls' = Some o → ∃ o0, find_loop n ls = Some o0 ∧ loop_epfd o = loop_epfd o0.
Proof.
  intros Hn. destruct (decide (n = l)) as [->|Hnl].
  - exists s. assert (o = s') as -> by congruence. split; [done|apply Hst].
  - destruct (run_other n o Hnl Hn) as (o0 & Hn0 & -> & _). by exists o0.
Qed.

Lemma run_all_fine :
  (∀ p q, t p → t q → p = q) →
  (∀ p w, t p → chan_of s' p = Some w →
     cv_fd <$> chan_of s p = Some (cv_fd w) ∨ ¬ fd_in_loops (cv_fd w) ls) →
  all_fine ls'.
Proof.
  intros Hone Hfd. split; [exact run_loops_fine|..].
  - intros n1 n2 o1 o2 epfd H1 H2 E1 E2. destruct (run_epfd n1 o1 H1) as (u1 & F1 & G1), (run_epfd n2 o2 H2) as (u2 & F2 & G2).
    by apply (af_epfd ls Hok n1 n2 u1 u2 epfd); [| |congruence|congruence].
  - intros n1 n2 p q v w H1 H2 Heq.
    destruct (run_descriptor n1 p v Hfd H1) as [(v0 & Hv0 & Ev)|(-> & Ht1 & Hu1)],
      (run_descriptor n2 q w Hfd H2) as [(w0 & Hw0 & Ew)|(-> & Ht2 & Hu2)].
    + apply (af_fd ls Hok n1 n2 p q v0 w0); [done..|congruence].
    + destruct Hu2. exists n1, p, v0. split; [done|congruence].
    + destruct Hu1. exists n2, q, w0. split; [done|congruence].
    + split; [done|by apply Hone].
Qed.
End run_in.

Lemma run_in_step {A} t `{!∀ p, Decision (t p)} l (m : M LoopS A) ls s a s' :
  all_fine ls → find_loop l ls = Some s → m s = Ok (a, s') → code_step t s s' →
  (∀ p q, t p → t q → p = q) →
  (∀ p v, t p → chan_of s' p = Some v →
     cv_fd <$> chan_of s p = Some (cv_fd v) ∨ ¬ fd_in_loops (cv_fd v) ls) →
  ∃ ls', run_in l m ls = Ok (a, ls') ∧ ran t l s' ls ls'.
Proof.
  intros Hok Hs E Hst Hone Hfd.
  destruct (run_in_ok l m ls s a s' Hs E (lp_tid _ _ _ Hst)) as (ls' & Er & Hs' & Hv & Ho).
  exists ls'. split; [exact Er|]. split.
  - by apply (run_all_fine Hok Hs Hst Hs' Ho).
  - exact Hs'.
  - intros n [o Hn]. destruct (decide (n = l)) as [->|Hnl]; [by exists s'|].
    unfold exists_loop. rewrite Ho, Hn by done. by eexists.
  - intros n. simpl. destruct (decide (n = l)) as [->|Hnl].
    + rewrite Hs, Hs'. unfold isInLoopThread. by rewrite (lp_thread _ _ _ Hst), (lp_tid _ _ _ Hst).
    + rewrite Ho by done. by destruct (find_loop n ls).
  - rewrite Hv, (lp_sent _ _ _ Hst). by rewrite (find_loop_kernel l ls s Hs).
  - rewrite Hv, (lp_shut _ _ _ Hst). by rewrite (find_loop_kernel l ls s Hs).
  - exact (run_channels Hs Hst Hs' Ho).
  - intros n Hn. unfold tasks_in. rewrite Ho by done. by destruct (find_loop n ls).
Qed.

(** ** The operations as steps *)

Definition no_channel : positive → Prop := λ _, False.
Definition one_channel (p : positive) : positive → Prop := λ q, q = p.
#[export] Instance no_channel_dec q : Decision (no_channel q).
Proof. right. by intros []. Defined.
#[export] Instance one_channel_dec p q : Decision (one_channel p q).
Proof. unfold one_channel. apply _. Defined.

(** The kernel's counters moved up, or nothing moved but the loop's own state. *)
Lemma loop_step_kernel k s f :
  polls s → kv_interest (kview_of k) = kv_interest (kview_of (ls_kernel s)) →
  (∀ fd, counter_of (kview_of (ls_kernel s)) fd ≤ counter_of (kview_of k) fd) →
  kv_sent (kview_of k) = kv_sent (kview_of (ls_kernel s)) →
  kv_shut (kview_of k) = kv_shut (kview_of (ls_kernel s)) →
  (∀ l : EventLoop P U, thread_id_ (f l) = thread_id_ l ∧ wakeup_fd_ (f l) = wakeup_fd_ l ∧ poller_ (f l) = poller_ l) →
  code_step no_channel s (s <| ls_kernel := k |> <| ls_loop ::= f |>).
Proof.
  intros Hp Hi Hc Hs Hu Hf. destruct (polls_kernel k s Hp Hi) as [(q & Hq & Hok) _].
  destruct (Hf (ls_loop s)) as (Ht & Hw & Hpo). split; try done.
  - exists q. simpl. rewrite Hpo. by split.
  - unfold loop_epfd. simpl. by rewrite Hpo.
  - intros epfd _. unfold interest_of. simpl. by rewrite Hi.
  - intros p _. split; [done|]. unfold loop_registered. simpl. by rewrite Hpo.
Qed.

Lemma counters_write fd n v fd' : 0 ≤ n → counter_of v fd' ≤ counter_of (kv_set_counter fd (counter_of v fd + n) v) fd'.
Proof.
  intros Hn. unfold kv_set_counter, counter_of at 2. simpl.
  destruct (decide (fd = fd')) as [<-|Hne]; [rewrite lookup_insert_eq; simpl; lia|by rewrite lookup_insert_ne].
Qed.

Lemma queue_step cb s :
  loop_fine s →
  ∃ s', EventLoop.queueInLoop cb s = Ok (tt, s') ∧ code_step no_channel s s' ∧
    pendingFunctors_ (ls_loop s') = pendingFunctors_ (ls_loop s) ++ [cb] ∧
    (isInLoopThread s = false → 0 < wakeup_count s').
Proof.
  intros [Hp Hw]. destruct (queueInLoop_ok cb s Hw) as (k & E & Hwake & _ & _ & Hs & Hu & Hi).
  eexists. split; [exact E|]. split; [|split; [done|]].
  - apply loop_step_kernel; try done. intros fd.
    set (s1 := s <| ls_loop ::= λ l, l <| pendingFunctors_ ::= λ q, q ++ [cb] |> |>).
    assert (EventLoop.queueInLoop cb s =
      when (negb (isInLoopThread s) || calling_pending_functors_ (ls_loop s)) wakeUp s1) as E0.
    { unfold EventLoop.queueInLoop, set_loop, modify, gets, the_loop. mcbn. by destruct s as [? ? ? ? ? ? []]. }
    rewrite E0 in E. destruct (_ || _); [|unfold when in E; injection E as E; by rewrite <- E].
    unfold when, wakeUp, the_loop, gets in E.
    destruct (sys_eventfd_write (wakeup_fd_ (ls_loop s1)) 1 (ls_kernel s1)) as [r k'] eqn:Ew.
    revert E. mcbn. rewrite (loop_kernel_eq _ s1 r k' Ew). intros E. injection E as E. rewrite <- E.
    assert (Hv := eventfd_write_law _ _ _ _ _ Ew). change (ls_kernel s1) with (ls_kernel s) in Hv.
    destruct (r =? 8); [|by destruct Hv as [-> _]]. rewrite Hv. by apply counters_write.
  - intros Hh. apply Hwake. by rewrite Hh.
Qed.

Lemma take_step s :
  loop_fine s → ∃ o s', take_task s = Ok (o, s') ∧ code_step no_channel s s' ∧
    tasks_of s = option_list o ++ tasks_of s'.
Proof.
  intros [Hp _]. unfold take_task, the_loop, gets, set_loop, modify. mcbn. unfold tasks_of.
  destruct (pendingFunctors_ (ls_loop s)) as [|f fs] eqn:Ef.
  - exists None, s. split; [done|]. split; [|by rewrite Ef]. by split.
  - eexists _, _. split; [done|]. split; [|simpl; by destruct (task_of f)].
    assert (H := loop_step_kernel (ls_kernel s) s (λ l, l <| pendingFunctors_ := fs |>) Hp).
    destruct s. by apply H.
Qed.

(** A step of the poller on the channel [p]. *)
Lemma poller_loop_step p s s' :
  polls s → polls s' → poller_only s s' → registry_step p s s' →
  same_io (kview_of (ls_kernel s)) (kview_of (ls_kernel s')) →
  (∃ c', ls_channels s' = <[p := c']> (ls_channels s)) →
  code_step (one_channel p) s s'.
Proof.
  intros Hp Hp' Ho [He Ht Hr] (Hs & Hu & Hev & _) [c' Hch].
  destruct (poller_only_same s s' Ho) as (_ & _ & Htid & _ & q & Hl).
  split; try done; try (by rewrite Hl).
  - intros fd. unfold counter_of. by rewrite Hev.
  - intros epfd Hne. destruct (loop_epfd_some s Hp) as [e Hse]. apply (Ht e Hse). congruence.
  - intros r Hne. unfold one_channel in Hne. split; [|by apply Hr]. unfold chan_of. by rewrite Hch, lookup_insert_ne by congruence.
Qed.

Lemma events_step p c f s :
  polls s → ls_channels s !! p = Some c →
  ∃ s', change_events p f s = Ok (tt, s') ∧ code_step (one_channel p) s s' ∧
    chan_of s' p = Some (mkChanView (fd_ c) (f (events_ c))) ∧
    pendingFunctors_ (ls_loop s') = pendingFunctors_ (ls_loop s).
Proof.
  intros Hp Hc. destruct (change_events_ok p c f s Hp Hc) as (s' & i & E & Hp' & Ho & Hch & Hio & _).
  assert (Hr := change_events_registry p c f s s' Hp Hc E).
  exists s'. split; [exact E|]. split; [by apply poller_loop_step; eauto|]. split.
  - unfold chan_of. by rewrite Hch, lookup_insert_eq.
  - by destruct Ho as [x ->].
Qed.

Lemma remove_step p c s :
  polls s → ls_channels s !! p = Some c →
  ∃ s', removeChannel p s = Ok (tt, s') ∧ code_step (one_channel p) s s' ∧
    chan_of s' p = Some (mkChanView (fd_ c) (events_ c)) ∧ ¬ loop_registered s' p ∧
    pendingFunctors_ (ls_loop s') = pendingFunctors_ (ls_loop s).
Proof.
  intros Hp Hc. destruct (removeChannel_ok p c s Hp Hc) as (s' & i & E & Hp' & Ho & Hch & Hio & _).
  destruct (removeChannel_registry p c s s' Hp Hc E) as [Hr Hn].
  exists s'. split; [exact E|]. split; [by apply poller_loop_step; eauto|]. split; [|split; [exact Hn|]].
  - unfold chan_of. by rewrite Hch, lookup_insert_eq.
  - by destruct Ho as [x ->].
Qed.

(** Steps on the channels that are not the poller's business. *)
Lemma channels_step t s s' :
  polls s' → (∃ h, s' = s <| ls_channels := h |>) →
  (∀ p, ¬ t p → chan_of s' p = chan_of s p) → code_step t s s'.
Proof. intros Hp [h ->] Hch. split; try done. intros p Ht. split; [by apply Hch|done]. Qed.

Lemma tie_step p o c s :
  polls s → ls_channels s !! p = Some c →
  ∃ s', tie_channel p o s = Ok (tt, s') ∧ code_step no_channel s s' ∧ ls_loop s' = ls_loop s.
Proof.
  intros Hp Hc. destruct (set_callbacks_ok p c (tie o c) s Hp Hc) as [Hp' _]; [done..|].
  eexists. split; [unfold tie_channel; by rewrite (M_bind_ok _ _ _ _ _ (the_channel_ok p c s Hc))|].
  split; [|done]. apply channels_step; [exact Hp'|by eexists|]. intros q _. unfold chan_of. simpl.
  destruct (decide (q = p)) as [->|Hq]; [by rewrite lookup_insert_eq, Hc|by rewrite lookup_insert_ne by congruence].
Qed.

Lemma delete_step p s :
  polls s → ¬ loop_registered s p →
  ∃ s', destroy_Channel p s = Ok (tt, s') ∧ code_step (one_channel p) s s' ∧
    chan_of s' p = None ∧ ls_loop s' = ls_loop s.
Proof.
  intros Hp Hr. eexists. split; [done|]. split; [|split; [|done]].
  - apply channels_step; [by apply destroy_Channel_ok|by eexists|].
    intros q Hq. unfold chan_of, one_channel in *. simpl. by rewrite lookup_delete_ne by congruence.
  - unfold chan_of. simpl. by rewrite lookup_delete_eq.
Qed.

Lemma channel_step c fd s :
  polls s → (∀ p v, chan_of s p = Some v → cv_fd v ≠ fd) →
  ∃ p s', conn_channel c fd s = Ok (p, s') ∧ code_step (one_channel p) s s' ∧
    chan_of s p = None ∧ chan_of s' p = Some (mkChanView fd 0) ∧ ¬ loop_registered s' p ∧ ls_loop s' = ls_loop s.
Proof.
  intros Hp Hfd. set (p := fresh (dom (ls_channels s))).
  assert (ls_channels s !! p = None) as Hn by apply not_elem_of_dom, is_fresh.
  destruct (new_channel_fresh p fd s Hp Hn) as (E1 & Hp1 & _).
  { intros q d Hd. apply (Hfd q (mkChanView (fd_ d) (events_ d))). unfold chan_of. by rewrite Hd. }
  set (s1 := s <| ls_channels ::= <[p := make_Channel fd]> |>) in *.
  assert (ls_channels s1 !! p = Some (make_Channel fd)) as Hc1 by apply lookup_insert_eq.
  set (c2 := setCallbacks (Some (Owned (conn_handler names c ConnRead)))
    (Some (Owned (conn_handler names c ConnWrite))) (Some (Owned (conn_handler names c ConnClose)))
    (Some (Owned (conn_handler names c ConnError))) (make_Channel fd : Channel (Handler O) T)).
  destruct (set_callbacks_ok p _ c2 s1 Hp1 Hc1) as [Hp2 _]; [done..|].
  exists p, (s1 <| ls_channels ::= <[p := c2]> |>). split; [|split; [|split; [|split; [|split; [|done]]]]].
  - unfold conn_channel, gets. mcbn. fold p. rewrite E1. mcbn. by rewrite (the_channel_ok p _ s1 Hc1).
  - apply channels_step; [exact Hp2|by eexists|]. intros q Hq. unfold chan_of, one_channel in *. simpl.
    by rewrite !lookup_insert_ne by congruence.
  - unfold chan_of. by rewrite Hn.
  - unfold chan_of. simpl. by rewrite lookup_insert_eq.
  - intros Hr. by apply (new_not_registered p s Hp Hn).
Qed.

(** ** Another kernel state, another thread *)

(** The loops [ls'] are [ls] but for the kernel and the thread that runs. *)
Definition same_loops (ls ls' : S) : Prop := ∀ l, ∃ k tid,
  find_loop l ls' = (λ s, s <| ls_kernel := k |> <| ls_tid := tid |>) <$> find_loop l ls.

Lemma same_loops_views ls ls' :
  same_loops ls ls' →
  (∀ l p, chan_in l p ls' = chan_in l p ls ∧ (registered_in l p ls' ↔ registered_in l p ls)) ∧
  (∀ l, tasks_in l ls' = tasks_in l ls) ∧ (∀ l, exists_loop l ls → exists_loop l ls') ∧
  (∀ fd, fd_in_loops fd ls' ↔ fd_in_loops fd ls).
Proof.
  intros Hs.
  assert (∀ l p, chan_in l p ls' = chan_in l p ls ∧ (registered_in l p ls' ↔ registered_in l p ls)) as Hch.
  { intros l p. destruct (Hs l) as (k & tid & E). unfold chan_in, registered_in. rewrite E.
    destruct (find_loop l ls) as [s|]; simpl.
    - split; [done|]. split; (intros (s' & [= <-] & Hr); eexists; split; [done|exact Hr]).
    - split; [done|]. split; by intros (? & ? & _). }
  split; [exact Hch|]. split; [|split].
  - intros l. destruct (Hs l) as (k & tid & E). unfold tasks_in. rewrite E. by destruct (find_loop l ls).
  - intros l [s Hl]. destruct (Hs l) as (k & tid & E). unfold exists_loop. rewrite E, Hl. by eexists.
  - intros fd. unfold fd_in_loops. split; intros (l & p & v & Hv & Hf); exists l, p, v; (split; [|done]);
      destruct (Hch l p) as [E _]; congruence.
Qed.

Lemma same_loops_fine ls ls' :
  all_fine ls → same_loops ls ls' → (∀ l s, find_loop l ls' = Some s → loop_fine s) → all_fine ls'.
Proof.
  intros Hok Hs Hf. destruct (same_loops_views ls ls' Hs) as (Hch & _). split; [exact Hf| |].
  - intros l m s t epfd Hl Hm. destruct (Hs l) as (k1 & t1 & E1), (Hs m) as (k2 & t2 & E2).
    rewrite E1 in Hl. rewrite E2 in Hm.
    destruct (find_loop l ls) as [s0|] eqn:Es, (find_loop m ls) as [t0|] eqn:Et; try done.
    simpl in Hl, Hm. injection Hl as <-. injection Hm as <-. by apply (af_epfd ls Hok l m s0 t0).
  - intros l m p q v w. rewrite (proj1 (Hch l p)), (proj1 (Hch m q)). apply (af_fd ls Hok).
Qed.

Lemma find_loop_view k ls l : find_loop l (replace_view k ls) = (λ s, s <| ls_kernel := k |>) <$> find_loop l ls.
Proof. destruct l as [|p]; [done|]. simpl. by destruct (el_io ls !! p). Qed.
Lemma replaced_same k ls : same_loops ls (replace_view k ls).
Proof.
  intros l. exists k, (ls_tid (el_base ls)). rewrite find_loop_view. destruct l as [|p]; simpl.
  - by destruct (el_base ls).
  - by destruct (el_io ls !! p).
Qed.
Lemma thread_same o ls : same_loops ls (thread_runs o ls).
Proof.
  intros l. exists (ls_kernel (el_base ls)), (thread_of o ls). unfold thread_runs. destruct l as [|p]; simpl; [by destruct (el_base ls)|]. by destruct (el_io ls !! p).
Qed.

Lemma replaced_fine k ls :
  all_fine ls → (∀ l s, find_loop l ls = Some s → loop_fine (s <| ls_kernel := k |>)) →
  all_fine (replace_view k ls).
Proof.
  intros Hok Hf. apply (same_loops_fine ls); [done|apply replaced_same|]. intros l s Hs.
  rewrite find_loop_view in Hs. destruct (find_loop l ls) as [s0|] eqn:E; [|done]. injection Hs as <-. by apply (Hf l).
Qed.

Lemma kernel_fine k ls :
  all_fine ls → kv_interest (kview_of k) = kv_interest (kview_of (view ls : K)) →
  kv_eventfd (kview_of k) = kv_eventfd (kview_of (view ls : K)) → all_fine (replace_view k ls).
Proof.
  intros Hok Hi He. apply replaced_fine; [done|]. intros l s Hs.
  assert (Hk := find_loop_kernel l ls s Hs). destruct (af_loop ls Hok l s Hs) as [Hp Hw].
  split; [apply polls_kernel; [done|by rewrite Hk]|]. unfold wakeup_count, counter_of in *. simpl.
  rewrite He. by rewrite Hk in Hw.
Qed.

Lemma close_fine k fd ls :
  all_fine ls → ¬ fd_in_loops fd ls → kview_of k = kv_close fd (kview_of (view ls : K)) →
  all_fine (replace_view k ls).
Proof.
  intros Hok Hfd Hk. apply replaced_fine; [done|]. intros l s Hs.
  assert (Hks := find_loop_kernel l ls s Hs). destruct (af_loop ls Hok l s Hs) as [Hp Hw]. split.
  - apply (polls_close k fd); [done| |by rewrite Hks]. intros p c Hc Hf. apply Hfd.
    exists l, p, (mkChanView (fd_ c) (events_ c)). split; [|done]. unfold chan_in, chan_of. by rewrite Hs; simpl; rewrite Hc.
  - unfold wakeup_count, counter_of in *. simpl. rewrite Hk. by rewrite Hks in Hw.
Qed.

(** ** The laws of [Loops] *)

Lemma task_posted t : task_of (Task (post names t)) = Some t.
Proof. apply unpost_post. Qed.

(** Queueing a task of the server or of a connection. *)
Lemma post_ok l t ls :
  all_fine ls → exists_loop l ls →
  ∃ ls' s', run_in l (EventLoop.queueInLoop (Task (post names t))) ls = Ok (tt, ls') ∧
    ran no_channel l s' ls ls' ∧ (∀ m, tasks_in m ls' = tasks_in m ls ++ task_for l m t) ∧
    (loop_here (Loops := event_loops) l ls = false → woken l ls').
Proof.
  intros Hok [s Hs]. destruct (queue_step (Task (post names t)) s) as (s' & E & Hst & Hq & Hw); [by apply (af_loop ls Hok l)|].
  destruct (run_in_step no_channel l _ ls s tt s' Hok Hs E Hst) as (ls' & Er & Hr); [by intros ? ? []..|].
  exists ls', s'. split; [exact Er|]. split; [exact Hr|]. split.
  - intros m. unfold task_for. case_decide as Hm; [subst m|by rewrite app_nil_r, (rn_tasks _ _ _ _ _ Hr)].
    rewrite (tasks_in_find l ls' s' (rn_loop _ _ _ _ _ Hr)), (tasks_in_find l ls s Hs). unfold tasks_of.
    rewrite Hq, omap_app. cbn [omap list_omap]. by rewrite task_posted.
  - simpl. rewrite Hs. intros Hh. exists s'. split; [apply Hr|]. by apply Hw.
Qed.

Lemma queue_for (l m : LoopName) t f : server_task t = Some f → omap server_task (task_for l m t) = only_for l m f.
Proof. intros Hf. unfold task_for, only_for. case_decide; cbn [omap list_omap]; [by rewrite Hf|done]. Qed.

Lemma channel_ok l c fd ls :
  all_fine ls → exists_loop l ls → ¬ fd_in_loops fd ls →
  ∃ p ls' s', run_in l (conn_channel c fd) ls = Ok (p, ls') ∧ ran (one_channel p) l s' ls ls' ∧
    (∀ m, tasks_in m ls' = tasks_in m ls) ∧
    chan_in l p ls = None ∧ chan_in l p ls' = Some (mkChanView fd 0) ∧ ¬ registered_in l p ls'.
Proof.
  intros Hok [s Hs] Hfd.
  destruct (channel_step c fd s) as (p & s' & E & Hst & Hn & Hc & Hnr & Hl); [by apply (af_loop ls Hok l)| |].
  { intros p v Hv <-. apply Hfd. exists l, p, v. by rewrite (chan_in_find l p ls s Hs). }
  destruct (run_in_step (one_channel p) l _ ls s p s' Hok Hs E Hst) as (ls' & Er & Hr).
  { intros q r. unfold one_channel. congruence. }
  { intros q v -> Hq. right. rewrite Hc in Hq. injection Hq as <-. exact Hfd. }
  assert (Hs' := rn_loop _ _ _ _ _ Hr). exists p, ls', s'. split; [exact Er|]. split; [exact Hr|]. split; [|split; [|split]].
  - intros m. destruct (decide (m = l)) as [->|Hm]; [|by apply Hr].
    rewrite (tasks_in_find l ls' s' Hs'), (tasks_in_find l ls s Hs). unfold tasks_of. by rewrite Hl.
  - by rewrite (chan_in_find l p ls s Hs).
  - by rewrite (chan_in_find l p ls' s' Hs').
  - by rewrite (registered_in_find l p ls' s' Hs').
Qed.

Definition event_loops_laws : LoopsLaws (Loops0 := event_loops) K S LoopName.
Proof.
  refine {| loops_ok := all_fine; loop_alive := exists_loop; loop_woken := woken; waiting := queue_in_loop;
            fd_used := fd_in_loops |}.
  - split; [done|done|by intros [[] ?]].
  - intros k ls Hok Hi He. destruct (same_loops_views ls _ (replaced_same k ls)) as (_ & Ht & Ha & Hf).
    split; [by apply kernel_fine|]. intros m. unfold queue_in_loop. rewrite Ht. split; [done|]. split; [|split; [apply Ha|exact Hf]].
    simpl. change (find_loop m (mkEventLoops _ _)) with (find_loop m (replace_view k ls)). rewrite find_loop_view.
    by destruct (find_loop m ls).
  - intros l c fd ls Hok Ha Hfd. destruct (channel_ok l c fd ls Hok Ha Hfd) as (p & ls' & s' & E & Hr & Ht & _).
    exists p, ls'. split; [exact E|]. split; [apply Hr|]. intros m. unfold queue_in_loop. rewrite Ht.
    split; [done|]. split; apply Hr.
  - intros l f ls Hok Ha. destruct (post_ok l (ServerTask f) ls Hok Ha) as (ls' & s' & E & Hr & Ht & Hw).
    exists ls'. split; [exact E|]. split; [apply Hr|]. intros m. unfold queue_in_loop.
    rewrite Ht, omap_app, (queue_for l m _ f) by done. split; [done|]. split; [apply Hr|]. split; [apply Hr|].
    intros ->. exact Hw.
Defined.

(** ** The laws of [ConnLoops] *)

#[local] Instance the_event_loops : Loops K S LoopName := event_loops.
#[local] Instance the_event_loops_laws : LoopsLaws K S LoopName := event_loops_laws.
#[local] Instance the_event_conn_loops : ConnLoops K S LoopName := event_conn_loops.

Definition event_conn_views : ConnViews K S LoopName := {|
  chan := chan_in;
  attached := registered_in;
  pending := tasks_in
|}.
#[local] Instance the_event_conn_views : ConnViews K S LoopName := event_conn_views.

Lemma ran_frame t l s' ls ls' (touched : LoopName → positive → Prop) :
  ran t l s' ls ls' → (∀ q, t q → touched l q) → loops_frame touched ls ls'.
Proof.
  intros [H1 H2 H3 H4 H5 H6 H7 H8] Ht. split; [|done..]. split; [done..|].
  intros m q Hn. apply H7. intros [-> Hq]. by apply Hn, Ht.
Qed.
Lemma ran_nothing l s' ls ls' : ran no_channel l s' ls ls' → loops_frame nothing ls ls'.
Proof. intros Hr. by apply (ran_frame _ _ _ _ _ _ Hr). Qed.
Lemma ran_only l p s' ls ls' : ran (one_channel p) l s' ls ls' → loops_frame (only l p) ls ls'.
Proof. intros Hr. apply (ran_frame _ _ _ _ _ _ Hr). by intros q ->. Qed.

(** Code of the loop on one channel that leaves the queue and the descriptor alone. *)
Lemma on_channel_ok {A} (m : M LoopS A) a l p v ls s s' :
  all_fine ls → find_loop l ls = Some s → chan_of s p = Some v → m s = Ok (a, s') →
  code_step (one_channel p) s s' → (∀ w, chan_of s' p = Some w → cv_fd w = cv_fd v) →
  pendingFunctors_ (ls_loop s') = pendingFunctors_ (ls_loop s) →
  ∃ ls', run_in l m ls = Ok (a, ls') ∧ loops_frame (only l p) ls ls' ∧
    (∀ n, tasks_in n ls' = tasks_in n ls) ∧ find_loop l ls' = Some s'.
Proof.
  intros Hok Hs Hv E Hst Hfd Hq.
  destruct (run_in_step (one_channel p) l m ls s a s' Hok Hs E Hst) as (ls' & Er & Hr).
  { intros q r. unfold one_channel. congruence. }
  { intros q w -> Hw. left. rewrite Hv. simpl. by rewrite (Hfd w Hw). }
  exists ls'. split; [exact Er|]. split; [by apply (ran_only l p s')|]. split; [|apply Hr].
  intros n. destruct (decide (n = l)) as [->|Hn]; [|by apply Hr].
  rewrite (tasks_in_find l ls' s' (rn_loop _ _ _ _ _ Hr)), (tasks_in_find l ls s Hs). unfold tasks_of. by rewrite Hq.
Qed.

Lemma chan_in_loop l p v ls :
  chan_in l p ls = Some v → ∃ s c, find_loop l ls = Some s ∧ chan_of s p = Some v ∧
    ls_channels s !! p = Some c ∧ v = mkChanView (fd_ c) (events_ c).
Proof.
  unfold chan_in. destruct (find_loop l ls) as [s|]; [|done]. simpl. intros Hv. assert (Hv' := Hv).
  unfold chan_of in Hv'. destruct (ls_channels s !! p) as [c|] eqn:Ec; [|done]. injection Hv' as <-. by exists s, c.
Qed.

(** The thread that runs is the one of the loop named. *)
Lemma thread_fine o ls : all_fine ls → all_fine (thread_runs o ls).
Proof.
  intros Hok. apply (same_loops_fine ls); [done|apply thread_same|]. intros l s Hs.
  assert (∃ s0, find_loop l ls = Some s0 ∧ ∃ tid, s = s0 <| ls_tid := tid |>) as (s0 & Hs0 & tid' & ->).
  { unfold thread_runs in Hs. destruct l as [|p]; simpl in *.
    - injection Hs as <-. by eexists; split; [|eexists].
    - destruct (el_io ls !! p); [|done]. injection Hs as <-. by eexists; split; [|eexists]. }
  exact (af_loop ls Hok l s0 Hs0).
Qed.
Lemma thread_here o ls l : o = Some l → exists_loop l ls → loop_here (Loops := event_loops) l (thread_runs o ls) = true.
Proof.
  intros -> [s Hs]. simpl. unfold thread_runs, thread_of. simpl. rewrite Hs.
  destruct l as [|p]; simpl in *; [injection Hs as <-; apply Z.eqb_refl|].
  destruct (el_io ls !! p); [|done]. injection Hs as <-. apply Z.eqb_refl.
Qed.

Definition event_conn_loops_laws : ConnLoopsLaws K S LoopName.
Proof.
  split.
  - done.
  - done.
  - intros l p ls. simpl. unfold chan_in, chan_of. destruct (find_loop l ls) as [s|]; [|done]. simpl.
    by destruct (ls_channels s !! p).
  - intros l p ls Hok (s & Hs & Hr). simpl. rewrite (chan_in_find l p ls s Hs).
    destruct (loop_registered_alive s p) as [c Hc]; [by apply (af_loop ls Hok l)|done|].
    unfold chan_of. rewrite Hc. by eexists.
  - intros l m p q v w ls Hok. apply (af_fd ls Hok).
  - intros k ls Hok _ _. destruct (same_loops_views ls _ (replaced_same k ls)) as (Hc & Ht & _). by split.
  - intros k fd ls Hok Hfd Hk. destruct (same_loops_views ls _ (replaced_same k ls)) as (Hc & Ht & Ha & _).
    split; [by apply (close_fine k fd)|]. by split.
  - intros o ls Hok. destruct (same_loops_views ls _ (thread_same o ls)) as (Hc & Ht & Ha & _).
    split; [|split; [by split|split; [done|split; [exact Ha|]]]].
    + by apply thread_fine.
    + apply thread_here.
  - intros l f ls ls' Hok E. simpl in E. destruct (find_loop l ls) as [s|] eqn:Es.
    + destruct (post_ok l (ServerTask f) ls Hok) as (ls1 & s' & E1 & Hr & Ht & _); [by eexists|].
      rewrite E1 in E. injection E as <-. split; [by apply (ran_nothing l s')|exact Ht].
    + unfold run_in in E. by rewrite Es in E.
  - intros l c fd p ls ls' Hok Hfd E. simpl in E. destruct (find_loop l ls) as [s|] eqn:Es.
    + destruct (channel_ok l c fd ls Hok) as (p1 & ls1 & s' & E1 & Hr & Ht & Hn & Hc & Hnr); [by eexists|done|].
      rewrite E1 in E. injection E as <- <-. split; [by apply (ran_only l p1 s')|]. by split.
    + unfold run_in in E. by rewrite Es in E.
  - intros l ls Hok [s Hs]. destruct (take_step s) as (o & s' & E & Hst & Hq); [by apply (af_loop ls Hok l)|].
    destruct (run_in_step no_channel l _ ls s o s' Hok Hs E Hst) as (ls' & Er & Hr); [by intros ? ? []..|].
    exists o, ls'. split; [exact Er|]. split; [by apply (ran_nothing l s')|]. intros m. simpl. case_decide as Hm.
    + subst m. rewrite (tasks_in_find l ls' s' (rn_loop _ _ _ _ _ Hr)), (tasks_in_find l ls s Hs). exact Hq.
    + symmetry. by apply Hr.
  - intros l c f ls Hok Ha. destruct (post_ok l (ConnTask c f) ls Hok Ha) as (ls' & s' & E & Hr & Ht & _).
    exists ls'. split; [exact E|]. split; [by apply (ran_nothing l s')|exact Ht].
  - intros l p v f ls Hok (s & c & Hs & Hv & Hc & Ev)%chan_in_loop.
    destruct (events_step p c f s) as (s' & E & Hst & Hc' & Hq); [by apply (af_loop ls Hok l)|done|].
    destruct (on_channel_ok _ tt l p v ls s s' Hok Hs Hv E Hst) as (ls' & Er & Hr & Ht & Hs'); [|done|].
    { intros w Hw. rewrite Hc' in Hw. injection Hw as <-. by rewrite Ev. }
    exists ls'. split; [exact Er|]. split; [exact Hr|]. split; [exact Ht|]. simpl.
    rewrite (chan_in_find l p ls' s' Hs'), Hc'. by rewrite Ev.
  - intros l p c v ls Hok (s & ch & Hs & Hv & Hc & Ev)%chan_in_loop.
    destruct (tie_step p (owner names c) ch s) as (s' & E & Hst & Hq); [by apply (af_loop ls Hok l)|done|].
    destruct (run_in_step no_channel l _ ls s tt s' Hok Hs E Hst) as (ls' & Er & Hr); [by intros ? ? []..|].
    exists ls'. split; [exact Er|]. split; [by apply (ran_nothing l s')|]. intros m. simpl.
    destruct (decide (m = l)) as [->|Hm]; [|by apply Hr].
    rewrite (tasks_in_find l ls' s' (rn_loop _ _ _ _ _ Hr)), (tasks_in_find l ls s Hs). unfold tasks_of. by rewrite Hq.
  - intros l p v ls Hok (s & c & Hs & Hv & Hc & Ev)%chan_in_loop.
    destruct (remove_step p c s) as (s' & E & Hst & Hc' & Hnr & Hq); [by apply (af_loop ls Hok l)|done|].
    destruct (on_channel_ok _ tt l p v ls s s' Hok Hs Hv E Hst) as (ls' & Er & Hr & Ht & Hs'); [|done|].
    { intros w Hw. rewrite Hc' in Hw. injection Hw as <-. by rewrite Ev. }
    exists ls'. split; [exact Er|]. split; [exact Hr|]. split; [exact Ht|]. simpl.
    rewrite (chan_in_find l p ls' s' Hs'), (registered_in_find l p ls' s' Hs'), Hc'. by rewrite Ev.
  - intros l p v ls Hok (s & c & Hs & Hv & Hc & Ev)%chan_in_loop Hn. simpl in Hn.
    rewrite (registered_in_find l p ls s Hs) in Hn.
    destruct (delete_step p s) as (s' & E & Hst & Hc' & Hq); [by apply (af_loop ls Hok l)|done|].
    destruct (on_channel_ok _ tt l p v ls s s' Hok Hs Hv E Hst) as (ls' & Er & Hr & Ht & Hs'); [by rewrite Hc'|by rewrite Hq|].
    exists ls'. split; [exact Er|]. split; [exact Hr|]. split; [exact Ht|]. simpl. by rewrite (chan_in_find l p ls' s' Hs').
Qed.
End event_loops.



(** ** From the acceptor to the loop of the connection *)

Section accepting.
Context {K O T P U CB C A : Type} `{!Kernel K, !KernelLaws K} `{!Poller K (Handler O) T P}
  `{!PollerLaws K (Handler O) T P, !PollerRegistry K (Handler O) T P}.
Variable names : Names O T U.
Hypothesis unpost_post : ∀ t, unpost names (post names t) = Some t.
Abbreviation LS := (EventLoops K O T P U CB).
Abbreviation W := (ServerState LS LoopName C A).

#[local] Instance the_loops : Loops K LS LoopName := event_loops names.
#[local] Instance the_loops_laws : LoopsLaws K LS LoopName := event_loops_laws names unpost_post.

(** The acceptor of the server and the base loop. *)
#[local] Instance acceptor_in_server : Lens W (AcceptorState K O T P U CB AcceptCallback) := {|
  view w := mkAcceptorState (acceptor_ (sv_server w)) (el_base (sv_loops w));
  replace_view x w := w <| sv_server ::= λ v, v <| acceptor_ := ac_acceptor x |> |>
    <| sv_loops := mkEventLoops (ac_loop x) (el_io (sv_loops w)) |>
|}.
#[local] Instance acceptor_in_server_laws : LensLaws W (AcceptorState K O T P U CB AcceptCallback).
Proof. by split; [intros [] [[]]|intros [] [] [[]]|intros [[] ? []]]. Qed.

(** [[this](int sock_fd,const InetAddress&peer_addr){ newConnection(sock_fd,peer_addr); }] *)
Definition accept_callback (cb : AcceptCallback) (connfd : Z) (peer : InetAddress) : M W unit :=
  newConnection connfd peer.

(** C13: From accept to the loop.  When the acceptor's channel is readable and
    [accept4] gives a connection, the handler in the base loop makes exactly one
    connection object on that descriptor, with the peer's address; it is in the
    server's map, its [connectionEstablished] is the last functor in the queue of
    the pool's next loop, and if that is not the running thread's own loop its
    eventfd is readable, so that it wakes up.  The invariant of the server is
    kept. *)
Theorem accept_reaches_loop (w : W) connfd errno peer k l :
  server_ok w → Acceptor.connection_callback_ (acceptor_ (sv_server w)) = Some NewConnection →
  next_conn_id_ (sv_server w) < int32_max → turn (pool_ (sv_server w)) 0 = Some l →
  sys_accept4 (accept_socket_ (acceptor_ (sv_server w))) (ls_kernel (el_base (sv_loops w))) =
    ((connfd, errno, peer), k) → 0 < connfd → ¬ fd_in_loops connfd (sv_loops w) →
  ∃ w' c t ch, Acceptor.handleRead accept_callback w = Ok (tt, w') ∧ server_ok w' ∧ in_map w' c ∧
    sv_conns w !! c = None ∧ sv_conns w' = <[c := mkServerConn t (Some l) ch]> (sv_conns w) ∧
    chan_in l ch (sv_loops w) = None ∧
    sockfd_ t = connfd ∧ peer_addr_ t = peer ∧ state_ t = kConnecting ∧
    queue_in_loop names l (sv_loops w') = queue_in_loop names l (sv_loops w) ++ [ConnectionEstablished c] ∧
    (loop_here l (sv_loops w) = false → woken l (sv_loops w')).
Proof.
  intros Hok Hcb Hid Hl Ea Hfd Hu.
  assert (H := handleRead_cases accept_callback w). simpl in H. rewrite Ea in H.
  rewrite (proj2 (Z.ltb_lt _ _) Hfd), Hcb in H.
  assert (kview_of k = kview_of (view (sv_loops w) : K)) as Hk by by apply accept4_law in Ea.
  set (w1 := accepted k w).
  assert (Acceptor.handleRead accept_callback w = newConnection connfd peer w1) as H1 by exact H. clear H.
  assert (w1 = w <| sv_loops := replace_view k (sv_loops w) |>) as Ew1.
  { destruct w as [[] ? []]. done. }
  clearbody w1.
  destruct (loops_kernel k (sv_loops w) (so_loops w Hok)) as [Hlk Hmk]; [by rewrite Hk..|].
  assert (server_ok w1) as Hok1.
  { rewrite Ew1. apply server_ok_less; [done..|]. intros m. split; [|apply (Hmk m)]. exists [].
    simpl. symmetry. apply Hmk. }
  assert (sv_server w1 = sv_server w ∧ sv_conns w1 = sv_conns w) as [Es Ec] by by rewrite Ew1.
  assert (¬ fd_used connfd (sv_loops w1)) as Hu1.
  { rewrite Ew1. intros Hf. by apply (proj2 (proj2 (proj2 (Hmk l)))) in Hf. }
  assert (Hn := newConnection_ok connfd peer w1 Hok1). rewrite Es in Hn. specialize (Hn Hid Hu1).
  simpl in Hn. rewrite Hl in Hn. destruct Hn as (c & t & ch & ls & E & Hc & Ht & [Hq Hpath]).
  assert (chan_in l ch (sv_loops w) = None) as Hch.
  { destruct Hpath as (k1 & k2 & ls1 & Hk1 & Ech & _).
    destruct (same_loops_views names _ _ (replaced_same k1 (sv_loops w1))) as (Hv & _ & Ha & Hf).
    destruct (channel_ok names l c connfd (replace_view k1 (sv_loops w1))) as (p & ls2 & s' & E2 & _ & _ & Hp & _).
    { apply (kernel_fine names); [apply Hok1|by rewrite Hk1..]. }
    { apply Ha. rewrite Ew1. apply (Hmk l). by apply (turn_alive w l Hok). }
    { by rewrite Hf. }
    change (loop_channel l c connfd (replace_view k1 (sv_loops w1))) with
      (run_in l (conn_channel names c connfd) (replace_view k1 (sv_loops w1))) in Ech.
    rewrite E2 in Ech. injection Ech as -> _.
    destruct (same_loops_views names _ _ (replaced_same k (sv_loops w))) as (Hv' & _).
    etrans; [|exact Hp]. etrans; [|symmetry; apply (Hv l ch)]. rewrite Ew1. symmetry. apply (Hv' l ch). }
  unshelve epose proof (server_ok_added (c := c) (t := t) (ch := ch) (l := l) (ls := ls) (fd := connfd) (peer := peer)
    Hok1 _ _ Hc _ Hq) as Hok'; [by rewrite Es..|].
  rewrite Es in Hok'. eexists _, c, t, ch. split; [rewrite H1; exact E|]. split; [exact Hok'|].
  split; [eexists; by apply lookup_insert_eq|]. rewrite <- Ec. split; [exact Hc|]. split; [done|]. split; [exact Hch|].
  destruct Ht. destruct no_socket as [-> ->]. split; [done|]. split; [done|]. split; [done|].
  destruct Hq as [_ Hq]. destruct (Hq l) as (Hw & _ & _ & Hwk). simpl in Hw, Hwk. rewrite Ew1 in Hw, Hwk.
  split.
  - simpl. rewrite Hw. unfold only_for. rewrite decide_True by done. f_equal. apply (Hmk l).
  - intros Hh. apply Hwk; [done|]. etrans; [|exact Hh]. apply (Hmk l).
Qed.
End accepting.

(** ** Witness: a base loop over epoll and the loop of one thread *)

Abbreviation DemoLS := (EventLoops scripted unit unit EPollPoller LoopTask nat).
Definition demo_names : Names unit unit LoopTask := mkNames tt (λ _ _, tt) (λ _, tt) (λ t, t) Some.
Definition blank_base : LoopState scripted unit unit EPollPoller LoopTask nat :=
  mkLoopState (idle_kernel <| sk_accepts := [(12, 0, SockaddrIn AF_INET (htons 5000) (addr_of 10 0 0 1))] |>)
    ∅ ∅ 0 1 false (mkEventLoop [] false false 0 0 None (mkTimerQueue 0 1 [] ∅ ∅ false) 0 1 [] false).
Definition demo_base_loop := TcpServer.from_outcome blank_base (make_EventLoop (newDefaultPoller false 3) 4 5 1 2 blank_base).
(** The loop of thread 7: its epoll instance is 8, its eventfd 15. *)
Definition demo_io_loop : LoopState scripted unit unit EPollPoller LoopTask nat :=
  blank_base <| ls_loop := mkEventLoop [] true false 7 0 (Some (mkEPollPoller ∅ 8))
    (mkTimerQueue 0 1 [] ∅ ∅ false) 15 1 [] false |>.
Definition demo_loops : DemoLS := mkEventLoops demo_base_loop {[1%positive := demo_io_loop]}.
Definition demo_listening_server : ServerState DemoLS LoopName nat nat :=
  mkServerState (mkTcpServer Base "127.0.0.1:8000" "echo" (mkAcceptor 9 3 true (Some NewConnection))
    (mkPool Base "echo" true 0 1 ["echo0"%string] [Some (Io 1)]) ∅ (Some 1%nat) None (Some 2%nat) None 1 1 1) ∅ demo_loops.

Lemma demo_io_poller_good :
  poller_ok (mkPollerState (ls_kernel demo_base_loop) ∅ (mkEPollPoller ∅ 8)
    : PollerState scripted (Handler unit) unit EPollPoller).
Proof.
  split; simpl; try done.
  - intros fd p. split; [done|by intros (c & ? & _)].
  - intros fd e. split; [|by intros (c & ? & _)]. intros H. vm_compute in H. discriminate.
Qed.

Lemma demo_base_constructed : constructed 4 5 1 2 blank_base demo_base_loop.
Proof.
  destruct (construct_ok (mkEPollPoller ∅ 3) 4 5 1 2 blank_base) as (s & E & H); try done.
  { split; simpl; try done.
    - intros fd p. split; [done|by intros (c & ? & _)].
    - intros fd e. split; [done|by intros (c & ? & _)]. }
  unfold demo_base_loop, newDefaultPoller, make_EPollPoller. simpl Z.ltb. simpl. by rewrite E.
Qed.

Lemma demo_find l s :
  find_loop l demo_loops = Some s →
  (l = Base ∧ s = demo_base_loop) ∨ (l = Io 1 ∧ s = on_kernel demo_base_loop demo_io_loop).
Proof.
  destruct l as [|p]; simpl; [intros [= <-]; by left|].
  destruct (decide (p = 1%positive)) as [->|Hp]; [|by rewrite lookup_singleton_ne].
  rewrite lookup_singleton_eq. intros [= <-]. by right.
Qed.

(** The channels are the timers' and the eventfd's of the base loop. *)
Lemma demo_chan l p v :
  chan_in l p demo_loops = Some v → l = Base ∧ (p, cv_fd v) ∈ [(2%positive, 5); (1%positive, 4)].
Proof.
  intros (s & c & Hs & _ & Hc & ->)%chan_in_loop. destruct (demo_find l s Hs) as [[-> ->]|[_ ->]]; [|done].
  split; [done|]. assert ((p, fd_ c) ∈ map_to_list (fd_ <$> ls_channels demo_base_loop)) as Hin.
  { apply elem_of_map_to_list. by rewrite lookup_fmap, Hc. }
  vm_compute in Hin. exact Hin.
Qed.

Lemma demo_loops_fine : all_fine demo_loops.
Proof.
  split.
  - intros l s [[_ ->]|[_ ->]]%demo_find.
    + split; [apply (co_polls _ _ _ _ _ _ demo_base_constructed)|by vm_compute].
    + split; [|by vm_compute]. exists (mkEPollPoller ∅ 8). split; [done|apply demo_io_poller_good].
  - intros l m s t epfd [[-> ->]|[-> ->]]%demo_find [[-> ->]|[-> ->]]%demo_find H1 H2;
      vm_compute in H1, H2; congruence.
  - intros l m p q v w [-> Hp]%demo_chan [-> Hq]%demo_chan E. split; [done|]. rewrite E in Hp.
    rewrite !elem_of_cons in Hp, Hq. destruct Hp as [[=]|[[=]|[]%not_elem_of_nil]],
      Hq as [[=]|[[=]|[]%not_elem_of_nil]]; congruence.
Qed.

Abbreviation demo_laws := (event_loops_laws (K := scripted) (O := unit) (T := unit) (P := EPollPoller) (CB := nat)
  demo_names (λ _, eq_refl)).
Lemma demo_tasks l : tasks_in demo_names l demo_loops = [].
Proof.
  unfold tasks_in. destruct (find_loop l demo_loops) as [s|] eqn:E; [|done].
  by destruct (demo_find l s E) as [[-> ->]|[-> ->]].
Qed.

Lemma demo_listening_server_ok :
  server_ok (Loops0 := event_loops demo_names) (LoopsLaws0 := demo_laws) demo_listening_server.
Proof.
  assert (∀ m, queue_in_loop demo_names m demo_loops = []) as Hq.
  { intros m. unfold queue_in_loop. by rewrite demo_tasks. }
  split; try done.
  - apply demo_loops_fine.
  - by eexists.
  - intros l Hl. simpl in Hl. apply list_elem_of_singleton in Hl as [= ->]. by eexists.
  - simpl. lia.
  - intros l. simpl. rewrite Hq. constructor.
  - unfold removing. simpl. intros c. rewrite Hq. by intros ?%elem_of_nil.
  - intros l c. simpl. rewrite Hq. by intros ?%elem_of_nil.
  - intros l c. simpl. rewrite Hq. by intros [?%elem_of_nil|?%elem_of_nil].
  - intros l c. simpl. rewrite Hq. by intros ?%elem_of_nil.
  - intros l c i j. simpl. by rewrite Hq.
Qed.

Lemma demo_unused : ¬ fd_in_loops 12 (sv_loops demo_listening_server).
Proof.
  intros (l & p & v & [_ Hv]%demo_chan & E). rewrite E, !elem_of_cons in Hv.
  destruct Hv as [[=]|[[=]|[]%not_elem_of_nil]].
Qed.

Lemma accept_reaches_loop_witness :
  ∃ (w' : ServerState DemoLS LoopName nat nat) c t ch,
    sv_conns w' = <[c := mkServerConn t (Some (Io 1)) ch]> (sv_conns demo_listening_server) ∧
    sockfd_ t = 12 ∧ queue_in_loop demo_names (Io 1) (sv_loops w') = [ConnectionEstablished c] ∧
    woken (Io 1) (sv_loops w').
Proof.
  destruct (accept_reaches_loop (T := unit) (P := EPollPoller) (CB := nat) demo_names (λ _, eq_refl)
    demo_listening_server 12 0 (SockaddrIn AF_INET (htons 5000) (addr_of 10 0 0 1))
    (idle_kernel <| sk_view := sk_view (ls_kernel demo_base_loop) |>) (Io 1))
    as (w' & c & t & ch & _ & _ & _ & _ & Hc & _ & Hs & _ & _ & Hq & Hw).
  - exact demo_listening_server_ok.
  - reflexivity.
  - reflexivity.
  - reflexivity.
  - vm_compute. reflexivity.
  - lia.
  - exact demo_unused.
  - exists w', c, t, ch. split; [exact Hc|]. split; [exact Hs|]. split; [exact Hq|].
    apply Hw. vm_compute. reflexivity.
Defined.
