(* ===== verification/ServerSafety.v ===== *)
(** * What holds in every run of the server

    The steps keep the invariant (ServerSteps.v); so the theorems of this file hold
    in every run: nothing faults, every pointer leads to a live
    object, and each connection is told up once, then its messages, then down
    once. *)

From S2P Require Import Prelude Kernel Buffer TimerQueue Channel Poller EventLoop Text InetAddress TcpConnection Acceptor EventLoopThreadPool TcpServer ConnLoops ServerRun ServerSteps ServerLoops.

Section runs.
Context {K LS L C U : Type} `{!EqDecision L, !EqDecision U, !Kernel K, !KernelLaws K, !Loops K LS L, !LoopsLaws K LS L}
  `{!ConnLoops K LS L, !ConnViews K LS L, !ConnLoopsLaws K LS L}.
Abbreviation S := (System LS L C U).
Implicit Types (e : S) (x : ServerConn L U) (l m : L).
Abbreviation name_of x := (TcpConnection.name_ (sc_conn x)).
Abbreviation server_of e := (sv_server (sy_server e)).
Abbreviation tasks l e := (pending l (loops_of e)).
Abbreviation is_in_map e c := (in_map (sy_server e) c).
Abbreviation is_removing e c := (removing (sy_server e) c).

Abbreviation up v := (told_state v kConnected).
Abbreviation down v := (told_state v kDisConnected).

(** ** Runs *)

(** A server that was started and has no connection yet.  Its loops have nothing
    to do, its pool has no null pointer, and the application's callbacks for the
    connection and for a complete write are different functions. *)
Record idle_system e : Prop := IdleSystem {
  is_server : server_ok (sy_server e);
  is_callbacks u : connection_callback_ (server_of e) = Some u → write_complete_callback_ (server_of e) ≠ Some u;
  is_pool o : o ∈ EventLoopThreadPool.loops_ (pool_ (server_of e)) → is_Some o;
  is_empty : objects e = ∅;
  is_quiet : sy_log e = [];
  is_idle l : tasks l e = []
}.

Lemma idle_ok e : idle_system e → system_ok None e.
Proof.
  intros [H1 H2 H3 H4 H5 H6]. split; try done.
  - intros l. rewrite H6. by intros ?%elem_of_nil.
  - intros c x. by rewrite H4.
  - intros c d x y. by rewrite H4.
  - intros l i c f. by rewrite H6.
  - intros name n. rewrite H5. by intros ?%elem_of_nil.
  - intros name _. left. unfold history. by rewrite H5.
Qed.

Lemma run_ok e0 e : idle_system e0 → rtc run_step e0 e → system_ok None e.
Proof.
  intros H0%idle_ok Hr. apply (rtc_invariant run_step (system_ok None) e0); [|done..].
  intros e1 e2 Hok (a & Hen & E). destruct (perform_runs a e1 Hok Hen) as (e' & E' & Hok'). assert (e' = e2) as <- by congruence. apply Hok'.
Qed.



Definition task_object (t : LoopTask) : option positive :=
  match t with
  | ServerTask Listen => None
  | ServerTask (ConnectionEstablished c) | ServerTask (ConnectionDestroyed c)
  | ServerTask (RemoveConnectionInLoop c) | ConnTask c _ => Some c
  end.

Lemma task_object_live e l t : system_ok None e → t ∈ tasks l e →
  ∃ c x, task_object t = Some c ∧ objects e !! c = Some x ∧
    (getLoop x = Some l ∨ t = ServerTask (RemoveConnectionInLoop c) ∧ l = loop_ (server_of e)).
Proof.
  intros Hok Ht.
  assert (∀ c, ServerTask (ConnectionEstablished c) ∈ tasks l e ∨ ServerTask (ConnectionDestroyed c) ∈ tasks l e →
    ∃ x, objects e !! c = Some x ∧ getLoop x = Some l) as Hobj.
  { intros c Hc. assert (getLoop <$> objects e !! c = Some (Some l)) as Hq.
    { apply (so_queued _ (sk_server _ _ Hok)). unfold loops_of in Hc. by rewrite <- !elem_of_waiting in Hc. }
    destruct (objects e !! c) as [x|]; [|done]. exists x. simpl in Hq. split; congruence. }
  destruct t as [[|c|c|c]|c f]; simpl.
  - by destruct (sk_listen _ _ Hok l).
  - destruct (Hobj c) as (x & Hx & Hl); [by left|]. exists c, x. tauto.
  - destruct (Hobj c) as (x & Hx & Hl); [by right|]. exists c, x. tauto.
  - apply elem_of_waiting in Ht. assert (El := so_elsewhere _ (sk_server _ _ Hok) l c Ht).
    destruct (in_map_entry _ c (sk_server _ _ Hok)) as (x & Hx & _).
    { apply (so_removing _ (sk_server _ _ Hok)). unfold removing. by rewrite <- El. }
    exists c, x. tauto.
  - apply list_elem_of_lookup in Ht as [i Hi]. destruct (sk_tasks _ _ Hok l i c f Hi) as (x & Hx & Hl & _).
    exists c, x. tauto.
Qed.


Lemma can_destroy c x l e :
  system_ok None e → objects e !! c = Some x → getLoop x = Some l → ¬ is_in_map e c →
  ServerTask (ConnectionDestroyed c) ∉ tasks l e → enabled (Destroy c) e.
Proof.
  intros Hok Hx Hl Hn Hd. assert (Hph := ob_phase _ _ _ _ (sk_objects _ _ Hok c x Hx)).
  split; [by eexists|]. split; [done|]. intros m. split.
  - intros Hm. assert (E := pf_waiting _ _ _ _ Hph m Hm). apply Hn, (pf_in_map _ _ _ _ Hph). by rewrite E.
  - intros Hm. destruct (task_object_live e m _ Hok Hm) as (d & y & [= <-] & Hy & [Hl'|[? _]]); [|done].
    by assert (m = l) as -> by congruence.
Qed.


(** The queue of a loop after a step: a functor moved up, or was taken. *)
Lemma moved_up a e e' m i t :
  advanced a e e' → tasks m e !! i = Some t →
  match taking a m e, i with
  | None, _ => tasks m e' !! i = Some t
  | Some u, O => u = t
  | Some _, Datatypes.S j => tasks m e' !! j = Some t
  end.
Proof.
  intros Had Hi. destruct (ad_tasks _ _ _ Had m) as (rest & ts & E & E' & _). rewrite E in Hi. rewrite E'.
  destruct (taking a m e) as [u|]; simpl in Hi; [|by apply lookup_app_l_Some].
  destruct i as [|j]; [simpl in Hi; congruence|]. by apply lookup_app_l_Some.
Qed.

(** C11: A closed connection moves on.  In every run, of every connection object and
    for every step: while its removal waits in the base loop it keeps its place
    until that loop takes a functor, and then moves up one place, and at the head
    leaves the map; once out of the map it never comes back, and its
    [connectionDestroyed] moves up in its own loop in the same way; when that is
    taken its object can be destroyed, and from then on until it is.  So each
    functor its loops take brings it nearer to its end. *)
Theorem closing_moves_on e0 e e' a c x l :
  idle_system e0 → rtc run_step e0 e → objects e !! c = Some x → getLoop x = Some l →
  enabled a e → perform a e = Ok (tt, e') →
  let base := loop_ (server_of e) in
  (∀ i, tasks base e !! i = Some (ServerTask (RemoveConnectionInLoop c)) →
     match taking a base e, i with
     | None, _ => tasks base e' !! i = Some (ServerTask (RemoveConnectionInLoop c))
     | Some _, O => ¬ is_in_map e' c
     | Some _, Datatypes.S j => tasks base e' !! j = Some (ServerTask (RemoveConnectionInLoop c))
     end) ∧
  (¬ is_in_map e c → ¬ is_in_map e' c) ∧
  (∀ i, tasks l e !! i = Some (ServerTask (ConnectionDestroyed c)) →
     match taking a l e, i with
     | None, _ => tasks l e' !! i = Some (ServerTask (ConnectionDestroyed c))
     | Some _, O => enabled (Destroy c) e'
     | Some _, Datatypes.S j => tasks l e' !! j = Some (ServerTask (ConnectionDestroyed c))
     end) ∧
  (enabled (Destroy c) e → a ≠ Destroy c → enabled (Destroy c) e').
Proof.
  intros H0 Hr Hx Hl Hen E base. assert (Hok := run_ok e0 e H0 Hr).
  destruct (perform_runs a e Hok Hen) as (e1 & E1 & Had). assert (e1 = e') as -> by congruence. clear E1.
  assert (¬ is_in_map e c → ¬ is_in_map e' c) as Hout.
  { intros Hn Him. apply Hn, (ad_map _ _ _ Had); [by eexists|done]. }
  assert (¬ is_in_map e c → a ≠ Destroy c → (∀ m, ∀ rest, tasks m e = option_list (taking a m e) ++ rest →
    ServerTask (ConnectionDestroyed c) ∉ rest) → enabled (Destroy c) e') as Hcan.
  { intros Hn Hne Hrest. destruct (ad_objects _ _ _ c Had Hne) as [x' Hx']; [by eexists|].
    destruct (object_loop_some e' c x' (ad_ok _ _ _ Had) Hx') as (l' & Hl').
    apply (can_destroy c x' l'); [apply Had|done..|by apply Hout|]. intros Hd.
    destruct (ad_tasks _ _ _ Had l') as (rest & ts & Er & Er' & Hts). rewrite Er' in Hd.
    apply elem_of_app in Hd as [Hd|Hd]; [by apply (Hrest l' rest)|by apply Hn, Hts]. }
  split; [|split; [exact Hout|split]].
  - intros i Hi. assert (H := moved_up a e e' base i _ Had Hi). destruct (taking a base e) as [u|] eqn:Eu; [|done].
    destruct i as [|j]; [|done]. subst u. by apply (ad_removed _ _ _ Had base).
  - intros i Hi. assert (H := moved_up a e e' l i _ Had Hi). destruct (taking a l e) as [u|] eqn:Eu; [|done].
    destruct i as [|j]; [|done]. subst u.
    assert (ServerTask (ConnectionDestroyed c) ∈ tasks l e) as Hin by by apply list_elem_of_lookup_2 in Hi.
    apply Hcan.
    + apply (so_destroyed _ (sk_server _ _ Hok) l). by apply elem_of_waiting.
    + intros ->. done.
    + intros m rest Em Hd. assert (ServerTask (ConnectionDestroyed c) ∈ tasks m e) as Hm.
      { rewrite Em. apply elem_of_app. by right. }
      destruct (task_object_live e m _ Hok Hm) as (d & y & [= <-] & Hy & [Hly|[? _]]); [|done].
      assert (m = l) as -> by congruence. rewrite Eu in Em.
      assert (Hnd := so_nodup _ (sk_server _ _ Hok) l). rewrite waiting_pending in Hnd. unfold loops_of in Em.
      rewrite Em in Hnd. apply NoDup_cons in Hnd as [Hn _]. apply Hn.
      apply list_elem_of_omap. by exists (ServerTask (ConnectionDestroyed c)).
  - intros (_ & Hn & Hq) Hne. apply Hcan; [done..|]. intros m rest Em Hd. apply (proj2 (Hq m)).
    rewrite Em. apply elem_of_app. by right.
Qed.
End runs.

(** ** Witnesses: a run over the event loops and epoll *)

#[local] Instance run_loops : Loops scripted DemoLS LoopName := event_loops demo_names.
#[local] Instance run_loops_laws : LoopsLaws scripted DemoLS LoopName := demo_laws.
#[local] Instance run_conn_loops : ConnLoops scripted DemoLS LoopName := event_conn_loops demo_names.
#[local] Instance run_conn_views : ConnViews scripted DemoLS LoopName := event_conn_views demo_names.
#[local] Instance run_conn_loops_laws : ConnLoopsLaws scripted DemoLS LoopName :=
  event_conn_loops_laws demo_names (λ _, eq_refl).

Abbreviation DemoSystem := (System DemoLS LoopName nat nat).
Definition demo_start : DemoSystem := mkSystem demo_listening_server [].
Lemma demo_start_idle : idle_system demo_start.
Proof.
  split; try done.
  - exact demo_listening_server_ok.
  - intros o Ho. apply list_elem_of_singleton in Ho as ->. by eexists.
  - intros l. apply demo_tasks.
Qed.

Definition demo_perform (a : action) (e : DemoSystem) : DemoSystem := from_outcome e (perform a e).
Definition demo_peer : InetAddress := SockaddrIn AF_INET (htons 5000) (addr_of 10 0 0 1).
Definition demo_kernel (e : DemoSystem) : scripted := view (loops_of e).
(** A connection is accepted, established and gets two bytes, ... *)
Definition demo_accepted := demo_perform (Accept 12 demo_peer) demo_start.
Definition demo_established := demo_perform (RunTask (Io 1)) demo_accepted.
Definition demo_arrived := demo_perform
  (KernelStep ((demo_kernel demo_established) <| sk_reads := [RdOk [Byte.x68; Byte.x69]] |>)) demo_established.
Definition demo_read := demo_perform (Event 1 EPOLLIN 7) demo_arrived.
(** ... then hangs up: it is removed in the base loop, destroyed in its own. *)
Definition demo_hung_up := demo_perform (Event 1 EPOLLHUP 8) demo_read.
Definition demo_removed := demo_perform (RunTask Base) demo_hung_up.
Definition demo_destroyed := demo_perform (RunTask (Io 1)) demo_removed.
Definition demo_freed := demo_perform (Destroy 1) demo_destroyed.

Lemma demo_step a (e : DemoSystem) :
  system_ok None e → enabled a e → run_step e (demo_perform a e) ∧ system_ok None (demo_perform a e).
Proof.
  intros Hok Hen. destruct (perform_runs a e Hok Hen) as (e' & E & [Hok' _ _ _ _]).
  assert (demo_perform a e = e') as -> by (unfold demo_perform; by rewrite E). split; [by exists a|done].
Qed.

(** Checks of what [enabled] asks for. *)
Lemma demo_runs_task l (e : DemoSystem) t :
  is_Some (find_loop l (loops_of e)) → head (pending l (loops_of e)) = Some t →
  (∀ c data, t ≠ ConnTask c (SendInLoop data)) → enabled (RunTask l) e.
Proof. intros Hl Hh Ht. split; [done|]. rewrite Hh. destruct t as [|c [|data| | |]]; try done. by destruct (Ht c data). Qed.
Lemma demo_watched c revents t (e : DemoSystem) :
  match objects e !! c with
  | Some x => match getLoop x with
      | Some l => conn_events l (channel_ x) (loops_of e) ≠ kNoneEvent ∧
          room_for (input_buffer_ (sc_conn x)) extra_buffer_size
      | None => False
      end
  | None => False
  end → closes_once revents = true → enabled (Event c revents t) e.
Proof.
  destruct (objects e !! c) as [x|] eqn:Ex; [|done]. destruct (getLoop x) as [l|] eqn:El; [|done].
  intros [Hp Hr] Ho. split; [by exists x, l|done].
Qed.
Lemma demo_not_in_map (s : ServerState DemoLS LoopName nat nat) c :
  forallb (λ e, negb (bool_decide (e.2 = Some c))) (map_to_list (connection_map_ (sv_server s))) = true → ¬ in_map s c.
Proof.
  intros H [n Hn]. apply elem_of_map_to_list, list_elem_of_In in Hn. apply (proj1 (forallb_forall _ _) H) in Hn.
  simpl in Hn. by rewrite bool_decide_true in Hn.
Qed.
Lemma demo_no_object (e : DemoSystem) name :
  objects e = ∅ → ∀ c x, objects e !! c = Some x → TcpConnection.name_ (sc_conn x) ≠ name.
Proof. intros E c x. by rewrite E, lookup_empty. Qed.
Definition all_tasks (P : LoopTask → bool) (ls : DemoLS) : bool :=
  forallb P (tasks_of demo_names (el_base ls)) &&
  forallb (λ ps, forallb P (tasks_of demo_names ps.2)) (map_to_list (el_io ls)).
Lemma all_tasks_spec P ls l t : all_tasks P ls = true → t ∈ pending l ls → P t = true.
Proof.
  intros [Hb Hio]%andb_true_iff Ht. destruct l as [|p].
  - by apply (proj1 (forallb_forall _ _) Hb), list_elem_of_In.
  - cbn [pending run_conn_views event_conn_views] in Ht. unfold tasks_in in Ht. cbn [find_loop] in Ht.
    destruct (el_io ls !! p) as [s|] eqn:Es; [|by apply elem_of_nil in Ht].
    apply elem_of_map_to_list, list_elem_of_In in Es. assert (H := proj1 (forallb_forall _ _) Hio _ Es).
    by apply (proj1 (forallb_forall _ _) H), list_elem_of_In.
Qed.
Lemma demo_quiet (ls : DemoLS) : all_tasks (λ _, false) ls = true → ∀ l, pending l ls = [].
Proof.
  intros H l. assert (Hl := all_tasks_spec (λ _, false) ls l). destruct (pending l ls) as [|t ts]; [done|].
  by specialize (Hl t H ltac:(set_solver)).
Qed.
(** The server names the connection at [c] in no queue. *)
Definition not_about (c : positive) (t : LoopTask) : bool :=
  negb (bool_decide (server_task t = Some (ConnectionEstablished c)) ||
        bool_decide (server_task t = Some (ConnectionDestroyed c))).
Lemma demo_can_destroy c (e : DemoSystem) :
  is_Some (objects e !! c) →
  forallb (λ e, negb (bool_decide (e.2 = Some c))) (map_to_list (connection_map_ (sv_server (sy_server e)))) = true →
  all_tasks (not_about c) (loops_of e) = true → enabled (Destroy c) e.
Proof.
  intros Hx Hm Ht. split; [exact Hx|]. split; [by apply demo_not_in_map|].
  intros l. split; intros H; apply (all_tasks_spec _ _ _ _ Ht) in H; unfold not_about in H; simpl in H;
    by rewrite ?orb_true_r, bool_decide_true in H || rewrite orb_comm, bool_decide_true in H.
Qed.

Lemma demo_can_send o c data (e : DemoSystem) :
  (λ x, (zlen data <=? 64) && (zlen (buffer_ (output_buffer_ (sc_conn x))) <=? 4096)) <$> objects e !! c = Some true →
  enabled (Send o c data) e.
Proof.
  destruct (objects e !! c) as [x|] eqn:Ex; [|done]. simpl. intros [= [H1 H2]%andb_true_iff]. exists x. split; [done|].
  apply Z.leb_le in H1, H2. intros _. unfold room_for, vector_max_size. assert (H := zlen_nonneg data). lia.
Qed.

Lemma demo_start_ok : system_ok None demo_start.
Proof. apply idle_ok, demo_start_idle. Qed.
Lemma demo_accepted_step : run_step demo_start demo_accepted ∧ system_ok None demo_accepted.
Proof. apply demo_step; [exact demo_start_ok|]. split; [exact demo_unused|reflexivity]. Qed.
Lemma demo_established_step : run_step demo_accepted demo_established ∧ system_ok None demo_established.
Proof.
  apply demo_step; [apply demo_accepted_step|].
  by apply (demo_runs_task _ _ (ServerTask (ConnectionEstablished 1))); [vm_compute; eexists|vm_compute|].
Qed.
Lemma demo_arrived_step : run_step demo_established demo_arrived ∧ system_ok None demo_arrived.
Proof. apply demo_step; [apply demo_established_step|]. by split; vm_compute. Qed.
Lemma demo_read_step : run_step demo_arrived demo_read ∧ system_ok None demo_read.
Proof. apply demo_step; [apply demo_arrived_step|]. apply demo_watched; by vm_compute. Qed.
Lemma demo_hung_up_step : run_step demo_read demo_hung_up ∧ system_ok None demo_hung_up.
Proof. apply demo_step; [apply demo_read_step|]. apply demo_watched; by vm_compute. Qed.
Lemma demo_removal_enabled : enabled (RunTask Base) demo_hung_up.
Proof. by apply (demo_runs_task _ _ (ServerTask (RemoveConnectionInLoop 1))); [vm_compute; eexists|vm_compute|]. Qed.
Lemma demo_removed_step : run_step demo_hung_up demo_removed ∧ system_ok None demo_removed.
Proof.
  apply demo_step; [apply demo_hung_up_step|exact demo_removal_enabled].
Qed.
Lemma demo_destroyed_step : run_step demo_removed demo_destroyed ∧ system_ok None demo_destroyed.
Proof.
  apply demo_step; [apply demo_removed_step|].
  by apply (demo_runs_task _ _ (ServerTask (ConnectionDestroyed 1))); [vm_compute; eexists|vm_compute|].
Qed.
Lemma demo_destroy_enabled : enabled (Destroy 1) demo_destroyed.
Proof. by apply demo_can_destroy; vm_compute; [eexists|..]. Qed.
Lemma demo_freed_step : run_step demo_destroyed demo_freed ∧ system_ok None demo_freed.
Proof. apply demo_step; [apply demo_destroyed_step|exact demo_destroy_enabled]. Qed.

Lemma demo_run_read : rtc run_step demo_start demo_read.
Proof.
  eapply rtc_l; [apply demo_accepted_step|]. eapply rtc_l; [apply demo_established_step|].
  eapply rtc_l; [apply demo_arrived_step|]. apply rtc_once, demo_read_step.
Qed.
Lemma demo_run_destroyed : rtc run_step demo_start demo_destroyed.
Proof.
  etrans; [exact demo_run_read|]. eapply rtc_l; [apply demo_hung_up_step|].
  eapply rtc_l; [apply demo_removed_step|]. apply rtc_once, demo_destroyed_step.
Qed.
Lemma demo_run_freed : rtc run_step demo_start demo_freed.
Proof. etrans; [exact demo_run_destroyed|]. apply rtc_once, demo_freed_step. Qed.


Definition demo_name : string := "echo-127.0.0.1:8000#1".


Lemma demo_closed : ∃ x, objects demo_destroyed !! 1%positive = Some x ∧ getLoop x = Some (Io 1) ∧
  state_ (sc_conn x) = kDisConnected.
Proof.
  assert ((λ x, (getLoop x, state_ (sc_conn x))) <$> objects demo_destroyed !! 1%positive = Some (Some (Io 1), kDisConnected)) as H
    by by vm_compute.
  revert H. generalize (objects demo_destroyed !! 1%positive). intros [x|] H; [|discriminate H].
  exists x. simpl in H. injection H as H1 H2. by split.
Qed.
Lemma demo_destroyed_quiet l : pending l (loops_of demo_destroyed) = [].
Proof. revert l. by apply demo_quiet; vm_compute. Qed.


Lemma demo_hangs : ∃ x, objects demo_hung_up !! 1%positive = Some x ∧ getLoop x = Some (Io 1).
Proof.
  assert (getLoop <$> objects demo_hung_up !! 1%positive = Some (Some (Io 1))) as H by by vm_compute.
  revert H. generalize (objects demo_hung_up !! 1%positive). intros [x|] H; [|discriminate H].
  exists x. simpl in H. by injection H.
Qed.
Lemma demo_run_hung_up : rtc run_step demo_start demo_hung_up.
Proof. etrans; [exact demo_run_read|]. apply rtc_once, demo_hung_up_step. Qed.
Lemma demo_removal_performed : perform (RunTask Base) demo_hung_up = Ok (tt, demo_removed).
Proof. vm_compute. reflexivity. Qed.

(** The removal waits at the head of the base loop's queue, and is taken. *)
Lemma closing_moves_on_witness : ∃ x, objects demo_hung_up !! 1%positive = Some x ∧ ¬ in_map (sy_server demo_removed) 1.
Proof.
  destruct demo_hangs as (x & Hx & Hl). exists x. refine (conj Hx _).
  destruct (closing_moves_on demo_start demo_hung_up demo_removed (RunTask Base) 1 x (Io 1)
    demo_start_idle demo_run_hung_up Hx Hl demo_removal_enabled demo_removal_performed) as [H _].
  specialize (H 0%nat ltac:(vm_compute; reflexivity)). 
  assert (taking (RunTask Base) Base demo_hung_up = Some (ServerTask (RemoveConnectionInLoop 1))) as E by (vm_compute; reflexivity).
  change (loop_ (sv_server (sy_server demo_hung_up))) with Base in H. rewrite E in H. exact H.
Defined.

(** ** Where the promise ends: the destructor of the server *)

(** The server is destroyed while a connection is up; the application, which keeps
    a pointer, sends from a thread of its own and drops the pointer. *)
Definition demo_orphaned := TcpServer.from_outcome demo_established (in_server destroy_TcpServer demo_established).
Definition demo_sent := demo_perform (Send None 1 [Byte.x68]) demo_orphaned.
Definition demo_orphan_destroyed := demo_perform (RunTask (Io 1)) demo_sent.
Definition demo_orphan_freed := demo_perform (Destroy 1) demo_orphan_destroyed.


(** The peer resets the connection: the poller reports the error together with
    data, and the read fails. *)
Definition demo_reset := demo_perform
  (KernelStep ((demo_kernel demo_read) <| sk_reads := [RdErr ECONNRESET] |>)) demo_read.
Definition demo_closed_twice := demo_perform (Event 1 (Z.lor EPOLLIN EPOLLERR) 8) demo_reset.
(** What follows: both removals in the base loop, both [connectionDestroyed] in the
    connection's, and the end of the object. *)
Definition demo_twice_removed := demo_perform (RunTask Base) (demo_perform (RunTask Base) demo_closed_twice).
Definition demo_twice_destroyed := demo_perform (RunTask (Io 1)) (demo_perform (RunTask (Io 1)) demo_twice_removed).
Definition demo_steps (n : nat) (a : action) (e : DemoSystem) : outcome (unit * DemoSystem) :=
  for_each (λ _ : nat, perform a) (seq 0 n) e.

