(* ===== verification/ServerStart.v ===== *)
(** * From construction to the runs

    The runs of ServerRun.v begin with a server that has started and has no
    connection yet.  Here that state is reached by the code: the constructor, the
    setters and [start()] of TcpServer.v over the event loops, with the acceptor's
    socket bound, listening and watched in the base loop, whichever thread calls
    [start()]. *)

From S2P Require Import Prelude Kernel Buffer Text InetAddress TimerQueue Channel Poller EventLoop LoopChannels.
From S2P Require Import TcpConnection Acceptor EventLoopThreadPool TcpServer ConnLoops ServerRun ServerSteps ServerLoops ServerSafety.

Section started.
Context {K O T P U CB C A : Type} `{!EqDecision A, !Kernel K, !KernelLaws K} `{!Poller K (Handler O) T P}
  `{!PollerLaws K (Handler O) T P, !PollerRegistry K (Handler O) T P}.
Variable names : Names O T U.
Hypothesis unpost_post : ∀ t, unpost names (post names t) = Some t.
Abbreviation LoopS := (LoopState K O T P U CB).
Abbreviation LS := (EventLoops K O T P U CB).
Abbreviation W := (ServerState LS LoopName C A).

#[local] Instance start_loops : Loops K LS LoopName := event_loops names.
#[local] Instance start_loops_laws : LoopsLaws K LS LoopName := event_loops_laws names unpost_post.
#[local] Instance start_conn_loops : ConnLoops K LS LoopName := event_conn_loops names.
#[local] Instance start_conn_views : ConnViews K LS LoopName := event_conn_views names.
#[local] Instance start_conn_loops_laws : ConnLoopsLaws K LS LoopName := event_conn_loops_laws names unpost_post.

(** ** The acceptor's code as steps of the base loop *)

Lemma code_step_trans t (s1 s2 s3 : LoopS) : code_step t s1 s2 → code_step t s2 s3 → code_step t s1 s3.
Proof.
  intros [P1 T1 Th1 W1 E1 C1 I1 S1 U1 H1] [P2 T2 Th2 W2 E2 C2 I2 S2 U2 H2]. split; try congruence.
  - intros fd. by apply Z.le_trans with (counter_of (kview_of (ls_kernel s2)) fd).
  - intros epfd He. rewrite I2 by congruence. by apply I1.
  - intros p Hp. destruct (H2 p Hp) as [-> R2], (H1 p Hp) as [-> R1]. split; [done|]. by rewrite R2.
Qed.

(** A call of the kernel of which the loop sees nothing. *)
Lemma unseen_step t k (s : LoopS) : polls s → kview_of k = kview_of (ls_kernel s) → code_step t s (s <| ls_kernel := k |>).
Proof.
  intros Hp Hk. assert (H := loop_step_kernel k s id Hp). rewrite Hk in H.
  destruct H as [H1 H2 H3 H4 H5 H6 H7 H8 H9 H10]; done.
Qed.

Lemma acceptor_step sock p addr reuse (s : LoopS) :
  polls s → chan_of s p = None → (∀ q v, chan_of s q = Some v → cv_fd v ≠ sock) → 0 ≤ sock →
  (∀ k : K, 0 ≤ (sys_bind sock addr k).1) →
  ∃ s', with_acceptor (mkAcceptor 0 1 false None) (make_Acceptor (accept_handler names) sock p addr reuse) s =
          Ok (mkAcceptor sock p false None, s') ∧
    code_step (one_channel p) s s' ∧ chan_of s' p = Some (mkChanView sock 0) ∧ ls_loop s' = ls_loop s.
Proof.
  intros Hp Hn Hfd H0 Hb.
  destruct (make_Acceptor_ok (N := AcceptCallback) (accept_handler names) sock p addr reuse
    (mkAcceptorState (mkAcceptor 0 1 false None) s)) as (st & E & [Ea Hp' Hc Hw Hk Ho [Hl Ht]]); [done| | |done..|].
  { simpl. unfold chan_of in Hn. by destruct (ls_channels s !! p). }
  { intros q c Hq. apply (Hfd q (mkChanView (fd_ c) (events_ c))). unfold chan_of. simpl in Hq. by rewrite Hq. }
  simpl in *. exists (ac_loop st). split; [unfold with_acceptor; by rewrite E, <- Ea|]. split; [|split; [|done]].
  - split; try done; rewrite ?Hl, ?Hk; try done.
    + unfold loop_epfd. by rewrite Hl.
    + intros q Hq. unfold chan_of. rewrite Ho by done. split; [done|]. unfold loop_registered. by rewrite Hl.
  - unfold chan_of. by rewrite Hc.
Qed.

Lemma listen_step a v (s : LoopS) :
  polls s → chan_of s (accept_channel_ a) = Some v →
  (sys_listen (accept_socket_ a) (1024 * 16) (ls_kernel s)).1 = 0 →
  ∃ s', with_acceptor a Acceptor.listen s = Ok (a <| listening_ := true |>, s') ∧
    code_step (one_channel (accept_channel_ a)) s s' ∧
    chan_of s' (accept_channel_ a) = Some (mkChanView (cv_fd v) (enable_reading (cv_events v))) ∧
    pendingFunctors_ (ls_loop s') = pendingFunctors_ (ls_loop s) ∧
    (enable_reading (cv_events v) ≠ 0 →
     loop_watched s' !! cv_fd v = Some (EpollEvent (enable_reading (cv_events v)) (accept_channel_ a))).
Proof.
  intros Hp Hv Hr. destruct (sys_listen (accept_socket_ a) (1024 * 16) (ls_kernel s)) as [r k] eqn:El. simpl in Hr. subst r.
  assert (kview_of k = kview_of (ls_kernel s)) as Hk by by rewrite (listen_law _ _ _ _ _ El).
  destruct (polls_same_view k s Hp Hk) as [Hp1 _]. set (s1 := s <| ls_kernel := k |>) in *.
  unfold chan_of in Hv. destruct (ls_channels s !! accept_channel_ a) as [c|] eqn:Hc; [|done]. injection Hv as <-.
  destruct (events_step (accept_channel_ a) c enable_reading s1 Hp1 Hc) as (s' & E & Hst & Hc' & Hq).
  destruct (change_events_ok (accept_channel_ a) c enable_reading s1 Hp1 Hc) as (s2 & i & E2 & _ & _ & _ & _ & Hw).
  assert (s2 = s') as -> by congruence. exists s'. split.
  { set (st := mkAcceptorState (a <| listening_ := true |>) s : AcceptorState K O T P U CB AcceptCallback).
    transitivity ('(_, st) ← (on_socket (InetAddress.listen (accept_socket_ a)) ;;
      in_base_loop (change_events (accept_channel_ a) enable_reading)) st; Ok (ac_acceptor st, ac_loop st)); [by destruct a|].
    rewrite (M_bind_ok _ _ _ _ _ (on_socket_ok (InetAddress.listen (accept_socket_ a)) st tt k
      ltac:(unfold InetAddress.listen; simpl; by rewrite El))).
    assert (E' := in_base_loop_ok (change_events (accept_channel_ a) enable_reading)
      (st <| ac_loop ::= λ l, l <| ls_kernel := k |> |>) tt s' E). by rewrite E'. }
  split; [|split; [exact Hc'|split; [exact Hq|]]].
  - apply (code_step_trans _ _ s1); [by apply unseen_step|exact Hst].
  - simpl. intros Hne. rewrite Hw. unfold isNoneEvent, kNoneEvent. rewrite (proj2 (Z.eqb_neq _ _) Hne). apply lookup_insert_eq.
Qed.

(** ** The same in the base loop of the server *)

(** The queue of a loop, with the functors that are not the server's. *)
Definition functors_in (l : LoopName) (ls : LS) : list (Functor U) :=
  match find_loop l ls with Some s => pendingFunctors_ (ls_loop s) | None => [] end.
Lemma tasks_functors l ls : tasks_in names l ls = omap (task_of names) (functors_in l ls).
Proof. unfold tasks_in, functors_in, tasks_of. by destruct (find_loop l ls). Qed.

(** Loops as they were but for the channels and what the kernel knows. *)
Record loops_kept_up (ls ls' : LS) : Prop := LoopsKeptUp {
  ku_fine : all_fine ls';
  ku_functors m : functors_in m ls' = functors_in m ls;
  ku_alive m : exists_loop m ls → exists_loop m ls';
  ku_here m : loop_here m ls' = loop_here m ls
}.

(** The base loop ran code; what happened to its queue. *)
Lemma base_ran {X} t `{!∀ p, Decision (t p)} (m : M LoopS X) ls a s' :
  all_fine ls → m (el_base ls) = Ok (a, s') → code_step t (el_base ls) s' →
  (∀ p q, t p → t q → p = q) →
  (∀ p v, t p → chan_of s' p = Some v →
     cv_fd <$> chan_of (el_base ls) p = Some (cv_fd v) ∨ ¬ fd_in_loops (cv_fd v) ls) →
  ∃ ls', run_in Base m ls = Ok (a, ls') ∧ ran names t Base s' ls ls' ∧ el_base ls' = s' ∧
    (∀ n, functors_in n ls' = if decide (n = Base) then pendingFunctors_ (ls_loop s') else functors_in n ls).
Proof.
  intros Hok E Hst Hone Hfd.
  destruct (run_in_step names t Base m ls (el_base ls) a s' Hok eq_refl E Hst Hone Hfd) as (ls' & Er & Hr).
  exists ls'. split; [exact Er|]. split; [exact Hr|]. assert (Hs' := rn_loop _ _ _ _ _ _ Hr). injection Hs' as Eb.
  split; [exact Eb|]. intros [|q]; [by rewrite <- Eb|]. unfold run_in in Er. simpl in Er. rewrite E in Er. injection Er as <-.
  unfold functors_in. simpl. by destruct (el_io ls !! q).
Qed.

Lemma ran_kept_up t s' ls ls' :
  ran names t Base s' ls ls' →
  (∀ n, functors_in n ls' = if decide (n = Base) then pendingFunctors_ (ls_loop s') else functors_in n ls) →
  pendingFunctors_ (ls_loop s') = pendingFunctors_ (ls_loop (el_base ls)) →
  loops_kept_up ls ls'.
Proof. intros Hr Hf Hq. split; try apply Hr. intros m. rewrite Hf, Hq. by case_decide as Hm; [subst m|]. Qed.

Lemma base_acceptor_ok sock p addr reuse ls :
  all_fine ls → chan_in Base p ls = None → ¬ fd_in_loops sock ls → 0 ≤ sock →
  (∀ k : K, 0 ≤ (sys_bind sock addr k).1) →
  ∃ ls', loop_acceptor Base sock p addr reuse ls = Ok (mkAcceptor sock p false None, ls') ∧
    loops_kept_up ls ls' ∧ chan_in Base p ls' = Some (mkChanView sock 0).
Proof.
  intros Hok Hn Hfd H0 Hb. set (s := el_base ls).
  destruct (acceptor_step sock p addr reuse s) as (s' & E & Hst & Hc & Hl); try done.
  - by apply (af_loop ls Hok Base).
  - intros q v Hv <-. apply Hfd. by exists Base, q, v.
  - destruct (base_ran (one_channel p) _ ls _ s' Hok E Hst) as (ls' & Er & Hr & Eb & Hf).
    + intros q r. unfold one_channel. congruence.
    + intros q v -> Hq. right. rewrite Hc in Hq. by injection Hq as <-.
    + exists ls'. split; [exact Er|]. split; [apply (ran_kept_up _ _ _ _ Hr Hf); by rewrite Hl|].
      unfold chan_in. simpl. by rewrite Eb.
Qed.

Lemma base_listen_ok a v ls :
  all_fine ls → chan_in Base (accept_channel_ a) ls = Some v →
  (∀ k : K, (sys_listen (accept_socket_ a) (1024 * 16) k).1 = 0) → enable_reading (cv_events v) ≠ 0 →
  ∃ ls', loop_listen Base a ls = Ok (a <| listening_ := true |>, ls') ∧ loops_kept_up ls ls' ∧
    loop_watched (el_base ls') !! cv_fd v = Some (EpollEvent (enable_reading (cv_events v)) (accept_channel_ a)).
Proof.
  intros Hok Hv Hr Hne. set (s := el_base ls).
  destruct (listen_step a v s) as (s' & E & Hst & Hc & Hq & Hw); [by apply (af_loop ls Hok Base)|done..|].
  destruct (base_ran (one_channel (accept_channel_ a)) _ ls _ s' Hok E Hst) as (ls' & Er & Hran & Eb & Hf).
  - intros q r. unfold one_channel. congruence.
  - intros q w -> Hq'. left. rewrite Hc in Hq'. injection Hq' as <-.
    change (chan_of (el_base ls) (accept_channel_ a)) with (chan_in Base (accept_channel_ a) ls). by rewrite Hv.
  - exists ls'. split; [exact Er|]. split; [by apply (ran_kept_up _ _ _ _ Hran Hf)|]. rewrite Eb. by apply Hw.
Qed.

(** [start()] in another thread queues the functor, the base loop takes and runs it. *)
Lemma listen_queued ls :
  all_fine ls → functors_in Base ls = [] →
  ∃ ls', loop_queue Base Listen ls = Ok (tt, ls') ∧ all_fine ls' ∧
    (∀ m, functors_in m ls' = if decide (m = Base) then [Task (post names (ServerTask Listen))] else functors_in m ls) ∧
    (∀ m, exists_loop m ls → exists_loop m ls') ∧ (∀ q, chan_in Base q ls' = chan_in Base q ls) ∧
    (loop_here Base ls = false → woken Base ls').
Proof.
  intros Hok Hq. destruct (queue_step (Task (post names (ServerTask Listen))) (el_base ls)) as (s' & E & Hst & Hq' & Hw);
    [by apply (af_loop ls Hok Base)|].
  destruct (base_ran no_channel _ ls tt s' Hok E Hst) as (ls' & Er & Hr & Eb & Hf); [by intros ? ? []..|].
  exists ls'. split; [exact Er|]. split; [apply Hr|]. split; [|split; [apply Hr|split]].
  - intros m. rewrite Hf, Hq'. unfold functors_in in Hq. simpl in Hq. by rewrite Hq.
  - intros q. apply (rn_chan _ _ _ _ _ _ Hr Base q). by intros [_ []].
  - intros Hh. exists s'. split; [by rewrite <- Eb|by apply Hw].
Qed.

Lemma listen_taken ls :
  all_fine ls → functors_in Base ls = [Task (post names (ServerTask Listen))] →
  ∃ ls', loop_take Base ls = Ok (Some (ServerTask Listen), ls') ∧ all_fine ls' ∧
    (∀ m, functors_in m ls' = if decide (m = Base) then [] else functors_in m ls) ∧
    (∀ m, exists_loop m ls → exists_loop m ls') ∧ (∀ q, chan_in Base q ls' = chan_in Base q ls).
Proof.
  intros Hok Hq. destruct (take_step names (el_base ls)) as (o & s' & E & Hst & _); [by apply (af_loop ls Hok Base)|].
  assert (o = Some (ServerTask Listen) ∧ pendingFunctors_ (ls_loop s') = []) as [-> Hq'].
  { unfold functors_in in Hq. simpl in Hq. revert E. unfold take_task, the_loop, gets, set_loop, modify. mcbn. rewrite Hq.
    unfold task_of. rewrite unpost_post. intros [= <- <-]. done. }
  destruct (base_ran no_channel _ ls _ s' Hok E Hst) as (ls' & Er & Hr & Eb & Hf); [by intros ? ? []..|].
  exists ls'. split; [exact Er|]. split; [apply Hr|]. split; [|split; [apply Hr|]].
  - intros m. by rewrite Hf, Hq'.
  - intros q. apply (rn_chan _ _ _ _ _ _ Hr Base q). by intros [_ []].
Qed.
(** ** The constructor, the setters and start() *)

Section code.
Variables (sock : Z) (p : positive) (addr : InetAddress) (name : string) (reuse : bool).
Variables (cb wcb mcb : option A) (ti : option C) (n : Z).

(** [TcpServer server(loop,addr,name,reuse); server.setConnecitonCallback(cb); ...
    server.setThreadNum(n);] in the loops [ls]. *)
Definition construct (ls : LS) : outcome W :=
  s ← make_TcpServer sock p Base addr name reuse ls;
  '(_, s) ← (TcpServer.setConnecitonCallback cb ;; TcpServer.setWriteCompleteCallback wcb ;;
    TcpServer.setMessageCallback mcb ;; setThreadInitCallback ti ;; setThreadNum n) s;
  Ok s.

(** The constructed server over the loops [ls]. *)
Definition constructed_server (ls : LS) : W :=
  mkServerState (mkTcpServer Base (toIpPort addr) name (mkAcceptor sock p false (Some NewConnection))
    ((make_EventLoopThreadPool Base name) <| EventLoopThreadPool.num_threads_ := n |>)
    ∅ cb wcb mcb ti n 0 1) ∅ ls.

Lemma construct_gives ls :
  all_fine ls → chan_in Base p ls = None → ¬ fd_in_loops sock ls → 0 ≤ sock →
  (∀ k : K, 0 ≤ (sys_bind sock addr k).1) →
  ∃ ls', construct ls = Ok (constructed_server ls') ∧ loops_kept_up ls ls' ∧
    chan_in Base p ls' = Some (mkChanView sock 0).
Proof.
  intros Hok Hn Hfd H0 Hb. destruct (base_acceptor_ok sock p addr reuse ls) as (ls' & E & Hk & Hc); [done..|].
  exists ls'. split; [|by split]. unfold construct, make_TcpServer. mcbn. rewrite E. reflexivity.
Qed.

(** The first [start()], up to the acceptor, for threads that answer with [answer]. *)
Variable answer : string → option LoopName.
Definition indices : list nat := seq 0 (Z.to_nat n).
Definition starting_server (ls : LS) : W :=
  (constructed_server ls) <| sv_server ::= λ v, v <| started_ := 1 |>
    <| pool_ ::= λ q : Pool LoopName, q <| EventLoopThreadPool.started_ := true |> |> |>.
Definition started_server (a : Acceptor AcceptCallback) (ls : LS) : W :=
  (with_loops answer indices ls (starting_server ls)) <| sv_server ::= λ v, v <| acceptor_ := a |> |>.

(** What the threads of the pool do to the loops: each answers with its own. *)
Record threads_made (ls ls' : LS) : Prop := ThreadsMade {
  tm_kept : loops_kept_up ls ls';
  tm_answer i : i ∈ indices → ∃ l, answer (thread_name (make_EventLoopThreadPool Base name) i) = Some l ∧ exists_loop l ls';
  tm_channel : chan_in Base p ls' = chan_in Base p ls
}.

Lemma started_server_idle a ls :
  0 ≤ n → inet_ok addr → (∀ u, cb = Some u → wcb ≠ Some u) → all_fine ls → (∀ m, functors_in m ls = []) →
  (∀ i, i ∈ indices → ∃ l, answer (thread_name (make_EventLoopThreadPool Base name) i) = Some l ∧ exists_loop l ls) →
  idle_system (mkSystem (started_server a ls) []).
Proof.
  intros H0 Haddr Hcb Hok Hq Ha.
  set (s := (constructed_server ls) <| sv_server ::= λ v, v <| acceptor_ := a |> |>).
  assert (∀ m, waiting m ls = []) as Hw by (intros m; rewrite waiting_pending; change (pending m ls) with (tasks_in names m ls); by rewrite tasks_functors, Hq).
  split; try done.
  - apply (server_ok_started answer n s ls H0).
    + split; try done; [by eexists|by apply toIpPort_whole].
    + split; [exact Hok|]. by intros m.
    + intros i l Hi Hl. destruct (Ha i Hi) as (l' & Hl' & He).
      assert (Some l = Some l') as [= ->]; [by rewrite <- Hl, <- Hl'|exact He].
  - intros o Ho. simpl in Ho. apply list_elem_of_fmap in Ho as (i & -> & Hi). destruct (Ha i Hi) as (l & Hl & _).
    eexists. exact Hl.
  - intros l. change (tasks_in names l ls = []). by rewrite tasks_functors, Hq.
Qed.

(** The acceptor of the started server. *)
Definition listening_acceptor : Acceptor AcceptCallback := mkAcceptor sock p true (Some NewConnection).

Lemma listen_started ls ls1 :
  all_fine ls → chan_in Base p ls = Some (mkChanView sock 0) → (∀ k : K, (sys_listen sock (1024 * 16) k).1 = 0) →
  ∃ ls', acceptor_listen (with_loops answer indices ls (starting_server ls1)) =
           Ok (tt, started_server listening_acceptor ls') ∧ loops_kept_up ls ls' ∧
    loop_watched (el_base ls') !! sock = Some (EpollEvent kReadEvent p).
Proof.
  intros Hok Hc Hr. destruct (base_listen_ok (mkAcceptor sock p false (Some NewConnection)) (mkChanView sock 0) ls)
    as (ls' & E & Hk & Hw); [done..|].
  exists ls'. split; [|by split]. unfold acceptor_listen, server, gets, in_loops. mcbn. simpl in *. by rewrite E.
Qed.


Lemma queue_listen_ok ls ls1 ls' :
  loop_queue Base Listen ls = Ok (tt, ls') →
  queue_in (Some Base) Listen (with_loops answer indices ls (starting_server ls1)) =
    Ok (tt, with_loops answer indices ls' (starting_server ls1)).
Proof. intros E. unfold queue_in, in_loops. mcbn. simpl in *. by rewrite E. Qed.

Lemma run_listen_ok s ls ls1 ls2 ls3 :
  s = with_loops answer indices ls (starting_server ls1) →
  loop_take Base (run_as (Some Base) ls) = Ok (Some (ServerTask Listen), ls2) →
  acceptor_listen (with_loops answer indices ls2 (starting_server ls1)) = Ok (tt, started_server listening_acceptor ls3) →
  perform (RunTask Base) (mkSystem s []) = Ok (tt, mkSystem (started_server listening_acceptor ls3) []).
Proof.
  intros -> E2 E3. set (e := mkSystem (with_loops answer indices (run_as (Some Base) ls) (starting_server ls1)) []).
  transitivity ((t ← in_loop_code (loop_take Base); match t with Some t => run_task t | None => mret tt end) e); [done|].
  rewrite (M_bind_ok _ _ _ _ _ (in_loop_code_ok (loop_take Base) e _ _ E2)).
  change (in_server acceptor_listen (mkSystem (with_loops answer indices ls2 (starting_server ls1)) []) =
    Ok (tt, mkSystem (started_server listening_acceptor ls3) [])). unfold in_server. simpl sy_server. by rewrite E3.
Qed.

(** C31: A server is started.  Over loops with empty queues, with a socket that no
    channel has yet, that binds and listens, the constructor and the setters give
    the server; and when then the threads of the pool have answered with their
    loops, the first [start()] succeeds.  In the base loop's thread the state after
    it, in another thread the state after the base loop, woken by the queued
    functor, has run it, is one in which the runs of the system begin: the acceptor
    listens, the kernel watches its socket for the base loop and reports to its
    channel, and every invariant holds. *)
Theorem started_is_idle ls0 :
  all_fine ls0 → (∀ m, functors_in m ls0 = []) → chan_in Base p ls0 = None → ¬ fd_in_loops sock ls0 →
  0 ≤ sock → (∀ k : K, 0 ≤ (sys_bind sock addr k).1) → (∀ k : K, (sys_listen sock (1024 * 16) k).1 = 0) →
  inet_ok addr → 0 ≤ n → ti = None ∨ 0 < n → (∀ u, cb = Some u → wcb ≠ Some u) →
  ∃ ls1, construct ls0 = Ok (constructed_server ls1) ∧
    ∀ startLoop call ls2,
      for_each (start_one startLoop ti) indices (starting_server ls1) =
        Ok (tt, with_loops answer indices ls2 (starting_server ls1)) →
      threads_made ls1 ls2 →
      ∃ s e, TcpServer.start startLoop call (constructed_server ls1) = Ok (tt, s) ∧ idle_system e ∧
        (if loop_here Base ls0 then e = mkSystem s []
         else woken Base (sv_loops s) ∧ perform (RunTask Base) (mkSystem s []) = Ok (tt, e)) ∧
        acceptor_ (sv_server (sy_server e)) = listening_acceptor ∧
        loop_watched (el_base (loops_of e)) !! sock = Some (EpollEvent kReadEvent p).
Proof.
  intros Hok Hq Hn Hfd Hs Hb Hl Haddr H0 Hti Hcb.
  destruct (construct_gives ls0) as (ls1 & E1 & Hk1 & Hc1); [done..|]. exists ls1. split; [exact E1|].
  intros startLoop call ls2 E2 [Hk2 Ha2 Hc2].
  assert (Hq2 : ∀ m, functors_in m ls2 = []) by (intros m; by rewrite (ku_functors _ _ Hk2), (ku_functors _ _ Hk1)).
  assert (loop_here Base ls2 = loop_here Base ls0) as Hh by by rewrite (ku_here _ _ Hk2), (ku_here _ _ Hk1).
  rewrite Hc1 in Hc2.
  assert (Hstart : TcpServer.start startLoop call (constructed_server ls1) =
    if loop_here Base ls0 then acceptor_listen (with_loops answer indices ls2 (starting_server ls1))
    else queue_in (Some Base) Listen (with_loops answer indices ls2 (starting_server ls1))).
  { rewrite <- Hh. apply (start_runs startLoop call answer n (constructed_server ls1) ls2 H0); [|exact Hti|exact E2].
    split; try done; [apply Hk1|by eexists| |by apply toIpPort_whole].
    intros m. change (omap server_task (tasks_in names m ls1) = []).
    by rewrite tasks_functors, (ku_functors _ _ Hk1), Hq. }
  assert (Hidle : ∀ ls3, all_fine ls3 → (∀ m, functors_in m ls3 = []) → (∀ m, exists_loop m ls2 → exists_loop m ls3) →
    idle_system (mkSystem (started_server listening_acceptor ls3) [])).
  { intros ls3 H3 Hq3 Ha3. apply started_server_idle; try done. intros i Hi. destruct (Ha2 i Hi) as (l & El & Hal).
    exists l. split; [exact El|by apply Ha3]. }
  rewrite Hstart. destruct (loop_here Base ls0) eqn:Ehere.
  - destruct (listen_started ls2 ls1 (ku_fine _ _ Hk2) Hc2 Hl) as (ls3 & E3 & Hk3 & Hw3).
    eexists _, _. split; [exact E3|]. split; [|split; [done|split; [done|exact Hw3]]].
    apply Hidle; [apply Hk3| |apply Hk3]. intros m. by rewrite (ku_functors _ _ Hk3).
  - destruct (listen_queued ls2 (ku_fine _ _ Hk2) (Hq2 Base)) as (ls3 & E3 & Hok3 & Hq3 & Ha3 & Hc3 & Hw3).
    assert (Hth := thread_same (Some Base) ls3). destruct (same_loops_views names _ _ Hth) as (Hv4 & _ & Ha4 & _).
    assert (∀ m, functors_in m (run_as (Some Base) ls3) = functors_in m ls3) as Hq4.
    { intros m. unfold functors_in. destruct (Hth m) as (k & tid & Em). simpl run_as. rewrite Em. by destruct (find_loop m ls3). }
    destruct (listen_taken (run_as (Some Base) ls3)) as (ls5 & E5 & Hok5 & Hq5 & Ha5 & Hc5);
      [by apply thread_fine|rewrite Hq4, Hq3; by rewrite decide_True|].
    destruct (listen_started ls5 ls1 Hok5) as (ls6 & E6 & Hk6 & Hw6); [|done|].
    { rewrite Hc5. etrans; [apply (Hv4 Base p)|]. by rewrite Hc3. }
    eexists _, (mkSystem (started_server listening_acceptor ls6) []). split; [apply queue_listen_ok; exact E3|]. split; [|split; [split|split; [done|exact Hw6]]].
    + apply Hidle; [apply Hk6| |].
      * intros m. rewrite (ku_functors _ _ Hk6), Hq5, Hq4, Hq3. by case_decide.
      * intros m Hm. apply (ku_alive _ _ Hk6), Ha5, Ha4, Ha3, Hm.
    + apply Hw3. by rewrite Hh.
    + by apply (run_listen_ok _ ls3 ls1 ls5 ls6).
Qed.
End code.
End started.

(** ** Witness: one thread, over epoll *)

Abbreviation demo_fine := (all_fine (K := scripted) (O := unit) (T := unit) (P := EPollPoller) (U := LoopTask) (CB := nat)).
Definition demo_address : InetAddress := SockaddrIn AF_INET (htons 8000) (addr_of 127 0 0 1).
(** The base loop alone, and with the constructed server; the socket is 9, the
    acceptor's channel 3. *)
Definition demo_base_only : DemoLS := mkEventLoops demo_base_loop ∅.
Abbreviation demo_construct := (construct (A := nat) (C := nat) demo_names 9 3 demo_address "echo" false (Some 1%nat) None (Some 2%nat) None 1).
Definition demo_constructed_loops : DemoLS :=
  match demo_construct demo_base_only with Ok s => sv_loops s | Fault _ => demo_base_only end.
(** The thread "echo0" makes the loop [Io 1]. *)
Definition demo_add_loop (ls : DemoLS) : DemoLS := mkEventLoops (el_base ls) (<[1%positive := demo_io_loop]> (el_io ls)).
Definition demo_thread_start (cb : option nat) (name : string) : M (ServerState DemoLS LoopName nat nat) (option LoopName) :=
  modify (set_field sv_loops demo_add_loop) ;; mret (Some (Io 1)).

Lemma demo_base_only_find l s : find_loop l demo_base_only = Some s → l = Base ∧ s = demo_base_loop.
Proof. destruct l as [|q]; simpl; [by intros [= <-]|by rewrite lookup_empty]. Qed.
Lemma demo_base_only_fine : demo_fine demo_base_only.
Proof.
  split.
  - intros l s [_ ->]%demo_base_only_find. apply (af_loop _ demo_loops_fine Base). reflexivity.
  - by intros l m s t epfd [-> _]%demo_base_only_find [-> _]%demo_base_only_find.
  - intros l m p q v w Hp Hq.
    assert (l = Base ∧ m = Base) as [-> ->].
    { unfold chan_in in Hp, Hq. destruct (find_loop l demo_base_only) as [s|] eqn:El; [|done].
      destruct (find_loop m demo_base_only) as [t|] eqn:Em; [|done]. split; eapply demo_base_only_find; done. }
    by apply (af_fd _ demo_loops_fine Base Base).
Qed.
Lemma demo_sock_unused : ¬ fd_in_loops 9 demo_base_only.
Proof.
  intros (l & p & v & Hv & E). destruct l as [|q]; [|unfold chan_in in Hv; simpl in Hv; by rewrite lookup_empty in Hv].
  destruct (demo_chan Base p v Hv) as [_ Hin]. rewrite E, !elem_of_cons in Hin.
  destruct Hin as [[=]|[[=]|[]%not_elem_of_nil]].
Qed.
Lemma demo_constructed_fine : demo_fine demo_constructed_loops ∧ chan_in Base 3 demo_constructed_loops = Some (mkChanView 9 0).
Proof.
  destruct (construct_gives (A := nat) (C := nat) demo_names 9 3 demo_address "echo" false (Some 1%nat) None (Some 2%nat) None 1
    demo_base_only) as (ls & E & Hk & Hc); [exact demo_base_only_fine|vm_compute; reflexivity|exact demo_sock_unused|lia|intros k; simpl; lia|].
  unfold demo_constructed_loops. rewrite E. split; [apply Hk|exact Hc].
Qed.

Definition demo_started_loops : DemoLS := demo_add_loop demo_constructed_loops.
Lemma demo_no_io : el_io demo_constructed_loops = ∅.
Proof. vm_compute. reflexivity. Qed.
Lemma find_no_io (ls : DemoLS) q : el_io ls = ∅ → find_loop (Io q) ls = None.
Proof. intros E. simpl. by rewrite E, lookup_empty. Qed.
Lemma find_added (ls : DemoLS) q : el_io ls = ∅ →
  find_loop (Io q) (demo_add_loop ls) = if decide (q = 1%positive) then Some (on_kernel (el_base ls) demo_io_loop) else None.
Proof.
  intros E. simpl. rewrite E. case_decide as Hq; [subst q; by rewrite lookup_insert_eq|].
  by rewrite lookup_insert_ne, lookup_empty by congruence.
Qed.
Lemma here_added (ls : DemoLS) q : el_io ls = ∅ → isInLoopThread (on_kernel (el_base ls) demo_io_loop) = false →
  loop_here (Loops := event_loops demo_names) (Io q) (demo_add_loop ls) = loop_here (Loops := event_loops demo_names) (Io q) ls.
Proof.
  intros E H. change (match find_loop (Io q) (demo_add_loop ls) with Some s => isInLoopThread s | None => false end =
    match find_loop (Io q) ls with Some s => isInLoopThread s | None => false end).
  rewrite (find_added ls q E), (find_no_io ls q E). by case_decide.
Qed.
Lemma demo_started_find l s : find_loop l demo_started_loops = Some s →
  (l = Base ∧ s = el_base demo_constructed_loops) ∨ (l = Io 1 ∧ s = on_kernel (el_base demo_constructed_loops) demo_io_loop).
Proof.
  destruct l as [|q]; [intros [= <-]; by left|]. unfold demo_started_loops. rewrite (find_added _ _ demo_no_io).
  case_decide as Hq; [subst q|discriminate]. intros [= <-]. by right.
Qed.
Abbreviation io_poller k := (mkPollerState k ∅ (mkEPollPoller ∅ 8) : PollerState scripted (Handler unit) unit EPollPoller).
Lemma demo_io_polls (b : LoopState scripted unit unit EPollPoller LoopTask nat) :
  epoll_watched (io_poller (ls_kernel b)) = ∅ → polls (on_kernel b demo_io_loop).
Proof.
  intros Hw. exists (mkEPollPoller ∅ 8). split; [done|]. split; simpl; try done.
  - intros fd p. split; [done|by intros (c & ? & _)].
  - intros fd e. split; [|by intros (c & ? & _)]. intros H. exfalso.
    assert (epoll_watched (io_poller (ls_kernel b)) !! fd = Some e) as H' by exact H. by rewrite Hw in H'.
Qed.
Lemma demo_started_fine : demo_fine demo_started_loops.
Proof.
  destruct demo_constructed_fine as [Hok _].
  assert (∀ l p v, chan_in l p demo_started_loops = Some v → l = Base ∧ chan_in Base p demo_constructed_loops = Some v) as Hch.
  { intros l p v (s & c & Hs & Hv & _)%chan_in_loop. by destruct (demo_started_find l s Hs) as [[-> ->]|[_ ->]]. }
  split.
  - intros l s [[_ ->]|[_ ->]]%demo_started_find; [by apply (af_loop _ Hok Base)|].
    split; [|by vm_compute]. apply demo_io_polls. vm_compute. reflexivity.
  - intros l m s t epfd [[-> ->]|[-> ->]]%demo_started_find [[-> ->]|[-> ->]]%demo_started_find H1 H2;
      vm_compute in H1, H2; congruence.
  - intros l m p q v w [-> Hp]%Hch [-> Hq]%Hch E. by apply (af_fd _ Hok Base Base p q v w).
Qed.

Lemma demo_started_functors m : functors_in m demo_started_loops = [] ∧ functors_in m demo_constructed_loops = [].
Proof.
  destruct m as [|q]; [split; vm_compute; reflexivity|]. unfold functors_in. split.
  - unfold demo_started_loops. rewrite (find_added _ q demo_no_io). by destruct (decide (q = 1%positive)).
  - by rewrite (find_no_io _ q demo_no_io).
Qed.

Lemma demo_threads_made :
  threads_made demo_names 3 "echo" 1 (λ _, Some (Io 1)) demo_constructed_loops demo_started_loops.
Proof.
  split.
  - split; [exact demo_started_fine|intros m; destruct (demo_started_functors m) as [E1 E2]; rewrite E1, E2; reflexivity|..].
    + intros [|q] [s Hs]; [by eexists|]. rewrite (find_no_io _ _ demo_no_io) in Hs. discriminate Hs.
    + intros [|q]; [reflexivity|]. apply here_added; [exact demo_no_io|vm_compute; reflexivity].
  - intros i Hi. exists (Io 1). split; [done|]. vm_compute. by eexists.
  - reflexivity.
Qed.

Lemma demo_threads_start (ls : DemoLS) :
  let s := starting_server (C := nat) (A := nat) 9 3 demo_address "echo" (Some 1%nat) None (Some 2%nat) None 1 ls in
  for_each (start_one demo_thread_start None) (indices 1) s =
    Ok (tt, with_loops (λ _, Some (Io 1)) (indices 1) (demo_add_loop ls) s).
Proof. reflexivity. Qed.

#[local] Existing Instances run_loops run_loops_laws run_conn_loops run_conn_views run_conn_loops_laws.

Lemma started_is_idle_witness :
  ∃ s (e : DemoSystem), TcpServer.start demo_thread_start (λ _ _, mret tt)
      (constructed_server (K := scripted) 9 3 demo_address "echo" (Some 1%nat) None (Some 2%nat) None 1 demo_constructed_loops) = Ok (tt, s) ∧
    idle_system e ∧ e = mkSystem s [].
Proof.
  destruct (started_is_idle (A := nat) (C := nat) demo_names (λ _, eq_refl) 9 3 demo_address "echo" false
    (Some 1%nat) None (Some 2%nat) None 1 (λ _, Some (Io 1)) demo_base_only) as (ls1 & E1 & H).
  - exact demo_base_only_fine.
  - intros [|q]; [vm_compute; reflexivity|]. unfold functors_in. simpl. by rewrite lookup_empty.
  - vm_compute. reflexivity.
  - exact demo_sock_unused.
  - lia.
  - intros k. simpl. lia.
  - reflexivity.
  - by split.
  - lia.
  - by left.
  - done.
  - assert (ls1 = demo_constructed_loops) as -> by (unfold demo_constructed_loops; by rewrite E1).
    destruct (H demo_thread_start (λ _ _, mret tt) demo_started_loops) as (s & e & Es & He & Hh & _);
      [apply demo_threads_start|exact demo_threads_made|].
    exists s, e. split; [exact Es|]. split; [exact He|exact Hh].
Defined.
