(* ===== verification/ServerStreams.v ===== *)
(** * The bytes of a connection in a run of the server

    [SendQueue] is what the application may think of one connection: the bytes
    sent so far, and the data of the sends that other threads have handed to the
    loop.  [server_streams] is that in every run of the server (ServerRun.v), and
    whatever the other connections do, each connection behaves like that;
    [sends_in_order] says what the peer gets: every send whole, none twice, those
    of the loop's thread in order, and those of the other threads in order. *)

From Stdlib Require Import Init.Byte.
From S2P Require Import Prelude Kernel Buffer TimerQueue Channel Poller EventLoop Text InetAddress TcpConnection Acceptor EventLoopThreadPool TcpServer ConnLoops ServerRun ServerSteps ServerLoops ServerSafety.

(** ** Specification: a stream, and the sends that wait for its loop *)

Module SendQueue.
(** A [send] on a connected connection: in the thread of its loop, or in another. *)
Inductive call : Type := Direct (data : list byte) | Later (data : list byte).
Definition data_of (k : call) : list byte := match k with Direct data | Later data => data end.
Definition direct (k : call) : option (list byte) := match k with Direct data => Some data | _ => None end.
Definition later (k : call) : option (list byte) := match k with Later data => Some data | _ => None end.

Record t : Type := mk { bytes : list byte; waiting : list (list byte); open : bool }.

(** All of the data of a send; nothing of it only on a [lossy] socket, one that
    reports EPIPE or ECONNRESET. *)
Definition kept (lossy : bool) (data bs : list byte) : Prop := bs = data ∨ bs = [] ∧ lossy = true.

Inductive step (lossy : bool) : option call → t → t → Prop :=
| step_quiet b w o o' : (o' = true → o = true) → step lossy None (mk b w o) (mk b w o')
| step_direct b w data bs o' : kept lossy data bs →
    step lossy (Some (Direct data)) (mk b w true) (mk (b ++ bs) w o')
| step_later b w data o' : step lossy (Some (Later data)) (mk b w true) (mk b (w ++ [data]) o')
| step_runs b w data bs o' : kept lossy data bs →
    step lossy None (mk b (data :: w) true) (mk (b ++ bs) w o')
| step_gives_up b w data : step lossy None (mk b (data :: w) false) (mk b w false).

Inductive steps (lossy : bool) : list call → t → t → Prop :=
| steps_nil s : steps lossy [] s s
| steps_cons k s1 s2 ks s3 : step lossy k s1 s2 → steps lossy ks s2 s3 → steps lossy (option_list k ++ ks) s1 s3.

Lemma step_open lossy k s s' : step lossy k s s' → open s' = true → open s = true.
Proof. by destruct 1. Qed.
Lemma steps_open lossy ks s s' : steps lossy ks s s' → open s' = true → open s = true.
Proof. induction 1 as [|k s1 s2 ks s3 Hs _ IH]; [done|]. intros Ho. by apply (step_open _ _ _ _ Hs), IH. Qed.

(** The sends that were handled, each with what went to the stream. *)
Definition handled (lossy : bool) (ks : list call) (s s' : t) (ds : list (call * list byte)) : Prop :=
  Forall (λ d, kept lossy (data_of d.1) d.2) ds ∧ bytes s' = bytes s ++ concat (snd <$> ds) ∧
  omap direct (fst <$> ds) = omap direct ks ∧
  omap later (fst <$> ds) ++ waiting s' = waiting s ++ omap later ks.

Lemma step_handled lossy k s s' :
  step lossy k s s' → open s' = true → ∃ ds, handled lossy (option_list k) s s' ds.
Proof.
  intros Hs Ho. destruct Hs as [b w o o' Hoo|b w data bs o' Hk|b w data o'|b w data bs o' Hk|b w data]; [| | | |done].
  - exists []. split; [constructor|]. simpl. by rewrite !app_nil_r.
  - exists [(Direct data, bs)]. split; [by constructor|]. simpl. by rewrite !app_nil_r.
  - exists []. split; [constructor|]. simpl. by rewrite !app_nil_r.
  - exists [(Later data, bs)]. split; [by constructor|]. simpl. by rewrite !app_nil_r.
Qed.

Lemma handled_trans lossy ks1 ks2 s1 s2 s3 ds1 ds2 :
  handled lossy ks1 s1 s2 ds1 → handled lossy ks2 s2 s3 ds2 → handled lossy (ks1 ++ ks2) s1 s3 (ds1 ++ ds2).
Proof.
  intros (F1 & B1 & D1 & L1) (F2 & B2 & D2 & L2). split; [by apply Forall_app|].
  rewrite !fmap_app, concat_app, !omap_app. split; [by rewrite B2, B1, <- app_assoc|]. split; [congruence|].
  by rewrite <- app_assoc, L2, app_assoc, L1, <- app_assoc.
Qed.

(** While the connection is open every send is handled or waits. *)
Lemma steps_handled lossy ks s s' : steps lossy ks s s' → open s' = true → ∃ ds, handled lossy ks s s' ds.
Proof.
  induction 1 as [s|k s1 s2 ks s3 Hs Hss IH]; intros Ho.
  - exists []. split; [constructor|]. simpl. by rewrite !app_nil_r.
  - destruct (IH Ho) as (ds2 & H2). destruct (step_handled _ _ _ _ Hs (steps_open _ _ _ _ Hss Ho)) as (ds1 & H1).
    exists (ds1 ++ ds2). by apply (handled_trans _ _ _ _ s2).
Qed.
End SendQueue.

#[export] Instance may_send_dec st : Decision (may_send st).
Proof. unfold may_send. apply _. Defined.

Section streams.
Context {K LS L C U : Type} `{!EqDecision L, !EqDecision U, !Kernel K, !KernelLaws K, !Loops K LS L, !LoopsLaws K LS L}
  `{!ConnLoops K LS L, !ConnViews K LS L, !ConnLoopsLaws K LS L}.
Abbreviation S := (System LS L C U).
Abbreviation Action := (action (K := K) (L := L) (U := U)).
Implicit Types (e : S) (x : ServerConn L U) (l m : L) (a : Action).
Abbreviation tasks l e := (pending l (loops_of e)).

(** ** The calls of a run *)

(** The call that the step makes on the connection at [c]. *)
Definition call_of (c : positive) a e : option SendQueue.call :=
  match a with
  | Send o d data =>
      if decide (d = c) then
        x ← objects e !! c; l ← getLoop x;
        if sending c e then
          Some (if loop_here l (run_as o (loops_of e)) then SendQueue.Direct data else SendQueue.Later data)
        else None
      else None
  | _ => None
  end.

(** A part of a run in which the object [c] is not destroyed, with the calls. *)
Inductive segment (c : positive) : S → list SendQueue.call → S → Prop :=
| segment_nil e : segment c e [] e
| segment_step a e e1 ks e2 : enabled a e → perform a e = Ok (tt, e1) → a ≠ Destroy c → segment c e1 ks e2 →
    segment c e (option_list (call_of c a e) ++ ks) e2.

(** The connection as the specification sees it. *)
Definition queue_view (l : L) e (c : positive) x : SendQueue.t :=
  SendQueue.mk (stream_of e x) (queued_sends l e c) (bool_decide (may_send (state_ (sc_conn x)))).

(** No [write] of the kernel tells that the connection is broken. *)
Definition reliable : Prop := ∀ fd data (k : K), broken (sys_write fd data k).1 = false.

Lemma whole_kept lossy fd data bs : (lossy = false → reliable) → sent_whole (K := K) fd data bs → SendQueue.kept lossy data bs.
Proof. intros Hl [->|[-> [k Hk]]]; [by left|right]. split; [done|]. destruct lossy; [done|]. by rewrite Hl in Hk. Qed.

Lemma sending_open e c x : objects e !! c = Some x →
  sending c e = true → bool_decide (may_send (state_ (sc_conn x))) = true.
Proof. unfold sending. intros -> Hs%bool_decide_eq_true. apply bool_decide_eq_true. by right. Qed.

(** What a step gives to the connection [c], in the terms of the specification. *)
Section one_step.
Variables (lossy : bool) (c : positive) (a : Action) (e e' : S) (x x' : ServerConn L U) (l : L) (g : option gift).
Hypothesis Hlossy : lossy = false → reliable.
Hypothesis Hok : system_ok None e.
Hypothesis Had : advanced a e e'.
Hypothesis Hx : objects e !! c = Some x.
Hypothesis Hl : getLoop x = Some l.
Hypothesis Hg : gift_of a e g.
Hypothesis Hf : flowed a g e e' c x x'.

Lemma quiet_step : streamed g c = [] → posted_by g c = [] → omap (queued_data c) (option_list (taking a l e)) = [] →
  SendQueue.step lossy None (queue_view l e c x) (queue_view l e' c x').
Proof.
  intros Hs Hp Ht. unfold queue_view. assert (Hq := fd_queued _ _ _ _ _ _ _ Hf l Hl). rewrite Hp, Ht, app_nil_r in Hq.
  rewrite (fd_stream _ _ _ _ _ _ _ Hf), Hs, app_nil_r, Hq. constructor.
  rewrite !bool_decide_eq_true. apply (fd_open _ _ _ _ _ _ _ Hf).
Qed.

Lemma send_call_step o data : a = Send o c data →
  SendQueue.step lossy (call_of c a e) (queue_view l e c x) (queue_view l e' c x').
Proof.
  intros Ha. assert (∀ m, taking a m e = None) as Ht by by rewrite Ha.
  assert (Hq := fd_queued _ _ _ _ _ _ _ Hf l Hl). rewrite Ht in Hq.
  assert (Hs := fd_stream _ _ _ _ _ _ _ Hf).
  unfold gift_of in Hg. rewrite Ha in Hg. destruct Hg as (y & m & Hy & Hm & Hgift).
  assert (y = x) as -> by congruence. assert (m = l) as -> by congruence.
  unfold call_of. rewrite Ha, decide_True, Hx by done. simpl. rewrite Hl. simpl.
  unfold send_gift in Hgift. change (sending c (in_thread o e)) with (sending c e) in Hgift.
  change (loops_of (in_thread o e)) with (run_as o (loops_of e)) in Hgift.
  destruct (sending c e) eqn:Esend.
  - unfold queue_view at 1. rewrite (sending_open e c x Hx Esend).
    destruct (loop_here l (run_as o (loops_of e))).
    + destruct Hgift as (bs & Eg & Hw). rewrite Eg in Hs, Hq. simpl in Hs, Hq. rewrite decide_True in Hs by done.
      rewrite app_nil_r in Hq. unfold queue_view. rewrite Hs, Hq. constructor. by apply (whole_kept _ _ _ _ Hlossy Hw).
    + rewrite Hgift in Hs, Hq. simpl in Hs, Hq. rewrite decide_True in Hq by done. rewrite app_nil_r in Hs.
      unfold queue_view. rewrite Hs, <- Hq. constructor.
  - apply quiet_step; [by rewrite Hgift..|by rewrite Ht].
Qed.

Lemma run_functor_gives m : a = RunTask m →
  SendQueue.step lossy None (queue_view l e c x) (queue_view l e' c x').
Proof.
  intros Ha. assert (Hgift := Hg). unfold gift_of in Hgift. rewrite Ha in Hgift.
  assert (∀ n, taking a n e = if decide (n = m) then taking a m e else None) as Htk.
  { intros n. rewrite Ha. unfold taking. repeat case_decide; congruence || done. }
  assert (∀ d f, taking a m e = Some (ConnTask d f) → ConnTask d f ∈ tasks m e) as Hin.
  { intros d f Ht. destruct (ad_tasks _ _ _ Had m) as (rest & ts & E & _). rewrite E, Ht. simpl. by left. }
  rewrite <- Ha in Hgift. destruct (taking a m e) as [[f|d f]|] eqn:Et; simpl in Hgift.
  - apply quiet_step; [by rewrite Hgift..|]. rewrite Htk. by case_decide.
  - destruct (decide (d = c)) as [->|Hd].
    2: { assert (streamed g c = [] ∧ posted_by g c = []) as [E1 E2].
         { destruct f as [|data| | |]; [by rewrite Hgift| |by rewrite Hgift..]. unfold data_gift in Hgift.
           destruct (sending d e); [|by rewrite Hgift]. destruct Hgift as (y & bs & _ & -> & _). simpl. by rewrite decide_False. }
         apply quiet_step; [done..|]. rewrite Htk. case_decide; [|done]. simpl. by rewrite decide_False. }
    assert (Hc := Hin c f eq_refl). apply list_elem_of_lookup in Hc as [i Hi].
    destruct (sk_tasks _ _ Hok m i c f Hi) as (y & Hy & Hym & _). assert (y = x) as -> by congruence.
    assert (m = l) as -> by congruence. assert (Hq := fd_queued _ _ _ _ _ _ _ Hf l Hl).
    assert (Hs := fd_stream _ _ _ _ _ _ _ Hf). rewrite Et in Hq. simpl in Hq. rewrite decide_True in Hq by done.
    destruct f as [|data| | |]; [by apply quiet_step; rewrite ?Hgift, ?Et; simpl; rewrite ?decide_True| |
      by apply quiet_step; rewrite ?Hgift, ?Et; simpl; rewrite ?decide_True..].
    simpl in Hq. unfold data_gift in Hgift. destruct (sending c e) eqn:Esend.
    + destruct Hgift as (y & bs & Hy' & Eg & Hw). rewrite Eg in Hq, Hs. simpl in Hq, Hs.
      rewrite decide_True in Hs by done. rewrite app_nil_r in Hq.
      unfold queue_view. rewrite Hq, Hs, (sending_open e c x Hx Esend). constructor. by apply (whole_kept _ _ _ _ Hlossy Hw).
    + rewrite Hgift in Hq, Hs. simpl in Hq, Hs. rewrite app_nil_r in Hq, Hs.
      assert (¬ may_send (state_ (sc_conn x))) as Hno.
      { intros [Hst|Hst].
        - by apply (pf_new _ _ _ _ (ob_phase _ _ _ _ (sk_objects _ _ Hok c x Hx)) Hst l (SendInLoop data)), Hin.
        - unfold sending in Esend. rewrite Hx in Esend. by apply bool_decide_eq_false in Esend. }
      unfold queue_view. rewrite Hq, Hs, (bool_decide_false _ Hno), bool_decide_false; [constructor|].
      by intros Hmay%(fd_open _ _ _ _ _ _ _ Hf).
  - apply quiet_step; [by rewrite Hgift..|]. rewrite Htk. by case_decide.
Qed.

Lemma step_refines : SendQueue.step lossy (call_of c a e) (queue_view l e c x) (queue_view l e' c x').
Proof.
  assert (∃ b, a = b) as [b Eb] by by eexists. assert (Hgift := Hg). rewrite Eb in Hgift.
  destruct b as [fd peer|m|d revents t|o d data|o d|o d u|d|k];
    try (rewrite Eb; apply quiet_step; [by simpl in Hgift; rewrite Hgift..|by rewrite Eb]).
  - assert (call_of c a e = None) as -> by by rewrite Eb. by apply (run_functor_gives m).
  - destruct (decide (d = c)) as [->|Hd]; [by apply (send_call_step o data)|].
    assert (call_of c a e = None) as -> by (rewrite Eb; unfold call_of; by rewrite decide_False).
    assert (streamed g c = [] ∧ posted_by g c = []) as [E1 E2]; [|by apply quiet_step; rewrite ?Eb].
    destruct Hgift as (y & m & _ & _ & Hgift). unfold send_gift in Hgift.
    destruct (sending d _); [|by rewrite Hgift]. destruct (loop_here _ _); [destruct Hgift as (bs & -> & _)|rewrite Hgift];
      simpl; by rewrite decide_False.
Qed.
End one_step.

Lemma run_step_refines lossy c a e e' x l :
  (lossy = false → reliable) → system_ok None e → enabled a e → perform a e = Ok (tt, e') → a ≠ Destroy c →
  objects e !! c = Some x → getLoop x = Some l →
  system_ok None e' ∧ ∃ x', objects e' !! c = Some x' ∧ getLoop x' = Some l ∧
    sockfd_ (sc_conn x') = sockfd_ (sc_conn x) ∧
    SendQueue.step lossy (call_of c a e) (queue_view l e c x) (queue_view l e' c x').
Proof.
  intros Hlossy Hok Hen E Hne Hx Hl. destruct (perform_runs a e Hok Hen) as (e1 & E1 & Had).
  assert (e1 = e') as -> by congruence. split; [apply Had|]. destruct (ad_flow _ _ _ Had) as (g & Hg & Hf).
  destruct (Hf c x Hne Hx) as (x' & Hfl). exists x'. split; [apply Hfl|].
  split; [rewrite (fd_loop _ _ _ _ _ _ _ Hfl); exact Hl|]. split; [apply Hfl|]. by apply (step_refines lossy c a e e' x x' l g).
Qed.

Lemma segment_refines lossy c e e' ks x l :
  (lossy = false → reliable) → system_ok None e → segment c e ks e' → objects e !! c = Some x → getLoop x = Some l →
  ∃ x', objects e' !! c = Some x' ∧ getLoop x' = Some l ∧ sockfd_ (sc_conn x') = sockfd_ (sc_conn x) ∧
    SendQueue.steps lossy ks (queue_view l e c x) (queue_view l e' c x').
Proof.
  intros Hlossy Hok Hseg. revert x Hok. induction Hseg as [e|a e e1 ks e2 Hen E Hne Hseg IH]; intros x Hok Hx Hl.
  { exists x. split; [done|]. split; [done|]. split; [done|]. constructor. }
  destruct (run_step_refines lossy c a e e1 x l Hlossy Hok Hen E Hne Hx Hl) as (Hok1 & x1 & Hx1 & Hl1 & Hfd1 & Hs1).
  destruct (IH x1 Hok1 Hx1 Hl1) as (x2 & Hx2 & Hl2 & Hfd2 & Hs2). exists x2.
  split; [done|]. split; [done|]. split; [congruence|]. by econstructor.
Qed.

(** C4: Each connection of the running server is a [SendQueue].  In every part of
    every run that does not end with the object's destruction - other connections
    accepted, used and destroyed, functors and events of all loops in any order,
    calls from any thread, the kernel taking what part of each [write] it likes -
    the object stays, in its loop and on its socket, and its stream (what its
    socket took, then its output buffer), the data that waits for it in its loop's
    queue, and whether it may still send go through steps of [SendQueue]: exactly
    those of the calls of [send] on it.  No other connection's bytes get into its
    stream, and nothing but its own functors takes from its queue. *)
Theorem server_streams lossy c e0 e e' ks x l :
  (lossy = false → reliable) → idle_system e0 → rtc run_step e0 e → segment c e ks e' →
  objects e !! c = Some x → getLoop x = Some l →
  ∃ x', objects e' !! c = Some x' ∧ getLoop x' = Some l ∧ sockfd_ (sc_conn x') = sockfd_ (sc_conn x) ∧
    SendQueue.steps lossy ks (queue_view l e c x) (queue_view l e' c x').
Proof. intros Hlossy H0 Hr. apply segment_refines; [done|]. by apply (run_ok e0). Qed.

(** C5: Every send arrives, in order.  In every part of every run at whose end the
    connection is still connected: what its socket took and what its output buffer
    holds is what it was before, followed by the data of the sends that were
    handled - each of them whole (or nothing of it, when the kernel said EPIPE or
    ECONNRESET), none twice.  The sends made in the thread of its loop are all
    handled, in their order; those of other threads are handled in their order,
    and the rest of them still waits in the queue of the loop, in order. *)
Theorem sends_in_order lossy c e0 e e' ks x x' l :
  (lossy = false → reliable) → idle_system e0 → rtc run_step e0 e → segment c e ks e' →
  objects e !! c = Some x → getLoop x = Some l → objects e' !! c = Some x' → state_ (sc_conn x') = kConnected →
  ∃ ds : list (SendQueue.call * list byte),
    Forall (λ d, SendQueue.kept lossy (SendQueue.data_of d.1) d.2) ds ∧
    stream_of e' x' = stream_of e x ++ concat (snd <$> ds) ∧
    omap SendQueue.direct (fst <$> ds) = omap SendQueue.direct ks ∧
    omap SendQueue.later (fst <$> ds) ++ queued_sends l e' c = queued_sends l e c ++ omap SendQueue.later ks.
Proof.
  intros Hlossy H0 Hr Hseg Hx Hl Hx' Hst.
  destruct (segment_refines lossy c e e' ks x l Hlossy (run_ok e0 e H0 Hr) Hseg Hx Hl) as (y & Hy & _ & _ & Hs).
  assert (y = x') as -> by congruence. apply (SendQueue.steps_handled _ _ _ _ Hs). simpl.
  apply bool_decide_eq_true. by right.
Qed.
End streams.

(** ** Witnesses *)

#[local] Existing Instances run_loops run_loops_laws run_conn_loops run_conn_views run_conn_loops_laws.

(** On the connection of the demo: a send of another thread, then one in the
    loop's thread, which overtakes it; then the loop runs the functor. *)
Definition demo_later := demo_perform (Send None 1 [Byte.x68; Byte.x69]) demo_established.
Definition demo_direct := demo_perform (Send (Some (Io 1)) 1 [Byte.x21]) demo_later.
Definition demo_both := demo_perform (RunTask (Io 1)) demo_direct.
Definition demo_calls : list SendQueue.call := [SendQueue.Later [Byte.x68; Byte.x69]; SendQueue.Direct [Byte.x21]].

Lemma demo_later_step : run_step demo_established demo_later ∧ system_ok None demo_later.
Proof. apply demo_step; [apply demo_established_step|]. by apply demo_can_send. Qed.
Lemma demo_direct_step : run_step demo_later demo_direct ∧ system_ok None demo_direct.
Proof. apply demo_step; [apply demo_later_step|]. by apply demo_can_send. Qed.
Lemma demo_both_enabled : enabled (RunTask (Io 1)) demo_direct.
Proof.
  split; [vm_compute; by eexists|].
  assert (head (pending (Io 1) (loops_of demo_direct)) = Some (ConnTask 1 (SendInLoop [Byte.x68; Byte.x69]))) as ->
    by (vm_compute; reflexivity).
  intros x Hx _. assert ((λ x, zlen (buffer_ (output_buffer_ (sc_conn x))) <=? 4096) <$> objects demo_direct !! 1%positive = Some true)
    as E by (vm_compute; reflexivity). rewrite Hx in E. simpl in E. injection E as E%Z.leb_le.
  unfold room_for, vector_max_size. change (zlen [Byte.x68; Byte.x69]) with 2. lia.
Qed.

Lemma demo_next c a (e e1 : DemoSystem) k ks e2 :
  call_of c a e = k → enabled a e → perform a e = Ok (tt, e1) → a ≠ Destroy c →
  segment c e1 ks e2 → segment c e (option_list k ++ ks) e2.
Proof. intros <- Hen E Hne Hs. by apply (segment_step c a e e1). Qed.
Lemma demo_segment : segment 1 demo_established demo_calls demo_both.
Proof.
  apply (demo_next 1 (Send None 1 [Byte.x68; Byte.x69]) demo_established demo_later
    (Some (SendQueue.Later [Byte.x68; Byte.x69])) [SendQueue.Direct [Byte.x21]] demo_both);
    [vm_compute; reflexivity|by apply demo_can_send|vm_compute; reflexivity|done|].
  apply (demo_next 1 (Send (Some (Io 1)) 1 [Byte.x21]) demo_later demo_direct
    (Some (SendQueue.Direct [Byte.x21])) [] demo_both);
    [vm_compute; reflexivity|by apply demo_can_send|vm_compute; reflexivity|done|].
  apply (demo_next 1 (RunTask (Io 1)) demo_direct demo_both None [] demo_both);
    [vm_compute; reflexivity|exact demo_both_enabled|vm_compute; reflexivity|done|].
  apply segment_nil.
Qed.

Lemma demo_run_established : rtc run_step demo_start demo_established.
Proof. eapply rtc_l; [apply demo_accepted_step|]. apply rtc_once, demo_established_step. Qed.

Lemma server_streams_witness : ∃ x x', objects demo_established !! 1%positive = Some x ∧
  objects demo_both !! 1%positive = Some x' ∧
  SendQueue.steps true demo_calls (queue_view (K := scripted) (Io 1) demo_established 1 x)
    (SendQueue.mk [Byte.x21; Byte.x68; Byte.x69] [] true).
Proof.
  destruct (objects demo_established !! 1%positive) as [x|] eqn:Hx; [|by vm_compute in Hx].
  assert (getLoop x = Some (Io 1)) as Hl by by (vm_compute in Hx; injection Hx as <-).
  destruct (server_streams (K := scripted) true 1 demo_start demo_established demo_both demo_calls x (Io 1)
    ltac:(done) demo_start_idle demo_run_established demo_segment Hx Hl) as (x' & Hx' & _ & _ & Hs).
  exists x, x'. split; [done|]. split; [done|].
  assert (SendQueue.mk [Byte.x21; Byte.x68; Byte.x69] [] true = queue_view (K := scripted) (Io 1) demo_both 1 x') as ->;
    [|exact Hs].
  vm_compute in Hx'. injection Hx' as <-. vm_compute. reflexivity.
Defined.

Lemma sends_in_order_witness : ∃ x x' (ds : list (SendQueue.call * list byte)),
  objects demo_established !! 1%positive = Some x ∧ objects demo_both !! 1%positive = Some x' ∧
  stream_of (K := scripted) demo_both x' = stream_of (K := scripted) demo_established x ++ concat (snd <$> ds) ∧
  omap SendQueue.direct (fst <$> ds) = [[Byte.x21]] ∧ omap SendQueue.later (fst <$> ds) = [[Byte.x68; Byte.x69]].
Proof.
  destruct (objects demo_established !! 1%positive) as [x|] eqn:Hx; [|by vm_compute in Hx].
  destruct (objects demo_both !! 1%positive) as [x'|] eqn:Hx'; [|by vm_compute in Hx'].
  assert (getLoop x = Some (Io 1)) as Hl by by (vm_compute in Hx; injection Hx as <-).
  assert (state_ (sc_conn x') = kConnected) as Hst by by (vm_compute in Hx'; injection Hx' as <-).
  destruct (sends_in_order (K := scripted) true 1 demo_start demo_established demo_both demo_calls x x' (Io 1)
    ltac:(done) demo_start_idle demo_run_established demo_segment Hx Hl Hx' Hst) as (ds & _ & Hs & Hd & Hq).
  exists x, x', ds. split; [done|]. split; [done|]. split; [done|]. split; [exact Hd|].
  assert (queued_sends (K := scripted) (Io 1) demo_both 1 = []) as E1 by (vm_compute; reflexivity).
  assert (queued_sends (K := scripted) (Io 1) demo_established 1 = []) as E2 by (vm_compute; reflexivity).
  rewrite E1, E2, app_nil_r in Hq. exact Hq.
Defined.
