(* ===== verification/Logger.v ===== *)
(** * Logger (Logger.h/.cc)

    The one instance of the logger, shared by all threads, and what the macros
    do with it.  [printf] formatting is done by the caller: [msg] is the
    formatted text.  [LOG_FATAL] ends the process, so the other files model it as
    the fault [FatalExit]; the other macros have no effect on the state they model
    and are left out there.  The threads are not synchronised: the second part
    interleaves the steps of several macro calls. *)

From S2P Require Import Prelude Text.

Inductive LogLevel : Type := INFO | ERROR | FATAL | DEBUG.

(** [std::cout] is what was written to it, piece by piece. *)
Record Logger : Type := mkLogger { log_level_ : LogLevel; cout : list string }.
#[export] Instance set_log_level_ : Setter log_level_ := λ f l, mkLogger (f (log_level_ l)) (cout l).
#[global] Arguments set_log_level_ _ !_ /.
#[export] Instance set_cout : Setter cout := λ f l, mkLogger (log_level_ l) (f (cout l)).
#[global] Arguments set_cout _ !_ /.

Definition setLogLevel (level : LogLevel) : M Logger unit := modify (λ l, l <| log_level_ := level |>).

Definition pre (level : LogLevel) : string :=
  match level with
  | INFO => "[INFO]" | ERROR => "[ERROR]" | FATAL => "[FATAL]" | DEBUG => "[DEBUG]"
  end.

(** [std::cout<<s] *)
Definition write_out (s : string) : M Logger unit := modify (λ l, l <| cout ::= λ o, o ++ [s] |>).
Definition newline : string := String.String (Ascii.ascii_of_nat 10) "".

(** [now] is [Timestamp::now().to_string()]. *)
Definition log (now msg : string) : M Logger unit :=
  l ← get;
  write_out (pre (log_level_ l) +:+ now)%string ;;
  write_out ":" ;;
  write_out msg ;;
  write_out newline.

(** The four macros. *)
Definition LOG (level : LogLevel) (now msg : string) : M Logger unit :=
  setLogLevel level ;;
  log now (snprintf 1024 msg) ;;
  match level with FATAL => throw FatalExit | _ => mret tt end.

(** ** One thread alone *)

(** The pieces of one line. *)
Definition line (level : LogLevel) (now msg : string) : list string :=
  [(pre level +:+ now)%string; ":"%string; snprintf 1024 msg; newline].

Lemma LOG_alone level now msg l :
  LOG level now msg l =
    match level with
    | FATAL => Fault FatalExit
    | _ => Ok (tt, mkLogger level (cout l ++ line level now msg))
    end.
Proof.
  unfold LOG, setLogLevel, log, write_out, modify, get. mcbn. destruct l. simpl.
  rewrite <- !app_assoc. by destruct level.
Qed.

(** ** Several threads

    The steps of a macro call that is not [LOG_FATAL], each atomic. *)

Inductive log_action : Type :=
| SetLevel (level : LogLevel)
| WritePrefix (now : string)        (* the switch, and the first << *)
| Write (s : string).

Definition do_action (a : log_action) : M Logger unit :=
  match a with
  | SetLevel level => setLogLevel level
  | WritePrefix now => l ← get; write_out (pre (log_level_ l) +:+ now)%string
  | Write s => write_out s
  end.

Definition actions (level : LogLevel) (now msg : string) : list log_action :=
  [SetLevel level; WritePrefix now; Write ":"; Write (snprintf 1024 msg); Write newline].

Lemma LOG_actions level now msg l :
  level ≠ FATAL → LOG level now msg l = for_each do_action (actions level now msg) l.
Proof. intros Hl. rewrite LOG_alone.
  destruct l, level; try done; cbn [for_each actions do_action];
    unfold setLogLevel, write_out, modify, get; mcbn; simpl; by rewrite <- !app_assoc.
Qed.

(** [interleave ps l]: a run of the programs [ps] in some order of their steps. *)
Inductive interleave : list (list log_action) → list log_action → Prop :=
| interleave_done ps : Forall (λ p, p = []) ps → interleave ps []
| interleave_step ps i a p l :
    ps !! i = Some (a :: p) → interleave (<[i := p]> ps) l → interleave ps (a :: l).

(** What a run writes; a prefix shows the level set last, by whichever thread. *)
Fixpoint written (level : LogLevel) (l : list log_action) : list string :=
  match l with
  | [] => []
  | SetLevel level :: l => written level l
  | WritePrefix now :: l => (pre level +:+ now)%string :: written level l
  | Write s :: l => s :: written level l
  end.

Lemma run_actions l lg :
  ∃ level, for_each do_action l lg = Ok (tt, mkLogger level (cout lg ++ written (log_level_ lg) l)).
Proof.
  revert lg. induction l as [|a l IH]; intros [level out]; [exists level; by rewrite app_nil_r|].
  destruct a as [level'|now|s].
  - destruct (IH (mkLogger level' out)) as (e & E). by exists e.
  - destruct (IH (mkLogger level (out ++ [(pre level +:+ now)%string]))) as (e & E). exists e.
    etrans; [exact E|]. simpl. by rewrite <- app_assoc.
  - destruct (IH (mkLogger level (out ++ [s]))) as (e & E). exists e. etrans; [exact E|]. simpl.
    by rewrite <- app_assoc.
Qed.

(** Two threads that log at the same time: one line gets the other's prefix.
    Between [setLogLevel] of the first and its [log] the second sets its level;
    every piece is still written exactly once. *)
Theorem prefix_of_another l1 l2 now m1 m2 lg :
  ∃ run lg', interleave [actions l1 now m1; actions l2 now m2] run ∧
    for_each do_action run lg = Ok (tt, lg') ∧ cout lg' = cout lg ++ line l2 now m1 ++ line l2 now m2.
Proof.
  exists ([SetLevel l1; SetLevel l2] ++ drop 1 (actions l1 now m1) ++ drop 1 (actions l2 now m2)).
  destruct (run_actions ([SetLevel l1; SetLevel l2] ++ drop 1 (actions l1 now m1) ++ drop 1 (actions l2 now m2)) lg)
    as (level & E). eexists. split; [|split; [exact E|done]].
  apply (interleave_step _ 0 _ (drop 1 (actions l1 now m1))); [done|].
  apply (interleave_step _ 1 _ (drop 1 (actions l2 now m2))); [done|].
  do 4 (eapply (interleave_step _ 0); [done|]). do 4 (eapply (interleave_step _ 1); [done|]).
  apply interleave_done. repeat constructor.
Qed.
